(* ===== verification/_CoqProject ===== *)
-Q . S2P
Prelude.v
LibQmail.v
Prioq.v
Filesys.v
Records.v
Tcpto.v
TcptoTheorems.v
Fmtqfn.v
Quote.v
SendState.v
SendQueue.v
SendDeliver.v
DeliverTheorems.v
SendBounce.v
BounceTheorems.v
SendPass.v
SendLoop.v
PassTheorems.v
SendBounds.v
SendInv.v
SendQueuesInv.v
SendSafety.v
SendSteps.v
SendEffects.v
SendHandlers.v
SendPassInv.v
SendReach.v
SendTheorems.v
TodoProc.v
TodoAddresses.v
TodoSplit.v
TodoTheorems.v
QmailClean.v
Spawn.v
SpawnTheorems.v
Control.v
QmailQueue.v
QueueSpec.v
QueueSteps.v
QueueTheorems.v
QueueHeaders.v
QueueTodo.v
QueueRun.v
Qmail.v
Rcpthosts.v
Qmtpd.v
Smtpd.v
SmtpdSession.v
SmtpdEnvelope.v
SessionPhases.v
SessionEnvelope.v
SessionDialogue.v
SessionTheorems.v
QmailRemote.v
RemoteMain.v
RemoteSpec.v
RemoteTheorems.v
SmtpdHeaders.v
SmtpdTheorems.v
SmtpdData.v
SessionQueued.v
QmtpdTheorems.v
RemoteLoop.v
RemoteRun.v
SmtpdAddress.v
QmtpTheorems.v
SessionRun.v
Greyd.v
GreydHeap.v
GreydTheorems.v
GreydRequests.v
Local.v
LocalMain.v
LocalMailbox.v
LocalMaildir.v
LocalLines.v
LocalRun.v
Users.v
UsersTheorems.v
UsersPasswd.v
