(* ===== verification/Prelude.v ===== *)
(** * A verification library for the indimail-mta mail system

    indimail-mta is a descendant of netqmail.  A message enters the queue through
    qmail-queue, which leaves it in mess and its envelope in todo.  todo-proc splits
    the envelope into the files info, local and remote, has qmail-clean remove it
    and announces the message to qmail-send.  qmail-send keeps the queue: it makes
    passes over the channel files, hands recipients to qmail-lspawn and qmail-rspawn
    (both spawn.c), marks those that are done, retries the others with growing
    intervals, and bounces what failed.  qmail-clean removes the files of finished
    messages.  smtpd and qmail-qmtpd take messages from the network to
    qmail-queue, qmail-remote takes them from the queue to other hosts, qmail-local to
    mailboxes and maildirs; to which user a local address belongs, qmail-lspawn finds
    in a database or by qmail-getpw.  qmail-greyd, which smtpd may ask, defers mail from
    strangers until they come again.  The development models these programs, how they speak to
    each other, and that together they do not lose mail.

    ** Files (all sources are under src/indimail-mta-x/)

    - [Prelude]: bytes, C strings, machine integers, the state monad and its weakest
      preconditions, list lemmas, tactics.
    - [LibQmail]: the interface to libqmail, a package of its own, as a class of
      operations with a class of laws; [reference_libqmail] satisfies them.
    - [Filesys]: directory entries, inodes, timestamps and the clock.  Each fallible
      call takes an entry of a list of faults, so that a theorem for every list is a
      theorem for every pattern of failures.
    - [Records]: files of zero-terminated records, and overwriting one byte of one.
    - [Prioq] (prioq.c), [Fmtqfn] (fmtqfn.c, fmt_xpid.c), [Quote] (quote.c).
    - qmail-send.c: [SendState] the static variables, the record [qsend];
      [SendQueue] the queues and the job table (pqadd .. job_close); [SendDeliver]
      deliveries (senderadd .. del_dochan); [SendBounce] control files and
      injectbounce; [SendPass] squareroot .. pass_do and messdone; [SendLoop]
      signals, todo_do, cleanup_do and the main loop.
    - its theorems: [DeliverTheorems], [BounceTheorems], [PassTheorems] on single
      operations; [SendBounds] array bounds; [SendInv] what an operation may change,
      [SendQueuesInv] the heap order, [SendSafety] the invariant of jobs, deliveries
      and files, [SendSteps], [SendEffects], [SendHandlers], [SendPassInv] that every
      handler keeps it; [SendReach] the step relation of the daemon with other
      processes in between, and that the main loop is made of such steps;
      [SendTheorems] what follows for every reachable state, and a run.
    - todo-proc.c: [TodoProc] the model; [TodoAddresses] the rewriting of
      recipients; [TodoSplit] rules for computations that may fail, and the invariant
      of the loop over an envelope; [TodoTheorems] what is handed over and announced.
    - [QmailClean] (qmail-clean.c): the model and its theorem.
    - spawn.c: [Spawn] the model, with the reports of qmail-lspawn.c and
      qmail-rspawn.c behind the class [SpawnReport]; [SpawnTheorems] how commands and
      reports cross between qmail-send and the spawn processes.
    - [Control] (control.c): control files, their lines and integers.
    - qmail-queue.c: [QmailQueue] the model; [QueueSpec] its [verdict] on a submission,
      which follows the program, and triples for its calls; [QueueSteps] each part of
      main against its part of the verdict; [QueueTheorems] the whole run;
      [QueueHeaders] header fields, and a specification of the whole, [promised], that
      does not follow the program, with the proof that the verdict is the same;
      [QueueTodo] the files it leaves as todo-proc reads them; [QueueRun] concrete runs.
    - [Tcpto] (tcpto.c) the table of unreachable hosts; [TcptoTheorems] against a
      finite map.
    - qmail-remote.c: [QmailRemote] one SMTP session and the report; [RemoteMain] QMTP
      and the loop over mail exchangers; [RemoteSpec] what a session is to come to, as
      a function of what the server sends; [RemoteTheorems] that it does;
      [RemoteLoop] when the loop ends; [RemoteRun] concrete sessions.
    - [Qmail] (qmail.c): talking to qmail-queue.
    - [Rcpthosts] (rcpthosts.c): the domains that are served.
    - smtpd.c: [Smtpd] the DATA command and the parser of addresses; [SmtpdHeaders] the
      counters for header fields; [SmtpdTheorems] the reader of messages against the
      writer of qmail-remote; [SmtpdData] the reply, with [QmailQueue] behind it;
      [SmtpdAddress] addresses against [Quote], and concrete messages.
    - the session of smtpd.c: [SmtpdSession] its state, the greetings and the small
      commands; [SmtpdEnvelope] MAIL, RCPT, the tables of commands and the loop.
      [SessionPhases] triples for a part of a command, and the checks of MAIL and RCPT,
      [SessionEnvelope] what these two come to, [SessionDialogue] what the others do,
      [SessionTheorems] the transaction as the client sees it and the effect of every
      command on it, [SessionQueued] from the dialogue to the queue; [SessionRun]
      concrete sessions.
    - qmail-qmtpd.c: [Qmtpd] the whole program; [QmtpdTheorems] what it
      does with a request, [QmtpTheorems] that a message of qmail-remote comes through
      it to the queue, and a message.
    - qmail-greyd.c and greylist.c: [Greyd] the daemon on a heap of records, and its client;
      [GreydHeap] linked lists and chains in the heap; [GreydTheorems] the list of entries
      that the memory stands for, and that a request is answered from it;
      [GreydRequests] datagrams, sequences of requests, what a client may rely on,
      and examples.
    - qmail-local.c: [Local] deliveries to mailboxes, maildirs (maildir_deliver.c) and
      programs; [LocalMain] the .qmail file, its lines and forwarding; [LocalMailbox]
      what a mailbox holds afterwards and how it is read; [LocalMaildir] what a maildir
      holds; [LocalLines] the loop over the bytes of the file against a function of its
      lines; [LocalRun] concrete deliveries.
    - users: [Users] qmail-newu.c, qmail-getpw.c, qmail-pw2u.c and the child that
      qmail-lspawn.c starts; [UsersTheorems] the meaning of users/assign;
      [UsersPasswd] that it can stand for the accounts, and examples.

    ** What is shown

    - Nothing is lost (C1, C8, C12, C21, C24, C26, C31, C33, C34): a recipient stays to
      do until its delivery is logged; a bounce stays until a message carries it; an envelope stays
      until the files made of it are complete; a submission is acknowledged only when
      message and envelope are in the queue, and todo-proc then publishes it; smtpd
      accepts a message only if it is in the queue, qmail-remote reports success
      only if the other host accepted all of it, which by QMTP means that it is in the
      queue of the other host (C38), and qmail-local only if the mailbox or
      maildir has all of it.  These hold for every pattern of
      failing calls and every point where a connection may break.
    - The processes understand each other (C14, C15, C16, C17, C19, C28,
      C32, C35, C38): what one writes, the other reads as meant; commands are answered
      once (C18).  From entry 32768 on of the delivery table they do not
      ([delnum_echo]).
    - A recipient is addressed as the manual says (C11): a specification of the percent
      hack as steps and of virtual domains as a list of candidates.
      A quarantine from the control file is a case where they do not: the message stays
      in todo ([quarantine_file_stuck]).
    - qmail-queue carries out the specification [promised] (C22), its one-pass loop over
      the lines of a message is a filter of header fields (C23), both for an envheaders
      without lengths ([length_limits_misread]), and a written control file is read
      back ([control_entries]).
    - State invariants (C2, C3, C7) of all reachable states of qmail-send, and where
      they fail: [raised_concurrency_overruns] is a run that leaves the delivery table
      after a SIGHUP.
    - Over the network a message and its addresses arrive as they were sent (C28, C32);
      header fields are counted by lines ([fields_counted]), the reply to DATA is
      known when the pipes to qmail-queue hold (C30), and the sender and the recipients that smtpd agreed
      to in a session are those that are queued (C31).
    - A host that may not relay cannot, whatever it sends (C29), as long as it uses none
      of AUTH, ETRN, ATRN and STARTTLS: nothing is known of their handlers here, and a
      certificate may let a client relay.  Where a session goes on with a sender that was refused: [SessionRun.refused_sender_kept].
    - Progress (C5, C6, C9, C13, C27): the retry schedule, no sleeping past due work,
      no bounce loops, that a sound message leaves todo, and that qmail-remote comes
      to an end; [RemoteLoop.loop_stands] is a case in which it does not.
    - A .qmail file means what its lines say (C36), although it is read and written as
      an array of bytes, when no label is a proper start of another
      ([start_of_label]), and the array of forwards is large enough ([forwards_fit]).
    - Greylisting: the memory of the daemon stands for a list of entries, from which it
      answers (C20); nobody is let through before the delay (C4), and who comes
      again in time is (C37).  All three are for new memory that is zero and before
      the first expiry: [GreydRun] has the runs in which the daemon crashes otherwise,
      and those in which it is stricter or laxer than its manual page.
    - Data structures (C10, C25); the names of queue files are distinct
      ([queue_names_distinct]).
    - The file users/assign means what its lines say (C39), and made of the accounts of
      the system it agrees with qmail-getpw (C40).

    ** Conventions and bounds

    Handlers are computations of a state monad on the record of their process; reading
    a descriptor, [select], the replies of other processes, the clock and failures
    are inputs, as lists or records, quantified over in the theorems.  Signals arrive
    between handlers (in [QmailQueue] before each call).  An access outside the delivery
    tables only sets the flag [ub] of [qsend], and the run goes on; [SendBounds] is about
    that flag.  Loops run on
    fuel that their input bounds: [getinfo_loop] and [todo_loop] take one unit per
    record and get more than the file has bytes, [sift_up] and [sift_down] more than
    the heap has elements, [squareroot_loop] 16 for 32-bit roots,
    [percent_loop] more than the address has bytes, [todo_run] more than the
    directory has entries; the loops of [QmailQueue] and [Control] more than their
    input has bytes, with addresses bounded by ADDR = 1003.  The loops of
    [QmailRemote] over a reply get as much as the server still sends, the loops of [Qmtpd] as much as the client sends or the lengths it
    gives, the loop of [Smtpd] twice the bytes the client sends and one more, since a line feed may be
    read twice; [commands] takes one for each command, and a dialogue has as many steps; those of [Local], [LocalMain] and [Users] the length of the message or
    of the file; a list in the heap of [Greyd] is followed for one record more than the heap
    has; [mx_loop] has no bound of its own, C27 is about it.  Memory
    allocation succeeds where the code retries until it does, except in [Spawn],
    where running short is an input.  Output through substdio is written at once, whole or
    not at all.

    ** Not modelled

    Header parsing (the tokenizer is in libqmail, whose source is not here), dot-forward, the variants slowq-send and qmta-send, filters,
    DNS, ucspi-tcp, daemontools and the administration tools.  Of smtpd.c AUTH, TLS, ETRN
    and ATRN, which are parameters of the loop, the library for virtual domains, BATV,
    the envelope rules, domainqueue, the plugins and checks of bodies that DATA runs, the
    call of greylist, CHECKRELAY and the log; of qmail-remote.c control files and routes, DANE, AUTH,
    SMTPUTF8, BATV and the scripts that may run at the end, and TLS is the result of
    [do_tls].  Of qmail-local.c envdir, filterit and SRS are their results, and the
    environment of programs, use_syncdir and the texts of errors are left out.
    Of qmail-greyd.c options, sockets, signals and the log.
    In [Users] one result of stat for each home directory stands for what qmail-pw2u and
    qmail-getpw find.  In qmail-lspawn.c the library for virtual domains, used when AUTHSELF is set.
    qmail_open is what it yields, and the end of its child an input.
    Of qmail-queue the copy for archives (set_archive), the POSIX message queue and
    the choice of the queue directory are left out.  The POSIX message queue mode of
    todo-proc, shared-memory statistics, and the text of log lines of qmail-send are
    left out as external or without effect on mail. *)

From Stdlib Require Export ZArith Lia.
From stdpp Require Export base tactics option gmap strings numbers.
From stdpp Require Export list.

#[export] Set Warnings "-clear-no-such-hyp".
#[global] Arguments Nat.div : simpl never.
#[global] Arguments Nat.modulo : simpl never.
#[global] Arguments Z.mul : simpl never.
#[global] Arguments Z.pow : simpl never.

(** ** Bytes, C strings and literals

    A byte is a [Z] between 0 and 255; a C buffer (a [stralloc], a char array)
    is the list of its bytes; a C string is a buffer without its terminating
    zero byte. *)

Abbreviation byte := Z (only parsing).
Abbreviation bytes := (list Z) (only parsing).

Definition is_byte (z : Z) : Prop := (0 ≤ z < 256)%Z.

Definition lit (s : string) : bytes :=
  map (λ a, Z.of_N (Ascii.N_of_ascii a)) (String.list_ascii_of_string s).

Declare Scope mta_scope.
Delimit Scope mta_scope with mta.
Notation "'c_lf'" := 10%Z (only parsing) : mta_scope.
Notation "'c_cr'" := 13%Z (only parsing) : mta_scope.
Notation "'c_space'" := 32%Z (only parsing) : mta_scope.
Notation "'c_dquote'" := 34%Z (only parsing) : mta_scope.
Notation "'c_plus'" := 43%Z (only parsing) : mta_scope.
Notation "'c_minus'" := 45%Z (only parsing) : mta_scope.
Notation "'c_dot'" := 46%Z (only parsing) : mta_scope.
Notation "'c_slash'" := 47%Z (only parsing) : mta_scope.
Notation "'c_zero'" := 48%Z (only parsing) : mta_scope.
Notation "'c_nine'" := 57%Z (only parsing) : mta_scope.
Notation "'c_colon'" := 58%Z (only parsing) : mta_scope.
Notation "'c_lt'" := 60%Z (only parsing) : mta_scope.
Notation "'c_gt'" := 62%Z (only parsing) : mta_scope.
Notation "'c_at'" := 64%Z (only parsing) : mta_scope.
Notation "'c_lbrack'" := 91%Z (only parsing) : mta_scope.
Notation "'c_backslash'" := 92%Z (only parsing) : mta_scope.
Notation "'c_rbrack'" := 93%Z (only parsing) : mta_scope.
#[global] Open Scope mta_scope.

(** The C string held by a buffer: its bytes before the first zero byte. *)
Fixpoint cstr (s : bytes) : bytes :=
  match s with
  | [] => []
  | c :: r => if decide (c = 0%Z) then [] else c :: cstr r
  end.

Lemma cstr_app a b : Forall (λ c, c ≠ 0%Z) a → cstr (a ++ 0%Z :: b) = a.
Proof. induction 1 as [|x a Hx Ha IH]; simpl; [done|]. by rewrite decide_False, IH. Qed.

Lemma cstr_no_zero s : 0%Z ∉ cstr s.
Proof. induction s as [|c s IH]; simpl; [set_solver|]. case_decide; set_solver. Qed.

(** Filters that keep all of a list, none of it, or what another keeps. *)
Lemma filter_all {A} (P : A → Prop) `{∀ x, Decision (P x)} l : Forall P l → filter P l = l.
Proof. induction 1; [done|]. rewrite filter_cons, decide_True by done. congruence. Qed.
Lemma filter_none {A} (P : A → Prop) `{∀ x, Decision (P x)} l : Forall (λ x, ¬ P x) l → filter P l = [].
Proof. induction 1; [done|]. by rewrite filter_cons, decide_False. Qed.
Lemma filter_iff_ext {A} (P Q : A → Prop) `{∀ x, Decision (P x), ∀ x, Decision (Q x)} l :
  Forall (λ x, P x ↔ Q x) l → filter P l = filter Q l.
Proof.
  induction 1 as [|x l Hx _ IH]; [done|]. rewrite !filter_cons, IH. case_decide; case_decide; naive_solver.
Qed.

(** The index of the first byte [c] of [s], the length of [s] if there is none. *)
Fixpoint index_of (c : Z) (s : bytes) : nat :=
  match s with
  | [] => 0
  | x :: r => if decide (x = c) then 0 else S (index_of c r)
  end.

(** The index of the last byte [c] of [s], the length of [s] if there is none. *)
Fixpoint rindex_of (c : Z) (s : bytes) : nat :=
  match s with
  | [] => 0
  | x :: r => if decide (c ∈ r) then S (rindex_of c r)
              else if decide (x = c) then 0 else S (length r)
  end.

(** ** Positions of characters *)

Lemma index_of_app c (a b : bytes) : c ∉ a → index_of c (a ++ c :: b) = length a.
Proof.
  induction a as [|x a IH]; simpl; intros Ha; [by rewrite decide_True|].
  apply not_elem_of_cons in Ha as [? Ha]. rewrite decide_False by done. by rewrite IH.
Qed.
Lemma index_of_none c (a : bytes) : c ∉ a → index_of c a = length a.
Proof.
  induction a as [|x a IH]; simpl; intros Ha; [done|].
  apply not_elem_of_cons in Ha as [? Ha]. rewrite decide_False by done. by rewrite IH.
Qed.
Lemma rindex_of_app c (a b : bytes) : c ∉ b → rindex_of c (a ++ c :: b) = length a.
Proof.
  intros Hb. induction a as [|x a IH]; simpl.
  - by rewrite decide_False, decide_True.
  - rewrite decide_True by set_solver. by rewrite IH.
Qed.
Lemma rindex_of_none c (a : bytes) : c ∉ a → rindex_of c a = length a.
Proof.
  induction a as [|x a IH]; simpl; intros Ha; [done|].
  apply not_elem_of_cons in Ha as [? Ha]. by rewrite !decide_False.
Qed.

Lemma rindex_split c (a : bytes) : c ∈ a →
  ∃ b d, a = b ++ c :: d ∧ (c ∉ d) ∧ rindex_of c a = length b.
Proof.
  intros (b & d & -> & Hd)%list_elem_of_split_r. exists b, d. by rewrite rindex_of_app.
Qed.
Lemma rindex_le c (a : bytes) : rindex_of c a ≤ length a.
Proof.
  destruct (decide (c ∈ a)) as [(b & d & -> & Hd & ->)%rindex_split|]; [rewrite length_app; lia|].
  by rewrite rindex_of_none.
Qed.
Lemma rindex_lookup c (a : bytes) : rindex_of c a ≠ length a → a !! rindex_of c a = Some c.
Proof.
  intros Ha. destruct (decide (c ∈ a)) as [(b & d & -> & Hd & ->)%rindex_split|Hn].
  - by rewrite lookup_app_r, Nat.sub_diag.
  - by rewrite rindex_of_none in Ha.
Qed.

(** ** Machine integers *)

Definition wrap (w z : Z) : Z := (z mod 2 ^ w)%Z.
Definition swrap (w z : Z) : Z :=
  let u := (z mod 2 ^ w)%Z in if decide (u < 2 ^ (w - 1))%Z then u else (u - 2 ^ w)%Z.
(** A [char] (signed, as on the supported platforms) read as an integer. *)
Definition schar (c : Z) : Z := swrap 8 c.

(** ** A state monad *)

Definition ST (S A : Type) : Type := S → A * S.

#[export] Instance ST_ret {S} : MRet (ST S) := λ A a s, (a, s).
#[export] Instance ST_bind {S} : MBind (ST S) :=
  λ A B k m s, let '(a, s') := m s in k a s'.

Definition getS {S} : ST S S := λ s, (s, s).
Definition gets {S A} (f : S → A) : ST S A := λ s, (f s, s).
Definition putS {S} (s : S) : ST S unit := λ _, (tt, s).
Definition modify {S} (f : S → S) : ST S unit := λ s, (tt, f s).
Definition skip {S} : ST S unit := mret tt.
Definition when {S} (c : bool) (m : ST S unit) : ST S unit := if c then m else skip.

(** Final state and value of a computation. *)
Definition run {S A} (m : ST S A) (s : S) : S := snd (m s).
Definition val {S A} (m : ST S A) (s : S) : A := fst (m s).

(** The weakest precondition of a computation. *)
Definition wp {S A} (m : ST S A) (Q : A → S → Prop) (s : S) : Prop :=
  Q (fst (m s)) (snd (m s)).

Section wp.
Context {S : Type}.

Lemma wp_ret {A} (a : A) (Q : A → S → Prop) s : Q a s → wp (mret a) Q s.
Proof. done. Qed.

Lemma wp_bind {A B} (m : ST S A) (k : A → ST S B) (Q : B → S → Prop) s :
  wp m (λ a, wp (k a) Q) s → wp (m ≫= k) Q s.
Proof. unfold wp, mbind, ST_bind. by destruct (m s). Qed.

Lemma wp_gets {A} (f : S → A) (Q : A → S → Prop) s : Q (f s) s → wp (gets f) Q s.
Proof. done. Qed.

Lemma wp_modify (f : S → S) (Q : unit → S → Prop) s :
  Q tt (f s) → wp (modify f) Q s.
Proof. done. Qed.

Lemma wp_when (c : bool) (m : ST S unit) (Q : unit → S → Prop) s :
  (c = true → wp m Q s) → (c = false → Q tt s) → wp (when c m) Q s.
Proof. destruct c; [naive_solver|]. intros _ H. by apply H. Qed.

Lemma wp_mono {A} (m : ST S A) (P Q : A → S → Prop) s :
  wp m P s → (∀ a s', P a s' → Q a s') → wp m Q s.
Proof. unfold wp. auto. Qed.

Lemma wp_any {A} (m : ST S A) (Q : A → S → Prop) s : (∀ a s', Q a s') → wp m Q s.
Proof. unfold wp. auto. Qed.

Lemma wp_run (m : ST S unit) (Q : S → Prop) s :
  wp m (λ _, Q) s ↔ Q (run m s).
Proof. done. Qed.
End wp.

(** ** A process that may end

    Its computations give a value, or the exit code of the process. *)

Definition ok {S A} (a : A) : ST S (Z + A) := mret (inr a).
Definition qbind {S A B} (m : ST S (Z + A)) (k : A → ST S (Z + B)) : ST S (Z + B) :=
  r ← m; match r with inl e => mret (inl e) | inr a => k a end.
Notation "x ←? m ; k" := (qbind m (λ x, k))
  (at level 20, m at level 100, k at level 200) : mta_scope.
Notation "m ;;? k" := (qbind m (λ _, k))
  (at level 100, k at level 200, right associativity) : mta_scope.

Lemma wp_qbind {S A B} (m : ST S (Z + A)) (k : A → ST S (Z + B)) (Q : Z + B → S → Prop) s :
  wp m (λ r s', match r with inl e => Q (inl e) s' | inr a => wp (k a) Q s' end) s →
  wp (qbind m k) Q s.
Proof. intros H. apply wp_bind. eapply wp_mono; [exact H|]. by intros [e|a] s'. Qed.

Lemma wp_qbind_assoc {S A B C} (m : ST S (Z + A)) (f : A → ST S (Z + B)) (k : B → ST S (Z + C))
    (Q : Z + C → S → Prop) s :
  wp (qbind m (λ a, qbind (f a) k)) Q s → wp (qbind (qbind m f) k) Q s.
Proof. unfold wp, qbind, mbind, ST_bind. destruct (m s) as [[e|a] s']; done. Qed.
Lemma wp_ok {S A} (a : A) (Q : Z + A → S → Prop) s : Q (inr a) s → wp (ok a) Q s.
Proof. done. Qed.

(** ** Arrays indexed by a finite type *)

Definition upd `{EqDecision K} {A} (f : K → A) (k : K) (a : A) : K → A :=
  λ k', if decide (k' = k) then a else f k'.

Section upd.
Context `{EqDecision K} {A : Type}.
Implicit Types (f : K → A) (k : K) (a : A).

Lemma upd_eq f k a : upd f k a k = a.
Proof. unfold upd. by rewrite decide_True. Qed.
Lemma upd_ne f k k' a : k' ≠ k → upd f k a k' = f k'.
Proof. intros. unfold upd. by rewrite decide_False. Qed.
Lemma upd_cases f k k' a :
  (k' = k ∧ upd f k a k' = a) ∨ (k' ≠ k ∧ upd f k a k' = f k').
Proof. unfold upd. case_decide; auto. Qed.
End upd.

(** ** Lists *)

Section lists.
Context {A : Type}.
Implicit Types l : list A.

Lemma delete_insert_same l i x : delete i (<[i:=x]> l) = delete i l.
Proof.
  revert i. induction l as [|y l IH]; intros [|i]; simpl; [done..|].
  f_equal. apply IH.
Qed.

Lemma insert_Permutation l i x :
  i < length l → <[i:=x]> l ≡ₚ x :: delete i l.
Proof.
  intros Hi. rewrite <- (delete_insert_same l i x).
  apply delete_Permutation, list_lookup_insert_eq, Hi.
Qed.

(** Copying the element of one hole into another moves the hole. *)
Lemma hole_move l i j x :
  i ≠ j → l !! i = Some x → j < length l →
  delete i (<[j:=x]> l) ≡ₚ delete j l.
Proof.
  intros Hij Hi Hj. apply (Permutation_cons_inv (a := x)).
  rewrite <- delete_Permutation by (by rewrite list_lookup_insert_ne).
  by apply insert_Permutation.
Qed.
End lists.

(** ** Automation *)

(** Split a [wp] goal along the structure of the computation. *)
Ltac wp_step :=
  lazymatch goal with
  | |- wp (mbind _ _) _ _ => apply wp_bind
  | |- wp (mret _) _ _ => apply wp_ret
  | |- wp (gets _) _ _ => apply wp_gets
  | |- wp (modify _) _ _ => apply wp_modify
  | |- wp (when _ _) _ _ => apply wp_when; intros
  | |- wp skip _ _ => apply wp_ret
  end.
Ltac wp_steps := repeat wp_step.

Ltac destruct_and_all :=
  repeat match goal with
  | H : _ ∧ _ |- _ => destruct H
  | H : ∃ _, _ |- _ => destruct H
  end.
