(* ===== verification/LibQmail.v ===== *)
(** * The interface to libqmail

    The string, formatting and scanning functions of libqmail (a package of its
    own, not part of this repository) that the modelled code calls, as a class
    of operations, and their documented behaviour as a class of laws.  Every
    client is proved against the laws; [reference_libqmail] is a concrete
    implementation that satisfies them, at which the witnesses evaluate.

    A [stralloc] is a byte list; its copy and append functions are list
    assignment and append, since every modelled caller either retries
    ([while (!stralloc_cats(..)) nomem(..)]) or gives up as a whole. *)

From S2P Require Import Prelude.

Class LibQmail := {
  str_len : bytes → nat;             (* length of a C string *)
  str_chr : bytes → Z → nat;         (* first occurrence in a C string *)
  str_rchr : bytes → Z → nat;        (* last occurrence in a C string *)
  byte_chr : bytes → Z → nat;        (* first occurrence in a buffer *)
  byte_rchr : bytes → Z → nat;       (* last occurrence in a buffer *)
  str_equal : bytes → bytes → bool;  (* equality of C strings *)
  fmt_ulong : Z → bytes;             (* decimal digits of an unsigned long *)
  scan_ulong : bytes → nat * Z       (* length and value of a decimal prefix *)
}.

(** ** Reference functions *)

Definition is_digit (c : Z) : bool := bool_decide (48 ≤ c ≤ 57)%Z.

Definition value_of (ds : bytes) : Z := foldl (λ v d, (v * 10 + (d - 48))%Z) 0%Z ds.

(** Twenty digits hold every value below [10 ^ 20], hence every 64-bit one. *)
Fixpoint decimal_aux (fuel : nat) (n : Z) : bytes :=
  match fuel with
  | 0 => []
  | S fuel =>
    if decide (n < 10)%Z then [(48 + n)%Z]
    else decimal_aux fuel (n / 10)%Z ++ [(48 + n mod 10)%Z]
  end.
Definition decimal (n : Z) : bytes := decimal_aux 20 n.

Fixpoint digit_prefix (s : bytes) : bytes :=
  match s with
  | c :: r => if is_digit c then c :: digit_prefix r else []
  | [] => []
  end.

Definition ulong (n : Z) : Prop := (0 ≤ n < 2 ^ 64)%Z.

(** ** Laws *)

Class LibQmailLaws (L : LibQmail) : Prop := {
  str_len_ok s : str_len s = length s;
  str_chr_ok s c : str_chr s c = index_of c s;
  str_rchr_ok s c : str_rchr s c = rindex_of c s;
  byte_chr_ok s c : byte_chr s c = index_of c s;
  byte_rchr_ok s c : byte_rchr s c = rindex_of c s;
  str_equal_ok s t : str_equal s t = true ↔ s = t;
  fmt_ulong_ok n : ulong n → fmt_ulong n = decimal n;
(** a decimal prefix whose value fits is read in full; no digit reads nothing *)
scan_ulong_ok s :
  ulong (value_of (digit_prefix s)) →
  scan_ulong s = (length (digit_prefix s), value_of (digit_prefix s))
}.

Definition reference_libqmail : LibQmail := {|
  str_len := length;
  str_chr s c := index_of c s;
  str_rchr s c := rindex_of c s;
  byte_chr s c := index_of c s;
  byte_rchr s c := rindex_of c s;
  str_equal s t := bool_decide (s = t);
  fmt_ulong := decimal;
  scan_ulong s := (length (digit_prefix s), value_of (digit_prefix s))
|}.

Lemma reference_laws : LibQmailLaws reference_libqmail.
Proof. split; simpl; intros; try done. apply bool_decide_eq_true. Qed.

(** ** Decimal numerals *)

Lemma value_of_snoc ds d : value_of (ds ++ [d]) = (value_of ds * 10 + (d - 48))%Z.
Proof. unfold value_of. by rewrite foldl_app. Qed.

Lemma value_of_decimal_aux fuel n :
  (0 ≤ n < 10 ^ Z.of_nat fuel)%Z → value_of (decimal_aux fuel n) = n.
Proof.
  revert n. induction fuel as [|fuel IH]; intros n Hn.
  { rewrite Z.pow_0_r in Hn. simpl. unfold value_of. simpl. lia. }
  cbn [decimal_aux]. case_decide; [unfold value_of; simpl; lia|].
  rewrite value_of_snoc, IH.
  { pose proof (Z.div_mod n 10). lia. }
  rewrite Nat2Z.inj_succ, Z.pow_succ_r in Hn by lia.
  split; [apply Z.div_pos; lia|]. apply Z.div_lt_upper_bound; lia.
Qed.

Lemma value_of_decimal n : ulong n → value_of (decimal n) = n.
Proof. intros [H1 H2]. apply value_of_decimal_aux. split; [done|]. simpl. lia. Qed.

Lemma decimal_aux_digits fuel n :
  (0 ≤ n)%Z → Forall (λ c, is_digit c = true) (decimal_aux fuel n).
Proof.
  revert n. induction fuel as [|fuel IH]; intros n Hn; cbn [decimal_aux]; [done|].
  unfold is_digit in *. case_decide.
  - repeat constructor. apply bool_decide_eq_true. lia.
  - apply Forall_app. split; [apply IH, Z.div_pos; lia|].
    repeat constructor. apply bool_decide_eq_true.
    pose proof (Z.mod_pos_bound n 10). lia.
Qed.

Lemma decimal_digits n : ulong n → Forall (λ c, is_digit c = true) (decimal n).
Proof. intros [H _]. by apply decimal_aux_digits. Qed.

Lemma decimal_not_nil n : decimal n ≠ [].
Proof.
  unfold decimal. cbn [decimal_aux]. case_decide; [done|].
  intros Hd. by apply app_eq_nil in Hd as [_ ?].
Qed.

Lemma decimal_length fuel n : length (decimal_aux fuel n) ≤ fuel.
Proof.
  revert n. induction fuel as [|fuel IH]; intros n; simpl; [lia|]. case_decide; simpl; [lia|].
  rewrite length_app. simpl. specialize (IH (n / 10)%Z). lia.
Qed.

Lemma digits_no_zero s : Forall (λ c, is_digit c = true) s → Forall (λ c, c ≠ 0%Z) s.
Proof. intros Hs. eapply Forall_impl; [exact Hs|]. by intros c Hc ->. Qed.

Lemma decimal_inj n m : ulong n → ulong m → decimal n = decimal m → n = m.
Proof.
  intros Hn Hm H. rewrite <- (value_of_decimal n Hn), <- (value_of_decimal m Hm). by f_equal.
Qed.

Lemma digit_prefix_all s r :
  Forall (λ c, is_digit c = true) s →
  (match r with [] => True | c :: _ => is_digit c = false end) →
  digit_prefix (s ++ r) = s.
Proof.
  intros Hs Hr. induction Hs as [|c s Hc Hs IH]; simpl.
  - destruct r; simpl; [done|]. by rewrite Hr.
  - by rewrite Hc, IH.
Qed.

Section laws.
Context {L : LibQmail} {LL : LibQmailLaws L}.

Lemma scan_fmt_ulong n r :
  ulong n → (match r with [] => True | c :: _ => is_digit c = false end) →
  scan_ulong (fmt_ulong n ++ r) = (length (fmt_ulong n), n).
Proof.
  intros Hn Hr. rewrite !fmt_ulong_ok by done.
  assert (Hp : digit_prefix (decimal n ++ r) = decimal n)
    by (apply digit_prefix_all; [by apply decimal_digits|done]).
  rewrite scan_ulong_ok, Hp, value_of_decimal by (rewrite ?Hp, ?value_of_decimal; done).
  done.
Qed.

Lemma fmt_ulong_inj n m : ulong n → ulong m → fmt_ulong n = fmt_ulong m → n = m.
Proof. intros Hn Hm. rewrite !fmt_ulong_ok by done. by apply decimal_inj. Qed.

Lemma fmt_no_zero n : ulong n → 0%Z ∉ fmt_ulong n.
Proof.
  intros Hn. rewrite fmt_ulong_ok by done. intros Hin.
  pose proof (digits_no_zero _ (decimal_digits n Hn)) as H. rewrite Forall_forall in H. by apply (H _ Hin).
Qed.
End laws.
