(* ===== verification/Prioq.v ===== *)
(** * The priority queue of [prioq.c]

    A binary heap in a growable array, ordered by the timestamp of its
    elements: smallest first after a [prioq_insert] with [min], largest first
    after one with [max].  The direction is remembered in the file's static
    variable [type], shared by every queue of the program; it is an explicit
    argument of [prioq_del] and a result of [prioq_insert] here. *)

From Stdlib Require Import Sorted.
From S2P Require Import Prelude.

Record prioq_elt := PE { dt : Z; pid : Z; delayed : Z }.
#[export] Instance prioq_elt_eq : EqDecision prioq_elt.
Proof. solve_decision. Defined.
#[export] Instance prioq_elt_inhabited : Inhabited prioq_elt := populate (PE 0 0 0).

Inductive prioq_type := Min | Max.
#[export] Instance prioq_type_eq : EqDecision prioq_type.
Proof. solve_decision. Defined.

Abbreviation prioq := (list prioq_elt) (only parsing).

(** [before t a b]: an element with timestamp [a] may stay above one with [b]. *)
Definition before (t : prioq_type) (a b : Z) : bool :=
  match t with
  | Min => bool_decide (a ≤ b)%Z
  | Max => bool_decide (b ≤ a)%Z
  end.

(** The loop of [prioq_insert]: [p] is the array with the new slot, [j] the hole. *)
Fixpoint sift_up (fuel : nat) (t : prioq_type) (p : prioq) (j : nat) (pe : prioq_elt) : prioq :=
  match fuel with
  | 0 => <[j := pe]> p
  | S fuel =>
    if decide (j = 0) then <[j := pe]> p
    else
      let i := (j - 1) / 2 in
      if before t (dt (p !!! i)) (dt pe) then <[j := pe]> p
      else sift_up fuel t (<[j := p !!! i]> p) i pe
  end.

(** [prioq_insert]: the result code, the value of [type] and the queue.
    [ready] is the outcome of growing the array. *)
Definition prioq_insert (ready : bool) (ty t : prioq_type) (pq : prioq) (pe : prioq_elt)
    : Z * prioq_type * prioq :=
  if ready then (1%Z, t, sift_up (S (length pq)) t (pq ++ [pe]) (length pq) pe)
  else (0%Z, ty, pq).

Definition prioq_get (pq : prioq) : option prioq_elt := head pq.

(** The loop of [prioq_del]: [n] is the index of the last element, which is
    to take the place of the hole [i]. *)
Fixpoint sift_down (fuel : nat) (t : prioq_type) (p : prioq) (i n : nat) : prioq :=
  match fuel with
  | 0 => <[i := p !!! n]> p
  | S fuel =>
    let j := i + i + 2 in
    if decide (n < j) then <[i := p !!! n]> p
    else
      let j := if before t (dt (p !!! (j - 1))) (dt (p !!! j)) then j - 1 else j in
      if before t (dt (p !!! n)) (dt (p !!! j)) then <[i := p !!! n]> p
      else sift_down fuel t (<[i := p !!! j]> p) j n
  end.

Definition prioq_del (ty : prioq_type) (pq : prioq) : prioq :=
  match length pq with
  | 0 => pq
  | S n => take n (sift_down (S n) ty pq 0 n)
  end.

(** The loop that the comment of [prioq_insert] gives for reading a queue in
    order. *)
Fixpoint drain (fuel : nat) (ty : prioq_type) (pq : prioq) : list prioq_elt :=
  match fuel with
  | 0 => []
  | S fuel =>
    match prioq_get pq with
    | None => []
    | Some pe => pe :: drain fuel ty (prioq_del ty pq)
    end
  end.

(** ** Invariant *)

Definition above (t : prioq_type) (a b : prioq_elt) : Prop := before t (dt a) (dt b) = true.

Definition heap (t : prioq_type) (pq : prioq) : Prop :=
  ∀ i, 0 < i < length pq → above t (pq !!! ((i - 1) / 2)) (pq !!! i).

#[export] Instance above_refl t : Reflexive (above t).
Proof. intros a. unfold above, before. destruct t; apply bool_decide_eq_true; lia. Qed.
#[export] Instance above_trans t : Transitive (above t).
Proof.
  intros a b c. unfold above, before.
  destruct t; rewrite !bool_decide_eq_true; lia.
Qed.
Lemma above_total t a b : above t a b ∨ above t b a.
Proof. unfold above, before. destruct t; rewrite !bool_decide_eq_true; lia. Qed.
Lemma not_above t a b : before t (dt a) (dt b) = false → above t b a.
Proof.
  intros H. destruct (above_total t a b) as [Ha|]; [|done].
  unfold above in Ha. congruence.
Qed.

(** ** Insertion *)

Definition parent (i : nat) : nat := (i - 1) / 2.
Lemma parent_lt i : 0 < i → parent i < i.
Proof. intros. unfold parent. apply Nat.Div0.div_lt_upper_bound; lia. Qed.
Lemma parent_child i j : 0 < i → parent i = j ↔ i = j + j + 1 ∨ i = j + j + 2.
Proof.
  intros Hi. unfold parent. pose proof (Nat.div_mod_eq (i - 1) 2).
  pose proof (Nat.mod_upper_bound (i - 1) 2). lia.
Qed.
Hint Resolve parent_lt : core.

(** The heap order everywhere but at the hole [j], into which [pe] is to go. *)
Record hole_up t (p : prioq) (j : nat) (pe : prioq_elt) : Prop := {
  hu_range : j < length p;
  hu_other : ∀ i, 0 < i < length p → i ≠ j → parent i ≠ j →
    above t (p !!! parent i) (p !!! i);
  hu_child : ∀ i, 0 < i < length p → parent i = j → above t pe (p !!! i);
  hu_grand : ∀ i, 0 < i < length p → parent i = j → 0 < j →
    above t (p !!! parent j) (p !!! i)
}.

Lemma total_insert_eq (p : prioq) i x : i < length p → <[i := x]> p !!! i = x.
Proof. apply list_lookup_total_insert_eq. Qed.
Lemma total_insert_ne (p : prioq) i j x : i ≠ j → <[i := x]> p !!! j = p !!! j.
Proof. apply list_lookup_total_insert_ne. Qed.

Lemma hole_up_done t p j pe :
  hole_up t p j pe → (j = 0 ∨ above t (p !!! parent j) pe) → heap t (<[j := pe]> p).
Proof.
  intros [Hr Ho Hc _] Hj i Hi. rewrite length_insert in Hi. fold (parent i).
  pose proof (parent_lt i). destruct (decide (i = j)) as [->|Hij].
  - rewrite total_insert_eq, total_insert_ne by lia. by destruct Hj as [->|]; [lia|].
  - rewrite (total_insert_ne _ _ i) by done.
    destruct (decide (parent i = j)) as [Hp|Hp].
    + rewrite Hp, total_insert_eq by lia. auto.
    + rewrite total_insert_ne by done. auto.
Qed.

Lemma hole_up_step t p j pe :
  hole_up t p j pe → 0 < j → above t pe (p !!! parent j) →
  hole_up t (<[j := p !!! parent j]> p) (parent j) pe.
Proof.
  intros [Hr Ho Hc Hg] Hj Hab. pose proof (parent_lt j Hj).
  split; rewrite ?length_insert; [lia| | |].
  - intros i Hi Hi1 Hi2. assert (i ≠ j) by congruence.
    rewrite (total_insert_ne _ _ i) by done.
    destruct (decide (parent i = j)) as [Hp|Hp].
    + rewrite Hp, total_insert_eq by done. auto.
    + rewrite total_insert_ne by done. auto.
  - intros i Hi Hp. destruct (decide (i = j)) as [->|].
    + by rewrite total_insert_eq.
    + rewrite total_insert_ne by done. etrans; [done|]. rewrite <- Hp.
      apply Ho; [lia|done|congruence || lia].
  - intros i Hi Hp Hpos. pose proof (parent_lt (parent j) Hpos).
    rewrite (total_insert_ne _ _ (parent (parent j))) by lia.
    assert (above t (p !!! parent (parent j)) (p !!! parent j)) by (apply Ho; lia).
    destruct (decide (i = j)) as [->|].
    + by rewrite total_insert_eq.
    + rewrite total_insert_ne by done. etrans; [done|]. rewrite <- Hp.
      apply Ho; [lia|done|congruence || lia].
Qed.

Lemma sift_up_heap fuel t p j pe :
  j < fuel → hole_up t p j pe → heap t (sift_up fuel t p j pe).
Proof.
  revert p j. induction fuel as [|fuel IH]; intros p j Hf Hh; [lia|]. simpl.
  case_decide; [apply hole_up_done; auto|]. fold (parent j).
  destruct (before _ _ _) eqn:E; [apply hole_up_done; auto|].
  pose proof (parent_lt j ltac:(lia)). apply IH; [lia|].
  apply hole_up_step; [done|lia|by apply not_above].
Qed.

Lemma sift_up_Permutation fuel t p j pe :
  j < length p → sift_up fuel t p j pe ≡ₚ pe :: delete j p.
Proof.
  revert p j. induction fuel as [|fuel IH]; intros p j Hj; simpl.
  { by apply insert_Permutation. }
  case_decide; [by apply insert_Permutation|]. fold (parent j).
  destruct (before _ _ _); [by apply insert_Permutation|].
  pose proof (parent_lt j ltac:(lia)). rewrite IH by (rewrite length_insert; lia).
  f_equiv. apply hole_move; [lia| |done].
  apply list_lookup_lookup_total_lt. lia.
Qed.

Lemma hole_up_new t pq pe : heap t pq → hole_up t (pq ++ [pe]) (length pq) pe.
Proof.
  intros Hh. assert (Hlen : length (pq ++ [pe]) = S (length pq)).
  { rewrite length_app. simpl. lia. }
  split; rewrite Hlen; [lia| | |].
  - intros i Hi Hi1 Hi2. pose proof (parent_lt i ltac:(lia)).
    rewrite !lookup_total_app_l by lia. apply Hh. lia.
  - intros i Hi Hp. pose proof (parent_lt i ltac:(lia)). lia.
  - intros i Hi Hp. pose proof (parent_lt i ltac:(lia)). lia.
Qed.

Lemma insert_heap ty t pq pe :
  heap t pq → heap t (prioq_insert true ty t pq pe).2.
Proof. intros Hh. apply sift_up_heap; [lia|]. by apply hole_up_new. Qed.

Lemma insert_Permutation' ty t pq pe :
  (prioq_insert true ty t pq pe).2 ≡ₚ pe :: pq.
Proof.
  cbn [prioq_insert snd]. rewrite sift_up_Permutation by (rewrite length_app; simpl; lia).
  by rewrite delete_middle, app_nil_r.
Qed.

(** ** Removal *)

(** The heap order of the first [n] elements everywhere but at the hole [i],
    which the last element, at [n], is to fill. *)
Record hole_down t (p : prioq) (i n : nat) : Prop := {
  hd_range : i < n;
  hd_len : length p = S n;
  hd_other : ∀ k, 0 < k < n → k ≠ i → parent k ≠ i →
    above t (p !!! parent k) (p !!! k);
  hd_last : 0 < i → above t (p !!! parent i) (p !!! n);
  hd_grand : ∀ k, 0 < k < n → parent k = i → 0 < i →
    above t (p !!! parent i) (p !!! k)
}.

(** The heap order of the first [n] elements. *)
Definition heap_upto t (p : prioq) (n : nat) : Prop :=
  ∀ i, 0 < i < n → above t (p !!! parent i) (p !!! i).

(** The child that [prioq_del] compares with the last element. *)
Definition child t (p : prioq) (i : nat) : nat :=
  if before t (dt (p !!! (i + i + 2 - 1))) (dt (p !!! (i + i + 2)))
  then i + i + 2 - 1 else i + i + 2.

Lemma child_above t p i k : 0 < k → parent k = i → above t (p !!! child t p i) (p !!! k).
Proof.
  intros Hk Hp. apply parent_child in Hp; [|done]. unfold child.
  replace (i + i + 2 - 1) with (i + i + 1) by lia.
  destruct (before _ _ _) eqn:E; destruct Hp as [-> | ->]; try done.
  by apply not_above.
Qed.
Lemma child_parent t p i : 0 < child t p i ∧ parent (child t p i) = i ∧ i < child t p i.
Proof.
  assert (0 < child t p i) by (unfold child; case_match; lia).
  split_and!; [done| |unfold child; case_match; lia].
  apply parent_child; [done|]. unfold child. case_match; lia.
Qed.

Lemma hole_down_done t p i n :
  hole_down t p i n →
  (∀ k, 0 < k < n → parent k = i → above t (p !!! n) (p !!! k)) →
  heap_upto t (<[i := p !!! n]> p) n.
Proof.
  intros [Hr Hl Ho Hla _] Hc k Hk. pose proof (parent_lt k ltac:(lia)).
  destruct (decide (k = i)) as [->|Hki].
  - rewrite total_insert_eq, total_insert_ne by lia. apply Hla. lia.
  - rewrite (total_insert_ne _ _ k) by done.
    destruct (decide (parent k = i)) as [Hp|Hp].
    + rewrite Hp, total_insert_eq by lia. auto.
    + rewrite total_insert_ne by done. auto.
Qed.

Lemma hole_down_step t p i n j :
  hole_down t p i n → j = child t p i → j < n → above t (p !!! j) (p !!! n) →
  hole_down t (<[i := p !!! j]> p) j n.
Proof.
  intros [Hr Hl Ho Hla Hg] -> Hjn Hab. set (j := child t p i) in *.
  destruct (child_parent t p i) as (Hj0 & Hpj & Hij). fold j in Hj0, Hpj, Hij.
  split; rewrite ?length_insert; [done|done| | |].
  - intros k Hk Hkj Hpk. pose proof (parent_lt k ltac:(lia)).
    destruct (decide (k = i)) as [->|Hki].
    + rewrite total_insert_eq, total_insert_ne by lia. apply Hg; lia.
    + rewrite (total_insert_ne _ _ k) by done.
      destruct (decide (parent k = i)) as [Hp|Hp].
      * rewrite Hp, total_insert_eq by lia. apply child_above; [lia|done].
      * rewrite total_insert_ne by done. auto.
  - intros _. by rewrite Hpj, total_insert_eq, total_insert_ne by lia.
  - intros k Hk Hpk _. pose proof (parent_lt k ltac:(lia)).
    rewrite Hpj, total_insert_eq, total_insert_ne by lia. rewrite <- Hpk.
    apply Ho; [done|lia|lia].
Qed.

Lemma sift_down_spec fuel t p i n :
  n - i < fuel → hole_down t p i n →
  heap_upto t (sift_down fuel t p i n) n ∧
  sift_down fuel t p i n !!! n = p !!! n ∧
  sift_down fuel t p i n ≡ₚ p !!! n :: delete i p.
Proof.
  revert p i. induction fuel as [|fuel IH]; intros p i Hf Hh; [lia|].
  pose proof (hd_range _ _ _ _ Hh) as Hr. pose proof (hd_len _ _ _ _ Hh) as Hl.
  assert (Hstop : <[i:=p !!! n]> p !!! n = p !!! n ∧ <[i:=p !!! n]> p ≡ₚ p !!! n :: delete i p).
  { split; [apply total_insert_ne; lia|apply insert_Permutation; lia]. }
  cbn [sift_down]. case_decide as Hn.
  { split; [apply hole_down_done; [done|]|done].
    intros k Hk Hp. apply parent_child in Hp; lia. }
  fold (child t p i). destruct (child_parent t p i) as (Hj0 & Hpj & Hij).
  destruct (before _ _ _) eqn:E.
  { split; [apply hole_down_done; [done|]|done].
    intros k Hk Hp. etrans; [exact E|]. apply child_above; [lia|done]. }
  assert (Hjn : child t p i < n).
  { enough (child t p i ≠ n) by (unfold child in *; case_match; lia).
    intros Heq. rewrite Heq in E. pose proof (above_refl t (p !!! n)) as R.
    unfold above in R. congruence. }
  apply not_above in E. edestruct IH as (H1 & H2 & H3); [|by eapply hole_down_step|].
  { lia. }
  split; [done|]. rewrite H2, H3, total_insert_ne by lia. split; [done|].
  f_equiv. apply hole_move; [lia| |lia]. apply list_lookup_lookup_total_lt. lia.
Qed.

Lemma hole_down_root t pq n : heap t pq → length pq = S n → 0 < n → hole_down t pq 0 n.
Proof.
  intros Hh Hl Hn. split; [done|done| |lia|lia].
  intros k Hk _ _. apply Hh. lia.
Qed.

Lemma del_spec t pq pe :
  heap t pq → prioq_get pq = Some pe →
  heap t (prioq_del t pq) ∧ pq ≡ₚ pe :: prioq_del t pq.
Proof.
  intros Hh Hg. destruct pq as [|x pq]; [done|]. injection Hg as ->.
  set (p := pe :: pq) in *. destruct pq as [|y pq'].
  { split; [intros i Hi; simpl in Hi; lia|done]. }
  unfold prioq_del. replace (length p) with (S (S (length pq'))) by done.
  set (n := S (length pq')).
  destruct (sift_down_spec (S n) t p 0 n) as (H1 & H2 & H3);
    [lia|apply hole_down_root; [done|done|lia]|].
  set (r := sift_down (S n) t p 0 n) in *.
  assert (Hlen : length r = S n) by (rewrite H3; done).
  split.
  - intros i Hi. rewrite length_take in Hi. pose proof (parent_lt i ltac:(lia)).
    fold (parent i). rewrite !lookup_total_take_lt by lia. apply H1. lia.
  - apply (Permutation_cons_inv (a := p !!! n)).
    transitivity (pe :: r); [rewrite H3; simpl; apply Permutation_swap|].
    rewrite <- (take_drop n r) at 1.
    assert (drop n r = [p !!! n]) as ->.
    { rewrite <- H2. apply list_eq_same_length with 1; [done|rewrite length_drop; lia|].
      intros i a b Hi Ha Hb. rewrite lookup_drop in Ha.
      destruct i; [|lia]. rewrite Nat.add_0_r in Ha. simpl in Hb. injection Hb as <-.
      symmetry. by apply list_lookup_total_correct. }
    rewrite (Permutation_app_comm _ [p !!! n]). simpl. apply Permutation_swap.
Qed.

(** ** The queue as a whole *)

Lemma heap_root t pq i : heap t pq → i < length pq → above t (pq !!! 0) (pq !!! i).
Proof.
  intros Hh. induction (lt_wf i) as [i _ IH]. intros Hi.
  destruct (decide (i = 0)) as [->|]; [done|].
  pose proof (parent_lt i ltac:(lia)). etrans; [apply (IH (parent i)); lia|].
  apply Hh. lia.
Qed.

Lemma get_above t pq pe x : heap t pq → prioq_get pq = Some pe → x ∈ pq → above t pe x.
Proof.
  intros Hh Hg [i Hi]%list_elem_of_lookup. destruct pq as [|y pq]; [done|].
  injection Hg as ->. pose proof (heap_root t (pe :: pq) i Hh (lookup_lt_Some _ _ _ Hi)) as H.
  by rewrite (list_lookup_total_correct _ _ _ Hi) in H.
Qed.

Lemma heap_nil t : heap t [].
Proof. intros i Hi. simpl in Hi. lia. Qed.

Lemma get_None pq : prioq_get pq = None ↔ pq = [].
Proof. by destruct pq. Qed.

Lemma del_length t pq : length (prioq_del t pq) ≤ length pq - 1.
Proof.
  unfold prioq_del. destruct (length pq) eqn:E; [lia|]. rewrite length_take. lia.
Qed.

Lemma drain_spec fuel t pq :
  heap t pq → length pq ≤ fuel →
  drain fuel t pq ≡ₚ pq ∧ StronglySorted (above t) (drain fuel t pq).
Proof.
  revert pq. induction fuel as [|fuel IH]; intros pq Hh Hf; simpl.
  { destruct pq; simpl in *; [split; [done|constructor]|lia]. }
  destruct (prioq_get pq) as [pe|] eqn:Hg.
  2:{ apply get_None in Hg as ->. split; [done|constructor]. }
  destruct (del_spec t pq pe Hh Hg) as [Hh' HP].
  destruct (IH (prioq_del t pq)) as [IHp IHs]; [done|pose proof (del_length t pq); lia|].
  split; [by rewrite IHp|]. constructor; [done|].
  apply Forall_forall. intros x Hx. apply (get_above t pq pe x Hh Hg).
  rewrite IHp in Hx. rewrite HP. by right.
Qed.

(** [prioq_insert] for each element of a list in turn. *)
Definition insert_all (t : prioq_type) (l : list prioq_elt) : prioq :=
  foldl (λ pq pe, (prioq_insert true t t pq pe).2) [] l.

(** C10. The sorting loop of the comment of [prioq_insert]: whatever is inserted,
    in either direction, is read back once each and in order. *)
Theorem drain_sorts t l :
  drain (length l) t (insert_all t l) ≡ₚ l ∧
  StronglySorted (above t) (drain (length l) t (insert_all t l)).
Proof.
  assert (H : ∀ q, heap t q →
    heap t (foldl (λ pq pe, (prioq_insert true t t pq pe).2) q l) ∧
    foldl (λ pq pe, (prioq_insert true t t pq pe).2) q l ≡ₚ l ++ q).
  { induction l as [|pe l IH]; intros q Hq; [done|]. cbn [foldl].
    destruct (IH _ (insert_heap t t q pe Hq)) as [H1 H2]. split; [done|].
    rewrite H2, insert_Permutation'. simpl. by rewrite <- Permutation_middle. }
  destruct (H [] (heap_nil t)) as [H1 H2]. fold (insert_all t l) in H1, H2.
  rewrite app_nil_r in H2. destruct (drain_spec (length l) t (insert_all t l) H1) as [H3 H4].
  - by rewrite H2.
  - split; [by rewrite H3|done].
Qed.
