(* ===== verification/Filesys.v ===== *)
(** * The file system and the clock

    The system calls the daemons make on the queue directory: directory entries
    naming inodes (so that [link], [unlink] and open descriptors behave as in
    POSIX), contents, timestamps, and the time of day.  libqmail's [open_read],
    [open_write], [open_append] and [open_excl] are the [open(2)] calls their
    names say.  Access times are data the environment sets; they are only read.

    Failures are an explicit input: each fallible call consumes one entry of
    [faults], and fails with an error other than [error_noent] when that entry
    is [true].  Statements that hold for every [faults] hold for every pattern
    of failing system calls.  Likewise [drift] lists how far the clock moves
    before each reading. *)

From S2P Require Import Prelude.

Record inode := Inode { i_data : bytes; i_mtime : Z; i_atime : Z }.

Record world := World {
  names : gmap bytes nat;
  inodes : gmap nat inode;
  next_ino : nat;
  faults : list bool;
  clock : Z;
  drift : list Z
}.

Inductive errno := ENOENT | EEXIST | EOTHER.
#[export] Instance errno_eq : EqDecision errno.
Proof. solve_decision. Defined.

Definition set_names n w := World n (inodes w) (next_ino w) (faults w) (clock w) (drift w).
Definition set_inodes i w := World (names w) i (next_ino w) (faults w) (clock w) (drift w).
Definition set_next k w := World (names w) (inodes w) k (faults w) (clock w) (drift w).
Definition set_faults f w := World (names w) (inodes w) (next_ino w) f (clock w) (drift w).
Definition set_clock c w := World (names w) (inodes w) (next_ino w) (faults w) c (drift w).
Definition set_drift d w := World (names w) (inodes w) (next_ino w) (faults w) (clock w) d.

Definition fault : ST world bool := λ w,
  match faults w with
  | [] => (false, w)
  | b :: r => (b, set_faults r w)
  end.

Definition now : ST world Z := λ w,
  match drift w with
  | [] => (clock w, w)
  | d :: r => ((clock w + d)%Z, set_clock (clock w + d)%Z (set_drift r w))
  end.

(** A call that fails with [EOTHER] when a fault is due, and otherwise does [m]. *)
Definition syscall {A} (m : ST world (errno + A)) : ST world (errno + A) :=
  bad ← fault; if bad : bool then mret (inl EOTHER) else m.

Definition lookup_name (p : bytes) : ST world (errno + nat) :=
  w ← getS; mret (match names w !! p with Some i => inr i | None => inl ENOENT end).

Definition read_inode (i : nat) : ST world inode :=
  w ← getS; mret (default (Inode [] 0 0) (inodes w !! i)).

Definition stat (p : bytes) : ST world (errno + inode) :=
  syscall (r ← lookup_name p;
           match r with
           | inl e => mret (inl e)
           | inr i => n ← read_inode i; mret (inr n)
           end).

Definition fstat (i : nat) : ST world (errno + inode) :=
  syscall (n ← read_inode i; mret (inr n)).

Definition unlink (p : bytes) : ST world (errno + unit) :=
  syscall (r ← lookup_name p;
           match r with
           | inl e => mret (inl e)
           | inr i => _ ← modify (λ w, set_names (delete p (names w)) w); mret (inr tt)
           end).

Definition link (p q : bytes) : ST world (errno + unit) :=
  syscall (r ← lookup_name p;
           match r with
           | inl e => mret (inl e)
           | inr i =>
             r' ← lookup_name q;
             match r' with
             | inr _ => mret (inl EEXIST)
             | inl _ => _ ← modify (λ w, set_names (<[q := i]> (names w)) w); mret (inr tt)
             end
           end).

(** Opening yields the inode; a descriptor keeps it alive whatever becomes of
    its names. *)
Definition open_read (p : bytes) : ST world (errno + nat) := syscall (lookup_name p).
Definition open_write (p : bytes) : ST world (errno + nat) := syscall (lookup_name p).

Definition create (p : bytes) : ST world (errno + nat) :=
  w ← getS;
  let i := next_ino w in
  _ ← modify (λ w, set_next (S i)
                   (set_inodes (<[i := Inode [] (clock w) (clock w)]> (inodes w))
                   (set_names (<[p := i]> (names w)) w)));
  mret (inr i).

Definition open_append (p : bytes) : ST world (errno + nat) :=
  syscall (r ← lookup_name p; match r with inl _ => create p | inr i => mret (inr i) end).

Definition open_excl (p : bytes) : ST world (errno + nat) :=
  syscall (r ← lookup_name p; match r with inl _ => create p | inr _ => mret (inl EEXIST) end).

Definition seek : ST world (errno + unit) := syscall (mret (inr tt)).

(** [write] at offset [pos] of an open file. *)
Definition write_at (i pos : nat) (d : bytes) : ST world (errno + unit) :=
  syscall (n ← read_inode i;
           let s := i_data n in
           let s' := take pos s ++ replicate (pos - length s) 0%Z ++ d ++
                     drop (pos + length d) s in
           _ ← modify (λ w, set_inodes (<[i := Inode s' (clock w) (i_atime n)]> (inodes w)) w);
           mret (inr tt)).

Definition append (i : nat) (d : bytes) : ST world (errno + unit) :=
  syscall (n ← read_inode i;
           _ ← modify (λ w, set_inodes
                 (<[i := Inode (i_data n ++ d) (clock w) (i_atime n)]> (inodes w)) w);
           mret (inr tt)).

Definition utimes (p : bytes) (t : Z) : ST world (errno + unit) :=
  syscall (r ← lookup_name p;
           match r with
           | inl e => mret (inl e)
           | inr i => n ← read_inode i;
                      _ ← modify (λ w, set_inodes (<[i := Inode (i_data n) t t]> (inodes w)) w);
                      mret (inr tt)
           end).

(** ** Reading records

    [getln] with separator 0: the next line with its separator, and whether the
    separator was found before the end of the file. *)
Fixpoint line_at (s : bytes) : bytes * bool :=
  match s with
  | [] => ([], false)
  | c :: r => if decide (c = 0%Z) then ([c], true)
              else let '(l, m) := line_at r in (c :: l, m)
  end.

Definition getln (i pos : nat) : ST world (option (bytes * bool)) :=
  bad ← fault;
  if bad : bool then mret None
  else n ← read_inode i; mret (Some (line_at (drop pos (i_data n)))).

(** ** What the calls change

    [files] is the part of the world that outlives a call; [quiet] calls leave
    it alone. *)

Definition files (w : world) : gmap bytes nat * gmap nat inode * nat :=
  (names w, inodes w, next_ino w).

Definition quiet {A} (m : ST world A) : Prop := ∀ w, files (run m w) = files w.

Lemma quiet_ret {A} (a : A) : quiet (mret a).
Proof. done. Qed.
Lemma quiet_getS : quiet getS.
Proof. done. Qed.
Lemma run_bind {S A B} (m : ST S A) (k : A → ST S B) s :
  run (m ≫= k) s = run (k (val m s)) (run m s).
Proof. unfold run, val, mbind, ST_bind. by destruct (m s). Qed.
Lemma val_bind {S A B} (m : ST S A) (k : A → ST S B) s :
  val (m ≫= k) s = val (k (val m s)) (run m s).
Proof. unfold run, val, mbind, ST_bind. by destruct (m s). Qed.
Lemma quiet_bind {A B} (m : ST world A) (k : A → ST world B) :
  quiet m → (∀ a, quiet (k a)) → quiet (m ≫= k).
Proof. intros Hm Hk w. rewrite run_bind, Hk. apply Hm. Qed.
Lemma quiet_fault : quiet fault.
Proof. intros w. unfold run, fault. by destruct (faults w). Qed.
Lemma quiet_now : quiet now.
Proof. intros w. unfold run, now. by destruct (drift w). Qed.
Lemma quiet_syscall {A} (m : ST world (errno + A)) : quiet m → quiet (syscall m).
Proof. intros Hm. apply quiet_bind; [apply quiet_fault|]. by intros []. Qed.

Create HintDb quiet.
#[export] Hint Resolve quiet_ret quiet_getS quiet_fault quiet_now quiet_syscall : quiet.
#[export] Hint Extern 1 (quiet (_ ≫= _)) => apply quiet_bind; [|intros ?] : quiet.
#[export] Hint Extern 2 (quiet (match ?x with _ => _ end)) => destruct x : quiet.

Lemma quiet_lookup p : quiet (lookup_name p).
Proof. unfold lookup_name. auto with quiet. Qed.
Lemma quiet_read i : quiet (read_inode i).
Proof. unfold read_inode. auto with quiet. Qed.
#[export] Hint Resolve quiet_lookup quiet_read : quiet.
Lemma quiet_stat p : quiet (stat p).
Proof. unfold stat. eauto 10 with quiet. Qed.
Lemma quiet_fstat i : quiet (fstat i).
Proof. unfold fstat. eauto 10 with quiet. Qed.
Lemma quiet_seek : quiet seek.
Proof. unfold seek. auto with quiet. Qed.
Lemma quiet_open_read p : quiet (open_read p).
Proof. unfold open_read. auto with quiet. Qed.
Lemma quiet_open_write p : quiet (open_write p).
Proof. unfold open_write. auto with quiet. Qed.
Lemma quiet_getln i pos : quiet (getln i pos).
Proof. unfold getln. eauto 10 with quiet. Qed.
#[export] Hint Resolve quiet_stat quiet_fstat quiet_seek quiet_open_read quiet_open_write
  quiet_getln : quiet.

(** The results, and the changes of the calls that are not quiet. *)

Lemma wp_fault (Q : bool → world → Prop) w :
  (∀ b f, Q b (set_faults f w)) → wp fault Q w.
Proof.
  intros H. unfold wp, fault. destruct (faults w) as [|b f] eqn:E; simpl; [|apply H].
  specialize (H false []). destruct w; simpl in *. by subst.
Qed.

(** [syscall]: either it fails and the world is unchanged but for the faults, or
    [m] runs in a world that differs in the faults only. *)
Lemma wp_syscall {A} (m : ST world (errno + A)) (Q : errno + A → world → Prop) w :
  (∀ f, Q (inl EOTHER) (set_faults f w)) →
  (∀ f, wp m Q (set_faults f w)) →
  wp (syscall m) Q w.
Proof.
  intros H1 H2. unfold syscall. apply wp_bind, wp_fault. intros [] f; [apply H1|apply H2].
Qed.

(** The same, when it matters that calls fail only by a fault. *)
Lemma wp_fault_only (Q : bool → world → Prop) w :
  (faults w ≠ [] → ∀ f, Q true (set_faults f w)) →
  (∀ f, (faults w = [] → f = []) → Q false (set_faults f w)) → wp fault Q w.
Proof.
  intros H1 H2. unfold wp, fault. destruct (faults w) as [|[] f] eqn:E; simpl; [|by apply H1|by apply H2].
  specialize (H2 [] ltac:(done)). destruct w; simpl in *. by subst.
Qed.
Lemma wp_syscall_only {A} (m : ST world (errno + A)) (Q : errno + A → world → Prop) w :
  (faults w ≠ [] → ∀ f, Q (inl EOTHER) (set_faults f w)) →
  (∀ f, (faults w = [] → f = []) → wp m Q (set_faults f w)) →
  wp (syscall m) Q w.
Proof.
  intros H1 H2. unfold syscall. apply wp_bind, wp_fault_only.
  - intros Hf f. by apply wp_ret, H1.
  - intros f Hf. by apply H2.
Qed.

Lemma wp_getS {S} (Q : S → S → Prop) s : Q s s → wp getS Q s.
Proof. done. Qed.

Lemma wp_open (p : bytes) (Q : errno + nat → world → Prop) w :
  (∀ e f, Q (inl e) (set_faults f w)) →
  (∀ i f, names w !! p = Some i → Q (inr i) (set_faults f w)) →
  wp (syscall (lookup_name p)) Q w.
Proof.
  intros H1 H2. apply wp_syscall; [auto|]. intros f. unfold lookup_name.
  apply wp_bind, wp_getS, wp_ret. simpl. destruct (names w !! p) eqn:E; auto.
Qed.

Lemma wp_unlink (p : bytes) (Q : errno + unit → world → Prop) w :
  (∀ e f, Q (inl e) (set_faults f w)) →
  (∀ i f, names w !! p = Some i →
     Q (inr tt) (set_names (delete p (names w)) (set_faults f w))) →
  wp (unlink p) Q w.
Proof.
  intros H1 H2. unfold unlink. apply wp_syscall; [auto|]. intros f. unfold lookup_name.
  apply wp_bind, wp_bind, wp_getS, wp_ret. simpl.
  destruct (names w !! p) eqn:E; [|by apply wp_ret]. by eapply H2.
Qed.

Lemma wp_write_at i pos d (Q : errno + unit → world → Prop) w :
  (∀ e f, Q (inl e) (set_faults f w)) →
  (∀ f, let n := default (Inode [] 0 0) (inodes w !! i) in
     Q (inr tt) (set_inodes (<[i := Inode (take pos (i_data n) ++
        replicate (pos - length (i_data n)) 0%Z ++ d ++ drop (pos + length d) (i_data n))
        (clock w) (i_atime n)]> (inodes w)) (set_faults f w))) →
  wp (write_at i pos d) Q w.
Proof. intros H1 H2. unfold write_at. apply wp_syscall; [auto|]. intros f. apply H2. Qed.

(** The bytes of a file. *)
Definition file_data (w : world) (i : nat) : bytes := i_data (default (Inode [] 0 0) (inodes w !! i)).

Lemma file_data_insert w i j n f :
  file_data (set_inodes (<[i := n]> (inodes w)) (set_faults f w)) j =
  if decide (i = j) then i_data n else file_data w j.
Proof.
  unfold file_data. simpl. case_decide as H; [by subst; rewrite lookup_insert_eq|].
  by rewrite lookup_insert_ne.
Qed.
