(* ===== verification/Records.v ===== *)
(** * Zero-terminated records

    The queue files of a message (info, local, remote, todo, intd) are sequences
    of records ended by a zero byte, read with [getln].  [rec_at s pos l]: the
    record at offset [pos] of [s] is [l], its zero included. *)

From S2P Require Import Prelude Filesys.

Inductive boundary (s : bytes) : nat → Prop :=
  | boundary_start : boundary s 0
  | boundary_next pos l :
      boundary s pos → line_at (drop pos s) = (l, true) → boundary s (pos + length l).

Definition rec_at (s : bytes) (pos : nat) (l : bytes) : Prop :=
  boundary s pos ∧ line_at (drop pos s) = (l, true).

Lemma line_at_length s l : line_at s = (l, true) → 0 < length l.
Proof.
  destruct s as [|c s]; simpl; [done|]. case_decide; [intros [= <-]; simpl; lia|].
  destruct (line_at s). intros [= <- _]. simpl. lia.
Qed.

Lemma line_at_prefix s l m : line_at s = (l, m) → l `prefix_of` s.
Proof.
  revert l m. induction s as [|c s IH]; intros l m; simpl; [intros [= <- _]; done|].
  case_decide; [intros [= <- _]; exists s; done|].
  destruct (line_at s) as [l' m'] eqn:E. intros [= <- _].
  apply prefix_cons, (IH l' m'), eq_refl.
Qed.

(** Two boundaries do not overlap: a record ends before the next one starts. *)
Lemma boundary_gap s p q l :
  boundary s p → boundary s q → line_at (drop p s) = (l, true) → p < q → p + length l ≤ q.
Proof.
  remember (p + q) as n eqn:Hn. revert p q l Hn.
  induction (lt_wf n) as [n _ IH]. intros p q l -> Hp Hq Hl Hlt.
  inversion Hq as [Hq0|q' l' Hq' Hl' Heq]; [lia|]. subst.
  pose proof (line_at_length _ _ Hl').
  destruct (Nat.lt_trichotomy p q') as [Hc|[->|Hc]].
  - etrans; [eapply (IH (p + q')); eauto; lia|]. lia.
  - rewrite Hl in Hl'. by injection Hl' as ->.
  - enough (q' + length l' ≤ p) by lia. eapply (IH (q' + p)); eauto. lia.
Qed.

(** At the last boundary every record lies before it. *)
Lemma rec_at_before s p pos l l' :
  boundary s p → line_at (drop p s) = (l', false) → rec_at s pos l → pos < p.
Proof.
  intros Hp Hl [Hpos Hline].
  destruct (Nat.lt_trichotomy pos p) as [?|[->|Hc]]; [done|congruence|].
  assert (H : boundary s pos → ∀ q, boundary s q → q < pos →
    ∃ l, line_at (drop q s) = (l, true)).
  { clear. induction 1 as [|pos l Hb IH Hl]; intros q Hq Hlt; [lia|].
    destruct (Nat.lt_trichotomy q pos) as [?|[->|Hc]]; [auto|eauto|].
    pose proof (boundary_gap _ _ _ _ Hb Hq Hl Hc). lia. }
  destruct (H Hpos p Hp Hc) as [l0 H0]. congruence.
Qed.

(** ** Overwriting the type byte of a record *)

Lemma line_at_insert s k (h x : Z) :
  s !! k = Some h → h ≠ 0%Z → x ≠ 0%Z →
  line_at (<[k := x]> s) = (<[k := x]> (line_at s).1, (line_at s).2).
Proof.
  revert k. induction s as [|c s IH]; intros k Hk Hh Hx; [done|].
  destruct k as [|k]; simpl in *.
  - injection Hk as ->. rewrite !decide_False by done. by destruct (line_at s).
  - case_decide; [done|]. rewrite IH by done. by destruct (line_at s).
Qed.

Section mark.
Context (s : bytes) (pos : nat) (l : bytes) (h x : Z).
Hypothesis Hrec : rec_at s pos l.
Hypothesis Hhead : head l = Some h.
Hypothesis Hh : h ≠ 0%Z.
Hypothesis Hx : x ≠ 0%Z.

Let s' := <[pos := x]> s.

Lemma mark_byte : s !! pos = Some h.
Proof.
  destruct Hrec as [_ Hl]. apply line_at_prefix in Hl as [r Hr].
  destruct l as [|y l']; [done|]. injection Hhead as ->.
  rewrite <- (take_drop pos s), Hr. rewrite lookup_app_r; rewrite length_take.
  - replace (pos - _) with 0; [done|].
    assert (length (drop pos s) ≠ 0) by (by rewrite Hr). rewrite length_drop in *. lia.
  - lia.
Qed.

Lemma line_at_mark p :
  line_at (drop p s') =
  if decide (p ≤ pos)
  then (<[pos - p := x]> (line_at (drop p s)).1, (line_at (drop p s)).2)
  else line_at (drop p s).
Proof.
  unfold s'. case_decide.
  - rewrite drop_insert_ge by done. apply (line_at_insert _ _ h); [|done|done].
    rewrite lookup_drop. rewrite <- mark_byte. f_equal. lia.
  - by rewrite drop_insert_lt by lia.
Qed.

Lemma boundary_mark p : boundary s' p ↔ boundary s p.
Proof.
  split; induction 1 as [|p m Hb IH Hm]; [constructor| |constructor|].
  - rewrite line_at_mark in Hm. case_decide.
    + destruct (line_at (drop p s)) as [m0 b] eqn:E. simpl in Hm. injection Hm as <- ->.
      rewrite length_insert. by apply boundary_next.
    + by apply boundary_next.
  - destruct (decide (p ≤ pos)) as [Hle|Hle].
    + rewrite <- (length_insert m (pos - p) x). apply boundary_next; [done|].
      rewrite line_at_mark, decide_True, Hm by done. done.
    + apply boundary_next; [done|]. rewrite line_at_mark, decide_False by done. done.
Qed.

Lemma rec_at_mark p m :
  rec_at s' p m ↔ ∃ m0, rec_at s p m0 ∧ m = (if decide (p = pos) then <[0 := x]> m0 else m0).
Proof.
  unfold rec_at. rewrite boundary_mark, line_at_mark.
  destruct (decide (p ≤ pos)) as [Hle|Hle].
  2:{ destruct (decide (p = pos)); [lia|naive_solver]. }
  destruct (line_at (drop p s)) as [m0 b] eqn:E. simpl.
  destruct (decide (p = pos)) as [->|Hne].
  { rewrite Nat.sub_diag. naive_solver. }
  split.
  - intros [Hb [= <- ->]]. exists m0. split; [done|].
    pose proof (boundary_gap s p pos m0 Hb (proj1 Hrec) E ltac:(lia)).
    apply list_insert_ge. lia.
  - intros (m1 & [Hb [= -> ->]] & ->). split; [done|]. f_equal.
    pose proof (boundary_gap s p pos m1 Hb (proj1 Hrec) E ltac:(lia)).
    apply list_insert_ge. lia.
Qed.

Lemma mark_length : length s' = length s.
Proof. apply length_insert. Qed.
End mark.
