(* ===== verification/Tcpto.v ===== *)
(** * The table of unreachable hosts: [tcpto.c]

    Every qmail-remote shares one file of 32-byte records.  A record counts the
    connections to an address that failed, and when the last of them did.  A host
    that failed twice, far enough apart, is left alone for a while.

    The file is a file of [Filesys]; its clock is the one of [now].  The addresses
    are those of the IPv6 build. *)

From S2P Require Import Prelude Filesys.

(** A host to connect to; [ip_text] is what [ip4_fmt] or [ip6_fmt] print for it. *)
Record ip_mx := IpMx { af : Z; addr : bytes; pref : Z; ip_text : bytes }.

Definition AF_INET : Z := 2.
Definition AF_INET6 : Z := 10.
Definition TCPTO_BUFSIZ : nat := 2048.
Definition MIN_PENALTY : Z := 3600.
Definition MAX_TOLERANCE : Z := 120.

(** The memory of one process: the queue, and [flagwasthere]. *)
Record tstate := TS { tw : world; flagwasthere : bool }.
Definition set_tw v s := TS v (flagwasthere s).
Definition set_flagwasthere v s := TS (tw s) v.
Definition tsys {A} (m : ST world A) : ST tstate A :=
  λ s, let '(a, w) := m (tw s) in (a, set_tw w s).

Section Tcpto.
Context (queuedir : bytes) (getpid : Z).

(** ** The buffer *)

Definition addr_len (a : Z) : nat := if decide (a = AF_INET) then 4 else 16.

(** A record of the buffer: [af] at 0, [reason] at 4, [when] at 8 to 11, the address
    from 16 on. *)
Definition byte_at (r : bytes) (i : nat) : Z := r !!! i.
Definition rec_af (r : bytes) : Z := schar (byte_at r 0).
Definition reason (r : bytes) : Z := schar (byte_at r 4).
Definition rec_when (r : bytes) : Z :=
  let w := byte_at r 11 in
  let w := (Z.shiftl w 8 + byte_at r 10)%Z in
  let w := (Z.shiftl w 8 + byte_at r 9)%Z in
  (Z.shiftl w 8 + byte_at r 8)%Z.

Fixpoint split_records (n : nat) (buf : bytes) : list bytes :=
  match n with
  | 0 => []
  | S n => take 32 buf :: split_records n (drop 32 buf)
  end.

(** The descriptor that holds the lock, and the records, at least one. *)
Definition getbuf : ST tstate (option (nat * list bytes)) :=
  if decide (1012 < length queuedir) then mret None
  else
    let lockfile := queuedir ++ lit "/lock/tcpto" in
    r ← tsys (open_write lockfile);
    match r with
    | inl _ => mret None
    | inr fdlock =>
      r ← tsys (open_read lockfile);
      match r with
      | inl _ => mret None
      | inr fd =>
        bad ← tsys fault;   (* [lock_ex] *)
        if bad : bool then mret None
        else
          bad ← tsys fault;   (* [read] *)
          if bad : bool then mret None
          else
            n ← tsys (read_inode fd);
            let buf := take TCPTO_BUFSIZ (i_data n) in
            let r := length buf `div` 32 in
            mret (if decide (r = 0) then None else Some (fdlock, split_records r buf))
      end
    end.

(** ** The record of a host *)

Definition same_host (ix : ip_mx) (r : bytes) : bool :=
  bool_decide (af ix = rec_af r) &&
  bool_decide (take (addr_len (af ix)) (addr ix) = take (addr_len (af ix)) (drop 16 r)).

(** The loops that look for a record, from record [i] on. *)
Fixpoint find_record (P : bytes → bool) (recs : list bytes) (i : nat) : option (nat * bytes) :=
  match recs with
  | [] => None
  | r :: recs => if P r then Some (i, r) else find_record P recs (S i)
  end.

(** How long a host is left alone. *)
Definition backoff (min_backoff : Z) : Z :=
  if decide (0 < min_backoff)%Z then
    (min_backoff + (Z.shiftl (60 + Z.land getpid 31) 6 - MIN_PENALTY))%Z
  else (- min_backoff)%Z.

Definition tcpto (ix : ip_mx) (min_backoff : Z) : ST tstate bool :=
  modify (set_flagwasthere false);;
  b ← getbuf;
  match b with
  | None => mret false
  | Some (_, recs) =>
    match find_record (same_host ix) recs 0 with
    | None => mret false
    | Some (_, r) =>
      modify (set_flagwasthere true);;
      if decide (2 ≤ reason r)%Z then
        t ← tsys now;
        mret (bool_decide (t - rec_when r < backoff min_backoff)%Z)
      else mret false
    end
  end.

(** ** Entering a result *)

(** [record[8] = when; when >>= 8; ...] *)
Definition stamp (t : Z) (r : bytes) : bytes :=
  <[11 := wrap 8 (Z.shiftr t 24)]> (<[10 := wrap 8 (Z.shiftr t 16)]>
    (<[9 := wrap 8 (Z.shiftr t 8)]> (<[8 := wrap 8 t]> r))).

(** [if (++record[4] > 10) record[4] = 10;] *)
Definition bump (r : bytes) : bytes :=
  let c := swrap 8 (reason r + 1) in
  <[4 := if decide (10 < c)%Z then 10%Z else wrap 8 c]> r.

Definition write_record (fdlock i : nat) (r : bytes) : ST tstate unit :=
  k ← tsys seek;
  match k with
  | inl _ => skip
  | inr _ => tsys (write_at fdlock (32 * i) r);; skip
  end.

(** The record that goes when none is free. *)
Fixpoint oldest_loop (recs : list bytes) (i : nat) (first : option (nat * Z)) : option (nat * Z) :=
  match recs with
  | [] => first
  | r :: recs =>
    let when := (rec_when r + reason r * 2 ^ 10)%Z in
    let first := match first with
                 | Some (_, firstwhen) => if decide (when < firstwhen)%Z then Some (i, when) else first
                 | None => Some (i, when)
                 end in
    oldest_loop recs (S i) first
  end.

Definition free_or_oldest (recs : list bytes) : option nat :=
  match find_record (λ r, bool_decide (reason r = 0%Z)) recs 0 with
  | Some (i, _) => Some i
  | None => fst <$> oldest_loop recs 0 None
  end.

Definition new_record (ix : ip_mx) (t : Z) (r : bytes) : bytes :=
  let r := <[0 := wrap 8 (af ix)]> r in
  let n := addr_len (af ix) in
  let r := take 16 r ++ take n (addr ix) ++ drop (16 + n) r in
  <[4 := 1%Z]> (stamp t r).

Definition tcpto_err (ix : ip_mx) (flagerr : bool) (max_tolerance : Z) : ST tstate unit :=
  s ← getS;
  if negb flagerr && negb (flagwasthere s) then skip
  else
    b ← getbuf;
    match b with
    | None => skip
    | Some (fdlock, recs) =>
      match find_record (same_host ix) recs 0 with
      | Some (i, r) =>
        if negb flagerr then write_record fdlock i (<[4 := 0%Z]> r)
        else
          t ← tsys now;
          if decide (reason r ≠ 0 ∧ t < max_tolerance + rec_when r)%Z then skip
          else write_record fdlock i (stamp t (bump r))
      | None =>
        if negb flagerr then skip
        else
          match free_or_oldest recs with
          | None => skip
          | Some i => t ← tsys now; write_record fdlock i (new_record ix t (recs !!! i))
          end
      end
    end.
End Tcpto.
