(* ===== verification/TcptoTheorems.v ===== *)
(** * What the table of unreachable hosts remembers

    The table is a file of bytes of fixed size, searched from the start.  As long as
    there are not more hosts than records, it keeps of every host what that host's
    own attempts give, whatever the order in which the attempts at the others come:
    it implements a finite map from addresses to a count and a time. *)

From S2P Require Import Prelude Filesys Tcpto.

#[local] Arguments Nat.mul : simpl never.

(** ** The specification *)

Abbreviation host_key := (Z * list Z)%type (only parsing).
Definition key (ix : ip_mx) : host_key := (af ix, take (addr_len (af ix)) (addr ix)).

Definition valid_key (k : host_key) : Prop :=
  (k.1 = AF_INET ∨ k.1 = AF_INET6) ∧ length k.2 = addr_len k.1.

(** What a qmail-remote does with the table: it asks whether to try a host, or
    enters that a connection to the host was made or failed. *)
Inductive event := Asked | Connected | Failed.
Record visit := Visit { v_host : ip_mx; v_event : event; v_time : Z }.

Abbreviation memory := (gmap (Z * list Z) (Z * Z)) (only parsing).

Section spec.
Context (backoff max_tolerance : Z).

Definition left_alone (m : memory) (k : host_key) (t : Z) : bool :=
  match m !! k with
  | Some (c, w) => bool_decide (2 ≤ c ∧ t - w < backoff)%Z
  | None => false
  end.

Definition failed (m : memory) (k : host_key) (t : Z) : memory :=
  match m !! k with
  | Some (c, w) => if decide (t < max_tolerance + w)%Z then m
                   else <[k := (Z.min 10 (c + 1), t)]> m
  | None => <[k := (1%Z, t)]> m
  end.

Fixpoint remembered (l : list visit) (m : memory) : list bool :=
  match l with
  | [] => []
  | Visit ix e t :: l =>
    match e with
    | Asked => left_alone m (key ix) t :: remembered l m
    | Connected => remembered l (delete (key ix) m)
    | Failed => remembered l (failed m (key ix) t)
    end
  end.
End spec.

(** The same on the file: a process looks a host up before it connects. *)
Section play.
Context (queuedir : bytes) (getpid min_backoff max_tolerance : Z).

Definition at_time (t : Z) : ST tstate unit := modify (λ s, set_tw (set_clock t (tw s)) s).

Fixpoint play (l : list visit) : ST tstate (list bool) :=
  match l with
  | [] => mret []
  | Visit ix e t :: l =>
    at_time t;;
    match e with
    | Asked =>
      b ← tcpto queuedir getpid ix min_backoff;
      r ← play l;
      mret (b :: r)
    | Connected =>
      _ ← tcpto queuedir getpid ix min_backoff;
      tcpto_err queuedir ix false max_tolerance;;
      play l
    | Failed => tcpto_err queuedir ix true max_tolerance;; play l
    end
  end.
End play.

(** ** Records *)

Definition rec_key (r : bytes) : host_key := (rec_af r, take (addr_len (rec_af r)) (drop 16 r)).

Definition has_key (k : host_key) (r : bytes) : bool := bool_decide (k = rec_key r).

Lemma same_host_key ix r : same_host ix r = has_key (key ix) r.
Proof.
  unfold same_host, has_key, key, rec_key. apply eq_true_iff_eq.
  rewrite andb_true_iff, !bool_decide_eq_true. split.
  - intros [-> ->]. done.
  - intros [= Ha Hb]. rewrite Ha in *. auto.
Qed.

Lemma find_record_ext (P Q : bytes → bool) recs i :
  (∀ r, P r = Q r) → find_record P recs i = find_record Q recs i.
Proof.
  intros H. revert i. induction recs as [|r recs IH]; intros i; simpl; [done|].
  by rewrite H, IH.
Qed.

Lemma find_record_some P recs i j r :
  find_record P recs i = Some (j, r) → i ≤ j ∧ recs !! (j - i) = Some r ∧ P r = true.
Proof.
  revert i. induction recs as [|x recs IH]; intros i; simpl; [done|].
  destruct (P x) eqn:E.
  - intros [= <- <-]. rewrite Nat.sub_diag. auto.
  - intros (? & Hj & ?)%IH. replace (j - i) with (S (j - S i)) by lia. auto with lia.
Qed.

Lemma find_record_none P recs i : find_record P recs i = None ↔ Forall (λ r, P r = false) recs.
Proof.
  revert i. induction recs as [|x recs IH]; intros i; simpl.
  { split; [by constructor|done]. }
  rewrite Forall_cons. destruct (P x) eqn:E; [naive_solver|]. rewrite IH. naive_solver.
Qed.

(** With at most one candidate, the search finds it wherever it is. *)
Lemma find_record_unique P recs j r :
  recs !! j = Some r → P r = true →
  (∀ j' r', recs !! j' = Some r' → P r' = true → j' = j) →
  find_record P recs 0 = Some (j, r).
Proof.
  intros Hj Hr Hu. destruct (find_record P recs 0) as [[i x]|] eqn:E.
  - apply find_record_some in E as (_ & Hx & Hp). rewrite Nat.sub_0_r in Hx.
    assert (i = j) as -> by eauto. congruence.
  - apply find_record_none in E. rewrite Forall_lookup in E.
    specialize (E _ _ Hj). congruence.
Qed.

Lemma oldest_loop_first recs i first : recs ≠ [] ∨ first ≠ None →
  (∀ j w, first = Some (j, w) → j < i) →
  ∃ j w, oldest_loop recs i first = Some (j, w) ∧ j < i + length recs.
Proof.
  revert i first. induction recs as [|r recs IH]; intros i first Hne Hf; simpl.
  - destruct first as [[j w]|]; [|naive_solver]. exists j, w. split; [done|]. rewrite Nat.add_0_r. eauto.
  - match goal with |- ∃ j w, oldest_loop recs (S i) ?f = _ ∧ _ => destruct (IH (S i) f) as (j & w & Hj & ?) end.
    + right. destruct first as [[]|]; [case_decide|]; done.
    + intros j w. destruct first as [[j' w']|]; [specialize (Hf _ _ eq_refl); case_decide|];
        intros [=]; lia.
    + exists j, w. split; [done|]. lia.
Qed.

Lemma free_or_oldest_free recs j r :
  recs !! j = Some r → reason r = 0%Z →
  ∃ i x, free_or_oldest recs = Some i ∧ recs !! i = Some x ∧ reason x = 0%Z.
Proof.
  intros Hj Hr. unfold free_or_oldest. destruct (find_record _ recs 0) as [[i x]|] eqn:E.
  - apply find_record_some in E as (_ & Hx & Hp%bool_decide_eq_true). rewrite Nat.sub_0_r in Hx. eauto.
  - apply find_record_none in E. rewrite Forall_lookup in E.
    specialize (E _ _ Hj). simpl in E. apply bool_decide_eq_false in E. done.
Qed.

(** ** The bytes of a record *)

Lemma when_stamp t r : length r = 32 → (0 ≤ t < 2 ^ 32)%Z → rec_when (stamp t r) = t.
Proof.
  intros Hr Ht. unfold rec_when, stamp.
  do 32 (destruct r as [|? r]; [done|]). destruct r; [|done].
  unfold byte_at. simpl.
  unfold wrap. rewrite !Z.shiftl_mul_pow2, !Z.shiftr_div_pow2 by lia.
  change (2 ^ 24)%Z with (256 * 256 * 256)%Z. change (2 ^ 16)%Z with (256 * 256)%Z.
  change (2 ^ 8)%Z with 256%Z. change (2 ^ 32)%Z with 4294967296%Z in Ht.
  rewrite <- !Z.div_div by lia.
  pose proof (Z.div_mod t 256). pose proof (Z.div_mod (t / 256) 256).
  pose proof (Z.div_mod (t / 256 / 256) 256).
  rewrite (Z.mod_small (t / 256 / 256 / 256)); [lia|].
  rewrite !Z.div_div by lia. split; [apply Z.div_pos; lia|apply Z.div_lt_upper_bound; lia].
Qed.

Ltac open_record r Hr := do 32 (destruct r as [|? r]; [done|]); destruct r; [|done]; clear Hr.

Lemma stamp_fields t r : length r = 32 →
  length (stamp t r) = 32 ∧ rec_key (stamp t r) = rec_key r ∧ reason (stamp t r) = reason r.
Proof. intros Hr. unfold stamp. rewrite !length_insert. by open_record r Hr. Qed.

Lemma set_reason_fields c r : length r = 32 →
  length (<[4 := c]> r) = 32 ∧ rec_key (<[4 := c]> r) = rec_key r ∧
  reason (<[4 := c]> r) = schar c ∧ rec_when (<[4 := c]> r) = rec_when r.
Proof. intros Hr. rewrite length_insert. by open_record r Hr. Qed.

Lemma bump_fields r : length r = 32 → (0 ≤ reason r ≤ 10)%Z →
  length (bump r) = 32 ∧ rec_key (bump r) = rec_key r ∧ reason (bump r) = Z.min 10 (reason r + 1).
Proof.
  intros Hr Hc. unfold bump.
  assert (swrap 8 (reason r + 1) = reason r + 1)%Z as ->.
  { unfold swrap. rewrite Z.mod_small by lia. by rewrite decide_True by lia. }
  match goal with |- context [<[4 := ?c]> r] => destruct (set_reason_fields c r Hr) as (? & ? & Hn & _) end.
  split_and!; [done..|]. rewrite Hn.
  assert (Hs : ∀ z, (0 ≤ z < 128)%Z → schar z = z).
  { intros z Hz. unfold schar, swrap. rewrite Z.mod_small by lia. by rewrite decide_True by lia. }
  case_decide; [rewrite Hs; lia|]. unfold wrap. rewrite Z.mod_small by lia. rewrite Hs; lia.
Qed.

Lemma new_record_fields ix t r : length r = 32 → valid_key (key ix) → (0 ≤ t < 2 ^ 32)%Z →
  length (new_record ix t r) = 32 ∧ rec_key (new_record ix t r) = key ix ∧
  reason (new_record ix t r) = 1%Z ∧ rec_when (new_record ix t r) = t.
Proof.
  intros Hr [Ha Hl] Ht. unfold key in *. simpl in Ha, Hl.
  set (q := <[0:=wrap 8 (af ix)]> r).
  set (p := take (addr_len (af ix)) (addr ix)) in *.
  set (r' := take 16 q ++ p ++ drop (16 + addr_len (af ix)) q).
  change (new_record ix t r) with (<[4 := 1%Z]> (stamp t r')).
  assert (Hn : addr_len (af ix) = 4 ∨ addr_len (af ix) = 16).
  { unfold addr_len. case_decide; auto. }
  assert (Hq : length q = 32) by (unfold q; by rewrite length_insert).
  assert (Hr' : length r' = 32).
  { unfold r'. rewrite !length_app, length_take, length_drop. lia. }
  destruct (stamp_fields t r' Hr') as (Hs & Hk & _).
  destruct (set_reason_fields 1 (stamp t r') Hs) as (-> & -> & -> & ->).
  rewrite Hk, when_stamp by done. split_and!; try done.
  assert (Haf : rec_af r' = af ix).
  { unfold rec_af, byte_at, r', q. unfold lookup_total.
    destruct r as [|x r]; [done|]. simpl.
    destruct Ha as [-> | ->]; reflexivity. }
  unfold rec_key. rewrite Haf. f_equal. unfold r'.
  rewrite drop_app_length' by (rewrite length_take; lia).
  by rewrite take_app_length' by (symmetry; exact Hl).
Qed.

(** ** What the records hold *)

Definition status (recs : list bytes) (k : host_key) : option (Z * Z) :=
  match find_record (has_key k) recs 0 with
  | Some (_, r) => if decide (reason r = 0%Z) then None else Some (reason r, rec_when r)
  | None => None
  end.

(** Overwriting the record of one host with that of another leaves a third alone. *)
Lemma status_insert_other recs i x r k : recs !! i = Some x →
  rec_key x ≠ k → rec_key r ≠ k → status (<[i := r]> recs) k = status recs k.
Proof.
  intros Hi Hx Hr.
  assert (∀ n, find_record (has_key k) (<[i := r]> recs) n = find_record (has_key k) recs n) as Hs.
  { revert i Hi. induction recs as [|y recs IH]; intros [|i] Hi n; simpl in *; [done..| |].
    - injection Hi as ->. unfold has_key at 1 3. by rewrite !bool_decide_false by congruence.
    - destruct (has_key k y); [done|]. by apply IH. }
  unfold status. by rewrite Hs.
Qed.

Section holds.
Context (H : gset host_key).

Record holds (recs : list bytes) (m : memory) : Prop := {
  once i j r r' : recs !! i = Some r → recs !! j = Some r' →
    rec_key r = rec_key r' → rec_key r ∈ H → i = j;
  used_by i r : recs !! i = Some r → reason r ≠ 0%Z → rec_key r ∈ H;
  counts i r : recs !! i = Some r → (0 ≤ reason r ≤ 10)%Z;
  agree k : k ∈ H → m !! k = status recs k
}.

(** The status of a host, from its record. *)
Lemma status_at recs m i r : holds recs m → recs !! i = Some r → rec_key r ∈ H →
  find_record (has_key (rec_key r)) recs 0 = Some (i, r).
Proof.
  intros Hh Hi Hk. apply find_record_unique; [done|by apply bool_decide_eq_true|].
  intros j r' Hj Hr'%bool_decide_eq_true. symmetry. by eapply (once _ _ Hh).
Qed.

Lemma status_none recs k : (∀ i r, recs !! i = Some r → rec_key r ≠ k) → status recs k = None.
Proof.
  intros Hn. unfold status. destruct (find_record _ recs 0) as [[i r]|] eqn:E; [|done].
  apply find_record_some in E as (_ & Hi & Hr%bool_decide_eq_true). rewrite Nat.sub_0_r in Hi.
  exfalso. by apply (Hn _ _ Hi).
Qed.

(** Entering a record for [k], in its old place or in that of a free one. *)
Lemma holds_insert recs m k i x r :
  holds recs m → k ∈ H → recs !! i = Some x →
  (∀ j y, recs !! j = Some y → rec_key y = k → j = i) →
  rec_key x = k ∨ reason x = 0%Z →
  rec_key r = k → (0 ≤ reason r ≤ 10)%Z →
  holds (<[i := r]> recs)
    (if decide (reason r = 0%Z) then delete k m else <[k := (reason r, rec_when r)]> m).
Proof.
  intros Hh Hk Hi Hone Hx Hr Hc.
  assert (Hlen : i < length recs) by by eapply lookup_lt_Some.
  assert (Honce : ∀ a b r1 r2, <[i := r]> recs !! a = Some r1 → <[i := r]> recs !! b = Some r2 →
    rec_key r1 = rec_key r2 → rec_key r1 ∈ H → a = b).
  { intros a b r1 r2 [(-> & <- & _)|(Ha & Hr1)]%list_lookup_insert_Some
      [(-> & <- & _)|(Hb & Hr2)]%list_lookup_insert_Some Heq Hin; [done| | |].
    - rewrite Hr in Heq. symmetry. by eapply Hone.
    - rewrite Hr in Heq. by eapply Hone.
    - by eapply (once _ _ Hh). }
  split; [done| | |].
  - intros j y [(-> & <- & _)|(? & ?)]%list_lookup_insert_Some ?; [by rewrite Hr|].
    by eapply (used_by _ _ Hh).
  - intros j y [(-> & <- & _)|(? & ?)]%list_lookup_insert_Some; [done|]. by eapply (counts _ _ Hh).
  - intros k' Hk'. destruct (decide (k' = k)) as [->|Hne].
    + unfold status. rewrite (find_record_unique _ _ i r).
      * case_decide; [apply lookup_delete_eq|apply lookup_insert_eq].
      * by apply list_lookup_insert_eq.
      * apply bool_decide_eq_true. by rewrite Hr.
      * intros j y [(-> & _ & _)|(? & Hy)]%list_lookup_insert_Some Hp%bool_decide_eq_true; [done|].
        by eapply Hone.
    + transitivity (m !! k').
      { case_decide; [by apply lookup_delete_ne|by apply lookup_insert_ne]. }
      rewrite (agree _ _ Hh k' Hk').
      destruct (decide (rec_key x = k')) as [Hxk|Hxk].
      * destruct Hx as [?|Hx]; [congruence|].
        assert (status recs k' = None) as ->.
        { unfold status. subst k'. rewrite (status_at _ _ _ _ Hh Hi Hk'). by rewrite decide_True. }
        symmetry. apply status_none.
        intros j y [(-> & <- & _)|(Hj & Hy)]%list_lookup_insert_Some Hyk; [congruence|].
        apply Hj. eapply (once _ _ Hh); [done..| |]; congruence.
      * by rewrite (status_insert_other _ _ _ _ _ Hi) by congruence.
Qed.

(** While there are not more hosts than records, a new one finds a free record. *)
Lemma holds_free recs m k :
  holds recs m → k ∈ H → size H ≤ length recs →
  (∀ i r, recs !! i = Some r → rec_key r ≠ k) →
  ∃ i x, free_or_oldest recs = Some i ∧ recs !! i = Some x ∧ reason x = 0%Z.
Proof.
  intros Hh Hk Hn Hno.
  destruct (decide (Exists (λ r, reason r = 0%Z) recs)) as [He|He].
  - apply Exists_exists in He as (r & [j Hj]%list_elem_of_lookup & Hr).
    by eapply free_or_oldest_free.
  - exfalso. apply not_Exists_Forall in He; [|apply _].
    assert (Hnd : NoDup (rec_key <$> recs)).
    { apply NoDup_alt. intros i j x Hi Hj.
      apply list_lookup_fmap_Some in Hi as (r & -> & Hi), Hj as (r' & Heq & Hj).
      eapply (once _ _ Hh); [done..|]. eapply (used_by _ _ Hh); [done|].
      by apply (Forall_lookup_1 _ _ _ _ He Hi). }
    assert (Hsub : list_to_set (C := gset host_key) (rec_key <$> recs) ⊆ H ∖ {[k]}).
    { intros x (r & -> & [i Hi]%list_elem_of_lookup)%elem_of_list_to_set%list_elem_of_fmap.
      apply elem_of_difference. split.
      - eapply (used_by _ _ Hh); [done|]. by apply (Forall_lookup_1 _ _ _ _ He Hi).
      - rewrite elem_of_singleton. by eapply Hno. }
    apply subseteq_size in Hsub.
    rewrite size_list_to_set, length_fmap, size_difference, size_singleton in Hsub by set_solver.
    assert (size H ≠ 0) by (apply size_non_empty_iff; set_solver). lia.
Qed.
End holds.

(** ** The calls *)

Section calls.
Context (queuedir : bytes) (Hdir : length queuedir ≤ 1012).

Definition lockfile : bytes := queuedir ++ lit "/lock/tcpto".

(** The file holds [recs], and no call fails. *)
Record ready (recs : list bytes) (s : tstate) : Prop := {
  no_faults : faults (tw s) = [];
  no_drift : drift (tw s) = [];
  opened : ∃ fd nd, names (tw s) !! lockfile = Some fd ∧ inodes (tw s) !! fd = Some nd ∧
    i_data nd = concat recs;
  sized : Forall (λ r, length r = 32) recs;
  some_records : 1 ≤ length recs ≤ 64
}.

Lemma concat_length recs : Forall (λ r : bytes, length r = 32) recs → length (concat recs) = 32 * length recs.
Proof. induction 1 as [|r recs Hr _ IH]; simpl; [done|]. rewrite length_app. lia. Qed.

Lemma split_concat recs : Forall (λ r : bytes, length r = 32) recs →
  split_records (length recs) (concat recs) = recs.
Proof.
  induction 1 as [|r recs Hr _ IH]; simpl; [done|].
  by rewrite take_app_length', drop_app_length', IH by done.
Qed.

Lemma concat_insert recs i (x r : bytes) : Forall (λ r, length r = 32) recs → recs !! i = Some x →
  length r = 32 →
  take (32 * i) (concat recs) ++ r ++ drop (32 * i + 32) (concat recs) = concat (<[i := r]> recs).
Proof.
  intros Hs Hi Hr. revert i Hi. induction Hs as [|y recs Hy Hs IH]; intros [|i] Hi; [done..| |].
  - injection Hi as ->. simpl. by rewrite drop_app_length' by done.
  - simpl in Hi. simpl concat. replace (32 * S i) with (length y + 32 * i) by lia.
    replace (length y + 32 * i + 32) with (length y + (32 * i + 32)) by lia.
    rewrite take_app_add, drop_app_add, <- app_assoc. by rewrite IH.
Qed.

Lemma bind_run {S A B} (m : ST S A) (k : A → ST S B) s s' a : m s = (a, s') → (m ≫= k) s = k a s'.
Proof. unfold mbind, ST_bind. by intros ->. Qed.
Lemma tsys_run {A} (m : ST world A) a w w' f : m w = (a, w') → tsys m (TS w f) = (a, TS w' f).
Proof. unfold tsys. simpl. by intros ->. Qed.

Lemma getbuf_ready recs s : ready recs s →
  ∃ fd, getbuf queuedir s = (Some (fd, recs), s) ∧ names (tw s) !! lockfile = Some fd.
Proof.
  intros [Hf Hd (fd & nd & Hn & Hi & Hc) Hs Hlen]. exists fd. split; [|done].
  destruct s as [w f], w as [nm ino nx fl ck dr]; simpl in *; subst fl dr.
  unfold getbuf. rewrite decide_False by lia. fold lockfile.
  set (w := World nm ino nx [] ck []).
  assert (Ho : syscall (lookup_name lockfile) w = (inr fd, w)).
  { unfold syscall, lookup_name, fault, mbind, ST_bind; simpl. by rewrite Hn. }
  assert (Hb : fault w = (false, w)) by done.
  assert (Hr : read_inode fd w = (nd, w)).
  { unfold read_inode, mbind, ST_bind; simpl. by rewrite Hi. }
  erewrite bind_run by exact (tsys_run _ _ _ _ f Ho). cbn beta iota.
  erewrite bind_run by exact (tsys_run _ _ _ _ f Ho). cbn beta iota.
  do 2 (erewrite bind_run by exact (tsys_run _ _ _ _ f Hb); cbn beta iota).
  erewrite bind_run by exact (tsys_run _ _ _ _ f Hr). cbn beta zeta.
  rewrite Hc, take_ge by (rewrite concat_length by done; unfold TCPTO_BUFSIZ; lia).
  rewrite concat_length, Nat.mul_comm, Nat.div_mul by done. rewrite decide_False by lia.
  by rewrite split_concat.
Qed.

Lemma write_at_run fd nd pos d nm ino nx ck : ino !! fd = Some nd →
  write_at fd pos d (World nm ino nx [] ck []) =
  (inr tt, World nm (<[fd := Inode (take pos (i_data nd) ++ replicate (pos - length (i_data nd)) 0%Z ++ d ++
                                   drop (pos + length d) (i_data nd)) ck (i_atime nd)]> ino) nx [] ck []).
Proof. intros Hi. unfold write_at, syscall, read_inode, fault, mbind, ST_bind; simpl. by rewrite Hi. Qed.

Lemma write_ready recs s fd i x r : ready recs s → names (tw s) !! lockfile = Some fd →
  recs !! i = Some x → length r = 32 →
  ready (<[i := r]> recs) (run (write_record fd i r) s).
Proof.
  intros [Hf Hd (fd' & nd & Hn & Hi & Hc) Hs Hlen] Hfd Hx Hr.
  assert (fd' = fd) as -> by congruence.
  destruct s as [w f], w as [nm ino nx fl ck dr]. cbn in *. subst fl dr.
  assert (Hlt : i < length recs) by by eapply lookup_lt_Some.
  assert (run (write_record fd i r) (TS (World nm ino nx [] ck []) f) =
    TS (World nm (<[fd := Inode (concat (<[i := r]> recs)) ck (i_atime nd)]> ino) nx [] ck []) f) as ->.
  { unfold run, write_record. set (w := World nm ino nx [] ck []).
    assert (Hk : seek w = (inr tt, w)) by done.
    erewrite bind_run by exact (tsys_run _ _ _ _ f Hk). cbn match.
    erewrite bind_run by exact (tsys_run _ _ _ _ f (write_at_run fd nd _ _ nm ino nx ck Hi)). cbn.
    rewrite Hc, Hr, concat_length, <- (concat_insert recs i x r) by done.
    replace (32 * i - 32 * length recs) with 0 by lia. done. }
  split; cbn; [done|done| |by apply Forall_insert|by rewrite length_insert].
  eexists fd, _. by rewrite lookup_insert_eq.
Qed.

Lemma ready_at recs s t : ready recs s → ready recs (run (at_time t) s).
Proof. intros [? ? (fd & nd & ?) ? ?]. split; simpl; eauto. Qed.
Lemma ready_flag recs s b : ready recs s → ready recs (set_flagwasthere b s).
Proof. intros [? ? (fd & nd & ?) ? ?]. split; simpl; eauto. Qed.

(** ** A call against the specification *)

Context (getpid min_backoff max_tolerance : Z) (H : gset host_key).
Context (Hvalid : ∀ k, k ∈ H → valid_key k).

Lemma search_key ix recs : find_record (same_host ix) recs 0 = find_record (has_key (key ix)) recs 0.
Proof. apply find_record_ext, same_host_key. Qed.

Lemma tsys_now s : drift (tw s) = [] → tsys now s = (clock (tw s), s).
Proof. destruct s as [w f], w. simpl. by intros ->. Qed.

(** A search that finds the record of [k]. *)
Lemma search_found recs m k i r : holds H recs m → k ∈ H →
  find_record (has_key k) recs 0 = Some (i, r) →
  recs !! i = Some r ∧ rec_key r = k ∧ (0 ≤ reason r ≤ 10)%Z ∧
  (∀ j y, recs !! j = Some y → rec_key y = k → j = i) ∧
  m !! k = if decide (reason r = 0%Z) then None else Some (reason r, rec_when r).
Proof.
  intros Hh Hk E. rewrite (agree _ _ _ Hh k Hk). unfold status. rewrite E.
  apply find_record_some in E as (_ & Hi & Hr%bool_decide_eq_true). rewrite Nat.sub_0_r in Hi.
  subst k. do 2 (split; [done|]). split; [by eapply (counts _ _ _ Hh)|]. split; [|done].
  intros j y Hj Hy. symmetry. by eapply (once _ _ _ Hh).
Qed.

Lemma search_missing recs m k : holds H recs m → k ∈ H → find_record (has_key k) recs 0 = None →
  (∀ i r, recs !! i = Some r → rec_key r ≠ k) ∧ m !! k = None.
Proof.
  intros Hh Hk E. rewrite (agree _ _ _ Hh k Hk). unfold status. rewrite E. split; [|done].
  intros i r Hi Hr. apply find_record_none in E. rewrite Forall_lookup in E.
  specialize (E _ _ Hi). apply bool_decide_eq_false in E. congruence.
Qed.

Lemma tcpto_asked ix recs m s : ready recs s → holds H recs m → key ix ∈ H →
  ∃ b, tcpto queuedir getpid ix min_backoff s =
         (left_alone (backoff getpid min_backoff) m (key ix) (clock (tw s)), set_flagwasthere b s) ∧
       (b = false → m !! key ix = None).
Proof.
  intros Hs Hh Hk. set (s' := set_flagwasthere false s).
  destruct (getbuf_ready recs s') as (fd & Hg & _); [by apply ready_flag|].
  unfold tcpto. erewrite (bind_run (modify _) _ s) by done. fold s'.
  erewrite bind_run by exact Hg. cbn match. rewrite search_key. unfold left_alone.
  destruct (find_record _ recs 0) as [[i r]|] eqn:E.
  - destruct (search_found _ _ _ _ _ Hh Hk E) as (_ & _ & Hc & _ & ->).
    exists true. split; [|done]. erewrite bind_run by done.
    destruct (decide (2 ≤ reason r)%Z) as [H2|H2].
    + erewrite bind_run by (apply tsys_now; exact (no_drift _ _ Hs)).
      rewrite decide_False by lia. unfold mret, ST_ret. f_equal.
      apply bool_decide_ext. simpl. tauto.
    + unfold mret, ST_ret. f_equal. case_decide; [done|]. by rewrite bool_decide_false by lia.
  - destruct (search_missing _ _ _ Hh Hk E) as [_ ->]. exists false. done.
Qed.

(** What a write leaves: the table with one record for [k]. *)
Lemma write_holds recs m s fd k i x r :
  ready recs s → names (tw s) !! lockfile = Some fd → holds H recs m → k ∈ H →
  recs !! i = Some x → (∀ j y, recs !! j = Some y → rec_key y = k → j = i) →
  rec_key x = k ∨ reason x = 0%Z → length r = 32 → rec_key r = k → (0 ≤ reason r ≤ 10)%Z →
  ∃ recs', ready recs' (run (write_record fd i r) s) ∧ length recs' = length recs ∧
    holds H recs' (if decide (reason r = 0%Z) then delete k m else <[k := (reason r, rec_when r)]> m).
Proof.
  intros Hs Hfd Hh Hk Hi Ho Hx Hl Hr Hc. exists (<[i := r]> recs).
  split_and!; [by eapply write_ready|by rewrite length_insert|by eapply holds_insert].
Qed.

Lemma run_skip {S} (s : S) : run skip s = s.
Proof. done. Qed.

Lemma err_connected ix recs m s : ready recs s → holds H recs m → key ix ∈ H →
  (flagwasthere s = false → m !! key ix = None) →
  ∃ recs', ready recs' (run (tcpto_err queuedir ix false max_tolerance) s) ∧
    length recs' = length recs ∧ holds H recs' (delete (key ix) m).
Proof.
  intros Hs Hh Hk Hf. unfold tcpto_err. unfold run. erewrite (bind_run getS) by done.
  assert (Hno : m !! key ix = None → ∃ recs', ready recs' s ∧ length recs' = length recs ∧
    holds H recs' (delete (key ix) m)).
  { intros Hm. exists recs. by rewrite delete_id. }
  destruct (flagwasthere s); simpl; [|by apply Hno, Hf].
  destruct (getbuf_ready recs s Hs) as (fd & Hg & Hfd).
  erewrite bind_run by exact Hg. cbn match. rewrite search_key.
  destruct (find_record _ recs 0) as [[i r]|] eqn:E.
  - destruct (search_found _ _ _ _ _ Hh Hk E) as (Hi & Hr & Hc & Ho & Hm).
    pose proof (Forall_lookup_1 _ _ _ _ (sized _ _ Hs) Hi) as Hl.
    destruct (set_reason_fields 0 r Hl) as (Hl' & Hr' & Hc' & _).
    change (schar 0) with 0%Z in Hc'.
    destruct (write_holds recs m s fd (key ix) i r (<[4:=0%Z]> r)) as (recs' & ? & ? & Hh');
      [done..|by left|done|congruence|lia|].
    rewrite decide_True in Hh' by done. exists recs'. done.
  - apply Hno. by apply (search_missing _ _ _ Hh Hk E).
Qed.

Lemma err_failed ix recs m s : ready recs s → holds H recs m → key ix ∈ H → size H ≤ length recs →
  (0 ≤ clock (tw s) < 2 ^ 32)%Z →
  ∃ recs', ready recs' (run (tcpto_err queuedir ix true max_tolerance) s) ∧
    length recs' = length recs ∧
    holds H recs' (failed max_tolerance m (key ix) (clock (tw s))).
Proof.
  intros Hs Hh Hk Hn Ht. unfold tcpto_err. unfold run. erewrite (bind_run getS) by done. simpl.
  destruct (getbuf_ready recs s Hs) as (fd & Hg & Hfd).
  erewrite bind_run by exact Hg. cbn match. rewrite search_key. unfold failed.
  assert (Hnow : tsys now s = (clock (tw s), s)) by (apply tsys_now, (no_drift _ _ Hs)).
  destruct (find_record _ recs 0) as [[i r]|] eqn:E.
  - destruct (search_found _ _ _ _ _ Hh Hk E) as (Hi & Hr & Hc & Ho & ->).
    pose proof (Forall_lookup_1 _ _ _ _ (sized _ _ Hs) Hi) as Hl.
    cbn match. erewrite bind_run by exact Hnow.
    destruct (decide (reason r ≠ 0%Z ∧ (clock (tw s) < max_tolerance + rec_when r)%Z)) as [[Hz Hlt]|Hz].
    { rewrite decide_False, decide_True by done. exists recs. done. }
    destruct (bump_fields r Hl Hc) as (Hlb & Hrb & Hcb).
    destruct (stamp_fields (clock (tw s)) (bump r) Hlb) as (Hl' & Hr' & Hc').
    destruct (write_holds recs m s fd (key ix) i r (stamp (clock (tw s)) (bump r)))
      as (recs' & ? & ? & Hh'); [done..|by left|done|congruence|rewrite Hc', Hcb; lia|].
    rewrite Hc', Hcb, when_stamp, decide_False in Hh' by (done || lia).
    exists recs'. split_and!; [done..|].
    case_decide as Hzero; [by rewrite Hzero in Hh'|]. by rewrite decide_False by tauto.
  - destruct (search_missing _ _ _ Hh Hk E) as [Hno ->]. cbn match.
    destruct (holds_free _ _ _ _ Hh Hk Hn Hno) as (i & x & -> & Hi & Hx).
    erewrite bind_run by exact Hnow.
    pose proof (Forall_lookup_1 _ _ _ _ (sized _ _ Hs) Hi) as Hl.
    rewrite (list_lookup_total_correct _ _ _ Hi).
    destruct (new_record_fields ix (clock (tw s)) x Hl (Hvalid _ Hk) Ht) as (Hl' & Hr' & Hc' & Hw').
    destruct (write_holds recs m s fd (key ix) i x (new_record ix (clock (tw s)) x))
      as (recs' & ? & ? & Hh'); [done..| |by right|done|done|lia|].
    { intros j y Hj Hy. by destruct (Hno _ _ Hj). }
    rewrite Hc', Hw', decide_False in Hh' by done. exists recs'. done.
Qed.
End calls.

(** ** Every sequence of attempts *)

Section sequences.
Context (queuedir : bytes) (getpid min_backoff max_tolerance : Z) (H : gset host_key).

Definition known (v : visit) : Prop := key (v_host v) ∈ H ∧ (0 ≤ v_time v < 2 ^ 32)%Z.

Lemma play_holds recs m l s : length queuedir ≤ 1012 → (∀ k, k ∈ H → valid_key k) →
  size H ≤ length recs → Forall known l → ready queuedir recs s → holds H recs m →
  val (play queuedir getpid min_backoff max_tolerance l) s =
  remembered (backoff getpid min_backoff) max_tolerance l m.
Proof.
  intros Hdir Hvalid Hn Hl. revert recs m s Hn.
  induction Hl as [|[ix e t] l [Hk Ht] Hl IH]; intros recs m s Hn Hs Hh; [done|].
  simpl in Hk, Ht. simpl. rewrite val_bind.
  apply (ready_at _ _ _ t) in Hs. set (s' := run (at_time t) s) in *.
  assert (Hc : clock (tw s') = t) by done. rewrite <- Hc in Ht |- *. clearbody s'.
  destruct e; simpl.
  - destruct (tcpto_asked queuedir Hdir getpid min_backoff H ix recs m s') as (b & Ha & _); [done..|].
    rewrite val_bind. unfold val at 2, run. rewrite Ha. simpl. rewrite val_bind.
    unfold val at 1. simpl. f_equal. by eapply IH; [|apply ready_flag|].
  - destruct (tcpto_asked queuedir Hdir getpid min_backoff H ix recs m s') as (b & Ha & Hb); [done..|].
    rewrite val_bind. unfold run at 1. rewrite Ha. simpl. rewrite val_bind.
    destruct (err_connected queuedir Hdir max_tolerance H ix recs m (set_flagwasthere b s'))
      as (recs' & ? & Hlen & ?); [by apply ready_flag|done..|].
    eapply IH; [|done..]. by rewrite Hlen.
  - rewrite val_bind.
    destruct (err_failed queuedir Hdir max_tolerance H Hvalid ix recs m s')
      as (recs' & ? & Hlen & ?); [done..|].
    eapply IH; [|done..]. by rewrite Hlen.
Qed.

Lemma holds_zero n : (∀ k, k ∈ H → valid_key k) → holds H (replicate n (replicate 32 0%Z)) ∅.
Proof.
  intros Hvalid.
  assert (Hz : ∀ i r, replicate n (replicate 32 0%Z) !! i = Some r → r = replicate 32 0%Z).
  { by intros i r [-> _]%lookup_replicate_1. }
  assert (Hnk : rec_key (replicate 32 0%Z) ∉ H).
  { intros [[Ha|Ha] _]%Hvalid; done. }
  split.
  - intros i j r r' ->%Hz _ _ Hin. done.
  - by intros i r ->%Hz.
  - by intros i r ->%Hz.
  - intros k Hk. rewrite status_none; [apply lookup_empty|]. intros i r ->%Hz <-. done.
Qed.

(** C25. The table of unreachable hosts keeps what it is told.  Let the hosts that
    are ever asked about or entered be at most as many as the file, empty at first,
    has records, 64 at most, and let no call fail; then over any sequence of calls, in
    any order of hosts and at any times, tcpto answers for each host exactly as the
    finite map of the specification: a host is left alone if its last failure that
    counted is less than the backoff ago and at least two of them counted since it was
    last connected to, where a failure counts if it comes max_tolerance seconds after
    the one before.  Of more hosts than records the oldest is forgotten
    ([TcptoRun.oldest_forgotten]). *)
Theorem table_remembers n fd nd l s :
  length queuedir ≤ 1012 → (∀ k, k ∈ H → valid_key k) → size H ≤ n → 1 ≤ n ≤ 64 →
  Forall known l →
  faults (tw s) = [] → drift (tw s) = [] →
  names (tw s) !! (queuedir ++ lit "/lock/tcpto") = Some fd →
  inodes (tw s) !! fd = Some nd → i_data nd = replicate (32 * n) 0%Z →
  val (play queuedir getpid min_backoff max_tolerance l) s =
  remembered (backoff getpid min_backoff) max_tolerance l ∅.
Proof.
  intros Hdir Hvalid Hn H1 Hl Hf Hd Hnm Hi Hdata.
  apply (play_holds (replicate n (replicate 32 0%Z))); [done..|by rewrite length_replicate|done| |by apply holds_zero].
  split; [done|done| | |by rewrite length_replicate].
  - exists fd, nd. split_and!; [done..|]. rewrite Hdata.
    clear. induction n as [|n IH]; [done|]. replace (32 * S n) with (32 + 32 * n) by lia.
    rewrite replicate_add, IH. done.
  - apply Forall_replicate. done.
Qed.
End sequences.

(** Host a fails three times, the second time too soon to count, while b is entered
    and cleared; then a is left alone, and tried again when the backoff is over. *)
Module TcptoRun.
Definition a := IpMx AF_INET [10; 0; 0; 1]%Z 5 [].
Definition b := IpMx AF_INET6 (replicate 16 7%Z) 5 [].
Definition H : gset (Z * list Z) := {[key a; key b]}.
Definition l := [Visit a Failed 1000; Visit b Failed 1010; Visit a Failed 1060;
  Visit a Asked 1061; Visit a Failed 1200; Visit a Asked 1300; Visit b Asked 1300;
  Visit b Connected 1301; Visit a Asked 5039; Visit a Asked 5040; Visit b Failed 6000]%Z.
Definition s := TS (World {[lit "q/lock/tcpto" := 1]}
  {[1 := Inode (replicate 64 0%Z) 0 0]} 2 [] 0 []) false.

Lemma table_remembers_witness :
  val (play (lit "q") 0 MIN_PENALTY MAX_TOLERANCE l) s = [false; true; false; true; false].
Proof.
  rewrite (table_remembers (lit "q") 0 MIN_PENALTY MAX_TOLERANCE H 2 1 (Inode (replicate 64 0%Z) 0 0) l s).
  - vm_compute. reflexivity.
  - vm_compute. lia.
  - intros k Hk. unfold H in Hk. apply elem_of_union in Hk as [->%elem_of_singleton | ->%elem_of_singleton].
    + split; [by left|reflexivity].
    + split; [by right|reflexivity].
  - vm_compute. lia.
  - lia.
  - unfold l. repeat constructor; simpl; try lia; unfold H; set_solver.
  - reflexivity.
  - reflexivity.
  - reflexivity.
  - reflexivity.
  - reflexivity.
Defined.

(** With one record only, an entry of b takes the place of that of a. *)
Definition s1 := TS (World {[lit "q/lock/tcpto" := 1]}
  {[1 := Inode (replicate 32 0%Z) 0 0]} 2 [] 0 []) false.
Example oldest_forgotten :
  val (play (lit "q") 0 MIN_PENALTY MAX_TOLERANCE
    [Visit a Failed 1000; Visit a Failed 1200; Visit a Asked 1300; Visit b Failed 1400; Visit a Asked 1500]%Z) s1 =
  [true; false].
Proof. vm_compute. reflexivity. Qed.
End TcptoRun.
