(* ===== verification/Fmtqfn.v ===== *)
(** * Queue file names: [fmtqfn.c], [fmt_xpid.c]

    [fmtqfn] writes the name of the queue file of a message: a directory, the
    subdirectory [id % conf_split] where the directory is split, and the number.
    The name determines the directory and the number. *)

From S2P Require Import Prelude LibQmail.

Section Fmtqfn.
Context {L : LibQmail}.

(** [conf_split] as [fmtqfn] uses it: [auto_split] unless it is set. *)
Definition split_of (conf_split auto_split : Z) : Z :=
  if decide (conf_split = 0%Z) then auto_split else conf_split.

(** The C string [fmtqfn] leaves at [s]. *)
Definition qfn (conf_split auto_split : Z) (dirslash : bytes) (id : Z) (flagsplit : bool) : bytes :=
  dirslash ++
  (if flagsplit
   then fmt_ulong (id mod wrap 64 (split_of conf_split auto_split))%Z ++ lit "/"
   else []) ++
  fmt_ulong id.

(** The bytes [fmtqfn] writes, its terminating zero included; the result of
    the call is their number, whether or not [s] is null. *)
Definition fmtqfn (conf_split auto_split : Z) (dirslash : bytes) (id : Z) (flagsplit : bool)
    : bytes * nat :=
  let s := qfn conf_split auto_split dirslash id flagsplit ++ [0%Z] in
  (s, length s).

(** The second loop of [fmt_xpid]: hexadecimal digits, least significant last. *)
Fixpoint hex_digits (fuel : nat) (u : Z) (acc : bytes) : bytes :=
  match fuel with
  | 0 => acc
  | S fuel =>
    let d := (u mod 16)%Z in
    let c := if decide (d < 10)%Z then (48 + d)%Z else (87 + d)%Z in
    if decide (u / 16 = 0)%Z then c :: acc else hex_digits fuel (u / 16)%Z (c :: acc)
  end.

(** The first loop: the number of digits. *)
Fixpoint hex_len (fuel : nat) (q : Z) (len : nat) : nat :=
  match fuel with
  | 0 => len
  | S fuel => if decide (15 < q)%Z then hex_len fuel (q / 16)%Z (S len) else len
  end.

(** [fmt_xpid]: nothing is written when [n] bytes do not hold the digits. *)
Definition fmt_xpid (u : Z) (n : nat) : option bytes :=
  if decide (n < hex_len 16 u 1) then None else Some (hex_digits 16 u []).
End Fmtqfn.

(** ** Names are unambiguous *)

(** A queue directory: a name without a slash, and a slash. *)
Definition queue_dir (d : bytes) : Prop := ∃ n, (c_slash ∉ n) ∧ d = n ++ lit "/".

Lemma digits_no_slash s : Forall (λ c, is_digit c = true) s → c_slash ∉ s.
Proof.
  intros Hs Hin. rewrite Forall_forall in Hs. specialize (Hs _ Hin). discriminate.
Qed.

(** Two strings that agree have the same part before their first slash. *)
Lemma slash_split (a b r r' : bytes) :
  c_slash ∉ a → c_slash ∉ b →
  a ++ c_slash :: r = b ++ c_slash :: r' → a = b ∧ r = r'.
Proof.
  revert b. induction a as [|x a IHa]; intros [|y b] Ha Hb Heq; simpl in Heq.
  - by injection Heq.
  - injection Heq as <- _. by apply not_elem_of_cons in Hb as [? _].
  - injection Heq as -> _. by apply not_elem_of_cons in Ha as [? _].
  - injection Heq as -> Heq. apply not_elem_of_cons in Ha as [_ Ha], Hb as [_ Hb].
    by destruct (IHa b Ha Hb Heq) as [-> ->].
Qed.

Lemma slash_none (a b r : bytes) : c_slash ∉ a → a ≠ b ++ c_slash :: r.
Proof. intros Ha ->. set_solver. Qed.

Section names.
Context {L : LibQmail} {LL : LibQmailLaws L}.
Context (conf_split auto_split : Z).
Hypothesis split_pos : (0 < split_of conf_split auto_split < 2 ^ 31)%Z.

Lemma split_ulong id : ulong id → ulong (id mod wrap 64 (split_of conf_split auto_split))%Z.
Proof.
  intros [H0 H1]. unfold wrap. rewrite (Z.mod_small (split_of _ _)) by lia.
  pose proof (Z.mod_pos_bound id (split_of conf_split auto_split)). split; lia.
Qed.

Lemma fmt_no_slash n : ulong n → c_slash ∉ fmt_ulong n.
Proof. intros Hn. rewrite fmt_ulong_ok by done. by apply digits_no_slash, decimal_digits. Qed.

Lemma qfn_inj d d' id id' f f' :
  queue_dir d → queue_dir d' → ulong id → ulong id' →
  qfn conf_split auto_split d id f = qfn conf_split auto_split d' id' f' →
  d = d' ∧ id = id' ∧ f = f'.
Proof.
  intros (n & Hn & ->) (n' & Hn' & ->) Hid Hid' H. unfold qfn in H.
  rewrite <- !(assoc_L app n), <- !(assoc_L app n') in H. simpl in H.
  apply slash_split in H as [-> H]; [|done..]. split; [done|].
  pose proof (split_ulong id Hid). pose proof (split_ulong id' Hid').
  destruct f, f'; simpl in H; rewrite <- ?(assoc_L app) in H; simpl in H.
  - apply slash_split in H as [_ H]; [|by apply fmt_no_slash..].
    by apply fmt_ulong_inj in H as ->.
  - symmetry in H. by apply slash_none in H; [|apply fmt_no_slash].
  - by apply slash_none in H; [|apply fmt_no_slash].
  - by apply fmt_ulong_inj in H as ->.
Qed.

(** The queue files of different messages, and the files of one message in
    different queue directories, have different names, whether or not their
    directories are split. *)
Theorem queue_names_distinct d d' id id' f f' :
  queue_dir d → queue_dir d' → ulong id → ulong id' →
  fmtqfn conf_split auto_split d id f = fmtqfn conf_split auto_split d' id' f' →
  d = d' ∧ id = id'.
Proof.
  intros Hd Hd' Hid Hid' H. unfold fmtqfn in H. injection H as H _.
  apply app_inj_tail in H as [H _]. by apply qfn_inj in H as (? & ? & _).
Qed.
End names.

Lemma queue_names_distinct_witness :
  @fmtqfn reference_libqmail 0 23 (lit "info/") 5 true ≠ @fmtqfn reference_libqmail 0 23 (lit "mess/") 5 true.
Proof.
  intros H. assert (Hd : ∀ n, bool_decide (c_slash ∉ n) = true → queue_dir (n ++ lit "/")).
  { intros n Hn. exists n. split; [by apply bool_decide_eq_true in Hn|done]. }
  destruct (@queue_names_distinct reference_libqmail reference_laws 0 23 ltac:(by vm_compute)
    (lit "info/") (lit "mess/") 5 5 true true (Hd (lit "info") eq_refl) (Hd (lit "mess") eq_refl)
    ltac:(by vm_compute) ltac:(by vm_compute) H) as [E _].
  discriminate E.
Defined.
