(* ===== verification/Quote.v ===== *)
(** * Quoting of mailbox names: [quote.c]

    [quote] writes a box name so that RFC 821 and RFC 822 readers both accept
    it: unchanged when every byte is safe and the dots are in order, and as a
    quoted string otherwise. *)

From S2P Require Import Prelude LibQmail.

(** The table [ok]. *)
Definition ok_table : list Z := [
  0; 0; 0; 0; 0; 0; 0; 0; 0; 0; 0; 0; 0; 0; 0; 0;
  0; 0; 0; 0; 0; 0; 0; 0; 0; 0; 0; 0; 0; 0; 0; 0;
  0; 7; 0; 7; 7; 7; 7; 7; 0; 0; 7; 7; 0; 7; 7; 7;
  7; 7; 7; 7; 7; 7; 7; 7; 7; 7; 0; 0; 0; 7; 0; 7;
  0; 7; 7; 7; 7; 7; 7; 7; 7; 7; 7; 7; 7; 7; 7; 7;
  7; 7; 7; 7; 7; 7; 7; 7; 7; 7; 7; 0; 0; 0; 7; 7;
  7; 7; 7; 7; 7; 7; 7; 7; 7; 7; 7; 7; 7; 7; 7; 7;
  7; 7; 7; 7; 7; 7; 7; 7; 7; 7; 7; 7; 7; 7; 7; 0]%Z.

Definition ok_byte (uch : Z) : bool := negb (bool_decide (ok_table !!! Z.to_nat uch = 0%Z)).

(** The bytes that [doit] escapes. *)
Definition must_escape (ch : Z) : bool :=
  bool_decide (ch = c_cr ∨ ch = c_lf ∨ ch = c_dquote ∨ ch = c_backslash).

(** The loop of [doit]. *)
Fixpoint doit_loop (s : bytes) : bytes :=
  match s with
  | [] => []
  | ch :: s => (if must_escape ch then [c_backslash] else []) ++ ch :: doit_loop s
  end.

(** [doit]: [None] when twice the length plus two overflows an [unsigned int]. *)
Definition doit (sain : bytes) : option bytes :=
  let nlen := (Z.of_nat (length sain) * 2 + 2)%Z in
  if decide (2 ^ 32 ≤ nlen)%Z then None
  else Some (c_dquote :: doit_loop sain ++ [c_dquote]).

(** The last loop of [quote_need]: two dots in a row. *)
Fixpoint double_dot (s : bytes) : bool :=
  match s with
  | a :: (b :: _) as r => bool_decide (a = c_dot ∧ b = c_dot) || double_dot r
  | _ => false
  end.

Definition quote_need (s : bytes) : bool :=
  bool_decide (s = []) ||
  existsb (λ uch, bool_decide (128 ≤ uch)%Z || negb (ok_byte uch)) s ||
  bool_decide (head s = Some c_dot) ||
  bool_decide (last s = Some c_dot) ||
  double_dot s.

Definition quote (sain : bytes) : option bytes :=
  if quote_need sain then doit sain else Some sain.

Section Quote.
Context {L : LibQmail}.

Definition quote2 (s : bytes) : option bytes :=
  if decide (s = []) then Some []
  else
    let j := str_rchr s c_at in
    if decide (length s ≤ j) then quote s
    else match quote (take j s) with
         | None => None
         | Some q => Some (q ++ drop j s)
         end.
End Quote.
