(* ===== verification/SendState.v ===== *)
(** * The state of [qmail-send.c]

    The static variables of qmail-send as one record, with the structures it
    keeps: priority queues, the job table [jo], the delivery tables [del], the
    passes over the channel files, the buffers towards the spawn processes,
    qmail-clean and todo-proc.  Arrays indexed by channel are functions of the
    channel.  Log lines about deliveries are kept as [trace]; other log lines
    and the shared-memory statistics are not modelled. *)

From S2P Require Import Prelude LibQmail Prioq Filesys Fmtqfn.

Inductive channel := Local | Remote.
#[export] Instance channel_eq : EqDecision channel.
Proof. solve_decision. Defined.
Definition channels : list channel := [Local; Remote].

Record job := Job {
  j_id : Z;
  j_refs : Z;          (* if 0, the entry is unused *)
  j_channel : channel;
  j_numtodo : Z;
  j_flaghiteof : bool;
  j_flagdying : bool;
  j_retry : Z;
  j_sender : bytes; j_qqeh : bytes; j_envh : bytes
}.

Record DEL := Del {
  d_used : bool;
  d_j : nat;
  d_delid : Z;
  d_mpos : nat;
  d_recip : bytes
}.

(** One entry of [pass]; [p_id = 0] asks for a new pass. *)
Record passrec := Pass { p_id : Z; p_j : nat; p_fd : nat; p_mpos : nat }.

(** A message handed to qmail-queue. *)
Record outmsg := OutMsg { om_from : bytes; om_to : bytes; om_body : bytes }.

(** The log lines about deliveries and bounces. *)
Inductive event :=
  | EvStart (delid id : Z) (c : channel) (recip : bytes)
  | EvSuccess (delid : Z)
  | EvDeferral (delid : Z)
  | EvFailure (delid : Z)
  | EvMangled (delid : Z)
  | EvOutOfRange (c : channel)
  | EvBounce (id : Z)
  | EvTripleBounce (id : Z)
  | EvDoubleBounce (id : Z)
  | EvDeleteBounce (id : Z)
  | EvEnd (id : Z).

#[export] Instance job_inhabited : Inhabited job :=
  populate (Job 0 0 Local 0 false false 0 [] [] []).
#[export] Instance DEL_inhabited : Inhabited DEL := populate (Del false 0 0 0 []).

Record qsend := QSend {
  wd : world  (* files, pending failures, clock *);
  recent : Z;
  time_needed : Z;
  delayed_jobs : Z;
  flagexitsend : bool;
  flagrunasap : bool;
  flagreadasap : bool;
  flagdetached : Z;
  flagtodoalive : bool;
  flagspawnalive : channel → bool;
  ptype : prioq_type  (* the static [type] of prioq.c *);
  pqchan : channel → prioq;
  pqdone : prioq;
  pqfail : prioq;
  jo : list job  (* [numjobs] is its length *);
  concurrency : channel → nat;
  concurrencyused : channel → Z;
  holdjobs : channel → bool;
  del : channel → list DEL  (* as allocated by [del_init] *);
  masterdelid : Z;
  dline : channel → bytes;
  comm_buf : channel → bytes;
  comm_pos : channel → nat;
  pass : channel → passrec;
  todoline : bytes;
  flagcleanup : bool;
  cleanuptime : Z;
  mapvdoms : bytes → option bytes  (* virtual domains, a constmap *);
  orig_recip : bytes;
  orig_recip_len : nat;
  to_clean : bytes  (* bytes written to qmail-clean *);
  from_clean : list Z  (* replies qmail-clean will send; none left: end of file *);
  to_todo : bytes  (* bytes written to todo-proc *);
  outbox : list outmsg  (* messages accepted by qmail-queue *);
  ub : bool  (* an array was read or written outside its bounds *);
  trace : list event  (* the log, most recent first *)
}.

Definition set_wd (v : world) (s : qsend) : qsend :=
  QSend v (recent s) (time_needed s) (delayed_jobs s) (flagexitsend s) (flagrunasap s) (flagreadasap s) (flagdetached s) (flagtodoalive s) (flagspawnalive s) (ptype s) (pqchan s) (pqdone s) (pqfail s) (jo s) (concurrency s) (concurrencyused s) (holdjobs s) (del s) (masterdelid s) (dline s) (comm_buf s) (comm_pos s) (pass s) (todoline s) (flagcleanup s) (cleanuptime s) (mapvdoms s) (orig_recip s) (orig_recip_len s) (to_clean s) (from_clean s) (to_todo s) (outbox s) (ub s) (trace s).
Definition set_recent (v : Z) (s : qsend) : qsend :=
  QSend (wd s) v (time_needed s) (delayed_jobs s) (flagexitsend s) (flagrunasap s) (flagreadasap s) (flagdetached s) (flagtodoalive s) (flagspawnalive s) (ptype s) (pqchan s) (pqdone s) (pqfail s) (jo s) (concurrency s) (concurrencyused s) (holdjobs s) (del s) (masterdelid s) (dline s) (comm_buf s) (comm_pos s) (pass s) (todoline s) (flagcleanup s) (cleanuptime s) (mapvdoms s) (orig_recip s) (orig_recip_len s) (to_clean s) (from_clean s) (to_todo s) (outbox s) (ub s) (trace s).
Definition set_time_needed (v : Z) (s : qsend) : qsend :=
  QSend (wd s) (recent s) v (delayed_jobs s) (flagexitsend s) (flagrunasap s) (flagreadasap s) (flagdetached s) (flagtodoalive s) (flagspawnalive s) (ptype s) (pqchan s) (pqdone s) (pqfail s) (jo s) (concurrency s) (concurrencyused s) (holdjobs s) (del s) (masterdelid s) (dline s) (comm_buf s) (comm_pos s) (pass s) (todoline s) (flagcleanup s) (cleanuptime s) (mapvdoms s) (orig_recip s) (orig_recip_len s) (to_clean s) (from_clean s) (to_todo s) (outbox s) (ub s) (trace s).
Definition set_delayed_jobs (v : Z) (s : qsend) : qsend :=
  QSend (wd s) (recent s) (time_needed s) v (flagexitsend s) (flagrunasap s) (flagreadasap s) (flagdetached s) (flagtodoalive s) (flagspawnalive s) (ptype s) (pqchan s) (pqdone s) (pqfail s) (jo s) (concurrency s) (concurrencyused s) (holdjobs s) (del s) (masterdelid s) (dline s) (comm_buf s) (comm_pos s) (pass s) (todoline s) (flagcleanup s) (cleanuptime s) (mapvdoms s) (orig_recip s) (orig_recip_len s) (to_clean s) (from_clean s) (to_todo s) (outbox s) (ub s) (trace s).
Definition set_flagexitsend (v : bool) (s : qsend) : qsend :=
  QSend (wd s) (recent s) (time_needed s) (delayed_jobs s) v (flagrunasap s) (flagreadasap s) (flagdetached s) (flagtodoalive s) (flagspawnalive s) (ptype s) (pqchan s) (pqdone s) (pqfail s) (jo s) (concurrency s) (concurrencyused s) (holdjobs s) (del s) (masterdelid s) (dline s) (comm_buf s) (comm_pos s) (pass s) (todoline s) (flagcleanup s) (cleanuptime s) (mapvdoms s) (orig_recip s) (orig_recip_len s) (to_clean s) (from_clean s) (to_todo s) (outbox s) (ub s) (trace s).
Definition set_flagrunasap (v : bool) (s : qsend) : qsend :=
  QSend (wd s) (recent s) (time_needed s) (delayed_jobs s) (flagexitsend s) v (flagreadasap s) (flagdetached s) (flagtodoalive s) (flagspawnalive s) (ptype s) (pqchan s) (pqdone s) (pqfail s) (jo s) (concurrency s) (concurrencyused s) (holdjobs s) (del s) (masterdelid s) (dline s) (comm_buf s) (comm_pos s) (pass s) (todoline s) (flagcleanup s) (cleanuptime s) (mapvdoms s) (orig_recip s) (orig_recip_len s) (to_clean s) (from_clean s) (to_todo s) (outbox s) (ub s) (trace s).
Definition set_flagreadasap (v : bool) (s : qsend) : qsend :=
  QSend (wd s) (recent s) (time_needed s) (delayed_jobs s) (flagexitsend s) (flagrunasap s) v (flagdetached s) (flagtodoalive s) (flagspawnalive s) (ptype s) (pqchan s) (pqdone s) (pqfail s) (jo s) (concurrency s) (concurrencyused s) (holdjobs s) (del s) (masterdelid s) (dline s) (comm_buf s) (comm_pos s) (pass s) (todoline s) (flagcleanup s) (cleanuptime s) (mapvdoms s) (orig_recip s) (orig_recip_len s) (to_clean s) (from_clean s) (to_todo s) (outbox s) (ub s) (trace s).
Definition set_flagdetached (v : Z) (s : qsend) : qsend :=
  QSend (wd s) (recent s) (time_needed s) (delayed_jobs s) (flagexitsend s) (flagrunasap s) (flagreadasap s) v (flagtodoalive s) (flagspawnalive s) (ptype s) (pqchan s) (pqdone s) (pqfail s) (jo s) (concurrency s) (concurrencyused s) (holdjobs s) (del s) (masterdelid s) (dline s) (comm_buf s) (comm_pos s) (pass s) (todoline s) (flagcleanup s) (cleanuptime s) (mapvdoms s) (orig_recip s) (orig_recip_len s) (to_clean s) (from_clean s) (to_todo s) (outbox s) (ub s) (trace s).
Definition set_flagtodoalive (v : bool) (s : qsend) : qsend :=
  QSend (wd s) (recent s) (time_needed s) (delayed_jobs s) (flagexitsend s) (flagrunasap s) (flagreadasap s) (flagdetached s) v (flagspawnalive s) (ptype s) (pqchan s) (pqdone s) (pqfail s) (jo s) (concurrency s) (concurrencyused s) (holdjobs s) (del s) (masterdelid s) (dline s) (comm_buf s) (comm_pos s) (pass s) (todoline s) (flagcleanup s) (cleanuptime s) (mapvdoms s) (orig_recip s) (orig_recip_len s) (to_clean s) (from_clean s) (to_todo s) (outbox s) (ub s) (trace s).
Definition set_flagspawnalive (v : channel → bool) (s : qsend) : qsend :=
  QSend (wd s) (recent s) (time_needed s) (delayed_jobs s) (flagexitsend s) (flagrunasap s) (flagreadasap s) (flagdetached s) (flagtodoalive s) v (ptype s) (pqchan s) (pqdone s) (pqfail s) (jo s) (concurrency s) (concurrencyused s) (holdjobs s) (del s) (masterdelid s) (dline s) (comm_buf s) (comm_pos s) (pass s) (todoline s) (flagcleanup s) (cleanuptime s) (mapvdoms s) (orig_recip s) (orig_recip_len s) (to_clean s) (from_clean s) (to_todo s) (outbox s) (ub s) (trace s).
Definition set_ptype (v : prioq_type) (s : qsend) : qsend :=
  QSend (wd s) (recent s) (time_needed s) (delayed_jobs s) (flagexitsend s) (flagrunasap s) (flagreadasap s) (flagdetached s) (flagtodoalive s) (flagspawnalive s) v (pqchan s) (pqdone s) (pqfail s) (jo s) (concurrency s) (concurrencyused s) (holdjobs s) (del s) (masterdelid s) (dline s) (comm_buf s) (comm_pos s) (pass s) (todoline s) (flagcleanup s) (cleanuptime s) (mapvdoms s) (orig_recip s) (orig_recip_len s) (to_clean s) (from_clean s) (to_todo s) (outbox s) (ub s) (trace s).
Definition set_pqchan (v : channel → prioq) (s : qsend) : qsend :=
  QSend (wd s) (recent s) (time_needed s) (delayed_jobs s) (flagexitsend s) (flagrunasap s) (flagreadasap s) (flagdetached s) (flagtodoalive s) (flagspawnalive s) (ptype s) v (pqdone s) (pqfail s) (jo s) (concurrency s) (concurrencyused s) (holdjobs s) (del s) (masterdelid s) (dline s) (comm_buf s) (comm_pos s) (pass s) (todoline s) (flagcleanup s) (cleanuptime s) (mapvdoms s) (orig_recip s) (orig_recip_len s) (to_clean s) (from_clean s) (to_todo s) (outbox s) (ub s) (trace s).
Definition set_pqdone (v : prioq) (s : qsend) : qsend :=
  QSend (wd s) (recent s) (time_needed s) (delayed_jobs s) (flagexitsend s) (flagrunasap s) (flagreadasap s) (flagdetached s) (flagtodoalive s) (flagspawnalive s) (ptype s) (pqchan s) v (pqfail s) (jo s) (concurrency s) (concurrencyused s) (holdjobs s) (del s) (masterdelid s) (dline s) (comm_buf s) (comm_pos s) (pass s) (todoline s) (flagcleanup s) (cleanuptime s) (mapvdoms s) (orig_recip s) (orig_recip_len s) (to_clean s) (from_clean s) (to_todo s) (outbox s) (ub s) (trace s).
Definition set_pqfail (v : prioq) (s : qsend) : qsend :=
  QSend (wd s) (recent s) (time_needed s) (delayed_jobs s) (flagexitsend s) (flagrunasap s) (flagreadasap s) (flagdetached s) (flagtodoalive s) (flagspawnalive s) (ptype s) (pqchan s) (pqdone s) v (jo s) (concurrency s) (concurrencyused s) (holdjobs s) (del s) (masterdelid s) (dline s) (comm_buf s) (comm_pos s) (pass s) (todoline s) (flagcleanup s) (cleanuptime s) (mapvdoms s) (orig_recip s) (orig_recip_len s) (to_clean s) (from_clean s) (to_todo s) (outbox s) (ub s) (trace s).
Definition set_jo (v : list job) (s : qsend) : qsend :=
  QSend (wd s) (recent s) (time_needed s) (delayed_jobs s) (flagexitsend s) (flagrunasap s) (flagreadasap s) (flagdetached s) (flagtodoalive s) (flagspawnalive s) (ptype s) (pqchan s) (pqdone s) (pqfail s) v (concurrency s) (concurrencyused s) (holdjobs s) (del s) (masterdelid s) (dline s) (comm_buf s) (comm_pos s) (pass s) (todoline s) (flagcleanup s) (cleanuptime s) (mapvdoms s) (orig_recip s) (orig_recip_len s) (to_clean s) (from_clean s) (to_todo s) (outbox s) (ub s) (trace s).
Definition set_concurrency (v : channel → nat) (s : qsend) : qsend :=
  QSend (wd s) (recent s) (time_needed s) (delayed_jobs s) (flagexitsend s) (flagrunasap s) (flagreadasap s) (flagdetached s) (flagtodoalive s) (flagspawnalive s) (ptype s) (pqchan s) (pqdone s) (pqfail s) (jo s) v (concurrencyused s) (holdjobs s) (del s) (masterdelid s) (dline s) (comm_buf s) (comm_pos s) (pass s) (todoline s) (flagcleanup s) (cleanuptime s) (mapvdoms s) (orig_recip s) (orig_recip_len s) (to_clean s) (from_clean s) (to_todo s) (outbox s) (ub s) (trace s).
Definition set_concurrencyused (v : channel → Z) (s : qsend) : qsend :=
  QSend (wd s) (recent s) (time_needed s) (delayed_jobs s) (flagexitsend s) (flagrunasap s) (flagreadasap s) (flagdetached s) (flagtodoalive s) (flagspawnalive s) (ptype s) (pqchan s) (pqdone s) (pqfail s) (jo s) (concurrency s) v (holdjobs s) (del s) (masterdelid s) (dline s) (comm_buf s) (comm_pos s) (pass s) (todoline s) (flagcleanup s) (cleanuptime s) (mapvdoms s) (orig_recip s) (orig_recip_len s) (to_clean s) (from_clean s) (to_todo s) (outbox s) (ub s) (trace s).
Definition set_holdjobs (v : channel → bool) (s : qsend) : qsend :=
  QSend (wd s) (recent s) (time_needed s) (delayed_jobs s) (flagexitsend s) (flagrunasap s) (flagreadasap s) (flagdetached s) (flagtodoalive s) (flagspawnalive s) (ptype s) (pqchan s) (pqdone s) (pqfail s) (jo s) (concurrency s) (concurrencyused s) v (del s) (masterdelid s) (dline s) (comm_buf s) (comm_pos s) (pass s) (todoline s) (flagcleanup s) (cleanuptime s) (mapvdoms s) (orig_recip s) (orig_recip_len s) (to_clean s) (from_clean s) (to_todo s) (outbox s) (ub s) (trace s).
Definition set_del (v : channel → list DEL) (s : qsend) : qsend :=
  QSend (wd s) (recent s) (time_needed s) (delayed_jobs s) (flagexitsend s) (flagrunasap s) (flagreadasap s) (flagdetached s) (flagtodoalive s) (flagspawnalive s) (ptype s) (pqchan s) (pqdone s) (pqfail s) (jo s) (concurrency s) (concurrencyused s) (holdjobs s) v (masterdelid s) (dline s) (comm_buf s) (comm_pos s) (pass s) (todoline s) (flagcleanup s) (cleanuptime s) (mapvdoms s) (orig_recip s) (orig_recip_len s) (to_clean s) (from_clean s) (to_todo s) (outbox s) (ub s) (trace s).
Definition set_masterdelid (v : Z) (s : qsend) : qsend :=
  QSend (wd s) (recent s) (time_needed s) (delayed_jobs s) (flagexitsend s) (flagrunasap s) (flagreadasap s) (flagdetached s) (flagtodoalive s) (flagspawnalive s) (ptype s) (pqchan s) (pqdone s) (pqfail s) (jo s) (concurrency s) (concurrencyused s) (holdjobs s) (del s) v (dline s) (comm_buf s) (comm_pos s) (pass s) (todoline s) (flagcleanup s) (cleanuptime s) (mapvdoms s) (orig_recip s) (orig_recip_len s) (to_clean s) (from_clean s) (to_todo s) (outbox s) (ub s) (trace s).
Definition set_dline (v : channel → bytes) (s : qsend) : qsend :=
  QSend (wd s) (recent s) (time_needed s) (delayed_jobs s) (flagexitsend s) (flagrunasap s) (flagreadasap s) (flagdetached s) (flagtodoalive s) (flagspawnalive s) (ptype s) (pqchan s) (pqdone s) (pqfail s) (jo s) (concurrency s) (concurrencyused s) (holdjobs s) (del s) (masterdelid s) v (comm_buf s) (comm_pos s) (pass s) (todoline s) (flagcleanup s) (cleanuptime s) (mapvdoms s) (orig_recip s) (orig_recip_len s) (to_clean s) (from_clean s) (to_todo s) (outbox s) (ub s) (trace s).
Definition set_comm_buf (v : channel → bytes) (s : qsend) : qsend :=
  QSend (wd s) (recent s) (time_needed s) (delayed_jobs s) (flagexitsend s) (flagrunasap s) (flagreadasap s) (flagdetached s) (flagtodoalive s) (flagspawnalive s) (ptype s) (pqchan s) (pqdone s) (pqfail s) (jo s) (concurrency s) (concurrencyused s) (holdjobs s) (del s) (masterdelid s) (dline s) v (comm_pos s) (pass s) (todoline s) (flagcleanup s) (cleanuptime s) (mapvdoms s) (orig_recip s) (orig_recip_len s) (to_clean s) (from_clean s) (to_todo s) (outbox s) (ub s) (trace s).
Definition set_comm_pos (v : channel → nat) (s : qsend) : qsend :=
  QSend (wd s) (recent s) (time_needed s) (delayed_jobs s) (flagexitsend s) (flagrunasap s) (flagreadasap s) (flagdetached s) (flagtodoalive s) (flagspawnalive s) (ptype s) (pqchan s) (pqdone s) (pqfail s) (jo s) (concurrency s) (concurrencyused s) (holdjobs s) (del s) (masterdelid s) (dline s) (comm_buf s) v (pass s) (todoline s) (flagcleanup s) (cleanuptime s) (mapvdoms s) (orig_recip s) (orig_recip_len s) (to_clean s) (from_clean s) (to_todo s) (outbox s) (ub s) (trace s).
Definition set_pass (v : channel → passrec) (s : qsend) : qsend :=
  QSend (wd s) (recent s) (time_needed s) (delayed_jobs s) (flagexitsend s) (flagrunasap s) (flagreadasap s) (flagdetached s) (flagtodoalive s) (flagspawnalive s) (ptype s) (pqchan s) (pqdone s) (pqfail s) (jo s) (concurrency s) (concurrencyused s) (holdjobs s) (del s) (masterdelid s) (dline s) (comm_buf s) (comm_pos s) v (todoline s) (flagcleanup s) (cleanuptime s) (mapvdoms s) (orig_recip s) (orig_recip_len s) (to_clean s) (from_clean s) (to_todo s) (outbox s) (ub s) (trace s).
Definition set_todoline (v : bytes) (s : qsend) : qsend :=
  QSend (wd s) (recent s) (time_needed s) (delayed_jobs s) (flagexitsend s) (flagrunasap s) (flagreadasap s) (flagdetached s) (flagtodoalive s) (flagspawnalive s) (ptype s) (pqchan s) (pqdone s) (pqfail s) (jo s) (concurrency s) (concurrencyused s) (holdjobs s) (del s) (masterdelid s) (dline s) (comm_buf s) (comm_pos s) (pass s) v (flagcleanup s) (cleanuptime s) (mapvdoms s) (orig_recip s) (orig_recip_len s) (to_clean s) (from_clean s) (to_todo s) (outbox s) (ub s) (trace s).
Definition set_flagcleanup (v : bool) (s : qsend) : qsend :=
  QSend (wd s) (recent s) (time_needed s) (delayed_jobs s) (flagexitsend s) (flagrunasap s) (flagreadasap s) (flagdetached s) (flagtodoalive s) (flagspawnalive s) (ptype s) (pqchan s) (pqdone s) (pqfail s) (jo s) (concurrency s) (concurrencyused s) (holdjobs s) (del s) (masterdelid s) (dline s) (comm_buf s) (comm_pos s) (pass s) (todoline s) v (cleanuptime s) (mapvdoms s) (orig_recip s) (orig_recip_len s) (to_clean s) (from_clean s) (to_todo s) (outbox s) (ub s) (trace s).
Definition set_cleanuptime (v : Z) (s : qsend) : qsend :=
  QSend (wd s) (recent s) (time_needed s) (delayed_jobs s) (flagexitsend s) (flagrunasap s) (flagreadasap s) (flagdetached s) (flagtodoalive s) (flagspawnalive s) (ptype s) (pqchan s) (pqdone s) (pqfail s) (jo s) (concurrency s) (concurrencyused s) (holdjobs s) (del s) (masterdelid s) (dline s) (comm_buf s) (comm_pos s) (pass s) (todoline s) (flagcleanup s) v (mapvdoms s) (orig_recip s) (orig_recip_len s) (to_clean s) (from_clean s) (to_todo s) (outbox s) (ub s) (trace s).
Definition set_mapvdoms (v : bytes → option bytes) (s : qsend) : qsend :=
  QSend (wd s) (recent s) (time_needed s) (delayed_jobs s) (flagexitsend s) (flagrunasap s) (flagreadasap s) (flagdetached s) (flagtodoalive s) (flagspawnalive s) (ptype s) (pqchan s) (pqdone s) (pqfail s) (jo s) (concurrency s) (concurrencyused s) (holdjobs s) (del s) (masterdelid s) (dline s) (comm_buf s) (comm_pos s) (pass s) (todoline s) (flagcleanup s) (cleanuptime s) v (orig_recip s) (orig_recip_len s) (to_clean s) (from_clean s) (to_todo s) (outbox s) (ub s) (trace s).
Definition set_orig_recip (v : bytes) (s : qsend) : qsend :=
  QSend (wd s) (recent s) (time_needed s) (delayed_jobs s) (flagexitsend s) (flagrunasap s) (flagreadasap s) (flagdetached s) (flagtodoalive s) (flagspawnalive s) (ptype s) (pqchan s) (pqdone s) (pqfail s) (jo s) (concurrency s) (concurrencyused s) (holdjobs s) (del s) (masterdelid s) (dline s) (comm_buf s) (comm_pos s) (pass s) (todoline s) (flagcleanup s) (cleanuptime s) (mapvdoms s) v (orig_recip_len s) (to_clean s) (from_clean s) (to_todo s) (outbox s) (ub s) (trace s).
Definition set_orig_recip_len (v : nat) (s : qsend) : qsend :=
  QSend (wd s) (recent s) (time_needed s) (delayed_jobs s) (flagexitsend s) (flagrunasap s) (flagreadasap s) (flagdetached s) (flagtodoalive s) (flagspawnalive s) (ptype s) (pqchan s) (pqdone s) (pqfail s) (jo s) (concurrency s) (concurrencyused s) (holdjobs s) (del s) (masterdelid s) (dline s) (comm_buf s) (comm_pos s) (pass s) (todoline s) (flagcleanup s) (cleanuptime s) (mapvdoms s) (orig_recip s) v (to_clean s) (from_clean s) (to_todo s) (outbox s) (ub s) (trace s).
Definition set_to_clean (v : bytes) (s : qsend) : qsend :=
  QSend (wd s) (recent s) (time_needed s) (delayed_jobs s) (flagexitsend s) (flagrunasap s) (flagreadasap s) (flagdetached s) (flagtodoalive s) (flagspawnalive s) (ptype s) (pqchan s) (pqdone s) (pqfail s) (jo s) (concurrency s) (concurrencyused s) (holdjobs s) (del s) (masterdelid s) (dline s) (comm_buf s) (comm_pos s) (pass s) (todoline s) (flagcleanup s) (cleanuptime s) (mapvdoms s) (orig_recip s) (orig_recip_len s) v (from_clean s) (to_todo s) (outbox s) (ub s) (trace s).
Definition set_from_clean (v : list Z) (s : qsend) : qsend :=
  QSend (wd s) (recent s) (time_needed s) (delayed_jobs s) (flagexitsend s) (flagrunasap s) (flagreadasap s) (flagdetached s) (flagtodoalive s) (flagspawnalive s) (ptype s) (pqchan s) (pqdone s) (pqfail s) (jo s) (concurrency s) (concurrencyused s) (holdjobs s) (del s) (masterdelid s) (dline s) (comm_buf s) (comm_pos s) (pass s) (todoline s) (flagcleanup s) (cleanuptime s) (mapvdoms s) (orig_recip s) (orig_recip_len s) (to_clean s) v (to_todo s) (outbox s) (ub s) (trace s).
Definition set_to_todo (v : bytes) (s : qsend) : qsend :=
  QSend (wd s) (recent s) (time_needed s) (delayed_jobs s) (flagexitsend s) (flagrunasap s) (flagreadasap s) (flagdetached s) (flagtodoalive s) (flagspawnalive s) (ptype s) (pqchan s) (pqdone s) (pqfail s) (jo s) (concurrency s) (concurrencyused s) (holdjobs s) (del s) (masterdelid s) (dline s) (comm_buf s) (comm_pos s) (pass s) (todoline s) (flagcleanup s) (cleanuptime s) (mapvdoms s) (orig_recip s) (orig_recip_len s) (to_clean s) (from_clean s) v (outbox s) (ub s) (trace s).
Definition set_outbox (v : list outmsg) (s : qsend) : qsend :=
  QSend (wd s) (recent s) (time_needed s) (delayed_jobs s) (flagexitsend s) (flagrunasap s) (flagreadasap s) (flagdetached s) (flagtodoalive s) (flagspawnalive s) (ptype s) (pqchan s) (pqdone s) (pqfail s) (jo s) (concurrency s) (concurrencyused s) (holdjobs s) (del s) (masterdelid s) (dline s) (comm_buf s) (comm_pos s) (pass s) (todoline s) (flagcleanup s) (cleanuptime s) (mapvdoms s) (orig_recip s) (orig_recip_len s) (to_clean s) (from_clean s) (to_todo s) v (ub s) (trace s).
Definition set_ub (v : bool) (s : qsend) : qsend :=
  QSend (wd s) (recent s) (time_needed s) (delayed_jobs s) (flagexitsend s) (flagrunasap s) (flagreadasap s) (flagdetached s) (flagtodoalive s) (flagspawnalive s) (ptype s) (pqchan s) (pqdone s) (pqfail s) (jo s) (concurrency s) (concurrencyused s) (holdjobs s) (del s) (masterdelid s) (dline s) (comm_buf s) (comm_pos s) (pass s) (todoline s) (flagcleanup s) (cleanuptime s) (mapvdoms s) (orig_recip s) (orig_recip_len s) (to_clean s) (from_clean s) (to_todo s) (outbox s) v (trace s).
Definition set_trace (v : list event) (s : qsend) : qsend :=
  QSend (wd s) (recent s) (time_needed s) (delayed_jobs s) (flagexitsend s) (flagrunasap s) (flagreadasap s) (flagdetached s) (flagtodoalive s) (flagspawnalive s) (ptype s) (pqchan s) (pqdone s) (pqfail s) (jo s) (concurrency s) (concurrencyused s) (holdjobs s) (del s) (masterdelid s) (dline s) (comm_buf s) (comm_pos s) (pass s) (todoline s) (flagcleanup s) (cleanuptime s) (mapvdoms s) (orig_recip s) (orig_recip_len s) (to_clean s) (from_clean s) (to_todo s) (outbox s) (ub s) v.

(** Options fixed when the daemon starts. *)
Record config := Config {
  conf_split : Z; auto_split : Z;
  bigtodo : bool;
  lifetime : Z; bouncelifetime : Z;
  do_ratelimit : bool;
  ossified : Z;
  junk : Z  (* what an uninitialised automatic variable holds *)
}.

Notation "'M' A" := (ST qsend A) (at level 10, A at next level, only parsing) : mta_scope.

(** A file-system call of the daemon. *)
Definition sys {A} (m : ST world A) : M A :=
  λ s, let '(a, w) := m (wd s) in (a, set_wd w s).
Lemma wp_sys {A} (m : ST world A) (Q : A → qsend → Prop) s :
  wp m (λ a w, Q a (set_wd w s)) (wd s) → wp (sys m) Q s.
Proof. unfold wp, sys. by destruct (m (wd s)). Qed.

(** A field of an element of the array [jo], [del[c]]. *)
Definition upd_job (j : nat) (f : job → job) (s : qsend) : qsend :=
  set_jo (alter f j (jo s)) s.
Definition upd_del (c : channel) (i : nat) (f : DEL → DEL) (s : qsend) : qsend :=
  set_del (upd (del s) c (alter f i (del s c))) s.
Definition log (e : event) : M unit := modify (λ s, set_trace (e :: trace s) s).

Definition set_refs v (x : job) : job :=
  Job (j_id x) v (j_channel x) (j_numtodo x) (j_flaghiteof x) (j_flagdying x) (j_retry x)
    (j_sender x) (j_qqeh x) (j_envh x).
Definition set_numtodo v (x : job) : job :=
  Job (j_id x) (j_refs x) (j_channel x) v (j_flaghiteof x) (j_flagdying x) (j_retry x)
    (j_sender x) (j_qqeh x) (j_envh x).
Definition set_hiteof v (x : job) : job :=
  Job (j_id x) (j_refs x) (j_channel x) (j_numtodo x) v (j_flagdying x) (j_retry x)
    (j_sender x) (j_qqeh x) (j_envh x).
Definition set_retry v (x : job) : job :=
  Job (j_id x) (j_refs x) (j_channel x) (j_numtodo x) (j_flaghiteof x) (j_flagdying x) v
    (j_sender x) (j_qqeh x) (j_envh x).

Section names.
Context {L : LibQmail} (cfg : config).

Definition chanaddr (c : channel) : bytes :=
  match c with Local => lit "local/" | Remote => lit "remote/" end.
Definition chanskip (c : channel) : Z := match c with Local => 10 | Remote => 20 end.

(** [fn1.s] or [fn2.s] after the call, as a C string. *)
Definition fnmake_info (id : Z) : bytes := qfn (conf_split cfg) (auto_split cfg) (lit "info/") id true.
Definition fnmake_todo (id : Z) : bytes := qfn (conf_split cfg) (auto_split cfg) (lit "todo/") id (bigtodo cfg).
Definition fnmake_mess (id : Z) : bytes := qfn (conf_split cfg) (auto_split cfg) (lit "mess/") id true.
Definition fnmake_foop (id : Z) : bytes := qfn (conf_split cfg) (auto_split cfg) (lit "foop/") id false.
Definition fnmake_split (id : Z) : bytes := qfn (conf_split cfg) (auto_split cfg) [] id true.
Definition fnmake_bounce (id : Z) : bytes := qfn (conf_split cfg) (auto_split cfg) (lit "bounce/") id false.
Definition fnmake_chanaddr (id : Z) (c : channel) : bytes :=
  qfn (conf_split cfg) (auto_split cfg) (chanaddr c) id true.
End names.

Definition SLEEP_FUZZ : Z := 1.
Definition SLEEP_FOREVER : Z := 86400.
Definition SLEEP_CLEANUP : Z := 76431.
Definition SLEEP_SYSFAIL : Z := 123.
Definition REPORTMAX : nat := Z.to_nat 10000.
