(* ===== verification/SendQueue.v ===== *)
(** * The priority queues and the job table of [qmail-send.c] *)

From S2P Require Import Prelude LibQmail Prioq Filesys Fmtqfn SendState.

Section SendQueue.
Context {L : LibQmail} (cfg : config).
Abbreviation chanfile := (fnmake_chanaddr cfg).

(** ** Priority queues

    [while (!prioq_insert(min, &pq, &pe)) nomem(argv0);] *)

Definition insert_pq (pq : prioq) (pe : prioq_elt) (s : qsend) : prioq * prioq_type :=
  let '(_, ty, pq') := prioq_insert true (ptype s) Min pq pe in (pq', ty).

Definition insert_chan (c : channel) (pe : prioq_elt) : M unit :=
  modify (λ s, let '(pq, ty) := insert_pq (pqchan s c) pe s in
               set_ptype ty (set_pqchan (upd (pqchan s) c pq) s)).
Definition insert_done (pe : prioq_elt) : M unit :=
  modify (λ s, let '(pq, ty) := insert_pq (pqdone s) pe s in set_ptype ty (set_pqdone pq s)).
Definition insert_fail (pe : prioq_elt) : M unit :=
  modify (λ s, let '(pq, ty) := insert_pq (pqfail s) pe s in set_ptype ty (set_pqfail pq s)).

Definition del_chan (c : channel) : M unit :=
  modify (λ s, set_pqchan (upd (pqchan s) c (prioq_del (ptype s) (pqchan s c))) s).
Definition del_done : M unit := modify (λ s, set_pqdone (prioq_del (ptype s) (pqdone s)) s).
Definition del_fail : M unit := modify (λ s, set_pqfail (prioq_del (ptype s) (pqfail s)) s).

(** The first loop of [pqadd]: the entry for each channel whose file exists;
    [None] when a [stat] failed. *)
Fixpoint pqadd_stat (id : Z) (delayedflag : bool) (cs : list channel)
    : M (option (list (channel * prioq_elt))) :=
  match cs with
  | [] => mret (Some [])
  | c :: cs =>
    r ← sys (stat (chanfile id c));
    match r with
    | inl ENOENT => pqadd_stat id delayedflag cs
    | inl _ => mret None
    | inr st =>
      rec ← gets recent;
      rec ← (if decide (rec = 0%Z)
             then t ← sys now; modify (set_recent t);; mret t
             else mret rec);
      rest ← pqadd_stat id delayedflag cs;
      mret (match rest with
            | None => None
            | Some l => Some ((c, PE (if delayedflag then rec else i_mtime st) id
                                     (if delayedflag then 1 else 0)%Z) :: l)
            end)
    end
  end.

Definition pqadd_fail (id : Z) : M unit :=
  t ← sys now; insert_fail (PE (t + SLEEP_SYSFAIL) id (junk cfg)).

Fixpoint insert_chans (l : list (channel * prioq_elt)) : M unit :=
  match l with
  | [] => skip
  | (c, pe) :: l => insert_chan c pe;; insert_chans l
  end.

Definition pqadd (id : Z) (delayedflag : bool) : M unit :=
  r ← sys (stat (fnmake_info cfg id));
  match r with
  | inl ENOENT => skip
  | inl _ => pqadd_fail id
  | inr _ =>
    r ← sys (stat (fnmake_todo cfg id));
    match r with
    | inr _ => skip
    | inl ENOENT =>
      l ← pqadd_stat id delayedflag channels;
      match l with
      | None => pqadd_fail id
      | Some [] => t ← sys now; insert_done (PE t id 0)
      | Some l => insert_chans l
      end
    | inl _ => pqadd_fail id
    end
  end.

Definition count_delayed (pq : prioq) : nat :=
  length (filter (λ pe, delayed pe ≠ 0%Z) pq).
Definition delayed_job_count (s : qsend) : Z :=
  Z.of_nat (count_delayed (pqchan s Local) + count_delayed (pqchan s Remote)).

(** [pqstart] over the successive results of [readsubdir_next] on [info]: its
    code and the message number. *)
Fixpoint pqstart_loop (entries : list (Z * Z)) : M unit :=
  match entries with
  | [] => skip
  | (x, id) :: entries =>
    when (bool_decide (0 < x)%Z) (pqadd id (do_ratelimit cfg));; pqstart_loop entries
  end.
Definition pqstart (entries : list (Z * Z)) : M unit :=
  pqstart_loop entries;;
  modify (λ s, set_delayed_jobs (if do_ratelimit cfg then delayed_job_count s else 0%Z) s).

(** [pqfinish]: store the retry times in the channel files. *)
Fixpoint pqfinish_chan (fuel : nat) (c : channel) : M unit :=
  match fuel with
  | 0 => skip
  | S fuel =>
    s ← getS;
    match prioq_get (pqchan s c) with
    | None => skip
    | Some pe => del_chan c;; _ ← sys (utimes (chanfile (pid pe) c) (dt pe));
                 pqfinish_chan fuel c
    end
  end.
Definition pqfinish : M unit :=
  s ← getS;
  pqfinish_chan (length (pqchan s Local)) Local;;
  pqfinish_chan (length (pqchan s Remote)) Remote.

Definition pqrun : M unit :=
  modify (λ s, set_pqchan (λ c, map (λ pe, PE (recent s) (pid pe) (delayed pe)) (pqchan s c)) s).

(** ** Jobs *)

Definition job_avail (s : qsend) : option nat :=
  fst <$> list_find (λ x, j_refs x = 0%Z) (jo s).

Definition job_open (id : Z) (c : channel) (j : nat) : M unit :=
  modify (upd_job j (λ x, Job id 1 c 0 false (j_flagdying x) (j_retry x)
                            (j_sender x) (j_qqeh x) (j_envh x))).

(** The loop of [job_close] over the other channels: does another channel still
    have work for the message? *)
Fixpoint more_channels (id : Z) (own : channel) (cs : list channel) : M bool :=
  match cs with
  | [] => mret false
  | c :: cs =>
    if decide (c = own) then more_channels id own cs
    else
      r ← sys (stat (chanfile id c));
      match r with
      | inr _ => mret true
      | inl ENOENT => more_channels id own cs
      | inl _ => mret false
      end
  end.

(** The end of [job_close]: back to the channel's queue. *)
Definition job_requeue (x : job) (dt : Z) : M unit :=
  insert_chan (j_channel x) (PE dt (j_id x) (if do_ratelimit cfg then 1 else 0)%Z).

Definition job_close (j : nat) : M unit :=
  modify (upd_job j (λ x, set_refs (j_refs x - 1) x));;
  s ← getS;
  let x := jo s !!! j in
  if decide (0 < j_refs x)%Z then skip
  else if j_flaghiteof x && bool_decide (j_numtodo x = 0%Z) then
    r ← sys (unlink (chanfile (j_id x) (j_channel x)));
    match r with
    | inl _ => t ← sys now; job_requeue x (t + SLEEP_SYSFAIL)
    | inr _ =>
      more ← more_channels (j_id x) (j_channel x) channels;
      if more : bool then skip
      else t ← sys now; insert_done (PE t (j_id x) (junk cfg))
    end
  else job_requeue x (j_retry x).
End SendQueue.
