(* ===== verification/SendDeliver.v ===== *)
(** * Deliveries in [qmail-send.c]

    Rewriting of the envelope sender, the commands to qmail-lspawn and
    qmail-rspawn, the bounce file, the table of running deliveries and the
    reports that end them. *)

From S2P Require Import Prelude LibQmail Prioq Filesys Fmtqfn SendState SendQueue.

Section SendDeliver.
Context {L : LibQmail} (cfg : config).

(** ** Rewriting *)

(** [senderadd]: what is appended to [sa]. *)
Definition senderadd (sender recip : bytes) : bytes :=
  let i := str_len sender in
  if decide (4 ≤ i) then
    if str_equal (drop (i - 4) sender) (lit "-@[]") then
      let j := byte_rchr (take (i - 4) sender) c_at in
      let k := str_rchr recip c_at in
      if decide (k < length recip ∧ j + 5 ≤ i) then
        take j sender ++ take k recip ++ lit "=" ++ drop (k + 1) recip ++ lit "@" ++
        take (i - 5 - j) (drop (j + 1) sender)
      else sender
    else sender
  else sender.

(** ** Communication with the spawn processes *)

Definition comm_canwrite (c : channel) (s : qsend) : bool := bool_decide (comm_buf s c = []).

(** The command for one delivery. *)
Definition comm_command (delnum : nat) (id : Z) (sender qqeh envh recip : bytes) : bytes :=
  [wrap 8 (Z.of_nat delnum); wrap 8 (Z.shiftr (Z.of_nat delnum) 8)] ++
  fnmake_split cfg id ++ [0%Z] ++ senderadd sender recip ++ [0%Z] ++
  qqeh ++ [0%Z] ++ envh ++ [0%Z] ++ recip ++ [0%Z].

Definition comm_write (c : channel) (delnum : nat) (id : Z) (sender qqeh envh recip : bytes)
    : M unit :=
  modify (λ s,
    if comm_canwrite c s
    then set_comm_pos (upd (comm_pos s) c 0)
           (set_comm_buf (upd (comm_buf s) c (comm_command delnum id sender qqeh envh recip)) s)
    else s).

(** The outcome of [write] on the pipe to a spawn process. *)
Inductive wresult := WSome (n : nat) | WPipe | WAgain.

Definition exit_todo : M unit :=
  s ← getS;
  when (flagtodoalive s)
    (modify (λ s, set_flagtodoalive false (set_to_todo (to_todo s ++ lit "X") s))).

Definition spawndied (c : channel) : M unit :=
  modify (λ s, set_flagexitsend true (set_flagspawnalive (upd (flagspawnalive s) c false) s));;
  exit_todo.

Definition cleandied : M unit := modify (set_flagexitsend true);; exit_todo.

(** One channel of [comm_do]: [w] is the outcome of the write when the
    descriptor is ready, the bytes accepted are returned. *)
Definition comm_do (c : channel) (ready : bool) (w : wresult) : M bytes :=
  s ← getS;
  if flagspawnalive s c && negb (comm_canwrite c s) && ready then
    match w with
    | WPipe => spawndied c;; mret []
    | WAgain => mret []
    | WSome n =>
      let len := length (comm_buf s c) in
      let n := n `min` (len - comm_pos s c) in
      let out := take n (drop (comm_pos s c) (comm_buf s c)) in
      if decide (n = 0) then mret []
      else
        modify (λ s, let pos := comm_pos s c + n in
                     let s := set_comm_pos (upd (comm_pos s) c pos) s in
                     if decide (pos = len) then set_comm_buf (upd (comm_buf s) c []) s else s);;
        mret out
    end
  else mret [].

(** ** Bounces *)

(** The loop of [stripvdomprepend] from position [i] of [domain]. *)
Fixpoint strip_loop (vdoms : bytes → option bytes) (recip domain : bytes) (n i : nat) : bytes :=
  match n with
  | 0 => recip
  | S n =>
    let rest := drop i domain in
    if decide (i = 0 ∨ rest = [] ∨ head rest = Some c_dot) then
      match vdoms rest with
      | None => strip_loop vdoms recip domain n (S i)
      | Some prepend =>
        if decide (prepend = []) then recip
        else
          let k := str_len prepend in
          if decide (take k recip ≠ prepend) then recip
          else if decide (recip !! k ≠ Some c_minus) then recip
          else drop (k + 1) recip
      end
    else strip_loop vdoms recip domain n (S i)
  end.

Definition stripvdomprepend (vdoms : bytes → option bytes) (recip : bytes) : bytes :=
  let i := str_rchr recip c_at in
  if decide (length recip ≤ i) then recip
  else
    let domain := drop (i + 1) recip in
    strip_loop vdoms recip domain (S (str_len domain)) 0.

(** The loop of [addbounce] that breaks up blank lines: from [pos] downwards,
    a line feed after a line feed becomes a slash. *)
Fixpoint slash_blank (pos : nat) (t : bytes) : bytes :=
  match pos with
  | 0 => t
  | S p =>
    let t := if decide (t !! pos = Some c_lf ∧ t !! p = Some c_lf)
             then <[pos := c_slash]> t else t in
    slash_blank p t
  end.

Definition lf_to_underscore (t : bytes) : bytes :=
  map (λ c, if decide (c = c_lf) then 95%Z else c) t.

(** The contents of [orig_recip] and [bouncetext]. *)
Definition bounce_name (vdoms : bytes → option bytes) (recip : bytes) : bytes :=
  lf_to_underscore (lit "<" ++ stripvdomprepend vdoms recip).
Definition bounce_text (vdoms : bytes → option bytes) (recip report : bytes) : bytes :=
  let t := bounce_name vdoms recip ++ lit ">:" ++ [c_lf] ++ report in
  let t := if decide (report ≠ [] ∧ last report ≠ Some c_lf) then t ++ [c_lf] else t in
  slash_blank (length t - 2) t ++ [c_lf].

(** A call repeated until it succeeds; each failure uses up a fault. *)
Fixpoint retry {A} (fuel : nat) (dflt : A) (m : ST world (errno + A)) : ST world A :=
  match fuel with
  | 0 => mret dflt
  | S fuel => r ← m; match r with inr a => mret a | inl _ => retry fuel dflt m end
  end.
Definition until_done {A} (dflt : A) (m : ST world (errno + A)) : ST world A :=
  λ w, retry (S (length (faults w))) dflt m w.

Definition addbounce (id : Z) (recip report : bytes) : M unit :=
  s ← getS;
  let name := bounce_name (mapvdoms s) recip in
  modify (λ s, set_orig_recip (name ++ lit ">" ++ [c_lf])
                 (set_orig_recip_len (length name + 1) s));;
  fd ← sys (until_done 0 (open_append (fnmake_bounce cfg id)));
  sys (until_done tt (append fd (bounce_text (mapvdoms s) recip report)));;
  skip.

(** ** Deliveries *)

Definition del_canexit (s : qsend) : bool :=
  forallb (λ c, negb (flagspawnalive s c && negb (holdjobs s c) &&
                      negb (bool_decide (concurrencyused s c = 0%Z)))) channels.

Definition del_avail (c : channel) (s : qsend) : bool :=
  flagspawnalive s c && comm_canwrite c s && negb (holdjobs s c) &&
  bool_decide (concurrencyused s c < Z.of_nat (concurrency s c))%Z.

(** The search for an unused entry below [concurrency[c]]. *)
Inductive slot := SFree (i : nat) | SFull | SOutOfBounds.
Fixpoint find_slot (n i : nat) (d : list DEL) : slot :=
  match n with
  | 0 => SFull
  | S n => match d !! i with
           | None => SOutOfBounds
           | Some x => if d_used x then find_slot n (S i) d else SFree i
           end
  end.

Definition del_start (j : nat) (mpos : nat) (recip : bytes) : M unit :=
  s ← getS;
  let c := j_channel (jo s !!! j) in
  if negb (flagspawnalive s c) || holdjobs s c || negb (comm_canwrite c s) then skip
  else match find_slot (concurrency s c) 0 (del s c) with
  | SOutOfBounds => modify (set_ub true)
  | SFull => skip
  | SFree i =>
    nomem ← sys fault;
    if nomem : bool then skip
    else
      modify (upd_job j (λ x, set_refs (j_refs x + 1) x));;
      modify (λ s, upd_del c i (λ _, Del true j (masterdelid s) mpos recip) s);;
      modify (λ s, set_masterdelid (wrap 64 (masterdelid s + 1)) s);;
      modify (λ s, set_concurrencyused (upd (concurrencyused s) c (concurrencyused s c + 1)%Z) s);;
      s ← getS;
      let x := jo s !!! j in
      comm_write c i (j_id x) (j_sender x) (j_qqeh x) (j_envh x) recip;;
      log (EvStart (d_delid (del s c !!! i)) (j_id x) c recip)
  end.

Definition markdone (c : channel) (id : Z) (pos : nat) : M unit :=
  r ← sys (open_write (fnmake_chanaddr cfg id c));
  match r with
  | inl _ => skip
  | inr fd =>
    st ← sys (fstat fd);
    match st with
    | inl _ => skip
    | inr _ =>
      sk ← sys seek;
      match sk with
      | inl _ => skip
      | inr _ => _ ← sys (write_at fd pos (lit "D")); skip
      end
    end
  end.

Definition dying_text : bytes :=
  lit "I'm not going to try again; this message has been in the queue too long." ++ [c_lf].

(** The delivery number of a report; its second byte is a [char], which the
    C code widens without a cast to [unsigned char]. *)
Definition report_delnum (d : bytes) : Z :=
  let s0 := d !!! 0 in
  let s1 := d !!! 1 in
  swrap 32 (s0 + wrap 32 (wrap 32 (schar s1) * 256))%Z.

(** The result letter and the text that the code acts on: a deferral of a
    message that is too old becomes a failure, with a sentence appended over the
    last byte of the report. *)
Definition report_result (dying : bool) (d : bytes) : Z * bytes :=
  let letter := d !!! 2 in
  if bool_decide (letter = 90%Z) && dying
  then (68%Z, cstr (drop 3 (take (length d - 1) d) ++ dying_text))
  else (letter, cstr (drop 3 d)).

(** The end of a delivery, whatever its result. *)
Definition del_finish (c : channel) (i : nat) : M unit :=
  s ← getS;
  job_close cfg (d_j (del s c !!! i));;
  modify (upd_del c i (λ x, Del false (d_j x) (d_delid x) (d_mpos x) (d_recip x)));;
  modify (λ s, set_concurrencyused (upd (concurrencyused s) c (concurrencyused s c - 1)%Z) s).

(** A complete report [r] on delivery [i] of channel [c]. *)
Definition del_result (c : channel) (i : nat) (r : bytes) : M unit :=
  s ← getS;
  let d := del s c !!! i in
  let x := jo s !!! d_j d in
  let '(letter, text) := report_result (j_flagdying x) r in
  (if decide (letter = 75%Z) then (* K *)
     log (EvSuccess (d_delid d));;
     markdone c (j_id x) (d_mpos d);;
     modify (upd_job (d_j d) (λ x, set_numtodo (j_numtodo x - 1) x))
   else if decide (letter = 90%Z) then (* Z *)
     log (EvDeferral (d_delid d))
   else if decide (letter = 68%Z) then (* D *)
     log (EvFailure (d_delid d));;
     addbounce (j_id x) (d_recip d) text;;
     markdone c (j_id x) (d_mpos d);;
     modify (upd_job (d_j d) (λ x, set_numtodo (j_numtodo x - 1) x))
   else log (EvMangled (d_delid d)));;
  del_finish c i.

(** One byte of a report in [del_dochan]. *)
Definition del_byte (c : channel) (ch : Z) : M unit :=
  modify (λ s, set_dline (upd (dline s) c (take REPORTMAX (dline s c ++ [ch]))) s);;
  s ← getS;
  let d := dline s c in
  if bool_decide (ch = 0%Z) && bool_decide (2 < length d) then
    let delnum := report_delnum d in
    (if decide (delnum < 0 ∨ Z.of_nat (concurrency s c) ≤ delnum)%Z then log (EvOutOfRange c)
     else match del s c !! Z.to_nat delnum with
     | None => modify (set_ub true)
     | Some x => if d_used x
                 then del_result c (Z.to_nat delnum) d
                 else log (EvOutOfRange c)
     end);;
    modify (λ s, set_dline (upd (dline s) c []) s)
  else skip.

Fixpoint del_bytes (c : channel) (l : bytes) : M unit :=
  match l with
  | [] => skip
  | ch :: l => del_byte c ch;; del_bytes c l
  end.

(** [del_dochan]: [r] is what [read] returned, [None] for an error. *)
Definition del_dochan (c : channel) (r : option bytes) : M unit :=
  match r with
  | None => skip
  | Some [] => spawndied c
  | Some l => del_bytes c l
  end.
End SendDeliver.
