(* ===== verification/DeliverTheorems.v ===== *)
(** * Addresses, reports and bounce texts of qmail-send *)

From S2P Require Import Prelude LibQmail Prioq Filesys Fmtqfn SendState SendQueue.
From S2P Require Import SendDeliver.

Section DeliverTheorems.
Context {L : LibQmail} {LL : LibQmailLaws L} (cfg : config).

(** ** Variable envelope return paths *)

(** A sender owner-@host-@[] becomes, for the recipient box@dom, the
    address owner-box=dom@host, so that a bounce names the failed recipient. *)
Theorem senderadd_verp owner host box dom :
  c_at ∉ host → c_at ∉ dom →
  senderadd (owner ++ lit "@" ++ host ++ lit "-@[]") (box ++ lit "@" ++ dom) =
  owner ++ box ++ lit "=" ++ dom ++ lit "@" ++ host.
Proof.
  intros Hh Hd. unfold senderadd. rewrite str_len_ok, byte_rchr_ok, str_rchr_ok.
  set (s := owner ++ lit "@" ++ host ++ lit "-@[]").
  assert (Hlen : length s = length owner + length host + 5).
  { unfold s. rewrite !length_app. simpl. lia. }
  rewrite Hlen. rewrite decide_True by lia.
  replace (length owner + length host + 5 - 4) with (length (owner ++ lit "@" ++ host))
    by (rewrite !length_app; simpl; lia).
  replace s with ((owner ++ lit "@" ++ host) ++ lit "-@[]") by (unfold s; by rewrite <- !(assoc_L app)).
  rewrite drop_app_length, take_app_length.
  assert (str_equal (lit "-@[]") (lit "-@[]") = true) as -> by (by apply str_equal_ok).
  rewrite (rindex_of_app c_at owner host Hh : rindex_of c_at (owner ++ lit "@" ++ host) = _).
  rewrite (rindex_of_app c_at box dom Hd : rindex_of c_at (box ++ lit "@" ++ dom) = _).
  rewrite decide_True by (rewrite length_app; simpl; lia).
  rewrite <- !(assoc_L app), !take_app_length. f_equal. f_equal. f_equal.
  assert (Hdrop : ∀ a b : bytes, drop (length a + 1) (a ++ lit "@" ++ b) = b).
  { intros a b. rewrite (assoc_L app). replace (length a + 1) with (length (a ++ lit "@"));
      [apply drop_app_length|by rewrite length_app]. }
  rewrite !Hdrop. f_equal. f_equal.
  replace (length owner + length host + 5 - 5 - length owner) with (length host) by lia.
  by rewrite take_app_length.
Qed.

(** Any other sender is passed on unchanged. *)
Lemma senderadd_plain sender recip :
  (∀ a, sender ≠ a ++ lit "-@[]") → senderadd sender recip = sender.
Proof.
  intros Hs. unfold senderadd. rewrite str_len_ok. case_decide as Hl; [|done].
  destruct (str_equal _ _) eqn:E; [|done]. apply str_equal_ok in E.
  destruct (Hs (take (length sender - 4) sender)). rewrite <- E. by rewrite take_drop.
Qed.

(** ** Delivery numbers *)

Lemma report_value s0 s1 :
  (0 ≤ s0 < 256)%Z → (0 ≤ s1 < 256)%Z →
  swrap 32 (s0 + wrap 32 (wrap 32 (schar s1) * 256))%Z =
  (s0 + 256 * (if decide (s1 < 128)%Z then s1 else s1 - 256))%Z.
Proof.
  intros H0 H1. unfold schar, swrap, wrap. cbv zeta.
  change (2 ^ 8)%Z with 256%Z. change (2 ^ 32)%Z with 4294967296%Z.
  change (2 ^ (8 - 1))%Z with 128%Z. change (2 ^ (32 - 1))%Z with 2147483648%Z.
  rewrite (Z.mod_small s1) by lia. destruct (decide (s1 < 128)%Z).
  - rewrite !(Z.mod_small s1), !(Z.mod_small (s1 * 256)), !Z.mod_small by lia.
    rewrite decide_True by lia. lia.
  - assert ((s1 - 256) mod 4294967296 = s1 - 256 + 4294967296)%Z as ->.
    { symmetry. apply Z.mod_unique_pos with (-1)%Z; lia. }
    assert (((s1 - 256 + 4294967296) * 256) mod 4294967296 = (s1 - 256) * 256 + 4294967296)%Z as ->.
    { symmetry. apply Z.mod_unique_pos with 255%Z; lia. }
    rewrite !Z.mod_small by lia. rewrite decide_False by lia. lia.
Qed.

(** The delivery number that a spawn process echoes is the one of the
    command for the first 32768 entries of the table; from entry 32768 on the
    daemon reads a negative number, which its range check rejects, although the
    command carries 16 bits. *)
Theorem delnum_echo n id sender qqeh envh recip r :
  (Z.of_nat n < 65536)%Z →
  let d := take 2 (comm_command cfg n id sender qqeh envh recip) ++ r in
  report_delnum d = (if decide (Z.of_nat n < 32768)%Z then Z.of_nat n else Z.of_nat n - 65536)%Z.
Proof.
  intros Hn d. subst d. unfold comm_command, report_delnum. simpl.
  rewrite Z.shiftr_div_pow2 by lia. change (2 ^ 8)%Z with 256%Z.
  assert (0 ≤ Z.of_nat n / 256 < 256)%Z.
  { split; [apply Z.div_pos; lia|apply Z.div_lt_upper_bound; lia]. }
  rewrite report_value by (unfold wrap; apply Z.mod_pos_bound; lia). unfold wrap.
  change (2 ^ 8)%Z with 256%Z. rewrite (Z.mod_small (_ / 256)) by lia.
  pose proof (Z.div_mod (Z.of_nat n) 256 ltac:(lia)).
  pose proof (Z.mod_pos_bound (Z.of_nat n) 256 ltac:(lia)). repeat case_decide; lia.
Qed.

(** ** Virtual domains *)

Lemma strip_loop_suffix vdoms recip domain n i :
  strip_loop vdoms recip domain n i `suffix_of` recip.
Proof.
  revert i. induction n as [|n IH]; intros i; simpl; [done|].
  case_decide; [|apply IH]. destruct (vdoms _) as [p|]; [|apply IH].
  repeat case_decide; try done. apply suffix_drop.
Qed.

(** [stripvdomprepend] undoes the prefix that todo-proc gave to the
    recipient of a virtual domain, and never does more than drop a prefix of
    the address. *)
Lemma stripvdom_undoes vdoms prepend box dom :
  c_at ∉ dom →
  (vdoms dom = Some prepend → prepend ≠ [] →
     stripvdomprepend vdoms (prepend ++ lit "-" ++ box ++ lit "@" ++ dom) = box ++ lit "@" ++ dom) ∧
  (∀ recip, stripvdomprepend vdoms recip `suffix_of` recip).
Proof.
  intros Hd. split.
  - intros Hv Hp. unfold stripvdomprepend. rewrite str_rchr_ok.
    rewrite (assoc_L app), (assoc_L app). set (a := (prepend ++ lit "-") ++ box).
    rewrite (rindex_of_app c_at a dom Hd : rindex_of c_at (a ++ lit "@" ++ dom) = _).
    rewrite decide_False by (rewrite length_app; simpl; lia).
    assert (drop (length a + 1) (a ++ lit "@" ++ dom) = dom) as ->.
    { rewrite (assoc_L app). replace (length a + 1) with (length (a ++ lit "@"));
        [apply drop_app_length|by rewrite length_app]. }
    cbn [strip_loop]. rewrite decide_True by (by left). rewrite drop_0, Hv, decide_False by done.
    rewrite str_len_ok. unfold a. rewrite <- !(assoc_L app). rewrite take_app_length.
    rewrite decide_False by (intros H; by apply H).
    rewrite decide_False.
    2:{ intros H. apply H. by rewrite lookup_app_r, Nat.sub_diag. }
    rewrite (assoc_L app prepend). replace (length prepend + 1) with (length (prepend ++ lit "-"));
      [apply drop_app_length|by rewrite length_app].
  - intros recip. unfold stripvdomprepend. case_decide; [done|apply strip_loop_suffix].
Qed.

(** ** The text of a bounce *)

Lemma slash_blank_length pos t : length (slash_blank pos t) = length t.
Proof.
  revert t. induction pos as [|p IH]; intros t; simpl; [done|]. rewrite IH.
  case_decide; [apply length_insert|done].
Qed.
(** Bytes above the position are not touched. *)
Lemma slash_blank_above pos t q : pos < q → slash_blank pos t !! q = t !! q.
Proof.
  revert t. induction pos as [|p IH]; intros t Hq; simpl; [done|]. rewrite IH by lia.
  case_decide; [|done]. by rewrite list_lookup_insert_ne by lia.
Qed.
Lemma slash_blank_zero pos t : slash_blank pos t !! 0 = t !! 0.
Proof.
  revert t. induction pos as [|p IH]; intros t; simpl; [done|]. rewrite IH.
  case_decide; [|done]. by rewrite list_lookup_insert_ne.
Qed.
(** A byte that is a line feed afterwards was one before. *)
Lemma slash_blank_lf pos t q : slash_blank pos t !! q = Some c_lf → t !! q = Some c_lf.
Proof.
  revert t. induction pos as [|p IH]; intros t; simpl; [done|]. intros H. apply IH in H.
  case_decide as Hd; [|done]. apply list_lookup_insert_Some in H as [(? & ? & _)|[_ H]]; done.
Qed.
Lemma slash_blank_spec pos t q :
  0 < q ≤ pos → ¬ (slash_blank pos t !! q = Some c_lf ∧ slash_blank pos t !! (q - 1) = Some c_lf).
Proof.
  revert t. induction pos as [|p IH]; intros t Hq [H1 H2]; [lia|].
  destruct (decide (q = S p)) as [->|].
  2:{ apply (IH (if decide (t !! S p = Some c_lf ∧ t !! p = Some c_lf) then <[S p := c_slash]> t else t));
      [lia|done]. }
  simpl in H1, H2. rewrite Nat.sub_0_r in H2. rewrite slash_blank_above in H1 by lia.
  apply slash_blank_lf in H2. case_decide as Hd.
  - destruct Hd as [Ht _]. apply lookup_lt_Some in Ht.
    by rewrite list_lookup_insert_eq in H1 by done.
  - by destruct Hd.
Qed.

(** The paragraph for a failed recipient starts with its address in angle
    brackets, ends with a line feed and a blank line, and has no other blank
    line than those that the last two bytes of the report and its end make: the
    text of the report cannot start a paragraph of its own. *)
Theorem bounce_paragraph vdoms recip report :
  let t := bounce_text vdoms recip report in
  t !! 0 = Some c_lt ∧ last t = Some c_lf ∧
  ∀ q, 0 < q → t !! q = Some c_lf → t !! (q - 1) = Some c_lf → length t - 2 ≤ q.
Proof.
  cbv zeta. unfold bounce_text.
  set (t0 := if decide _ then _ else _). set (u := slash_blank (length t0 - 2) t0).
  assert (Hlen : length u = length t0) by apply slash_blank_length.
  assert (H0 : u !! 0 = Some c_lt).
  { unfold u. rewrite slash_blank_zero. unfold t0. by case_decide. }
  split_and!.
  - rewrite lookup_app_l; [done|]. by eapply lookup_lt_Some.
  - by rewrite last_snoc.
  - intros q Hq H1 H2. rewrite length_app. simpl.
    destruct (decide (q ≤ length t0 - 2)) as [Hle|]; [|lia].
    assert (q < length u) by lia. rewrite lookup_app_l in H1, H2 by lia.
    by destruct (slash_blank_spec (length t0 - 2) t0 q ltac:(lia)).
Qed.
End DeliverTheorems.

#[local] Existing Instance reference_libqmail.
#[local] Existing Instance reference_laws.

Lemma senderadd_verp_witness :
  senderadd (lit "list-@example.org-@[]") (lit "bob@example.net") = lit "list-bob=example.net@example.org".
Proof.
  apply (senderadd_verp (lit "list-") (lit "example.org") (lit "bob") (lit "example.net"));
    apply (bool_decide_unpack _); by vm_compute.
Defined.

Lemma delnum_echo_witness :
  report_delnum (take 2 (comm_command (Config 0 23 true 0 0 false 0 0) 515 5 [] [] [] []) ++ lit "K") = 515%Z.
Proof. apply (delnum_echo (Config 0 23 true 0 0 false 0 0) 515 5 [] [] [] [] (lit "K")). lia. Defined.

Lemma stripvdom_undoes_witness :
  stripvdomprepend (λ d, if decide (d = lit "v.org") then Some (lit "vuser") else None)
    (lit "vuser-bob@v.org") = lit "bob@v.org".
Proof.
  apply (stripvdom_undoes (λ d, if decide (d = lit "v.org") then Some (lit "vuser") else None)
    (lit "vuser") (lit "bob") (lit "v.org")); [apply (bool_decide_unpack _); by vm_compute|done|done].
Defined.
