(* ===== verification/SendBounce.v ===== *)
(** * Bounce messages and control files in [qmail-send.c]

    [injectbounce] turns the bounce file of a finished message into a message
    to its sender and removes it; [regetcontrols] rereads the control files on
    SIGHUP and, from [injectbounce], under the bounce rules of the sender. *)

From S2P Require Import Prelude LibQmail Prioq Filesys Fmtqfn Quote SendState SendQueue.
From S2P Require Import SendDeliver.

(** What the control files hold: [control_readint] fails, finds no file, or
    reads a number. *)
Inductive rint := RErr | RAbsent | RSet (v : Z).

Record controls := Controls {
  ct_locals : bool;                               (* [locals] was read *)
  ct_vdoms : option (option (bytes → option bytes)); (* error, no file, contents *)
  ct_concurrency : channel → rint;
  ct_hold : channel → rint;
  ct_envnoathost : bool;
  ct_sync : bool                                  (* conf-syncdir, conf-fsync, conf-fdatasync *)
}.

(** What the control files and environment give to [injectbounce]. *)
Record bounce_config := BounceConfig {
  bouncefrom : bytes; bouncehost : bytes;
  doublebounceto : bytes;
  bouncesubject : bytes; doublebouncesubject : bytes;
  bouncemessage : bytes; doublebouncemessage : bytes;
  bouncemaxbytes : Z;
  srs_domain : bytes;
  bounceprocessor : bool;
  prog : bytes                                    (* [argv0] *)
}.

(** The results of the calls [injectbounce] makes outside this file. *)
Record bounce_env := BounceEnv {
  be_nomem : bool;         (* the environment could not be changed *)
  be_chdir : bool;         (* [chdir(auto_qmail)] failed *)
  be_envrules : Z;         (* [envrules] *)
  be_reread : option controls; (* [reread(0)]: [None] when its [chdir] failed *)
  be_open : bool;          (* [qmail_open] failed *)
  be_srs : Z * bytes;      (* [srsreverse] and [srs_result] *)
  be_date : bytes;         (* [newfield_date] *)
  be_processor : Z;        (* exit code of the bounce processor *)
  be_refused : bool        (* [qmail_close] reported trouble *)
}.

(** [getinfo]: sender, qqeh, envh and the time of arrival. *)
Record info := Info { in_sender : bytes; in_qqeh : bytes; in_envh : bytes; in_birth : Z }.

Section SendBounce.
Context {L : LibQmail} (cfg : config) (bc : bounce_config).

(** ** Control files *)

Definition read_concurrency (ct : controls) (c : channel) : M bool :=
  match ct_concurrency ct c with
  | RErr => mret false
  | RAbsent => mret true
  | RSet v => modify (λ s, set_concurrency (upd (concurrency s) c (Z.to_nat (wrap 32 v))) s);;
              mret true
  end.

Definition new_hold (r : rint) : option bool :=
  match r with
  | RErr => None
  | RAbsent => Some false
  | RSet v => Some (negb (bool_decide (v = 0%Z)))
  end.

Definition change_hold (c : channel) (h : bool) : M unit :=
  s ← getS;
  if decide (holdjobs s c = h) then skip
  else modify (λ s, set_holdjobs (upd (holdjobs s) c h) s);;
       when (negb h) (modify (set_flagrunasap true)).

Definition regetcontrols (ct : controls) : M unit :=
  if negb (ct_locals ct) then skip else
  match ct_vdoms ct with
  | None => skip
  | Some newvdoms =>
    ok ← read_concurrency ct Local;
    if negb ok : bool then skip else
    ok ← read_concurrency ct Remote;
    if negb ok : bool then skip else
    match new_hold (ct_hold ct Local), new_hold (ct_hold ct Remote) with
    | Some hl, Some hr =>
      if negb (ct_envnoathost ct && ct_sync ct) then skip else
      change_hold Local hl;;
      change_hold Remote hr;;
      modify (set_mapvdoms (default (λ _, None) newvdoms))
    | _, _ => skip
    end
  end.

(** [reread]: [None] when changing the directory failed. The write of the H to
    [todo-proc] is taken to succeed (when it fails the code returns without going
    back to the queue's directory), and so is the change back, which the code
    retries for ever. *)
Definition reread (hupflag : bool) (ct : option controls) : M unit :=
  match ct with
  | None => skip
  | Some ct =>
    when hupflag (modify (λ s, set_to_todo (to_todo s ++ lit "H") s));;
    regetcontrols ct
  end.

(** ** The info file *)

Fixpoint getinfo_loop (fuel fd pos : nat) (r : info) : ST world (option info) :=
  match fuel with
  | 0 => mret None
  | S fuel =>
    l ← getln fd pos;
    match l with
    | None => mret None
    | Some (_, false) => mret (Some r)
    | Some (line, true) =>
      let v := cstr (tail line) in
      let r :=
        match head line with
        | Some 70%Z (* F *) => Info v (in_qqeh r) (in_envh r) (in_birth r)
        | Some 101%Z (* e *) => Info (in_sender r) v (in_envh r) (in_birth r)
        | Some 104%Z (* h *) => Info (in_sender r) (in_qqeh r) v (in_birth r)
        | _ => r
        end in
      getinfo_loop fuel fd (pos + length line) r
    end
  end.

Definition getinfo (id : Z) : M (option info) :=
  fd ← sys (open_read (fnmake_info cfg id));
  match fd with
  | inl _ => mret None
  | inr fd =>
    st ← sys (fstat fd);
    match st with
    | inl _ => mret None
    | inr st => sys (getinfo_loop (S (length (i_data st))) fd 0 (Info [] [] [] (i_mtime st)))
    end
  end.

(** ** Bounces *)

(** owner-@host-@[] becomes owner-@host; a BATV tag is removed. *)
Definition bounce_sender (sender : bytes) : bytes :=
  let n := length sender in
  let sender := if decide (4 ≤ n ∧ drop (n - 4) sender = lit "-@[]")
                then take (n - 4) sender else sender in
  if decide (4 ≤ length sender ∧ take 4 sender = lit "sb*-") then drop 4 sender else sender.

(** The part of [injectbounce] that undoes SRS: the sender and whether the
    message is to be failed. *)
Definition bounce_srs (be : bounce_env) (sender : bytes) : bytes * bool :=
  let j := byte_rchr sender c_at in
  if decide (sender ≠ [] ∧ srs_domain bc ≠ [] ∧ j < length sender ∧
             drop (j + 1) sender = srs_domain bc)
  then let r := fst (be_srs be) in
       (if decide (r = 1%Z) then snd (be_srs be) else sender, bool_decide (-3 ≤ r < 0)%Z)
  else (sender, false).

(** The envelope of the bounce: [sender] before and after SRS. *)
Definition bounce_envelope (sender0 sender : bytes) : bytes * bytes :=
  if decide (sender0 = []) then (lit "#@[]", doublebounceto bc) else ([], sender).

(** The copy of the message: [bytestogo] bytes are still allowed.  The second
    result says that the loop stopped with the last read successful. *)
Fixpoint copy_message (fuel : nat) (bytestogo : Z) (r : bool) (data : bytes) : bytes * bool :=
  match fuel with
  | 0 => ([], r)
  | S fuel =>
    let bytestoget := if decide (0 ≤ bytestogo < 128)%Z then bytestogo else 128%Z in
    if decide (bytestoget = 0%Z) then ([], r)
    else if decide (data = []) then ([], false)
    else
      let n := Z.to_nat bytestoget in
      let '(out, r) := copy_message fuel (bytestogo - bytestoget) true (drop n data) in
      (take n data ++ out, r)
  end.

(** The MIME boundary: birth, host and message number. *)
Definition bounce_boundary (birth id : Z) : bytes :=
  fmt_ulong birth ++ bouncehost bc ++ fmt_ulong id.

(** The header; [orig] is the text for X-Bounced-Address. *)
Definition bounce_head (be : bounce_env) (orig boundary sender bouncerecip : bytes) : bytes :=
  be_date be ++ orig ++
  lit "From: " ++ default [] (quote (bouncefrom bc)) ++ lit "@" ++ bouncehost bc ++
  [c_lf] ++ lit "To: " ++ default [] (quote2 bouncerecip) ++
  [c_lf] ++ lit "MIME-Version: 1.0" ++ [c_lf] ++
  lit "Content-Type: multipart/mixed; boundary=" ++ [c_dquote] ++ boundary ++ [c_dquote] ++
  [c_lf] ++ lit "Subject: " ++
  (if decide (sender = []) then doublebouncesubject bc else bouncesubject bc) ++
  [c_lf; c_lf] ++ lit "--" ++ boundary ++ [c_lf; c_lf].

(** [orig_recip] up to [orig_recip_len], as the header gives it. *)
Definition bounced_address (s : qsend) : bytes :=
  if decide (orig_recip s = []) then []
  else lit "X-Bounced-Address: " ++ take (orig_recip_len s) (orig_recip s) ++ [c_lf].

Definition bounce_intro (sender : bytes) : bytes :=
  if decide (sender ≠ [] ∧ bouncemessage bc ≠ []) then bouncemessage bc ++ [c_lf]
  else if decide (sender = [] ∧ doublebouncemessage bc ≠ []) then doublebouncemessage bc ++ [c_lf]
  else
    lit "Hi. This is the " ++ prog bc ++ lit " program at " ++ bouncehost bc ++
    (if decide (sender = []) then
       lit "." ++ [c_lf] ++
       lit "I tried to deliver a bounce message to this address, but the bounce bounced!" ++
       [c_lf; c_lf]
     else
       lit "." ++ [c_lf] ++
       lit "I'm afraid I wasn't able to deliver your message to the following addresses." ++
       [c_lf] ++
       lit "This is a permanent error; I've given up. Sorry it didn't work out." ++
       [c_lf; c_lf]).

Definition bounce_separator (boundary sender : bytes) : bytes :=
  (if decide (sender = []) then lit "--- Enclosed is the original bounce."
   else lit "--- Enclosed is a copy of the message.") ++ [c_lf; c_lf] ++ lit "--" ++
  boundary ++ [c_lf] ++ lit "Content-Type: message/rfc822" ++ [c_lf; c_lf] ++
  lit "Return-Path: <" ++ default [] (quote2 sender) ++ lit ">" ++ [c_lf].

Definition bounce_end (boundary : bytes) : bytes :=
  [c_lf] ++ lit "--" ++ boundary ++ lit "--" ++ [c_lf].

(** Read a file to its end: [None] when it cannot be opened; the second
    component is false when reading failed. *)
Definition read_file (p : bytes) : ST world (option (bytes * bool)) :=
  fd ← open_read p;
  match fd with
  | inl _ => mret None
  | inr fd => bad ← fault; if bad : bool then mret (Some ([], false))
              else n ← read_inode fd; mret (Some (i_data n, true))
  end.
Definition file_text (f : option (bytes * bool)) : bytes := from_option fst [] f.
Definition file_ok (f : option (bytes * bool)) : bool := from_option snd false f.

Definition stripped_note : bytes :=
  [c_lf; c_lf] ++ lit "--- End of message stripped." ++ [c_lf].

(** The tail of [injectbounce]: remove the bounce file. *)
Definition remove_bounce (id : Z) : M bool :=
  r ← sys (unlink (fnmake_bounce cfg id));
  mret (match r with inl _ => false | inr _ => true end).

(** Compose and submit the bounce. [fail] is the error flag of the [struct
    qmail]: once set, qmail-queue will not accept the message. *)
Definition submit_bounce (be : bounce_env) (id birth : Z) (sender0 sender : bytes) (fail : bool)
    : M bool :=
  let '(bouncesender, bouncerecip) := bounce_envelope sender0 sender in
  let boundary := bounce_boundary birth id in
  s ← getS;
  let head := bounce_head be (bounced_address s) boundary sender bouncerecip in
  notes ← sys (read_file (fnmake_bounce cfg id));
  (match notes with
   | None => skip
   | Some (t, _) =>
     let k := index_of c_colon (t ++ [0%Z]) in
     modify (λ s, set_orig_recip_len k
       (set_orig_recip (if decide (k < length (t ++ [0%Z])) then <[k := 0%Z]> (t ++ [0%Z])
                        else t ++ [0%Z]) s))
   end);;
  mess ← sys (read_file (fnmake_mess cfg id));
  let copy := match mess with
              | None => []
              | Some (t, _) => let '(out, r) := copy_message (S (length t)) (bouncemaxbytes bc) false t in
                          out ++ (if r then stripped_note else [])
              end in
  let body := head ++ bounce_intro sender ++ file_text notes ++
              bounce_separator boundary sender ++ copy ++ bounce_end boundary in
  let fail := fail || negb (file_ok notes) || negb (file_ok mess) in
  let code := if fail || negb (bounceprocessor bc) then 0%Z else be_processor be in
  if decide (code = 1%Z) then
    r ← remove_bounce id;
    when r (log (EvDeleteBounce id));;
    mret r
  else
    if fail || negb (bool_decide (code = 0%Z)) || be_refused be then mret false
    else
      modify (λ s, set_outbox (OutMsg bouncesender bouncerecip body :: outbox s) s);;
      log (EvBounce id);;
      remove_bounce id.

Definition injectbounce (be : bounce_env) (id : Z) : M bool :=
  i ← getinfo id;
  match i with
  | None => mret false
  | Some i =>
    let sender := bounce_sender (in_sender i) in
    st ← sys (stat (fnmake_bounce cfg id));
    match st with
    | inl ENOENT => mret true
    | inl _ => mret false
    | inr _ =>
      if decide (sender = lit "#@[]") then
        log (EvTripleBounce id);; remove_bounce id
      else if decide (sender = [] ∧ head (doublebounceto bc) = Some c_at) then
        log (EvDoubleBounce id);; remove_bounce id
      else if be_nomem be || be_chdir be || bool_decide (be_envrules be < 0)%Z then mret false
      else
        when (bool_decide (0 < be_envrules be)%Z) (reread false (be_reread be));;
        if be_open be then mret false
        else
          let '(sender', fail) := bounce_srs be sender in
          submit_bounce be id (in_birth i) sender sender' fail
    end
  end.
End SendBounce.
