(* ===== verification/BounceTheorems.v ===== *)
(** * Bounces are not lost, and do not loop *)

From S2P Require Import Prelude LibQmail Prioq Filesys Fmtqfn Quote SendState SendQueue.
From S2P Require Import SendDeliver SendBounce.

Section BounceTheorems.
Context {L : LibQmail} (cfg : config) (bc : bounce_config).
Abbreviation bouncefile := (fnmake_bounce cfg).

(** The files, the messages handed to qmail-queue and the log. *)
Definition mail (s : qsend) := (names (wd s), inodes (wd s), outbox s, trace s).

(** Steps that leave them alone. *)
Definition silent {A} (m : M A) : Prop := ∀ s, mail (run m s) = mail s.

Lemma silent_ret {A} (a : A) : silent (mret a).
Proof. done. Qed.
Lemma silent_bind {A B} (m : M A) (f : A → M B) : silent m → (∀ a, silent (f a)) → silent (m ≫= f).
Proof. intros Hm Hf s. rewrite run_bind, Hf. apply Hm. Qed.
Lemma silent_modify (f : qsend → qsend) : (∀ s, mail (f s) = mail s) → silent (modify f).
Proof. done. Qed.
Lemma silent_when b (m : M unit) : silent m → silent (when b m).
Proof. by destruct b. Qed.
Lemma silent_getS : silent getS.
Proof. done. Qed.
Lemma silent_sys {A} (m : ST world A) : quiet m → silent (sys m).
Proof.
  intros Hm s. specialize (Hm (wd s)). unfold files in Hm. unfold run, sys, mail in *.
  destruct (m (wd s)) as [a w]. simpl in *. by injection Hm as -> -> _.
Qed.
Lemma wp_silent_bind {A B} (m : M A) (f : A → M B) (Q : B → qsend → Prop) s :
  silent m → (∀ a s', mail s' = mail s → wp (f a) Q s') → wp (m ≫= f) Q s.
Proof. intros Hm H. apply wp_bind. apply H, Hm. Qed.

Ltac solve_silent :=
  intros; cbv zeta;
  lazymatch goal with
  | |- silent (_ ≫= _) => apply silent_bind; [solve_silent|solve_silent]
  | |- silent (when _ _) => apply silent_when; solve_silent
  | |- silent (match ?x with _ => _ end) => destruct x; solve_silent
  | |- silent (sys _) => apply silent_sys; eauto 10 with quiet
  | |- silent getS => apply silent_getS
  | |- silent (mret _) => apply silent_ret
  | |- silent skip => apply (silent_ret tt)
  | |- silent (modify _) => apply silent_modify; intros; reflexivity
  | |- _ => idtac
  end.

Lemma silent_getinfo id : silent (getinfo cfg id).
Proof.
  unfold getinfo. apply silent_bind; [solve_silent|]. intros [e|fd]; [done|].
  apply silent_bind; [solve_silent|]. intros [e|st]; [done|]. apply silent_sys.
  generalize (Info [] [] [] (i_mtime st)), 0. induction (S (length (i_data st))) as [|n IH];
    intros r pos; simpl; [apply quiet_ret|]. apply quiet_bind; [apply quiet_getln|].
  intros [[line []]|]; [|apply quiet_ret..]. apply IH.
Qed.
Lemma silent_reread h ct : silent (reread h ct).
Proof.
  unfold reread, regetcontrols, read_concurrency, change_hold. solve_silent.
Qed.

(** The result of reading a file to its end. *)
Lemma wp_read_file p (Q : option (bytes * bool) → qsend → Prop) s :
  (∀ r s', mail s' = mail s → file_ok r = false → Q r s') →
  (∀ i s', mail s' = mail s → names (wd s) !! p = Some i →
     Q (Some (i_data (default (Inode [] 0 0) (inodes (wd s) !! i)), true)) s') →
  wp (sys (read_file p)) Q s.
Proof.
  intros H1 H2. apply wp_sys. unfold read_file, open_read.
  apply wp_bind, wp_open; [intros e f; apply wp_ret; by apply H1|]. intros i f Hi.
  apply wp_bind, wp_fault. intros [] f'; [apply wp_ret; by apply H1|].
  unfold read_inode. apply wp_bind, wp_bind, wp_getS, wp_ret, wp_ret. by apply H2.
Qed.

(** The address that a message is answered to: that of the envelope, without what
    marks a list and without the tag in front of it. *)
Definition without_suffix (u x : bytes) : bytes :=
  if decide (u `suffix_of` x) then take (length x - length u) x else x.
Definition without_prefix (u x : bytes) : bytes :=
  if decide (u `prefix_of` x) then drop (length u) x else x.
Definition return_address (x : bytes) : bytes :=
  without_prefix (lit "sb*-") (without_suffix (lit "-@[]") x).

Lemma cut_suffix (u x : bytes) : (length u ≤ length x ∧ drop (length x - length u) x = u) ↔ u `suffix_of` x.
Proof.
  split.
  - intros [_ H]. exists (take (length x - length u) x). by rewrite <- H at 2; rewrite take_drop.
  - intros [k ->]. rewrite length_app. split; [lia|].
    replace (length k + length u - length u) with (length k) by lia. apply drop_app_length.
Qed.
Lemma cut_prefix (u x : bytes) : (length u ≤ length x ∧ take (length u) x = u) ↔ u `prefix_of` x.
Proof.
  split.
  - intros [_ H]. exists (drop (length u) x). rewrite <- H at 1. by rewrite take_drop.
  - intros [k ->]. rewrite length_app. split; [lia|]. apply take_app_length.
Qed.
Lemma bounce_sender_address x : bounce_sender x = return_address x.
Proof.
  unfold bounce_sender, return_address, without_suffix, without_prefix.
  pose proof (cut_suffix (lit "-@[]") x) as Hs. change (length (lit "-@[]")) with 4 in *.
  set (y := if decide (4 ≤ length x ∧ _) then _ else x).
  assert ((if decide (lit "-@[]" `suffix_of` x) then take (length x - 4) x else x) = y) as ->.
  { unfold y. destruct (decide (lit "-@[]" `suffix_of` x)) as [H|H]; rewrite <- Hs in H;
      [by rewrite decide_True|by rewrite decide_False]. }
  pose proof (cut_prefix (lit "sb*-") y) as Hp. change (length (lit "sb*-")) with 4 in *.
  destruct (decide (lit "sb*-" `prefix_of` y)) as [H|H]; rewrite <- Hp in H;
    [by rewrite decide_True|by rewrite decide_False].
Qed.

(** The message that a bounce to [sender] becomes: [note] is the bounce file, [mess]
    the message that bounces.  A bounce of a bounce goes to the postmaster. *)
Record bounce_of (be : bounce_env) (sender note mess : bytes) (m : outmsg) : Prop := {
  bo_envelope : if decide (sender = []) then om_from m = lit "#@[]" ∧ om_to m = doublebounceto bc
                else om_from m = [] ∧ om_to m = (bounce_srs bc be sender).1 ∧
                     (srs_domain bc = [] → om_to m = sender);
  bo_body : ∃ pre mid n post, om_body m = pre ++ note ++ mid ++ take n mess ++ post
}.

(** What becomes of the bounce file of [id], which holds [note], by the return
    address of the message. *)
Definition bounce_outcome (be : bounce_env) (s s' : qsend) (id : Z) (sender note mess : bytes) : Prop :=
  if decide (sender = lit "#@[]") then outbox s' = outbox s ∧ trace s' = EvTripleBounce id :: trace s
  else if decide (sender = [] ∧ head (doublebounceto bc) = Some c_at) then
    outbox s' = outbox s ∧ trace s' = EvDoubleBounce id :: trace s
  else if decide (bounceprocessor bc = true ∧ be_processor be = 1%Z) then
    outbox s' = outbox s ∧ trace s' = EvDeleteBounce id :: trace s
  else
    (bounceprocessor bc = true → be_processor be = 0%Z) ∧ be_refused be = false ∧
    ∃ m, outbox s' = m :: outbox s ∧ bounce_of be sender note mess m ∧ trace s' = EvBounce id :: trace s.

(** What a name stands for. *)
Definition file_at (s : qsend) (p : bytes) : bytes :=
  match names (wd s) !! p with
  | Some i => i_data (default (Inode [] 0 0) (inodes (wd s) !! i))
  | None => []
  end.

Lemma mail_names s s' : mail s' = mail s → names (wd s') = names (wd s).
Proof. by intros [= ?]. Qed.
Lemma mail_outbox s s' : mail s' = mail s → outbox s' = outbox s.
Proof. by intros [= ?]. Qed.

(** [remove_bounce] removes the file or fails. *)
Lemma wp_remove_bounce id (Q : bool → qsend → Prop) s :
  (∀ s', mail s' = mail s → Q false s') →
  (∀ s', names (wd s') = delete (bouncefile id) (names (wd s)) → outbox s' = outbox s →
     trace s' = trace s → Q true s') →
  wp (remove_bounce cfg id) Q s.
Proof.
  intros H1 H2. unfold remove_bounce. apply wp_bind, wp_sys, wp_unlink.
  - intros e f. apply wp_ret. by apply H1.
  - intros i f Hi. apply wp_ret. by apply H2.
Qed.

(** How often the answer to a message can be answered again: the generation of
    a user's message, of a bounce, of a double bounce. *)
Definition generation (sender : bytes) : nat :=
  if decide (sender = lit "#@[]") then 0 else if decide (sender = []) then 1 else 2.

(** At most one message, of a generation below [g], was submitted. *)
Definition answered (g : nat) (s s' : qsend) : Prop :=
  outbox s' = outbox s ∨
  ∃ m, outbox s' = m :: outbox s ∧ generation (om_from m) < g.

(** What [injectbounce] promises, for a message with the return address [sender]. *)
Definition bounced (be : bounce_env) (s : qsend) (id : Z) (sender : bytes) (r : bool) (s' : qsend) : Prop :=
  if r then
    names (wd s') = delete (bouncefile id) (names (wd s)) ∧
    bounce_outcome be s s' id sender (file_at s (bouncefile id)) (file_at s (fnmake_mess cfg id))
  else names (wd s') = names (wd s).

(** The end of the ways to settle a bounce: log it, remove the file. *)
Lemma settle_bounce be g s id sender s1 :
  names (wd s1) = names (wd s) → answered g s s1 →
  bounce_outcome be s s1 id sender (file_at s (bouncefile id)) (file_at s (fnmake_mess cfg id)) →
  wp (remove_bounce cfg id) (λ r s', answered g s s' ∧ bounced be s id sender r s') s1.
Proof.
  intros Hn Ha Ho. unfold answered in *. apply wp_remove_bounce.
  - intros s' Hs'. rewrite (mail_outbox _ _ Hs'). split; [done|]. simpl.
    by rewrite (mail_names _ _ Hs').
  - intros s' Hn' Ho' Ht'. rewrite Ho'. split; [done|]. split; [by rewrite Hn', Hn|].
    unfold bounce_outcome in *. by rewrite Ho', Ht'.
Qed.
Lemma nothing_sent be g s id sender s1 :
  mail s1 = mail s → answered g s s1 ∧ bounced be s id sender false s1.
Proof. intros Hm. split; [left; by apply mail_outbox|by apply mail_names]. Qed.

(** The copy of the message is a part of it, from its start on. *)
Lemma copied_start fuel b r data : ∃ n, (copy_message fuel b r data).1 = take n data.
Proof.
  revert b r data. induction fuel as [|fuel IH]; intros b r data; cbn [copy_message]; [by exists 0|].
  cbv zeta. set (g := if decide _ then b else 128%Z). case_decide; [by exists 0|]. case_decide; [by exists 0|].
  destruct (IH (b - g)%Z true (drop (Z.to_nat g) data)) as [n Hn].
  destruct (copy_message fuel _ true _) as [out r']. simpl in *. exists (Z.to_nat g + n).
  by rewrite Hn, take_take_drop.
Qed.

Lemma envelope_from be sender0 sender fail from to :
  bounce_srs bc be sender0 = (sender, fail) → bounce_envelope bc sender0 sender = (from, to) →
  (if decide (sender0 = []) then from = lit "#@[]" ∧ to = doublebounceto bc
   else from = [] ∧ to = (bounce_srs bc be sender0).1 ∧ (srs_domain bc = [] → to = sender0)) ∧
  (sender0 ≠ lit "#@[]" → generation from < generation sender0).
Proof.
  unfold bounce_envelope. intros Hsrs. case_decide as Hs; intros [= <- <-].
  - split; [done|]. rewrite Hs. intros _. vm_compute. lia.
  - split.
    + rewrite Hsrs. split_and!; [done..|]. intros He. unfold bounce_srs in Hsrs.
      rewrite decide_False in Hsrs by (by intros (_ & ? & _)). by injection Hsrs as <- _.
    + intros Hs'. unfold generation. repeat case_decide; try done; lia.
Qed.

(** The contents of a file that could be read. *)
Lemma wp_read_at p (Q : option (bytes * bool) → qsend → Prop) s s1 :
  mail s1 = mail s →
  (∀ notes s3, mail s3 = mail s → (file_ok notes = true → file_text notes = file_at s p) → Q notes s3) →
  wp (sys (read_file p)) Q s1.
Proof.
  intros Hm HQ. apply wp_read_file.
  - intros r s3 Hm3 Hr. apply HQ; [congruence|]. by rewrite Hr.
  - intros i s3 Hm3 Hi. apply HQ; [congruence|]. intros _. unfold file_at. simpl.
    injection Hm as H1 H2 _ _. by rewrite <- H1, Hi, H2.
Qed.

#[local] Arguments copy_message : simpl never.
#[local] Arguments file_at : simpl never.
Lemma submit_bounced be id birth sender0 sender fail s s1 :
  mail s1 = mail s → sender0 ≠ lit "#@[]" → ¬ (sender0 = [] ∧ head (doublebounceto bc) = Some c_at) →
  bounce_srs bc be sender0 = (sender, fail) →
  wp (submit_bounce cfg bc be id birth sender0 sender fail)
    (λ r s', answered (generation sender0) s s' ∧ bounced be s id sender0 r s') s1.
Proof.
  intros Hm Hs0 Hs0' Hsrs. unfold submit_bounce.
  destruct (bounce_envelope _ _ _) as [from to] eqn:Henv.
  apply (envelope_from be _ _ fail) in Henv as [Henv Hgen]; [|done]. specialize (Hgen Hs0). cbv zeta.
  apply wp_silent_bind; [apply silent_getS|]. intros s0 s2 Hm2.
  apply wp_bind, (wp_read_at _ _ s); [congruence|]. intros notes s3 Hm3 Hnotes.
  apply wp_silent_bind; [destruct notes as [[]|]; solve_silent|]. intros _ s4 Hm4.
  apply wp_bind, (wp_read_at _ _ s); [congruence|]. intros mess s5 Hm5 Hmess. clear s2 s4 Hm2 Hm4 Hm3.
  match goal with |- wp (if decide (?x = 1%Z) then _ else _) _ _ => destruct (decide (x = 1%Z)) as [Hcode|Hcode] end.
  - assert (Hp : bounceprocessor bc = true ∧ be_processor be = 1%Z).
    { destruct (bounceprocessor bc); cbn [negb] in Hcode; [|by rewrite orb_true_r in Hcode].
      rewrite orb_false_r in Hcode. split; [done|]. by destruct (fail || _ || _). }
    apply wp_bind, wp_remove_bounce.
    + intros s6 Hs6. apply wp_bind, wp_ret, wp_ret. apply nothing_sent. congruence.
    + intros s6 Hn6 Ho6 Ht6. apply wp_bind, wp_modify, wp_ret. injection Hm5 as H1 H2 H3 H4.
      split; [left; simpl; congruence|]. split; [by simpl; rewrite Hn6, H1|].
      unfold bounce_outcome. rewrite !decide_False, decide_True by done. simpl. by rewrite Ho6, Ht6, H3, H4.
  - match goal with |- wp (if ?b then _ else _) _ _ => destruct b eqn:Hb end.
    { apply wp_ret. by apply nothing_sent. }
    apply orb_false_iff in Hb as [Hb Href]. apply orb_false_iff in Hb as [Hf Hc].
    rewrite Hf in Hcode, Hc. apply negb_false_iff, bool_decide_eq_true in Hc.
    apply orb_false_iff in Hf as [Hf Hm2]. apply orb_false_iff in Hf as [_ Hn2].
    apply negb_false_iff in Hm2, Hn2. specialize (Hnotes Hn2). specialize (Hmess Hm2).
    apply wp_bind, wp_modify, wp_bind, wp_modify. apply settle_bounce; simpl.
    + by apply mail_names.
    + right. eexists. simpl. by rewrite (mail_outbox _ _ Hm5).
    + injection Hm5 as H1 H2 H3 H4. unfold bounce_outcome. rewrite !decide_False by done.
      rewrite decide_False by (intros [Hp ?]; rewrite Hp in Hcode; simpl in Hcode; done).
      split; [intros Hp; by rewrite Hp in Hc|]. split; [done|].
      eexists. split; [simpl; by rewrite H3|]. split; [|simpl; by rewrite H4]. split; [done|].
      cbn [om_body]. rewrite Hnotes. destruct mess as [[t b]|]; [|done]. cbn in Hmess. subst t.
      destruct (copied_start (S (length (file_at s (fnmake_mess cfg id)))) (bouncemaxbytes bc) false
        (file_at s (fnmake_mess cfg id))) as [n Hn].
      destruct (copy_message _ _ _ _) as [out r]. simpl in Hn. subst out.
      match goal with |- ∃ pre mid k post, ?a ++ ?b ++ _ ++ ?c ++ (_ ++ ?d) ++ ?e = _ =>
        exists (a ++ b), c, n, (d ++ e) end. by rewrite <- !(assoc_L app).
Qed.

Lemma injectbounce_spec be id s i :
  names (wd s) !! bouncefile id = Some i →
  wp (injectbounce cfg bc be id) (λ r s',
    match (getinfo cfg id s).1 with
    | Some inf => answered (generation (return_address (in_sender inf))) s s' ∧
                  bounced be s id (return_address (in_sender inf)) r s'
    | None => r = false ∧ names (wd s') = names (wd s)
    end) s.
Proof.
  intros Hi. unfold injectbounce. apply wp_bind. pose proof (silent_getinfo id s) as Hm1.
  unfold wp, run in *. destruct (getinfo cfg id s) as [[inf|] s1]; simpl in Hm1 |- *.
  2:{ split; [done|]. by apply mail_names. }
  rewrite bounce_sender_address. set (sender := return_address (in_sender inf)).
  match goal with |- context [snd (?m s1)] => enough (Hwp : wp m (λ r s',
    answered (generation sender) s s' ∧ bounced be s id sender r s') s1) by exact Hwp end.
  apply wp_bind, wp_sys. unfold stat. apply wp_syscall.
  { intros f. apply wp_ret. by apply nothing_sent. }
  intros f. unfold lookup_name, read_inode. apply wp_bind, wp_bind, wp_getS, wp_ret. simpl.
  injection Hm1 as H1 H2 H3 H4. rewrite H1, Hi. apply wp_bind, wp_bind, wp_getS, wp_ret, wp_ret.
  set (s2 := set_wd _ s1). assert (Hm2 : mail s2 = mail s).
  { unfold mail, s2. simpl. by rewrite H1, H2, H3, H4. }
  clearbody s2. clear s1 f H1 H2 H3 H4. cbv zeta.
  assert (Hlog : ∀ e, (∀ s3, outbox s3 = outbox s → trace s3 = e :: trace s →
      bounce_outcome be s s3 id sender (file_at s (bouncefile id)) (file_at s (fnmake_mess cfg id))) →
    wp (log e;; remove_bounce cfg id) (λ r s',
      answered (generation sender) s s' ∧ bounced be s id sender r s') s2).
  { intros e He. apply wp_bind, wp_modify. injection Hm2 as H1 H2 H3 H4.
    apply settle_bounce; [done|by left|]. apply He; simpl; congruence. }
  case_decide as Ht; [apply Hlog; intros; unfold bounce_outcome; by rewrite decide_True|].
  case_decide as Hd.
  { apply Hlog. intros. unfold bounce_outcome. by rewrite decide_False, decide_True. }
  destruct (_ || _); [apply wp_ret; by apply nothing_sent|].
  apply wp_silent_bind; [apply silent_when, silent_reread|]. intros _ s3 Hm3.
  assert (Hm : mail s3 = mail s) by congruence.
  destruct (be_open be); [apply wp_ret; by apply nothing_sent|].
  destruct (bounce_srs bc be sender) as [sender' fail] eqn:Hsrs. by apply submit_bounced.
Qed.


(** C9. Bounces do not loop.  One call submits at most one message, and it is
    of a lower generation than the message that bounces: a user's message (2)
    bounces from the empty sender (1), that bounce from #@[] (0), and a message
    from #@[] is never answered. *)
Theorem bounces_end be id s i inf s1 :
  names (wd s) !! bouncefile id = Some i → getinfo cfg id s = (Some inf, s1) →
  answered (generation (bounce_sender (in_sender inf))) s (run (injectbounce cfg bc be id) s).
Proof.
  intros Hi Hinf. pose proof (injectbounce_spec be id s i Hi) as H. unfold wp in H. rewrite Hinf in H.
  simpl in H. rewrite bounce_sender_address. apply H.
Qed.
End BounceTheorems.
