(* ===== verification/SendPass.v ===== *)
(** * Passes over the channel files and the main loop of [qmail-send.c] *)

From S2P Require Import Prelude LibQmail Prioq Filesys Fmtqfn SendState SendQueue.
From S2P Require Import SendDeliver SendBounce.

(** ** The retry schedule *)

(** The loop of [squareroot], for [j] from [n - 1] down to 0. *)
Fixpoint squareroot_loop (n : nat) (x y yy : Z) : Z :=
  match n with
  | 0 => y
  | S n =>
    let j := Z.of_nat n in
    let y21 := (Z.shiftl y (j + 1) + Z.shiftl 1 (j + j))%Z in
    if decide (y21 ≤ x - yy)%Z then squareroot_loop n x (y + Z.shiftl 1 j)%Z (yy + y21)%Z
    else squareroot_loop n x y yy
  end.
Definition squareroot (x : Z) : Z := squareroot_loop 16 x 0 0.

Definition nextretry (recent birth : Z) (c : channel) : Z :=
  let n := if decide (recent < birth)%Z then 0%Z else squareroot (recent - birth) in
  let n := (n + chanskip c)%Z in
  (birth + n * n)%Z.

Section SendPass.
Context {L : LibQmail} (cfg : config) (bc : bounce_config).
(** [delivery_rate] of delivery_rate.c, on the recipient and a message number:
    its result, the seconds to wait and the flag it sets. *)
Context (delivery_rate : qsend → channel → bytes → Z → Z * Z * bool).

(** ** Passes *)

Definition set_pass_of (c : channel) (p : passrec) : M unit :=
  modify (λ s, set_pass (upd (pass s) c p) s).
Definition end_pass (c : channel) : M unit :=
  modify (λ s, let p := pass s c in
               set_pass (upd (pass s) c (Pass 0 (p_j p) (p_fd p) (p_mpos p))) s).

(** [pass_selprep]: the time the loop is to wake up. *)
Definition earlier (pq : prioq) (cond : prioq_elt → bool) (wakeup : Z) : Z :=
  match prioq_get pq with
  | Some pe => if bool_decide (dt pe < wakeup)%Z && cond pe then dt pe else wakeup
  | None => wakeup
  end.
Definition pass_selprep (s : qsend) (wakeup : Z) : Z :=
  if flagexitsend s then wakeup
  else if existsb (λ c, bool_decide (p_id (pass s c) ≠ 0%Z) && del_avail c s) channels then 0%Z
  else
    let wake c wakeup :=
      if bool_decide (p_id (pass s c) = 0%Z)
      then earlier (pqchan s c) (λ pe, bool_decide (delayed pe = 0%Z)) wakeup else wakeup in
    let wakeup := match job_avail s with
                  | None => wakeup
                  | Some _ => wake Remote (wake Local wakeup)
                  end in
    earlier (pqdone s) (λ _, true) (earlier (pqfail s) (λ _, true) wakeup).

(** The start of a pass over the file of the first message due: [false] when
    [pass_dochan] returns without one; the number in [pe.id]. *)
Definition pass_trouble (c : channel) (pe : prioq_elt) : M unit :=
  s ← getS;
  insert_chan c (PE (recent s + SLEEP_SYSFAIL) (pid pe) (delayed pe)).

Definition job_start (c : channel) (pe : prioq_elt) (j : nat) (fd : nat) (i : info) : M unit :=
  s ← getS;
  set_pass_of c (Pass (pid pe) j fd 0);;
  job_open (pid pe) c j;;
  let limit := if decide (in_sender i = []) then bouncelifetime cfg else lifetime cfg in
  let dying := bool_decide (in_birth i + limit < recent s)%Z in
  modify (upd_job j (λ x, Job (j_id x) (j_refs x) (j_channel x) (j_numtodo x) (j_flaghiteof x)
    dying (nextretry (recent s) (in_birth i) c) (in_sender i) (in_qqeh i) (in_envh i))).

Definition pass_begin (c : channel) : M (option Z) :=
  s ← getS;
  if decide (p_id (pass s c) ≠ 0%Z) then mret (Some (junk cfg))
  else
    match job_avail s, prioq_get (pqchan s c) with
    | Some j, Some pe =>
      if decide (recent s < dt pe)%Z then mret None
      else
        del_chan c;;
        modify (λ s, let p := pass s c in set_pass (upd (pass s) c (Pass 0 (p_j p) (p_fd p) 0)) s);;
        fd ← sys (open_read (fnmake_chanaddr cfg (pid pe) c));
        match fd with
        | inl _ => pass_trouble c pe;; mret None
        | inr fd =>
          i ← getinfo cfg (pid pe);
          match i with
          | None => pass_trouble c pe;; mret None
          | Some i => job_start c pe j fd i;; mret (Some (pid pe))
          end
        end
    | _, _ => mret None
    end.

(** Leave the file; [job_close] decides what becomes of the message. *)
Definition pass_leave (c : channel) : M unit :=
  s ← getS; job_close cfg (p_j (pass s c));; end_pass c.

(** A record of type T, [recip]; [true] when the file position may advance. *)
Definition pass_recipient (c : channel) (pe_id : Z) (recip : bytes) : M bool :=
  s ← getS;
  let p := pass s c in
  let '(i, t, limited) := delivery_rate s c recip pe_id in
  if decide (i = 0%Z) then
    modify (λ s, set_time_needed
      (if decide (t ≠ 0 ∧ (t < time_needed s ∨ time_needed s = 0))%Z
       then (t + SLEEP_FUZZ)%Z else 0%Z) s);;
    modify (upd_job (p_j p) (set_retry (recent s + t)));;
    pass_leave c;;
    modify (λ s, set_delayed_jobs (delayed_job_count s) s);;
    mret false
  else
    when (negb (bool_decide (i = -1)%Z) && limited)
      (modify (λ s, set_delayed_jobs (delayed_job_count s) s));;
    modify (upd_job (p_j p) (λ x, set_numtodo (j_numtodo x + 1) x));;
    del_start cfg (p_j p) (p_mpos p) recip;;
    mret true.

(** The next record of the file. *)
Definition pass_record (c : channel) (pe_id : Z) : M unit :=
  s ← getS;
  let p := pass s c in
  l ← sys (getln (p_fd p) (p_mpos p));
  match l with
  | None => pass_leave c
  | Some (_, false) => modify (upd_job (p_j p) (set_hiteof true));; pass_leave c
  | Some (line, true) =>
    go ← (match head line with
          | Some 84%Z (* T *) => pass_recipient c pe_id (cstr (tail line))
          | Some 68%Z (* D *) => mret true
          | _ => pass_leave c;; mret false
          end);
    when go (modify (λ s, let p := pass s c in
      set_pass (upd (pass s) c (Pass (p_id p) (p_j p) (p_fd p) (p_mpos p + length line))) s))
  end.

Definition pass_dochan (c : channel) : M unit :=
  s ← getS;
  if flagexitsend s then skip
  else
    go ← pass_begin c;
    match go with
    | None => skip
    | Some pe_id =>
      s ← getS;
      when (del_avail c s) (pass_record c pe_id)
    end.

(** ** Finished messages *)

(** A request to qmail-clean and its reply. *)
Definition ask_clean (id : Z) : M unit :=
  bad ← sys fault;
  if bad : bool then cleandied
  else
    modify (λ s, set_to_clean (to_clean s ++ fnmake_foop cfg id ++ [0%Z]) s);;
    s ← getS;
    match from_clean s with
    | [] => cleandied
    | _ :: r => modify (set_from_clean r)
    end.

Definition messdone_fail (id : Z) : M unit :=
  t ← sys now; insert_done (PE (t + SLEEP_SYSFAIL) id (junk cfg)).

(** The checks of [messdone]: [None] when the message is still in use, [Some
    false] when a [stat] failed, [Some true] when it is done. *)
Fixpoint no_channel_file (id : Z) (cs : list channel) : M (option bool) :=
  match cs with
  | [] => mret (Some true)
  | c :: cs =>
    r ← sys (stat (fnmake_chanaddr cfg id c));
    match r with
    | inr _ => mret None
    | inl ENOENT => no_channel_file id cs
    | inl _ => mret (Some false)
    end
  end.

Definition message_done (id : Z) : M (option bool) :=
  ok ← no_channel_file id channels;
  match ok with
  | Some true =>
    r ← sys (stat (fnmake_todo cfg id));
    match r with
    | inr _ => mret None
    | inl ENOENT =>
      r ← sys (stat (fnmake_info cfg id));
      mret (match r with
            | inl ENOENT => None
            | inl _ => Some false
            | inr _ => Some true
            end)
    | inl _ => mret (Some false)
    end
  | _ => mret ok
  end.

Definition messdone (be : bounce_env) (id : Z) : M unit :=
  ok ← message_done id;
  match ok with
  | None => skip
  | Some false => messdone_fail id
  | Some true =>
    sent ← injectbounce cfg bc be id;
    if negb sent : bool then messdone_fail id
    else
      log (EvEnd id);;
      r ← sys (unlink (fnmake_info cfg id));
      match r with
      | inl _ => messdone_fail id
      | inr _ => ask_clean id
      end
  end.

(** The rest of [pass_do]: a message whose [stat] had failed, and a message that
    may be done. *)
Definition pass_fail : M unit :=
  s ← getS;
  match prioq_get (pqfail s) with
  | Some pe => when (bool_decide (dt pe ≤ recent s)%Z) (del_fail;; pqadd cfg (pid pe) false)
  | None => skip
  end.
Definition pass_done (be : bounce_env) : M unit :=
  s ← getS;
  match prioq_get (pqdone s) with
  | Some pe => when (bool_decide (dt pe ≤ recent s)%Z) (del_done;; messdone be (pid pe))
  | None => skip
  end.

Definition pass_do (be : bounce_env) : M unit :=
  pass_dochan Local;; pass_dochan Remote;; pass_fail;; pass_done be.
End SendPass.
