(* ===== verification/SendLoop.v ===== *)
(** * Signals, todo-proc, clean-ups and the main loop of [qmail-send.c]

    [readsubdir.c] is modelled by the list of results of its successive calls;
    [select] by what it returns: an error, or which descriptors are ready and
    what reading them gives. *)

From S2P Require Import Prelude LibQmail Prioq Filesys Fmtqfn SendState SendQueue.
From S2P Require Import SendDeliver SendBounce SendPass.

(** [readsubdir_next]: 1 and a message number, 0 at the end, a negative code for
    a file name that is not a number. *)
Abbreviation dirent := (Z * Z)%type (only parsing).

(** What one round of [select] returns. *)
Record ready := Ready {
  rd_write : channel → bool;          (* the pipe to the spawn process accepts bytes *)
  rd_wres : channel → wresult;        (* what [write] on it returns *)
  rd_report : channel → option (option bytes);
(* reports: not ready, or the result of [read] *)
rd_todo : option (option bytes);    (* the same for todo-proc *)
rd_bounce : bounce_env;
rd_mess : dirent                    (* the next entry of mess *)
}.
Inductive selected := SelIntr | SelFail | SelReady (r : ready).

Record inputs := Inputs {
  in_controls : option controls;      (* the control files, when they are reread *)
  in_select : selected;
  in_info : list dirent               (* the entries of info, when they are read *)
}.

Section SendLoop.
Context {L : LibQmail} (cfg : config) (bc : bounce_config).
Context (delivery_rate : qsend → channel → bytes → Z → Z * Z * bool).

(** ** Signals *)

Definition sigterm : M unit := modify (set_flagexitsend true);; exit_todo.
Definition sigalrm : M unit := modify (set_flagrunasap true).
Definition sighup : M unit := modify (set_flagreadasap true).

(** One byte for todo-proc; when it cannot be written the daemon gives up. *)
Definition tell_todo (ch : Z) : M bool :=
  bad ← sys fault;
  if bad : bool then
    modify (λ s, set_flagtodoalive false (set_flagexitsend true s));; mret false
  else modify (λ s, set_to_todo (to_todo s ++ [ch]) s);; mret true.

Definition sigusr1 : M unit :=
  s ← getS;
  if decide (flagdetached s ≠ 0%Z) then skip
  else if del_canexit s then
    ok ← tell_todo 68 (* D *);
    when ok (modify (set_flagdetached 2))
  else
    modify (set_flagdetached 1);;
    _ ← tell_todo 68 (* D *);
    skip.

(** Scan the queue again and let todo-proc go on. *)
Definition attach (info : list dirent) : M unit :=
  pqstart cfg info;;
  ok ← tell_todo 65 (* A *);
  when ok (modify (set_flagdetached 0)).

Definition sigusr2 (info : list dirent) : M unit :=
  s ← getS;
  if decide (flagdetached s = 0%Z) then skip else attach info.

(** ** Messages from todo-proc *)

Definition tododied : M unit := modify (λ s, set_flagtodoalive false (set_flagexitsend true s)).

Definition todo_init : M unit := _ ← tell_todo 67 (* C *); skip.

Definition todo_selprep : M unit :=
  modify (λ s, if flagexitsend s && flagtodoalive s
               then set_flagtodoalive false (set_to_todo (to_todo s ++ lit "X") s) else s).

(** The channels a letter stands for; [None] for an obscure dialect. *)
Definition todo_channels (ch : option Z) : option (list channel) :=
  match ch with
  | Some 76%Z (* L *) => Some [Local]
  | Some 82%Z (* R *) => Some [Remote]
  | Some 66%Z (* B *) => Some [Local; Remote]
  | Some 88%Z (* X *) => Some []
  | _ => None
  end.

(** The argument is the C string after the letter D. *)
Definition todo_del (l : bytes) : M unit :=
  match todo_channels (head l) with
  | None => skip
  | Some cs =>
    let '(len, id) := scan_ulong (tail l) in
    if decide (len = 0 ∨ drop len (tail l) ≠ []) then skip
    else
      t ← sys now;
      let pe := PE t (wrap 64 id) (junk cfg) in
      insert_chans (map (λ c, (c, pe)) cs);;
      when (bool_decide (cs = [])) (insert_done pe)
  end.

Definition todo_line (l : bytes) : M unit :=
  s ← getS;
  match head l with
  | Some 68%Z (* D *) => if flagexitsend s then skip else todo_del (cstr (tail l))
  | Some 88%Z (* X *) => if flagexitsend s then modify (set_flagtodoalive false) else tododied
  | _ => skip
  end.

Definition todo_byte (ch : Z) : M unit :=
  modify (λ s, set_todoline (take REPORTMAX (todoline s ++ [ch])) s);;
  s ← getS;
  if decide (ch = 0%Z ∧ 1 < length (todoline s))
  then todo_line (todoline s);; modify (set_todoline [])
  else skip.

Fixpoint todo_bytes (l : bytes) : M unit :=
  match l with
  | [] => skip
  | ch :: l => todo_byte ch;; todo_bytes l
  end.

Definition todo_do (r : option (option bytes)) : M unit :=
  s ← getS;
  if negb (flagtodoalive s) then skip
  else match r with
  | None | Some None => skip
  | Some (Some []) => if flagexitsend s then modify (set_flagtodoalive false) else tododied
  | Some (Some l) => todo_bytes l
  end.

(** ** Clean-ups *)

Definition cleanup_selprep (s : qsend) (wakeup : Z) : Z :=
  let wakeup := if flagcleanup s then 0%Z else wakeup in
  if decide (cleanuptime s < wakeup)%Z then cleanuptime s else wakeup.

(** Both [stat] calls at the end of [cleanup_do] must say that there is no file. *)
Definition absent (p : bytes) : M bool :=
  r ← sys (stat p); mret (match r with inl ENOENT => true | _ => false end).

Definition cleanup_message (id : Z) : M unit :=
  r ← sys (stat (fnmake_mess cfg id));
  match r with
  | inl _ => skip
  | inr st =>
    s ← getS;
    if decide (recent s ≤ i_atime st + ossified cfg)%Z then skip
    else
      no_info ← absent (fnmake_info cfg id);
      if negb no_info : bool then skip
      else
        no_todo ← absent (fnmake_todo cfg id);
        if negb no_todo : bool then skip else ask_clean cfg id
  end.

Definition cleanup_do (e : dirent) : M unit :=
  s ← getS;
  if negb (flagcleanup s) && bool_decide (recent s < cleanuptime s)%Z then skip
  else
    modify (set_flagcleanup true);;
    if decide (fst e = 1%Z) then cleanup_message (snd e)
    else if decide (fst e = 0%Z) then
      modify (λ s, set_cleanuptime (recent s + SLEEP_CLEANUP) (set_flagcleanup false s))
    else skip.

(** ** The main loop *)

Definition comm_do_all (r : ready) : M unit :=
  _ ← comm_do Local (rd_write r Local) (rd_wres r Local);
  _ ← comm_do Remote (rd_write r Remote) (rd_wres r Remote);
  skip.

Definition del_do_one (c : channel) (r : option (option bytes)) : M unit :=
  s ← getS;
  match r with
  | Some d => when (flagspawnalive s c) (del_dochan cfg c d)
  | None => skip
  end.
Definition del_do (r : ready) : M unit :=
  del_do_one Local (rd_report r Local);; del_do_one Remote (rd_report r Remote).

(** The time [select] may wait, in seconds. *)
Definition select_timeout (s : qsend) : Z :=
  let wakeup := if decide (time_needed s = 0%Z) then (recent s + SLEEP_FOREVER)%Z
                else (recent s + time_needed s)%Z in
  let wakeup := cleanup_selprep s (pass_selprep s wakeup) in
  if decide (wakeup ≤ recent s)%Z then time_needed s
  else if decide (time_needed s ≠ 0 ∧ time_needed s < wakeup - recent s)%Z
  then (time_needed s + SLEEP_FUZZ)%Z
  else (wakeup - recent s + SLEEP_FUZZ)%Z.

Definition serve (r : ready) : M unit :=
  modify (set_time_needed 0);;
  t ← sys now;
  modify (set_recent t);;
  comm_do_all r;;
  del_do r;;
  todo_do (rd_todo r);;
  pass_do cfg bc delivery_rate (rd_bounce r);;
  cleanup_do (rd_mess r).

(** The part of an iteration before [select]. *)
Definition prepare (i : inputs) : M unit :=
  t ← sys now;
  modify (set_recent t);;
  s ← getS;
  when (flagrunasap s) (modify (set_flagrunasap false);; pqrun);;
  s ← getS;
  when (flagreadasap s) (modify (set_flagreadasap false);; reread true (in_controls i));;
  todo_selprep.

(** One iteration; [false] when the loop is left by [break]. *)
Definition iteration (i : inputs) : M bool :=
  prepare i;;
  s ← getS;
  go ← (match in_select i with
        | SelIntr => mret (negb (flagexitsend s))
        | SelFail => mret true
        | SelReady r => serve r;; mret true
        end);
  if negb go : bool then mret false
  else
    s ← getS;
    when (del_canexit s && bool_decide (flagdetached s = 1%Z)) (attach (in_info i));;
    mret true.

(** The condition of the loop. *)
Definition may_leave (s : qsend) : bool := flagexitsend s && del_canexit s && negb (flagtodoalive s).

Fixpoint main_loop (l : list inputs) : M unit :=
  match l with
  | [] => skip
  | i :: l =>
    s ← getS;
    if may_leave s then pqfinish cfg
    else go ← iteration i; if go : bool then main_loop l else pqfinish cfg
  end.

(** The state after [getcontrols] and [run_plugin], when [numjobs] and the
    delivery tables have been allocated: [w] is the queue. *)
Definition send_init (w : world) (conc : channel → nat) (hold : channel → bool)
    (vdoms : bytes → option bytes) (replies : list Z) (info : list dirent) : qsend :=
  let jobs := conc Local + conc Remote in
  let s := {|
    wd := w; recent := 0; time_needed := 0; delayed_jobs := 0;
    flagexitsend := false; flagrunasap := false; flagreadasap := false; flagdetached := 0;
    flagtodoalive := false; flagspawnalive := λ _, true;
    ptype := Min; pqchan := λ _, []; pqdone := []; pqfail := [];
    jo := []; concurrency := conc; concurrencyused := λ _, 0%Z;
    holdjobs := hold; del := λ _, []; masterdelid := 1;
    dline := λ _, []; comm_buf := λ _, []; comm_pos := λ _, 0;
    pass := λ _, Pass 0 0 0 0; todoline := []; flagcleanup := false; cleanuptime := 0;
    mapvdoms := vdoms; orig_recip := []; orig_recip_len := 0;
    to_clean := []; from_clean := replies; to_todo := []; outbox := []; ub := false; trace := []
  |} in
  let s := run (pqstart cfg info) s in
  let s := set_jo (replicate jobs inhabitant) s in
  let s := set_del (λ c, replicate (conc c) inhabitant) s in
  let s := run (modify (set_flagtodoalive true);; todo_init) s in
  run (t ← sys now; modify (set_cleanuptime t)) s.
End SendLoop.
