(* ===== verification/PassTheorems.v ===== *)
(** * The retry schedule and the time the main loop sleeps *)

From S2P Require Import Prelude LibQmail Prioq Filesys Fmtqfn SendState SendQueue.
From S2P Require Import SendDeliver SendBounce SendPass SendLoop.

(** ** Square roots *)

Lemma squareroot_loop_spec n x y yy :
  (0 ≤ y)%Z → yy = (y * y)%Z → (y * y ≤ x < (y + 2 ^ Z.of_nat n) * (y + 2 ^ Z.of_nat n))%Z →
  let r := squareroot_loop n x y yy in (0 ≤ r ∧ r * r ≤ x < (r + 1) * (r + 1))%Z.
Proof.
  revert y yy. induction n as [|n IH]; intros y yy Hy -> Hx; cbv zeta.
  { simpl. change (2 ^ Z.of_nat 0)%Z with 1%Z in Hx. lia. }
  cbn [squareroot_loop]. cbv zeta. rewrite !Z.shiftl_mul_pow2 by lia.
  set (p := (2 ^ Z.of_nat n)%Z) in *.
  assert (Hp : (0 < p)%Z) by (apply Z.pow_pos_nonneg; lia).
  assert (Hp1 : (2 ^ (Z.of_nat n + 1) = 2 * p)%Z) by (rewrite Z.pow_add_r by lia; lia).
  assert (Hp2 : (2 ^ (Z.of_nat n + Z.of_nat n) = p * p)%Z) by (by rewrite Z.pow_add_r by lia).
  assert (Hp3 : (2 ^ Z.of_nat (S n) = 2 * p)%Z).
  { rewrite Nat2Z.inj_succ, Z.pow_succ_r by lia. done. }
  rewrite Hp1, Hp2. rewrite Hp3 in Hx. rewrite !Z.mul_1_l. case_decide as Hc.
  - apply IH; [lia|nia|]. fold p. nia.
  - apply IH; [lia|done|]. fold p. nia.
Qed.

Lemma squareroot_sqrt x : (0 ≤ x < 2 ^ 32)%Z → squareroot x = Z.sqrt x.
Proof.
  intros Hx. unfold squareroot.
  pose proof (squareroot_loop_spec 16 x 0 0) as H. cbv zeta in H.
  generalize dependent (squareroot_loop 16 x 0 0). intros r H.
  change (2 ^ Z.of_nat 16)%Z with 65536%Z in H. change (2 ^ 32)%Z with 4294967296%Z in Hx.
  symmetry. apply Z.sqrt_unique. rewrite <- Z.add_1_r. apply H; lia.
Qed.

(** C5. The retry schedule.  For a message at most 2^32 seconds old, the next try
    of a channel is at a time in the future, the square of the age's integer root
    plus the channel's step (10 local, 20 remote); the intervals grow with the age
    of the message, and a remote try never comes before a local one. *)
Theorem retry_schedule recent birth :
  (birth ≤ recent < birth + 2 ^ 32)%Z →
  (∀ c, nextretry recent birth c = birth + (Z.sqrt (recent - birth) + chanskip c) ^ 2)%Z ∧
  (∀ c, recent < nextretry recent birth c)%Z ∧
  (∀ c, nextretry recent birth c - recent ≤ chanskip c * (2 * Z.sqrt (recent - birth) + chanskip c))%Z ∧
  (nextretry recent birth Local < nextretry recent birth Remote)%Z.
Proof.
  intros H. assert (Hn : ∀ c, nextretry recent birth c =
    (birth + (Z.sqrt (recent - birth) + chanskip c) ^ 2)%Z).
  { intros c. unfold nextretry. rewrite decide_False by lia. rewrite squareroot_sqrt by lia. lia. }
  pose proof (Z.sqrt_spec (recent - birth) ltac:(lia)) as [H1 H2].
  pose proof (Z.sqrt_nonneg (recent - birth)) as H3. set (r := Z.sqrt _) in *.
  rewrite <- Z.add_1_r in H2.
  split; [done|]. split_and!; [intros []; rewrite Hn; simpl; nia..|rewrite !Hn; simpl; nia].
Qed.

Lemma retry_schedule_witness :
  nextretry 1000 900 Remote = 1800%Z ∧ (1000 < nextretry 1000 900 Local)%Z.
Proof.
  destruct (retry_schedule 1000 900) as (H1 & H2 & _); [vm_compute; by split|].
  split; [by rewrite H1; vm_compute|apply H2].
Defined.

(** ** Sleeping *)

Section sleep.
Implicit Types s : qsend.

Lemma earlier_le pq cond w : (earlier pq cond w ≤ w)%Z.
Proof.
  unfold earlier. destruct (prioq_get pq) as [pe|]; [|lia].
  destruct (_ && _) eqn:E; [|lia]. apply andb_true_iff in E as [E _].
  apply bool_decide_eq_true in E. lia.
Qed.
Lemma earlier_due pq cond w pe :
  prioq_get pq = Some pe → cond pe = true → (earlier pq cond w ≤ dt pe)%Z.
Proof.
  intros Hg Hc. unfold earlier. rewrite Hg, Hc. case_bool_decide; simpl; lia.
Qed.
Lemma earlier_mono pq cond w w' : (w ≤ w')%Z → (earlier pq cond w ≤ earlier pq cond w')%Z.
Proof.
  intros Hw. unfold earlier. destruct (prioq_get pq) as [pe|]; [|done].
  destruct (cond pe); rewrite ?andb_true_r, ?andb_false_r; repeat case_bool_decide; lia.
Qed.

(** The time [select] is to return at, whatever the wakeup so far. *)
Definition work_due s (t : Z) : Prop :=
  (∃ pe, prioq_get (pqdone s) = Some pe ∧ dt pe = t) ∨
  (∃ pe, prioq_get (pqfail s) = Some pe ∧ dt pe = t) ∨
  (∃ c pe, job_avail s ≠ None ∧ p_id (pass s c) = 0%Z ∧ prioq_get (pqchan s c) = Some pe ∧
     delayed pe = 0%Z ∧ dt pe = t).

Lemma pass_selprep_due s t w :
  flagexitsend s = false → (0 ≤ t)%Z → work_due s t → (pass_selprep s w ≤ t)%Z.
Proof.
  intros Hex Ht Hw. unfold pass_selprep. rewrite Hex. destruct (existsb _ _); [done|]. cbv zeta.
  destruct Hw as [(pe & Hg & <-)|[(pe & Hg & <-)|(c & pe & Hj & Hp & Hg & Hd & <-)]].
  - by apply earlier_due.
  - etrans; [apply earlier_le|]. by apply earlier_due.
  - etrans; [apply earlier_le|]. etrans; [apply earlier_le|].
    destruct (job_avail s); [|done]. destruct c.
    + assert (H : (earlier (pqchan s Local) (λ pe, bool_decide (delayed pe = 0%Z)) w ≤ dt pe)%Z).
      { apply earlier_due; [done|]. by apply bool_decide_eq_true. }
      rewrite (bool_decide_true (p_id (pass s Local) = 0%Z)) by done.
      case_bool_decide; [|done]. etrans; [apply earlier_le|done].
    + rewrite (bool_decide_true (p_id (pass s Remote) = 0%Z)) by done.
      apply earlier_due; [done|]. by apply bool_decide_eq_true.
Qed.

(** C6. The daemon does not sleep past its work.  It has not been told to exit and no
    rate limit is in force ([time_needed] is 0).  Let a message be due at [t] that is
    done or has to be entered again, or that is first in a channel with no pass under
    way, when a job slot is free and [delayed] of its element is 0.  Then [select]
    waits at most until one second after [t], and not at all when [t] has come; nor
    does it wait when a pass is under way that can start a delivery.  [todo_del] leaves
    [delayed] as it happens to be in memory, and when that is not 0 the message is not
    waited for ([Run.due_but_asleep]). *)
Theorem wakes_for_work s t :
  flagexitsend s = false → time_needed s = 0%Z → (0 ≤ t)%Z → (0 ≤ recent s)%Z →
  (work_due s t ∨ t = 0%Z ∧ ∃ c, p_id (pass s c) ≠ 0%Z ∧ del_avail c s = true) →
  (select_timeout s ≤ Z.max 0 (t - recent s + 1))%Z ∧
  ((t ≤ recent s)%Z → select_timeout s = 0%Z).
Proof.
  intros Hex Htn Ht Hr Hw. unfold select_timeout. rewrite Htn.
  rewrite (decide_True (P := (0 = 0)%Z)) by done. cbv zeta.
  set (w := (recent s + SLEEP_FOREVER)%Z).
  assert (Hp : (pass_selprep s w ≤ t)%Z).
  { destruct Hw as [Hw|[-> (c & Hc & Ha)]]; [by apply pass_selprep_due|].
    unfold pass_selprep. rewrite Hex.
    assert (existsb (λ c, bool_decide (p_id (pass s c) ≠ 0%Z) && del_avail c s) channels = true) as ->.
    { apply existsb_exists. exists c. split; [destruct c; simpl; auto|].
      by rewrite bool_decide_true, Ha. }
    done. }
  assert (Hc : (cleanup_selprep s (pass_selprep s w) ≤ t)%Z).
  { unfold cleanup_selprep. destruct (flagcleanup s); case_decide; lia. }
  set (u := cleanup_selprep _ _) in *. unfold SLEEP_FUZZ. repeat case_decide; lia.
Qed.
End sleep.
