(* ===== verification/SendBounds.v ===== *)
(** * Array bounds in qmail-send

    The delivery tables [del] are allocated once, with [concurrency] entries;
    [concurrency] is read again from the control files on SIGHUP.  As long as it
    is not raised, no handler leaves the bounds of a table. *)

From stdpp Require Import relations.
From S2P Require Import Prelude LibQmail Prioq Filesys Fmtqfn SendState SendQueue.
From S2P Require Import SendDeliver SendBounce SendPass SendLoop.

(** What the bounds depend on. *)
Definition extent (s : qsend) : bool * (channel → nat) * nat * nat :=
  (ub s, concurrency s, length (del s Local), length (del s Remote)).

(** [n] entries were allocated. *)
Definition in_bounds (n : channel → nat) (s : qsend) : Prop :=
  ub s = false ∧ ∀ c, concurrency s c ≤ n c ∧ length (del s c) = n c.

Lemma in_bounds_ext n s s' : extent s' = extent s → in_bounds n s → in_bounds n s'.
Proof.
  unfold extent, in_bounds. intros [= H1 H2 H3 H4] [Hu Hc]. rewrite H1, H2. split; [done|].
  intros []; [rewrite H3|rewrite H4]; apply Hc.
Qed.

(** [inert m]: [m] changes neither the tables' lengths nor [concurrency]. *)
Definition inert {A} (m : M A) : Prop := ∀ s, extent (run m s) = extent s.
Definition bounded {A} (n : channel → nat) (m : M A) : Prop :=
  ∀ s, in_bounds n s → in_bounds n (run m s).

Lemma inert_ret {A} (a : A) : inert (mret a).
Proof. done. Qed.
Lemma inert_skip : inert skip.
Proof. done. Qed.
Lemma inert_getS : inert getS.
Proof. done. Qed.
Lemma inert_gets {A} (f : qsend → A) : inert (gets f).
Proof. done. Qed.
Lemma inert_bind {A B} (m : M A) (f : A → M B) : inert m → (∀ a, inert (f a)) → inert (m ≫= f).
Proof. intros Hm Hf s. rewrite run_bind, Hf. apply Hm. Qed.
Lemma inert_when b (m : M unit) : inert m → inert (when b m).
Proof. by destruct b. Qed.
Lemma inert_modify (f : qsend → qsend) : (∀ s, extent (f s) = extent s) → inert (modify f).
Proof. done. Qed.
Lemma inert_sys {A} (m : ST world A) : inert (sys m).
Proof. intros s. unfold run, sys. by destruct (m (wd s)). Qed.
Lemma inert_upd_del c i f : inert (modify (upd_del c i f)).
Proof.
  intros s. unfold extent, upd_del, run, modify. simpl. unfold upd.
  by destruct c; simpl; rewrite length_alter.
Qed.
Lemma inert_upd_del_s c i f : inert (modify (λ s, upd_del c i (f s) s)).
Proof. intros s. apply (inert_upd_del c i (f s)). Qed.
Lemma inert_bounded {A} n (m : M A) : inert m → bounded n m.
Proof. intros Hm s. apply in_bounds_ext, Hm. Qed.

Create HintDb inert.
#[export] Hint Resolve inert_ret inert_skip inert_getS inert_gets inert_sys inert_upd_del
  inert_upd_del_s : inert.

Ltac solve_inert :=
  intros; cbv zeta;
  lazymatch goal with
  | |- inert (_ ≫= _) => apply inert_bind; [solve_inert|solve_inert]
  | |- inert (when _ _) => apply inert_when; solve_inert
  | |- inert (match ?x with _ => _ end) => destruct x; solve_inert
  | |- inert _ => first [solve [eauto 3 with inert] | apply inert_modify; intros; reflexivity | idtac]
  | |- _ => idtac
  end.

Section inert.
Context {L : LibQmail} (cfg : config) (bc : bounce_config).

Lemma inert_insert_chan c pe : inert (insert_chan c pe).
Proof. done. Qed.
Lemma inert_insert_done pe : inert (insert_done pe).
Proof. done. Qed.
Lemma inert_insert_fail pe : inert (insert_fail pe).
Proof. done. Qed.
Hint Resolve inert_insert_chan inert_insert_done inert_insert_fail : inert.
Lemma inert_more_channels id own cs : inert (more_channels cfg id own cs).
Proof. induction cs as [|c cs IH]; simpl; solve_inert. Qed.
Hint Resolve inert_more_channels : inert.
Lemma inert_job_close j : inert (job_close cfg j).
Proof. unfold job_close, job_requeue. solve_inert. Qed.
Lemma inert_log e : inert (log e).
Proof. done. Qed.
Lemma inert_comm_write c i id a b d e : inert (comm_write cfg c i id a b d e).
Proof. apply inert_modify. intros s. by destruct (comm_canwrite c s). Qed.
Hint Resolve inert_job_close inert_log inert_comm_write : inert.
Lemma inert_pass_leave c : inert (pass_leave cfg c).
Proof. unfold pass_leave, end_pass. solve_inert. Qed.
Lemma inert_markdone c id pos : inert (markdone cfg c id pos).
Proof. unfold markdone. solve_inert. Qed.
Lemma inert_addbounce id recip report : inert (addbounce cfg id recip report).
Proof. unfold addbounce. solve_inert. Qed.
Hint Resolve inert_pass_leave inert_markdone inert_addbounce : inert.
Lemma inert_del_result c i r : inert (del_result cfg c i r).
Proof. unfold del_result, del_finish. solve_inert. Qed.

Lemma inert_exit_todo : inert exit_todo.
Proof. unfold exit_todo. solve_inert. Qed.
Hint Resolve inert_exit_todo : inert.
Lemma inert_spawndied c : inert (spawndied c).
Proof. unfold spawndied. solve_inert. Qed.
Lemma inert_cleandied : inert cleandied.
Proof. unfold cleandied. solve_inert. Qed.
Hint Resolve inert_spawndied inert_cleandied : inert.
Lemma inert_comm_do c r w : inert (comm_do c r w).
Proof. unfold comm_do. solve_inert. apply inert_modify. intros s0. cbv zeta. by case_match. Qed.
Lemma inert_getinfo id : inert (getinfo cfg id).
Proof. unfold getinfo. solve_inert. Qed.
Lemma inert_remove_bounce id : inert (remove_bounce cfg id).
Proof. unfold remove_bounce. solve_inert. Qed.
Hint Resolve inert_comm_do inert_getinfo inert_remove_bounce : inert.
Lemma inert_submit_bounce be id birth s0 s1 fail : inert (submit_bounce cfg bc be id birth s0 s1 fail).
Proof. unfold submit_bounce. solve_inert. Qed.
Lemma inert_pqadd_stat id f cs : inert (pqadd_stat cfg id f cs).
Proof. induction cs as [|c cs IH]; simpl; solve_inert. Qed.
Lemma inert_insert_chans l : inert (insert_chans l).
Proof. induction l as [|[c pe] l IH]; simpl; solve_inert. Qed.
Hint Resolve inert_submit_bounce inert_pqadd_stat inert_insert_chans : inert.
Lemma inert_pqadd id f : inert (pqadd cfg id f).
Proof. unfold pqadd, pqadd_fail. solve_inert. Qed.
Hint Resolve inert_pqadd : inert.
Lemma inert_pqstart l : inert (pqstart cfg l).
Proof.
  unfold pqstart. apply inert_bind; [|solve_inert].
  induction l as [|[x id] l IH]; simpl; solve_inert.
Qed.
Hint Resolve inert_pqstart : inert.
Lemma inert_attach l : inert (attach cfg l).
Proof. unfold attach, tell_todo. solve_inert. Qed.
Lemma inert_no_channel_file id cs : inert (no_channel_file cfg id cs).
Proof. induction cs as [|c cs IH]; simpl; solve_inert. Qed.
Hint Resolve inert_no_channel_file inert_attach : inert.
Lemma inert_message_done id : inert (message_done cfg id).
Proof. unfold message_done. solve_inert. Qed.
Lemma inert_messdone_fail id : inert (messdone_fail cfg id).
Proof. unfold messdone_fail. solve_inert. Qed.
Lemma inert_ask_clean id : inert (ask_clean cfg id).
Proof. unfold ask_clean. solve_inert. Qed.
Hint Resolve inert_message_done inert_messdone_fail inert_ask_clean : inert.
Lemma inert_pass_begin c : inert (pass_begin cfg c).
Proof. unfold pass_begin, pass_trouble, job_start, set_pass_of, job_open. solve_inert. Qed.
Lemma inert_pass_fail : inert (pass_fail cfg).
Proof. unfold pass_fail. solve_inert. Qed.
Lemma inert_todo_del l : inert (todo_del cfg l).
Proof. unfold todo_del. solve_inert. Qed.
Hint Resolve inert_pass_begin inert_pass_fail inert_todo_del : inert.
Lemma inert_todo_bytes l : inert (todo_bytes cfg l).
Proof.
  induction l as [|ch l IH]; simpl; [done|]. apply inert_bind; [|done].
  unfold todo_byte, todo_line, tododied. solve_inert.
Qed.
Hint Resolve inert_todo_bytes : inert.
Lemma inert_todo_do r : inert (todo_do cfg r).
Proof. unfold todo_do, tododied. solve_inert. Qed.
Lemma inert_cleanup_do e : inert (cleanup_do cfg e).
Proof. unfold cleanup_do, cleanup_message, absent. solve_inert. Qed.
Lemma inert_todo_selprep : inert todo_selprep.
Proof. apply inert_modify. intros s. by destruct (_ && _). Qed.
Lemma inert_pqfinish_chan fuel c : inert (pqfinish_chan cfg fuel c).
Proof. induction fuel as [|fuel IH]; simpl; solve_inert. Qed.
Hint Resolve inert_todo_do inert_cleanup_do inert_todo_selprep inert_pqfinish_chan : inert.
Lemma inert_pqfinish : inert (pqfinish cfg).
Proof. unfold pqfinish. solve_inert. Qed.

(** ** The two places that index a table *)

Lemma find_slot_in n i d : n + i ≤ length d → find_slot n i d ≠ SOutOfBounds.
Proof.
  revert i. induction n as [|n IH]; intros i Hl; simpl; [done|].
  destruct (d !! i) as [x|] eqn:E; [|apply lookup_ge_None in E; lia].
  destruct (d_used x); [|done]. apply IH. lia.
Qed.

Section allocated.
Context (n : channel → nat) (delivery_rate : qsend → channel → bytes → Z → Z * Z * bool).

Lemma bounded_bind {A B} (m : M A) (f : A → M B) : bounded n m → (∀ a, bounded n (f a)) → bounded n (m ≫= f).
Proof. intros Hm Hf s Hs. rewrite run_bind. by apply Hf, Hm. Qed.
Lemma bounded_when b (m : M unit) : bounded n m → bounded n (when b m).
Proof. destruct b; [done|]. by intros _ s. Qed.
Lemma bounded_getS_bind {B} (f : qsend → M B) :
  (∀ s, in_bounds n s → in_bounds n (run (f s) s)) → bounded n (getS ≫= f).
Proof. intros Hf s Hs. rewrite run_bind. by apply Hf. Qed.

Lemma bounded_del_start j mpos recip : bounded n (del_start cfg j mpos recip).
Proof.
  unfold del_start. apply bounded_getS_bind. intros s Hs. cbv zeta.
  destruct (_ || _); [done|]. set (c := j_channel _).
  pose proof (find_slot_in (concurrency s c) 0 (del s c)) as Hf.
  destruct (find_slot _ _ _) as [i| |]; [|done|].
  - apply inert_bounded; [solve_inert|done].
  - destruct Hs as [_ Hc]. destruct Hf; [|done]. destruct (Hc c). lia.
Qed.

Lemma bounded_del_byte c ch : bounded n (del_byte cfg c ch).
Proof.
  unfold del_byte. apply bounded_bind; [apply inert_bounded; solve_inert|]. intros _.
  apply bounded_getS_bind. intros s Hs. cbv zeta.
  destruct (_ && _); [|done]. rewrite run_bind.
  apply inert_bounded; [solve_inert|]. case_decide as Hd; [done|].
  destruct (del s c !! _) as [x|] eqn:Hx.
  - destruct (d_used x); [|done]. by apply inert_bounded; [apply inert_del_result|].
  - apply lookup_ge_None in Hx. destruct Hs as [_ Hc]. destruct (Hc c). lia.
Qed.

(** ** Control files that ask for no more deliveries than there are entries *)

Definition controls_fit (ct : controls) : Prop :=
  ∀ c v, ct_concurrency ct c = RSet v → Z.to_nat (wrap 32 v) ≤ n c.
Definition bounce_fits (be : bounce_env) : Prop := ∀ ct, be_reread be = Some ct → controls_fit ct.
Definition inputs_fit (i : inputs) : Prop :=
  (∀ ct, in_controls i = Some ct → controls_fit ct) ∧
  (∀ r, in_select i = SelReady r → bounce_fits (rd_bounce r)).

Lemma bounded_read_concurrency ct c : controls_fit ct → bounded n (read_concurrency ct c).
Proof.
  intros Hct. unfold read_concurrency. destruct (ct_concurrency ct c) as [| |v] eqn:E; try by intros s.
  apply bounded_bind; [|by intros _ s]. intros s [Hu Hc]. split; [done|]. intros c'.
  unfold modify, run. simpl. unfold upd. destruct (decide (c' = c)) as [->|]; [|apply Hc].
  split; [by apply Hct|apply Hc].
Qed.
Lemma bounded_regetcontrols ct : controls_fit ct → bounded n (regetcontrols ct).
Proof.
  intros Hct. unfold regetcontrols. destruct (negb _); [by intros s|].
  destruct (ct_vdoms ct); [|by intros s].
  apply bounded_bind; [by apply bounded_read_concurrency|]. intros []; [|by intros s]. simpl.
  apply bounded_bind; [by apply bounded_read_concurrency|]. intros []; [|by intros s]. simpl.
  apply inert_bounded. unfold change_hold. solve_inert.
Qed.
Lemma bounded_reread h oct :
  (∀ ct, oct = Some ct → controls_fit ct) → bounded n (reread h oct).
Proof.
  intros Hct. destruct oct as [ct|]; [|by intros s]. apply bounded_bind; [|intros _].
  - apply inert_bounded. solve_inert.
  - by apply bounded_regetcontrols, Hct.
Qed.

Lemma bounded_injectbounce be id : bounce_fits be → bounded n (injectbounce cfg bc be id).
Proof.
  intros Hbe. unfold injectbounce. apply bounded_bind; [apply inert_bounded; solve_inert|].
  intros [i|]; [|by intros s]. apply bounded_bind; [apply inert_bounded; solve_inert|].
  intros [[]|st]; try by intros s. cbv zeta. do 2 (case_decide; [apply inert_bounded; solve_inert|]).
  destruct (_ || _); [by intros s|].
  apply bounded_bind; [by apply bounded_when, bounded_reread|]. intros _.
  apply inert_bounded. solve_inert.
Qed.
Lemma bounded_messdone be id : bounce_fits be → bounded n (messdone cfg bc be id).
Proof.
  intros Hbe. unfold messdone. apply bounded_bind; [apply inert_bounded; solve_inert|].
  intros [[]|]; try solve [apply inert_bounded; solve_inert].
  apply bounded_bind; [by apply bounded_injectbounce|]. intros []; apply inert_bounded; solve_inert.
Qed.

(** ** The main loop *)

Lemma bounded_del_dochan c r : bounded n (del_dochan cfg c r).
Proof.
  assert (H : ∀ l, bounded n (del_bytes cfg c l)).
  { induction l as [|ch l IH]; simpl; [by intros s|]. apply bounded_bind; [apply bounded_del_byte|done]. }
  destruct r as [[|b l]|]; [apply inert_bounded; solve_inert|apply H|by intros s].
Qed.
Lemma bounded_pass_dochan c : bounded n (pass_dochan cfg delivery_rate c).
Proof.
  unfold pass_dochan. apply bounded_getS_bind. intros s Hs. destruct (flagexitsend s); [done|].
  apply bounded_bind; [apply inert_bounded; solve_inert| |exact Hs]. intros [pe_id|]; [|by intros s'].
  apply bounded_getS_bind. intros s' Hs'. revert Hs'. apply bounded_when. clear s Hs.
  unfold pass_record. apply bounded_getS_bind. intros s Hs. cbv zeta. revert Hs. apply bounded_bind.
  { apply inert_bounded. solve_inert. }
  intros [[line []]|]; try solve [apply inert_bounded; solve_inert].
  assert (Hr : ∀ recip, bounded n (pass_recipient cfg delivery_rate c pe_id recip)).
  { intros recip. unfold pass_recipient. apply bounded_getS_bind. intros s2 Hs2. cbv zeta.
    destruct (delivery_rate _ _ _ _) as [[i t] limited]. revert Hs2.
    case_decide; [apply inert_bounded; solve_inert|].
    apply bounded_bind; [apply inert_bounded; solve_inert|]. intros _.
    apply bounded_bind; [apply inert_bounded; solve_inert|]. intros _.
    apply bounded_bind; [apply bounded_del_start|]. by intros _ s4. }
  apply bounded_bind; [|intros go; apply inert_bounded; solve_inert].
  assert (Hleave : bounded n (pass_leave cfg c;; mret false)) by (apply inert_bounded; solve_inert).
  destruct (head line) as [h|]; [|done].
  destruct h as [|h|h]; try done. repeat (destruct h as [h|h|]; try exact Hleave).
  all: first [exact (Hr _)|by apply inert_bounded].
Qed.
Lemma bounded_pass_do be : bounce_fits be → bounded n (pass_do cfg bc delivery_rate be).
Proof.
  intros Hbe. unfold pass_do. apply bounded_bind; [apply bounded_pass_dochan|]. intros _.
  apply bounded_bind; [apply bounded_pass_dochan|]. intros _.
  apply bounded_bind; [apply inert_bounded; solve_inert|]. intros _.
  unfold pass_done. apply bounded_getS_bind. intros s Hs. destruct (prioq_get _) as [pe|]; [|done].
  revert Hs. apply bounded_when, bounded_bind; [by apply inert_bounded|]. intros _.
  by apply bounded_messdone.
Qed.
Lemma bounded_iteration i : inputs_fit i → bounded n (iteration cfg bc delivery_rate i).
Proof.
  intros [Hct Hbe]. unfold iteration. apply bounded_bind; [|intros _].
  { unfold prepare. apply bounded_bind; [apply inert_bounded; solve_inert|]. intros t.
    apply bounded_bind; [apply inert_bounded; solve_inert|]. intros _.
    apply bounded_getS_bind. intros s. apply bounded_bind; [|intros _].
    { apply inert_bounded. unfold pqrun. solve_inert. }
    apply bounded_getS_bind. intros s'. apply bounded_bind; [|intros _; apply inert_bounded; solve_inert].
    apply bounded_when, bounded_bind; [apply inert_bounded; solve_inert|]. intros _.
    by apply bounded_reread. }
  apply bounded_getS_bind. intros s. apply bounded_bind.
  { destruct (in_select i) as [| |r]; try by intros s'. specialize (Hbe r eq_refl).
    apply bounded_bind; [|by intros _ s']. unfold serve.
    apply bounded_bind; [apply inert_bounded; solve_inert|]. intros _.
    apply bounded_bind; [apply inert_bounded; solve_inert|]. intros t.
    apply bounded_bind; [apply inert_bounded; solve_inert|]. intros _.
    apply bounded_bind; [apply inert_bounded; unfold comm_do_all; solve_inert|]. intros _.
    apply bounded_bind; [|intros _].
    { assert (Hd : ∀ c d, bounded n (del_do_one cfg c d)).
      { intros c d. unfold del_do_one. apply bounded_getS_bind. intros s'. destruct d; [|done].
        apply bounded_when, bounded_del_dochan. }
      unfold del_do. apply bounded_bind; [apply Hd|]. intros _. apply Hd. }
    apply bounded_bind; [apply inert_bounded; solve_inert|]. intros _.
    apply bounded_bind; [by apply bounded_pass_do|]. intros _. apply inert_bounded. solve_inert. }
  intros go. apply inert_bounded. solve_inert.
Qed.

(** C7. As long as the control files never ask for more concurrent deliveries
    than there were at the start, no run of the main loop reads or writes a
    delivery table outside its bounds, whatever the spawn processes report. *)
Theorem tables_in_bounds l s :
  Forall inputs_fit l → in_bounds n s → ub (run (main_loop cfg bc delivery_rate l) s) = false.
Proof.
  intros Hl Hs. enough (H : bounded n (main_loop cfg bc delivery_rate l)) by apply H, Hs.
  induction Hl as [|i l Hi Hl IH]; simpl; [by intros s'|].
  apply bounded_getS_bind. intros s'. destruct (may_leave s').
  { apply inert_bounded, inert_pqfinish. }
  apply bounded_bind; [by apply bounded_iteration|]. intros []; [done|].
  apply inert_bounded, inert_pqfinish.
Qed.
End allocated.
End inert.
