(* ===== verification/SendInv.v ===== *)
(** * What the handlers of qmail-send do to jobs, deliveries and files

    The [core] of the state is what the bookkeeping of deliveries depends on.
    Most steps of a handler leave it alone ([neutral]); the others are described
    here by their effect on it. *)

From S2P Require Import Prelude LibQmail Prioq Filesys Fmtqfn SendState SendQueue.
From S2P Require Import SendDeliver SendBounce SendPass.

Record coreT := Core {
  k_jo : list job;
  k_del : channel → list DEL;
  k_pass : channel → passrec;
  k_used : channel → Z;
  k_names : gmap bytes nat;
  k_inodes : gmap nat inode;
  k_next : nat;
  k_trace : list event
}.

Definition core (s : qsend) : coreT :=
  Core (jo s) (del s) (pass s) (concurrencyused s)
    (names (wd s)) (inodes (wd s)) (next_ino (wd s)) (trace s).

Definition kset_jo v (k : coreT) := Core v (k_del k) (k_pass k) (k_used k) (k_names k) (k_inodes k) (k_next k) (k_trace k).
Definition kset_del v (k : coreT) := Core (k_jo k) v (k_pass k) (k_used k) (k_names k) (k_inodes k) (k_next k) (k_trace k).
Definition kset_pass v (k : coreT) := Core (k_jo k) (k_del k) v (k_used k) (k_names k) (k_inodes k) (k_next k) (k_trace k).
Definition kset_used v (k : coreT) := Core (k_jo k) (k_del k) (k_pass k) v (k_names k) (k_inodes k) (k_next k) (k_trace k).
Definition kset_names v (k : coreT) := Core (k_jo k) (k_del k) (k_pass k) (k_used k) v (k_inodes k) (k_next k) (k_trace k).
Definition kset_inodes v (k : coreT) := Core (k_jo k) (k_del k) (k_pass k) (k_used k) (k_names k) v (k_next k) (k_trace k).
Definition kset_next v (k : coreT) := Core (k_jo k) (k_del k) (k_pass k) (k_used k) (k_names k) (k_inodes k) v (k_trace k).
Definition kset_trace v (k : coreT) := Core (k_jo k) (k_del k) (k_pass k) (k_used k) (k_names k) (k_inodes k) (k_next k) v.

(** ** Neutral steps *)

Definition neutral {A} (m : M A) : Prop := ∀ s, core (run m s) = core s.

Create HintDb neutral.

Lemma neutral_ret {A} (a : A) : neutral (mret a).
Proof. done. Qed.
Lemma neutral_getS : neutral getS.
Proof. done. Qed.
Lemma neutral_gets {A} (f : qsend → A) : neutral (gets f).
Proof. done. Qed.
Lemma neutral_skip : neutral skip.
Proof. done. Qed.
Lemma neutral_bind {A B} (m : M A) (f : A → M B) :
  neutral m → (∀ a, neutral (f a)) → neutral (m ≫= f).
Proof. intros Hm Hf s. rewrite run_bind, Hf. apply Hm. Qed.
Lemma neutral_modify (f : qsend → qsend) : (∀ s, core (f s) = core s) → neutral (modify f).
Proof. done. Qed.
Lemma neutral_when b (m : M unit) : neutral m → neutral (when b m).
Proof. by destruct b. Qed.
Lemma core_sys {A} (m : ST world A) s :
  core (run (sys m) s) =
  Core (jo s) (del s) (pass s) (concurrencyused s) (names (run m (wd s)))
    (inodes (run m (wd s))) (next_ino (run m (wd s))) (trace s).
Proof. unfold run, sys. by destruct (m (wd s)). Qed.
Lemma neutral_sys {A} (m : ST world A) : quiet m → neutral (sys m).
Proof.
  intros Hm s. rewrite core_sys. specialize (Hm (wd s)). unfold files in Hm.
  injection Hm as H1 H2 H3. by rewrite H1, H2, H3.
Qed.

#[export] Hint Resolve neutral_ret neutral_getS neutral_gets neutral_skip : neutral.

(** Decompose a handler into its steps; the leaves are found in the database. *)
Ltac solve_neutral :=
  intros; cbv zeta;
  match goal with
  | |- neutral (?m ≫= ?f) => apply neutral_bind; [solve_neutral|solve_neutral]
  | |- neutral (when _ _) => apply neutral_when; solve_neutral
  | |- neutral (sys _) => apply neutral_sys; solve [eauto 10 with quiet]
  | |- neutral (match ?x with _ => _ end) => destruct x; solve_neutral
  | |- neutral _ => solve [eauto 2 with neutral]
  | |- neutral (modify _) => solve [apply neutral_modify; intros ?; reflexivity]
  end.

Lemma wp_neutral {A} (m : M A) (Q : A → qsend → Prop) s :
  neutral m → (∀ s', core s' = core s → Q (val m s) s') → wp m Q s.
Proof. intros Hm H. apply H, Hm. Qed.

(** A neutral step before a continuation: the continuation runs in a state with
    the same core. *)
Lemma wp_neutral_bind {A B} (m : M A) (f : A → M B) (Q : B → qsend → Prop) s :
  neutral m → (∀ a s', core s' = core s → wp (f a) Q s') → wp (m ≫= f) Q s.
Proof. intros Hm H. apply wp_bind. apply wp_neutral; auto. Qed.

Section SendInv.
Context {L : LibQmail} (cfg : config) (bc : bounce_config).

Lemma neutral_insert_chan c pe : neutral (insert_chan c pe).
Proof. done. Qed.
Lemma neutral_insert_done pe : neutral (insert_done pe).
Proof. done. Qed.
Lemma neutral_insert_fail pe : neutral (insert_fail pe).
Proof. done. Qed.
Lemma neutral_del_chan c : neutral (del_chan c).
Proof. done. Qed.
Lemma neutral_del_done : neutral del_done.
Proof. done. Qed.
Lemma neutral_del_fail : neutral del_fail.
Proof. done. Qed.
Hint Resolve neutral_insert_chan neutral_insert_done neutral_insert_fail neutral_del_chan
  neutral_del_done neutral_del_fail : neutral.

Lemma neutral_requeue x t : neutral (job_requeue cfg x t).
Proof. done. Qed.
Hint Resolve neutral_requeue : neutral.

Lemma neutral_more_channels id own cs : neutral (more_channels cfg id own cs).
Proof. induction cs as [|c cs IH]; simpl; [solve_neutral|]. case_decide; solve_neutral. Qed.
Lemma neutral_pqadd_stat id f cs : neutral (pqadd_stat cfg id f cs).
Proof. induction cs as [|c cs IH]; simpl; solve_neutral. Qed.
Lemma neutral_insert_chans l : neutral (insert_chans l).
Proof. induction l as [|[c pe] l IH]; simpl; solve_neutral. Qed.
Hint Resolve neutral_more_channels neutral_pqadd_stat neutral_insert_chans : neutral.
Lemma neutral_pqadd id f : neutral (pqadd cfg id f).
Proof. unfold pqadd, pqadd_fail. solve_neutral. Qed.
Hint Resolve neutral_pqadd : neutral.
Lemma neutral_pqstart l : neutral (pqstart cfg l).
Proof.
  unfold pqstart. apply neutral_bind; [|solve_neutral].
  induction l as [|[x id] l IH]; simpl; solve_neutral.
Qed.
Lemma neutral_pqrun : neutral pqrun.
Proof. done. Qed.
Lemma neutral_spawndied c : neutral (spawndied c).
Proof. unfold spawndied, exit_todo. solve_neutral. Qed.
Lemma neutral_cleandied : neutral cleandied.
Proof. unfold cleandied, exit_todo. solve_neutral. Qed.
Hint Resolve neutral_spawndied neutral_cleandied : neutral.
Lemma neutral_comm_do c r w : neutral (comm_do c r w).
Proof.
  unfold comm_do. apply neutral_bind; [done|]. intros s. destruct (_ && _); [|done].
  destruct w; [|solve_neutral|done]. case_decide; [done|].
  apply neutral_bind; [|done]. apply neutral_modify. intros s'. by case_decide.
Qed.
Lemma neutral_comm_write c i id a b d e : neutral (comm_write cfg c i id a b d e).
Proof. apply neutral_modify. intros s. by destruct (comm_canwrite c s). Qed.

Lemma neutral_getinfo id : neutral (getinfo cfg id).
Proof.
  unfold getinfo. apply neutral_bind; [solve_neutral|]. intros [e|fd]; [done|].
  apply neutral_bind; [solve_neutral|]. intros [e|st]; [done|]. apply neutral_sys.
  generalize (Info [] [] [] (i_mtime st)), 0. induction (S (length (i_data st))) as [|n IH];
    intros r pos; simpl; [apply quiet_ret|]. apply quiet_bind; [apply quiet_getln|].
  intros [[line []]|]; [|apply quiet_ret..]. apply IH.
Qed.
Hint Resolve neutral_comm_do neutral_comm_write neutral_getinfo : neutral.

Lemma neutral_regetcontrols ct : neutral (regetcontrols ct).
Proof.
  unfold regetcontrols, read_concurrency, change_hold. destruct (negb _); [done|].
  destruct (ct_vdoms ct); [|done].
  apply neutral_bind; [by destruct (ct_concurrency ct Local)|]. intros []; [|done].
  apply neutral_bind; [by destruct (ct_concurrency ct Remote)|]. intros []; [|done].
  destruct (new_hold (ct_hold ct Local)), (new_hold (ct_hold ct Remote)); try done. destruct (negb _); [done|]. solve_neutral.
Qed.
Hint Resolve neutral_regetcontrols : neutral.
Lemma neutral_reread h ct : neutral (reread h ct).
Proof. unfold reread. destruct ct; solve_neutral. Qed.

(** ** Closing a job *)

Definition closed_job (k : coreT) (j : nat) : job := set_refs (j_refs (k_jo k !!! j) - 1) (k_jo k !!! j).

Definition job_closed (j : nat) (gone : bool) (k : coreT) : coreT :=
  let x := k_jo k !!! j in
  kset_jo (<[j := closed_job k j]> (k_jo k))
    (kset_names (if gone then delete (fnmake_chanaddr cfg (j_id x) (j_channel x)) (k_names k)
                 else k_names k) k).

(** The channel file is removed only when nothing refers to the job any more,
    the file was read to its end, and no delivery is owed. *)
Definition may_remove (k : coreT) (j : nat) : Prop :=
  let x := k_jo k !!! j in
  (j_refs x ≤ 1)%Z ∧ j_flaghiteof x = true ∧ j_numtodo x = 0%Z ∧
  is_Some (k_names k !! fnmake_chanaddr cfg (j_id x) (j_channel x)).

Lemma alter_insert_total {A} `{Inhabited A} (f : A → A) (l : list A) i :
  i < length l → alter f i l = <[i := f (l !!! i)]> l.
Proof.
  intros Hi. apply list_eq. intros n. destruct (decide (n = i)) as [->|Hn].
  - rewrite list_lookup_alter_eq, list_lookup_insert_eq by done.
    by rewrite list_lookup_lookup_total_lt.
  - by rewrite list_lookup_alter_ne, list_lookup_insert_ne by done.
Qed.

Lemma job_close_core j s :
  j < length (jo s) →
  wp (job_close cfg j) (λ _ s', ∃ gone : bool, core s' = job_closed j gone (core s) ∧
    (gone = true → may_remove (core s) j)) s.
Proof.
  intros Hj. unfold job_close.
  assert (Hsame : ∀ s', core s' = core (upd_job j (λ x, set_refs (j_refs x - 1) x) s) →
    ∃ gone : bool, core s' = job_closed j gone (core s) ∧
      (gone = true → may_remove (core s) j)).
  { intros s' ->. exists false. split; [|done]. unfold job_closed, closed_job, core, upd_job.
    simpl. by rewrite alter_insert_total. }
  apply wp_bind, wp_modify, wp_bind, wp_getS. cbv zeta.
  set (s1 := upd_job j _ s) in *.
  assert (Hx : jo s1 !!! j = set_refs (j_refs (jo s !!! j) - 1) (jo s !!! j)).
  { unfold s1, upd_job. simpl. rewrite alter_insert_total by done.
    by rewrite list_lookup_total_insert_eq. }
  rewrite Hx. simpl. case_decide; [by apply wp_ret, Hsame|].
  destruct (_ && _) eqn:Heof.
  2:{ apply wp_neutral; [solve_neutral|]. intros s' ->. by apply Hsame. }
  apply andb_true_iff in Heof as [Heof Htodo%bool_decide_eq_true].
  apply wp_bind, wp_sys, wp_unlink.
  - intros e f. apply wp_neutral; [solve_neutral|]. intros s' ->. by apply Hsame.
  - intros i f Hi. apply wp_neutral; [solve_neutral|]. intros s' ->. exists true. split.
    + unfold job_closed, closed_job, core, s1, upd_job. simpl. by rewrite alter_insert_total.
    + intros _. unfold may_remove. simpl. split_and!; [lia|done|done|]. by exists i.
Qed.
End SendInv.
