(* ===== verification/SendQueuesInv.v ===== *)
(** * The queues of qmail-send are heaps of message numbers

    Every handler keeps the four priority queues in heap order, and every number
    in a queue or in the job table an unsigned long. *)

From S2P Require Import Prelude LibQmail Prioq Filesys Fmtqfn SendState SendQueue.
From S2P Require Import SendDeliver SendBounce SendPass SendInv SendLoop.

Section SendQueuesInv.
Context {L : LibQmail} (cfg : config) (bc : bounce_config).
Context (delivery_rate : qsend → channel → bytes → Z → Z * Z * bool).

Definition queue_ok (pq : prioq) : Prop := heap Min pq ∧ Forall (λ pe, ulong (pid pe)) pq.

(** What the invariant depends on. *)
Definition queues (s : qsend) : prioq_type * (channel → prioq) * prioq * prioq * list Z :=
  (ptype s, pqchan s, pqdone s, pqfail s, map j_id (jo s)).

Record queues_ok (s : qsend) : Prop := {
  qo_type : ptype s = Min;
  qo_chan c : queue_ok (pqchan s c);
  qo_done : queue_ok (pqdone s);
  qo_fail : queue_ok (pqfail s);
  qo_jobs : Forall (λ x, ulong (j_id x)) (jo s)
}.

Lemma queues_ok_ext s s' : queues s' = queues s → queues_ok s → queues_ok s'.
Proof.
  unfold queues. intros [= H1 H2 H3 H4 H5] []. split; rewrite ?H1, ?H2, ?H3, ?H4; auto.
  apply List.Forall_map. rewrite H5. by apply List.Forall_map.
Qed.

Lemma insert_pq_ok s pq pe :
  queue_ok pq → ulong (pid pe) → queue_ok (insert_pq pq pe s).1.
Proof.
  intros [H1 H2] Hpe. unfold insert_pq. simpl. split.
  - by apply (insert_heap (ptype s)).
  - change (Forall (λ pe, ulong (pid pe)) (prioq_insert true (ptype s) Min pq pe).2).
    rewrite insert_Permutation'. by constructor.
Qed.

Lemma prioq_del_ok pq : queue_ok pq → queue_ok (prioq_del Min pq).
Proof.
  intros [H1 H2]. destruct (prioq_get pq) as [pe|] eqn:E.
  - destruct (del_spec Min pq pe H1 E) as [? Hp]. split; [done|]. rewrite Hp in H2.
    by inversion H2.
  - apply get_None in E as ->. by split.
Qed.

Lemma queue_head pq pe : queue_ok pq → prioq_get pq = Some pe → ulong (pid pe).
Proof. intros [_ H2] Hg. destruct pq; [done|]. injection Hg as ->. by inversion H2. Qed.

(** [kept m]: [m] keeps the invariant. *)
Definition kept {A} (m : M A) : Prop := ∀ s, queues_ok s → queues_ok (run m s).

Lemma kept_ret {A} (a : A) : kept (mret a).
Proof. by intros s. Qed.
Lemma kept_bind {A B} (m : M A) (f : A → M B) : kept m → (∀ a, kept (f a)) → kept (m ≫= f).
Proof. intros Hm Hf s Hs. rewrite run_bind. by apply Hf, Hm. Qed.
Lemma kept_getS_bind {B} (f : qsend → M B) : (∀ s, queues_ok s → kept (f s)) → kept (getS ≫= f).
Proof. intros Hf s Hs. rewrite run_bind. by apply Hf. Qed.
Lemma kept_skip : kept skip.
Proof. by intros s. Qed.
Lemma kept_gets {A} (f : qsend → A) : kept (gets f).
Proof. by intros s. Qed.
Lemma kept_when b (m : M unit) : kept m → kept (when b m).
Proof. destruct b; [done|]. intros _. apply kept_skip. Qed.
Lemma kept_sys {A} (m : ST world A) : kept (sys m).
Proof.
  intros s Hs. eapply queues_ok_ext; [|exact Hs]. unfold run, sys. by destruct (m (wd s)).
Qed.
Lemma kept_modify (f : qsend → qsend) : (∀ s, queues (f s) = queues s) → kept (modify f).
Proof. intros H s Hs. eapply queues_ok_ext; [apply H|exact Hs]. Qed.

Lemma map_alter_id j f l : (∀ x, j_id (f x) = j_id x) → map j_id (alter f j l) = map j_id l.
Proof.
  intros Hf. revert j. induction l as [|x l IH]; intros [|j]; simpl; [done..| |].
  - by rewrite Hf.
  - f_equal. apply IH.
Qed.
Lemma kept_upd_job j f : (∀ x, j_id (f x) = j_id x) → kept (modify (upd_job j f)).
Proof. intros Hf. apply kept_modify. intros s. unfold queues, upd_job. simpl. by rewrite map_alter_id. Qed.
Lemma kept_new_job j f : (∀ x, ulong (j_id x) → ulong (j_id (f x))) → kept (modify (upd_job j f)).
Proof.
  intros Hf s []. split; auto. unfold upd_job, modify, run. simpl.
  apply Forall_alter; [exact qo_jobs0|].
  intros x Hx Hux. by apply Hf.
Qed.

Lemma kept_insert_chan c pe : ulong (pid pe) → kept (insert_chan c pe).
Proof.
  intros Hpe s []. unfold insert_chan, modify, run, insert_pq. simpl. split; simpl; auto.
  intros c'. unfold upd. case_decide; [|auto]. by apply (insert_pq_ok s).
Qed.
Lemma kept_insert_done pe : ulong (pid pe) → kept (insert_done pe).
Proof. intros Hpe s []. split; simpl; auto. by apply (insert_pq_ok s). Qed.
Lemma kept_insert_fail pe : ulong (pid pe) → kept (insert_fail pe).
Proof. intros Hpe s []. split; simpl; auto. by apply (insert_pq_ok s). Qed.
Lemma kept_del_chan c : kept (del_chan c).
Proof.
  intros s []. split; simpl; auto. rewrite qo_type0. intros c'.
  unfold upd. case_decide; [|auto]. by apply prioq_del_ok.
Qed.
Lemma kept_del_done : kept del_done.
Proof. intros s []. split; simpl; auto. rewrite qo_type0. by apply prioq_del_ok. Qed.
Lemma kept_del_fail : kept del_fail.
Proof. intros s []. split; simpl; auto. rewrite qo_type0. by apply prioq_del_ok. Qed.

Lemma kept_pqrun : kept pqrun.
Proof.
  intros s []. split; simpl; auto. intros c. split.
  - intros i Hi. rewrite length_map in Hi.
    assert (Hl : ∀ n, n < length (pqchan s c) →
      dt (map (λ pe, PE (recent s) (pid pe) (delayed pe)) (pqchan s c) !!! n) = recent s).
    { intros n Hn. apply lookup_lt_is_Some_2 in Hn as [x Hx].
      by rewrite (list_lookup_total_correct _ _ (PE (recent s) (pid x) (delayed x)))
        by (by rewrite list_lookup_fmap, Hx). }
    unfold above. rewrite !Hl; [apply bool_decide_eq_true; lia|lia|].
    pose proof (Nat.Div0.div_le_upper_bound (i - 1) 2 i). lia.
  - apply List.Forall_map. destruct (qo_chan0 c) as [_ H]. eapply Forall_impl; [exact H|]. done.
Qed.

(** The number of a job. *)
Lemma job_ulong s j : queues_ok s → ulong (j_id (jo s !!! j)).
Proof.
  intros []. destruct (decide (j < length (jo s))) as [Hj|Hj].
  - by apply (Forall_lookup_total_1 _ _ _ qo_jobs0).
  - rewrite list_lookup_total_alt, lookup_ge_None_2 by lia. done.
Qed.
End SendQueuesInv.

(** The id of a queue entry follows from the invariant of a state at hand. *)
Create HintDb kept.
#[export] Hint Resolve kept_ret kept_skip kept_gets kept_sys kept_insert_chan kept_insert_done
  kept_insert_fail kept_del_chan kept_del_done kept_del_fail kept_pqrun job_ulong : kept.

Ltac solve_kept :=
  intros; cbv zeta;
  lazymatch goal with
  | |- kept (getS ≫= _) => apply kept_getS_bind; solve_kept
  | |- kept (_ ≫= _) => apply kept_bind; [solve_kept|solve_kept]
  | |- kept (when _ _) => apply kept_when; solve_kept
  | |- kept (match ?x with _ => _ end) => destruct x eqn:?; solve_kept
  | |- kept (modify (upd_job _ _)) => apply kept_upd_job; intros; reflexivity
  | |- kept _ => first [solve [eauto 3 with kept] | apply kept_modify; intros; reflexivity | idtac]
  | |- _ => idtac
  end.

Section handlers.
Context {L : LibQmail} (cfg : config) (bc : bounce_config).
Context (delivery_rate : qsend → channel → bytes → Z → Z * Z * bool).

(** ** Queue and job operations *)

Lemma kept_pqadd_stat id f cs : kept (pqadd_stat cfg id f cs).
Proof. induction cs as [|c cs IH]; simpl; solve_kept. Qed.
Lemma pqadd_stat_ids id f cs s :
  wp (pqadd_stat cfg id f cs)
    (λ r _, ∀ l, r = Some l → Forall (λ x : channel * prioq_elt, pid x.2 = id) l) s.
Proof.
  revert s. induction cs as [|c cs IH]; intros s; simpl; [apply wp_ret; by intros l [= <-]|].
  apply wp_bind, wp_any. intros [[]|st] s1; [apply IH|by apply wp_ret..|].
  apply wp_bind, wp_gets, wp_bind, wp_any. intros rec s2. apply wp_bind. eapply wp_mono; [apply IH|]. intros [l|] s3 Hl; apply wp_ret; [|done].
  intros l' [= <-]. constructor; [done|]. by apply Hl.
Qed.
Lemma kept_insert_chans l :
  Forall (λ x : channel * prioq_elt, ulong (pid x.2)) l → kept (insert_chans l).
Proof.
  induction 1 as [|[c pe] l Hpe Hl IH]; simpl; [apply kept_skip|].
  apply kept_bind; [by apply kept_insert_chan|done].
Qed.

Lemma kept_pqadd_fail id : ulong id → kept (pqadd_fail cfg id).
Proof. intros Hid. unfold pqadd_fail. solve_kept. Qed.

Lemma kept_pqadd id f : ulong id → kept (pqadd cfg id f).
Proof.
  intros Hid. unfold pqadd.
  apply kept_bind; [apply kept_sys|]. intros [[]|_]; [apply kept_skip|by apply kept_pqadd_fail..|].
  apply kept_bind; [apply kept_sys|]. intros [[]|_]; [|by apply kept_pqadd_fail..|apply kept_skip].
  intros s Hs. rewrite run_bind. pose proof (kept_pqadd_stat id f channels s Hs) as Hs'.
  pose proof (pqadd_stat_ids id f channels s) as Hl. unfold wp in Hl.
  fold (val (pqadd_stat cfg id f channels) s) in Hl.
  destruct (val _ s) as [[|x l]|]; revert Hs'; generalize (run (pqadd_stat cfg id f channels) s);
    intros s' Hs'.
  - revert s' Hs'. change (kept (t ← sys now; insert_done (PE t id 0))). solve_kept.
  - revert s' Hs'. apply kept_insert_chans. specialize (Hl _ eq_refl).
    eapply Forall_impl; [exact Hl|]. by intros ? ->.
  - revert s' Hs'. by apply kept_pqadd_fail.
Qed.

Lemma kept_pqstart l : Forall (λ e : dirent, ulong e.2) l → kept (pqstart cfg l).
Proof.
  intros Hl. unfold pqstart. apply kept_bind; [|solve_kept].
  induction Hl as [|[x id] l Hid Hl IH]; simpl; [apply kept_skip|].
  apply kept_bind; [|done]. by apply kept_when, kept_pqadd.
Qed.

Lemma kept_more_channels id own cs : kept (more_channels cfg id own cs).
Proof. induction cs as [|c cs IH]; simpl; solve_kept. Qed.
Hint Resolve kept_more_channels : kept.

Lemma kept_job_close j : kept (job_close cfg j).
Proof.
  unfold job_close, job_requeue. solve_kept.
Qed.
Hint Resolve kept_job_close : kept.

(** ** Deliveries and bounces *)

Lemma kept_log e : kept (log e).
Proof. by apply kept_modify. Qed.
Lemma kept_exit_todo : kept exit_todo.
Proof. unfold exit_todo. solve_kept. Qed.
Hint Resolve kept_log kept_exit_todo : kept.
Lemma kept_spawndied c : kept (spawndied c).
Proof. unfold spawndied. solve_kept. Qed.
Lemma kept_cleandied : kept cleandied.
Proof. unfold cleandied. solve_kept. Qed.
Hint Resolve kept_spawndied kept_cleandied : kept.
Lemma kept_comm_do c r w : kept (comm_do c r w).
Proof.
  unfold comm_do. solve_kept. apply kept_modify. intros s0. cbv zeta. by case_match.
Qed.
Lemma kept_comm_write c i id a b d e : kept (comm_write cfg c i id a b d e).
Proof. apply kept_modify. intros s. by destruct (comm_canwrite c s). Qed.
Hint Resolve kept_comm_do kept_comm_write : kept.
Lemma kept_addbounce id recip report : kept (addbounce cfg id recip report).
Proof. unfold addbounce. solve_kept. Qed.
Lemma kept_markdone c id pos : kept (markdone cfg c id pos).
Proof. unfold markdone. solve_kept. Qed.
Lemma kept_del_start j mpos recip : kept (del_start cfg j mpos recip).
Proof. unfold del_start. solve_kept. Qed.
Hint Resolve kept_addbounce kept_markdone kept_del_start : kept.
Lemma kept_del_finish c i : kept (del_finish cfg c i).
Proof. unfold del_finish. solve_kept. Qed.
Hint Resolve kept_del_finish : kept.
Lemma kept_del_result c i r : kept (del_result cfg c i r).
Proof. unfold del_result. solve_kept. Qed.
Hint Resolve kept_del_result : kept.
Lemma kept_del_byte c ch : kept (del_byte cfg c ch).
Proof. unfold del_byte. solve_kept. Qed.
Lemma kept_del_bytes c l : kept (del_bytes cfg c l).
Proof.
  induction l as [|ch l IH]; simpl; [apply kept_skip|]. apply kept_bind; [apply kept_del_byte|done].
Qed.
Hint Resolve kept_del_bytes : kept.
Lemma kept_del_dochan c r : kept (del_dochan cfg c r).
Proof. unfold del_dochan. solve_kept. Qed.

Lemma kept_regetcontrols ct : kept (regetcontrols ct).
Proof.
  unfold regetcontrols. solve_kept; unfold read_concurrency, change_hold; solve_kept.
Qed.
Hint Resolve kept_regetcontrols : kept.
Lemma kept_reread h ct : kept (reread h ct).
Proof. unfold reread. solve_kept. Qed.
Hint Resolve kept_reread : kept.
Lemma kept_getinfo id : kept (getinfo cfg id).
Proof. unfold getinfo. solve_kept. Qed.
Lemma kept_remove_bounce id : kept (remove_bounce cfg id).
Proof. unfold remove_bounce. solve_kept. Qed.
Hint Resolve kept_getinfo kept_remove_bounce : kept.
Lemma kept_submit_bounce be id birth s0 s1 fail : kept (submit_bounce cfg bc be id birth s0 s1 fail).
Proof. unfold submit_bounce. solve_kept. Qed.
Hint Resolve kept_submit_bounce : kept.
Lemma kept_injectbounce be id : kept (injectbounce cfg bc be id).
Proof. unfold injectbounce. solve_kept. Qed.
Hint Resolve kept_injectbounce : kept.

(** ** Passes *)

Lemma kept_pass_leave c : kept (pass_leave cfg c).
Proof. unfold pass_leave, end_pass. solve_kept. Qed.
Hint Resolve kept_pass_leave : kept.
Lemma kept_pass_recipient c id recip : kept (pass_recipient cfg delivery_rate c id recip).
Proof. unfold pass_recipient. solve_kept. Qed.
Hint Resolve kept_pass_recipient : kept.
Lemma kept_pass_record c id : kept (pass_record cfg delivery_rate c id).
Proof. unfold pass_record. solve_kept. Qed.
Hint Resolve kept_pass_record : kept.
Lemma kept_pass_trouble c pe : ulong (pid pe) → kept (pass_trouble c pe).
Proof. intros Hid. unfold pass_trouble. solve_kept. Qed.
Lemma kept_job_start c pe j fd i : ulong (pid pe) → kept (job_start cfg c pe j fd i).
Proof.
  intros Hid. unfold job_start, set_pass_of, job_open. apply kept_getS_bind. intros s Hs.
  apply kept_bind; [solve_kept|]. intros _. apply kept_bind; [by apply kept_new_job|].
  intros _. solve_kept.
Qed.
Lemma kept_pass_begin c : kept (pass_begin cfg c).
Proof.
  unfold pass_begin. apply kept_getS_bind. intros s Hs. case_decide; [solve_kept|].
  destruct (job_avail s) as [j|]; [|solve_kept].
  destruct (prioq_get (pqchan s c)) as [pe|] eqn:Hpe; [|solve_kept].
  pose proof (queue_head _ _ (qo_chan _ Hs c) Hpe) as Hid.
  assert (Ht : kept (pass_trouble c pe)) by (by apply kept_pass_trouble).
  assert (Hj : ∀ fd i, kept (job_start cfg c pe j fd i)) by (intros; by apply kept_job_start).
  clear Hpe. solve_kept.
Qed.
Hint Resolve kept_pass_begin : kept.
Lemma kept_pass_dochan c : kept (pass_dochan cfg delivery_rate c).
Proof. unfold pass_dochan. solve_kept. Qed.

(** ** Finished messages *)

Lemma kept_no_channel_file id cs : kept (no_channel_file cfg id cs).
Proof. induction cs as [|c cs IH]; simpl; solve_kept. Qed.
Hint Resolve kept_no_channel_file : kept.
Lemma kept_message_done id : kept (message_done cfg id).
Proof. unfold message_done. solve_kept. Qed.
Lemma kept_messdone_fail id : ulong id → kept (messdone_fail cfg id).
Proof. intros Hid. unfold messdone_fail. solve_kept. Qed.
Lemma kept_ask_clean id : kept (ask_clean cfg id).
Proof. unfold ask_clean. solve_kept. Qed.
Hint Resolve kept_message_done kept_messdone_fail kept_ask_clean kept_pass_dochan : kept.
Lemma kept_messdone be id : ulong id → kept (messdone cfg bc be id).
Proof. intros Hid. unfold messdone. solve_kept. Qed.
Hint Resolve kept_messdone kept_pqadd : kept.
Lemma kept_pass_fail : kept (pass_fail cfg).
Proof.
  unfold pass_fail. apply kept_getS_bind. intros s Hs.
  destruct (prioq_get (pqfail s)) as [pe|] eqn:Hpe; [|solve_kept].
  pose proof (queue_head _ _ (qo_fail _ Hs) Hpe). clear Hpe. solve_kept.
Qed.
Lemma kept_pass_done be : kept (pass_done cfg bc be).
Proof.
  unfold pass_done. apply kept_getS_bind. intros s Hs.
  destruct (prioq_get (pqdone s)) as [pe|] eqn:Hpe; [|solve_kept].
  pose proof (queue_head _ _ (qo_done _ Hs) Hpe). clear Hpe. solve_kept.
Qed.

(** ** Signals, todo-proc and clean-ups *)

Lemma kept_tell_todo ch : kept (tell_todo ch).
Proof. unfold tell_todo. solve_kept. Qed.
Hint Resolve kept_tell_todo : kept.
Lemma kept_sigterm : kept sigterm.
Proof. unfold sigterm. solve_kept. Qed.
Lemma kept_sigusr1 : kept sigusr1.
Proof. unfold sigusr1. solve_kept. Qed.
Lemma kept_attach l : Forall (λ e : dirent, ulong e.2) l → kept (attach cfg l).
Proof. intros Hl. unfold attach. apply kept_bind; [by apply kept_pqstart|]. solve_kept. Qed.
Lemma kept_sigusr2 l : Forall (λ e : dirent, ulong e.2) l → kept (sigusr2 cfg l).
Proof. intros Hl. unfold sigusr2. pose proof (kept_attach l Hl). solve_kept. Qed.

Lemma ulong_wrap z : ulong (wrap 64 z).
Proof. unfold ulong, wrap. apply Z.mod_pos_bound. lia. Qed.
Lemma kept_todo_del l : kept (todo_del cfg l).
Proof.
  unfold todo_del. destruct (todo_channels _) as [cs|]; [|apply kept_skip].
  destruct (scan_ulong _) as [len id]. pose proof (ulong_wrap id).
  case_decide; [apply kept_skip|]. apply kept_bind; [apply kept_sys|]. intros t.
  apply kept_bind; [|intros _; solve_kept]. apply kept_insert_chans, List.Forall_map.
  by apply Forall_true.
Qed.
Hint Resolve kept_todo_del : kept.
Lemma kept_todo_bytes l : kept (todo_bytes cfg l).
Proof.
  induction l as [|ch l IH]; simpl; [apply kept_skip|]. apply kept_bind; [|done].
  unfold todo_byte, todo_line, tododied. solve_kept.
Qed.
Hint Resolve kept_todo_bytes : kept.
Lemma kept_todo_do r : kept (todo_do cfg r).
Proof. unfold todo_do, tododied. solve_kept. Qed.
Lemma kept_cleanup_do e : kept (cleanup_do cfg e).
Proof. unfold cleanup_do, cleanup_message, absent. solve_kept. Qed.
Lemma kept_pqfinish_chan fuel c : kept (pqfinish_chan cfg fuel c).
Proof. induction fuel as [|fuel IH]; simpl; solve_kept. Qed.
Hint Resolve kept_pqfinish_chan : kept.
Lemma kept_pqfinish : kept (pqfinish cfg).
Proof. unfold pqfinish. solve_kept. Qed.
End handlers.
