(* ===== verification/SendSafety.v ===== *)
(** * No recipient is dropped

    The invariant of the jobs of qmail-send and the theorem it is for: the file
    of a channel is removed only when every recipient in it has a logged success
    or failure. *)

From S2P Require Import Prelude LibQmail Prioq Filesys Records Fmtqfn SendState SendQueue.
From S2P Require Import SendDeliver SendBounce SendPass SendInv.

Section SendSafety.
Context {L : LibQmail} (cfg : config) (bc : bounce_config).
Abbreviation chanfile := (fnmake_chanaddr cfg).
Abbreviation bouncefile := (fnmake_bounce cfg).

Definition is_chan (p : bytes) : Prop := ∃ id c, p = chanfile id c.

Definition data (k : coreT) (i : nat) : bytes :=
  i_data (default (Inode [] 0 0) (k_inodes k !! i)).

(** A message number, which is that of an inode. *)
Definition good_id (id : Z) : Prop := ulong id ∧ id ≠ 0%Z.

(** The log shows a delivery to the recipient, and its success or failure. *)
Definition handled (k : coreT) (id : Z) (c : channel) (recip : bytes) : Prop :=
  ∃ d, EvStart d id c recip ∈ k_trace k ∧
       (EvSuccess d ∈ k_trace k ∨ EvFailure d ∈ k_trace k).

(** The file position of a running delivery of job [j]. *)
Definition mine (j : nat) (x : DEL) : option nat :=
  if d_used x && bool_decide (d_j x = j) then Some (d_mpos x) else None.
Definition slot_pos (k : coreT) (j : nat) : list nat :=
  omap (mine j) (k_del k (j_channel (k_jo k !!! j))).
Definition on_pass (k : coreT) (j : nat) : bool :=
  let p := k_pass k (j_channel (k_jo k !!! j)) in
  bool_decide (p_id p ≠ 0%Z) && bool_decide (p_j p = j).
Definition used_count (d : list DEL) : nat := length (filter (λ x, d_used x = true) d).

(** How far the channel file of a job was read. *)
Definition scanned (k : coreT) (j ino : nat) : nat :=
  if on_pass k j then p_mpos (k_pass k (j_channel (k_jo k !!! j)))
  else if j_flaghiteof (k_jo k !!! j) then length (data k ino) else 0.

(** A job in use: [ino] is its channel file, [open] the file positions of the
    recipients that still have to be dealt with, [numtodo] of them. *)
Record job_ok (k : coreT) (j ino : nat) (open : list nat) : Prop := {
  jk_file i : k_names k !! chanfile (j_id (k_jo k !!! j)) (j_channel (k_jo k !!! j)) = Some i →
    i = ino;
  jk_id : good_id (j_id (k_jo k !!! j));
  jk_lt : ino < k_next k;
  jk_sep p : k_names k !! p = Some ino → is_chan p;
  jk_open : Z.of_nat (length open) = j_numtodo (k_jo k !!! j);
  jk_slots : slot_pos k j ⊆+ open;
  jk_slot x : x ∈ k_del k (j_channel (k_jo k !!! j)) → d_used x = true → d_j x = j →
    EvStart (d_delid x) (j_id (k_jo k !!! j)) (j_channel (k_jo k !!! j)) (d_recip x) ∈ k_trace k ∧
    ∃ h, (h = 84 ∨ h = 68)%Z ∧ ∃ l,
      rec_at (data k ino) (d_mpos x) (h :: l) ∧ cstr l = d_recip x;
  jk_scanned pos l : rec_at (data k ino) pos (84%Z :: l) → pos < scanned k j ino →
    pos ∈ open ∨ handled k (j_id (k_jo k !!! j)) (j_channel (k_jo k !!! j)) (cstr l);
  jk_pass : on_pass k j = true →
    p_fd (k_pass k (j_channel (k_jo k !!! j))) = ino ∧
    j_flaghiteof (k_jo k !!! j) = false ∧
    boundary (data k ino) (p_mpos (k_pass k (j_channel (k_jo k !!! j))))
}.

Record jobs_inv (k : coreT) : Prop := {
  ji_slot c x : x ∈ k_del k c → d_used x = true →
    d_j x < length (k_jo k) ∧ j_channel (k_jo k !!! d_j x) = c;
  ji_pass c : p_id (k_pass k c) ≠ 0%Z →
    p_j (k_pass k c) < length (k_jo k) ∧
    j_channel (k_jo k !!! p_j (k_pass k c)) = c ∧
    j_id (k_jo k !!! p_j (k_pass k c)) = p_id (k_pass k c);
  ji_refs j : j < length (k_jo k) →
    j_refs (k_jo k !!! j) = (Z.of_nat (length (slot_pos k j)) +
                             (if on_pass k j then 1 else 0))%Z;
  ji_used c : k_used k c = Z.of_nat (used_count (k_del k c));
  ji_next p i : k_names k !! p = Some i → i < k_next k;
  ji_sep p id c i : k_names k !! p = Some i → k_names k !! chanfile id c = Some i → is_chan p;
  ji_inj id c id' c' i : k_names k !! chanfile id c = Some i →
    k_names k !! chanfile id' c' = Some i → chanfile id c = chanfile id' c';
  ji_zero c : k_names k !! chanfile 0 c = None;
  ji_job j : j < length (k_jo k) → (0 < j_refs (k_jo k !!! j))%Z →
    ∃ ino open, job_ok k j ino open
}.

(** ** Changes that concern no job *)

Record harmless (k k' : coreT) : Prop := {
  h_jo : k_jo k' = k_jo k;
  h_del : k_del k' = k_del k;
  h_pass : k_pass k' = k_pass k;
  h_used : k_used k' = k_used k;
  h_chan id c : k_names k' !! chanfile id c = k_names k !! chanfile id c;
  h_names p i : k_names k' !! p = Some i → k_names k !! p = Some i ∨ k_next k ≤ i < k_next k' ∨
    ∃ q, k_names k !! q = Some i ∧ ¬ is_chan q;
  h_next : k_next k ≤ k_next k';
  h_data i : i < k_next k → (∀ p, k_names k !! p = Some i → is_chan p) →
    data k' i = data k i;
  h_trace e : e ∈ k_trace k → e ∈ k_trace k'
}.

Lemma handled_mono k k' id c recip :
  (∀ e, e ∈ k_trace k → e ∈ k_trace k') → handled k id c recip → handled k' id c recip.
Proof. intros H (d & H1 & [H2|H2]); exists d; auto. Qed.

Lemma harmless_refl k : harmless k k.
Proof. by split; auto. Qed.
Lemma harmless_trans k1 k2 k3 : harmless k1 k2 → harmless k2 k3 → harmless k1 k3.
Proof.
  intros H1 H2. pose proof (h_next _ _ H1). pose proof (h_next _ _ H2). split.
  - by rewrite (h_jo _ _ H2), (h_jo _ _ H1).
  - by rewrite (h_del _ _ H2), (h_del _ _ H1).
  - by rewrite (h_pass _ _ H2), (h_pass _ _ H1).
  - by rewrite (h_used _ _ H2), (h_used _ _ H1).
  - intros id c. by rewrite (h_chan _ _ H2), (h_chan _ _ H1).
  - intros p i Hi. destruct (h_names _ _ H2 _ _ Hi) as [Hi'|[?|(q & Hq & Hnc)]]; [|right; left; lia|].
    + destruct (h_names _ _ H1 _ _ Hi') as [|[|]]; [by left|right; left; lia|by right; right].
    + destruct (h_names _ _ H1 _ _ Hq) as [|[|]];
        [right; right; by exists q|right; left; lia|by right; right].
  - lia.
  - intros i Hi Hb. rewrite <- (h_data _ _ H1) by done. apply (h_data _ _ H2); [lia|].
    intros p Hp. destruct (h_names _ _ H1 _ _ Hp) as [|[|(q & Hq & Hnc)]];
      [by eapply Hb|lia|]. destruct Hnc. by eapply Hb.
  - intros e He. by apply (h_trace _ _ H2), (h_trace _ _ H1).
Qed.

Lemma harmless_job_ok k k' j ino open :
  harmless k k' → job_ok k j ino open → job_ok k' j ino open.
Proof.
  intros Hh Hj. pose proof (jk_lt _ _ _ _ Hj) as Hlt. pose proof (jk_sep _ _ _ _ Hj) as Hsep.
  pose proof (h_data _ _ Hh ino Hlt Hsep) as Hdata.
  assert (Hpass : on_pass k' j = on_pass k j).
  { unfold on_pass. by rewrite (h_pass _ _ Hh), (h_jo _ _ Hh). }
  assert (Hscan : scanned k' j ino = scanned k j ino).
  { unfold scanned. by rewrite Hpass, Hdata, (h_pass _ _ Hh), (h_jo _ _ Hh). }
  assert (Hslots : slot_pos k' j = slot_pos k j).
  { unfold slot_pos. by rewrite (h_del _ _ Hh), (h_jo _ _ Hh). }
  destruct Hj. split; rewrite ?Hslots, ?Hpass, ?(h_jo _ _ Hh), ?(h_pass _ _ Hh), ?Hdata; auto.
  - intros i. rewrite (h_chan _ _ Hh). auto.
  - pose proof (h_next _ _ Hh). lia.
  - intros p Hp. apply (h_names _ _ Hh) in Hp as [?|[?|(q & Hq & Hnc)]];
      [by eapply Hsep|lia|]. destruct Hnc. by eapply Hsep.
  - intros x. rewrite (h_del _ _ Hh). intros H1 H2 H3.
    destruct (jk_slot0 x H1 H2 H3) as [Ht ?]. split; [by apply (h_trace _ _ Hh)|done].
  - intros pos l Hr Hp. rewrite Hscan in Hp. destruct (jk_scanned0 pos l Hr Hp); [by left|].
    right. eapply handled_mono; [apply (h_trace _ _ Hh)|done].
Qed.

Lemma harmless_inv k k' : harmless k k' → jobs_inv k → jobs_inv k'.
Proof.
  intros Hh [].
  assert (Hpass : ∀ j, on_pass k' j = on_pass k j).
  { intros j. unfold on_pass. by rewrite (h_pass _ _ Hh), (h_jo _ _ Hh). }
  assert (Hslots : ∀ j, slot_pos k' j = slot_pos k j).
  { intros j. unfold slot_pos. by rewrite (h_del _ _ Hh), (h_jo _ _ Hh). }
  split; rewrite ?(h_jo _ _ Hh), ?(h_pass _ _ Hh), ?(h_del _ _ Hh), ?(h_used _ _ Hh); auto.
  - intros j Hj. rewrite Hslots, Hpass. auto.
  - intros p i Hi. pose proof (h_next _ _ Hh).
    destruct (h_names _ _ Hh _ _ Hi) as [Hi'|[|(q & Hi' & _)]]; try apply ji_next0 in Hi'; lia.
  - intros p id c i Hb. rewrite (h_chan _ _ Hh). intros Hc.
    destruct (h_names _ _ Hh _ _ Hb) as [Hb'|[Hb'|(q & Hq & Hnc)]]; [by eapply ji_sep0| |].
    + apply ji_next0 in Hc. lia.
    + destruct Hnc. by eapply ji_sep0.
  - intros id c id' c' i. rewrite !(h_chan _ _ Hh). apply ji_inj0.
  - intros c. by rewrite (h_chan _ _ Hh).
  - intros j Hj Hr. destruct (ji_job0 j Hj Hr) as (ino & open & Hok).
    exists ino, open. by eapply harmless_job_ok.
Qed.

(** ** Marking a record as done *)

(** The inode after [write(fd, "D", 1)] at [pos]. *)
Definition marked (i pos : nat) (t a : Z) (k : coreT) : coreT :=
  kset_inodes (<[i := Inode (<[pos := 68%Z]> (data k i)) t a]> (k_inodes k)) k.

Lemma data_marked i pos t a k i' :
  data (marked i pos t a k) i' =
  if decide (i' = i) then <[pos := 68%Z]> (data k i) else data k i'.
Proof.
  unfold data, marked. simpl. destruct (decide (i' = i)) as [->|].
  - by rewrite lookup_insert_eq.
  - by rewrite lookup_insert_ne.
Qed.

Section marked.
Context (k : coreT) (i pos : nat) (t a h : Z) (l : bytes).
Hypothesis Hrec : rec_at (data k i) pos (h :: l).
Hypothesis Hh : (h = 84 ∨ h = 68)%Z.
Let k' := marked i pos t a k.

Lemma marked_rec i' p m :
  rec_at (data k' i') p m →
  ∃ m0, rec_at (data k i') p m0 ∧ (m = m0 ∨ m = 68%Z :: tail m0).
Proof.
  unfold k'. rewrite data_marked. destruct (decide (i' = i)) as [->|]; [|by eauto].
  rewrite (rec_at_mark _ pos (h :: l) h 68) by (done || lia).
  intros (m0 & Hm0 & ->). exists m0. split; [done|]. case_decide; [|by left].
  destruct m0 as [|y m0]; [|by right].
  destruct Hm0 as [_ Hm0%line_at_length]. simpl in Hm0. lia.
Qed.

Lemma marked_rec_back i' p h0 m0 :
  (h0 = 84 ∨ h0 = 68)%Z → rec_at (data k i') p (h0 :: m0) →
  ∃ h1, (h1 = 84 ∨ h1 = 68)%Z ∧ rec_at (data k' i') p (h1 :: m0).
Proof.
  intros Hh0 Hr. unfold k'. rewrite data_marked.
  destruct (decide (i' = i)) as [->|]; [|by eauto].
  destruct (decide (p = pos)) as [Hp|Hp].
  - exists 68%Z. split; [by right|]. apply (rec_at_mark _ pos (h :: l) h 68); try done; [lia|].
    exists (h0 :: m0). by rewrite decide_True.
  - exists h0. split; [done|]. apply (rec_at_mark _ pos (h :: l) h 68); try done; [lia|].
    exists (h0 :: m0). by rewrite decide_False.
Qed.

Lemma marked_boundary i' p : boundary (data k' i') p ↔ boundary (data k i') p.
Proof.
  unfold k'. rewrite data_marked. destruct (decide (i' = i)) as [->|]; [|done].
  rewrite (boundary_mark _ pos (h :: l) h 68); done || lia.
Qed.

Lemma marked_length i' : length (data k' i') = length (data k i').
Proof.
  unfold k'. rewrite data_marked. destruct (decide (i' = i)) as [->|]; [|done].
  apply length_insert.
Qed.

Lemma marked_job_ok j ino open : job_ok k j ino open → job_ok k' j ino open.
Proof.
  intros []. split; auto.
  - intros x H1 H2 H3. destruct (jk_slot0 x H1 H2 H3) as (Ht & h0 & Hh0 & m0 & Hr & Hc).
    split; [done|]. destruct (marked_rec_back ino (d_mpos x) h0 m0 Hh0 Hr) as (h1 & ? & ?).
    eauto.
  - intros p m Hr Hp. destruct (marked_rec _ _ _ Hr) as (m0 & Hr0 & Hm0).
    destruct Hm0 as [<-|Hm0]; [|done]. apply jk_scanned0; [done|].
    unfold scanned in *. rewrite marked_length in Hp. done.
  - intros Hp. destruct (jk_pass0 Hp) as (? & ? & ?). by rewrite marked_boundary.
Qed.

Lemma marked_inv : jobs_inv k → jobs_inv k'.
Proof.
  intros []. split; auto. intros j Hj Hr.
  destruct (ji_job0 j Hj Hr) as (ino & open & Hok). exists ino, open.
  by apply marked_job_ok.
Qed.
End marked.

(** ** Replacing a job record and a delivery *)

Lemma omap_insert_Permutation {A B} (f : A → option B) (d : list A) i x y :
  d !! i = Some x →
  omap f d ≡ₚ option_list (f x) ++ omap f (delete i d) ∧
  omap f (<[i := y]> d) ≡ₚ option_list (f y) ++ omap f (delete i d).
Proof.
  intros Hi. split.
  - rewrite (delete_Permutation d i x Hi) at 1. simpl. by destruct (f x).
  - rewrite insert_Permutation by (by eapply lookup_lt_Some). simpl. by destruct (f y).
Qed.

Lemma used_count_insert d i x y :
  d !! i = Some x →
  used_count (<[i := y]> d) + (if d_used x then 1 else 0) =
  used_count d + (if d_used y then 1 else 0).
Proof.
  intros Hi. unfold used_count.
  assert (H1 : filter (λ x, d_used x = true) d ≡ₚ
    filter (λ x, d_used x = true) (x :: delete i d)) by (by rewrite <- delete_Permutation).
  assert (H2 : filter (λ x, d_used x = true) (<[i := y]> d) ≡ₚ
    filter (λ x, d_used x = true) (y :: delete i d)).
  { by rewrite insert_Permutation by (by eapply lookup_lt_Some). }
  rewrite H1, H2, !filter_cons. destruct (d_used x), (d_used y); simpl; lia.
Qed.

Lemma slot_pos_ext k k' j :
  j_channel (k_jo k' !!! j) = j_channel (k_jo k !!! j) →
  k_del k' (j_channel (k_jo k !!! j)) = k_del k (j_channel (k_jo k !!! j)) →
  slot_pos k' j = slot_pos k j.
Proof. unfold slot_pos. by intros -> ->. Qed.

Lemma on_pass_ext k k' j :
  j_channel (k_jo k' !!! j) = j_channel (k_jo k !!! j) →
  k_pass k' (j_channel (k_jo k !!! j)) = k_pass k (j_channel (k_jo k !!! j)) →
  on_pass k' j = on_pass k j.
Proof. unfold on_pass. by intros -> ->. Qed.
End SendSafety.
