(* ===== verification/SendSteps.v ===== *)
(** * The transitions of qmail-send on jobs, and that they keep the invariant *)

From S2P Require Import Prelude LibQmail Prioq Filesys Records Fmtqfn SendState SendQueue.
From S2P Require Import SendDeliver SendBounce SendPass SendInv SendSafety.

Section SendSteps.
Context {L : LibQmail} (cfg : config) (bc : bounce_config).
Abbreviation chanfile := (fnmake_chanaddr cfg).
Abbreviation jobs_inv := (jobs_inv cfg).
Abbreviation job_ok := (job_ok cfg).

Definition freed (x : DEL) : DEL := Del false (d_j x) (d_delid x) (d_mpos x) (d_recip x).

(** A delivery ends: its entry is free, the job loses a reference, and [n]
    recipients are left to do. *)
Definition finished (c : channel) (i j : nat) (x : DEL) (n : Z) (ns : gmap bytes nat)
    (k : coreT) : coreT :=
  let y := k_jo k !!! j in
  Core (<[j := set_numtodo n (set_refs (j_refs y - 1) y)]> (k_jo k))
    (upd (k_del k) c (<[i := freed x]> (k_del k c)))
    (k_pass k) (upd (k_used k) c (k_used k c - 1)%Z) ns (k_inodes k) (k_next k) (k_trace k).

Lemma mine_freed j x : mine j (freed x) = None.
Proof. done. Qed.
Lemma mine_other j x : d_j x ≠ j → mine j x = None.
Proof. intros. unfold mine. rewrite bool_decide_false by done. by destruct (d_used x). Qed.
Lemma mine_free j x : d_used x = false → mine j x = None.
Proof. intros Hf. unfold mine. by rewrite Hf. Qed.
Lemma mine_own x : d_used x = true → mine (d_j x) x = Some (d_mpos x).
Proof. intros Hu. unfold mine. by rewrite Hu, bool_decide_true. Qed.

Section finished.
Context (k : coreT) (c : channel) (i : nat) (x : DEL) (n : Z) (ns : gmap bytes nat).
Hypothesis Hinv : jobs_inv k.
Hypothesis Hx : k_del k c !! i = Some x.
Hypothesis Hused : d_used x = true.
Hypothesis Hns : ns ⊆ k_names k.
Let j := d_j x.
Let k' := finished c i j x n ns k.

Lemma finished_chan : j < length (k_jo k) ∧ j_channel (k_jo k !!! j) = c.
Proof. eapply (ji_slot _ _ Hinv); [|done]. by eapply list_elem_of_lookup_2. Qed.

Lemma finished_jo j' :
  k_jo k' !!! j' = if decide (j' = j)
    then set_numtodo n (set_refs (j_refs (k_jo k !!! j) - 1) (k_jo k !!! j)) else k_jo k !!! j'.
Proof.
  destruct finished_chan as [Hj _]. unfold k', finished. simpl. case_decide as Hd.
  - subst. by rewrite list_lookup_total_insert_eq.
  - by rewrite list_lookup_total_insert_ne.
Qed.
Lemma finished_channel j' : j_channel (k_jo k' !!! j') = j_channel (k_jo k !!! j').
Proof. rewrite finished_jo. by case_decide; subst. Qed.
Lemma finished_id j' : j_id (k_jo k' !!! j') = j_id (k_jo k !!! j').
Proof. rewrite finished_jo. by case_decide; subst. Qed.
Lemma finished_on_pass j' : on_pass k' j' = on_pass k j'.
Proof. apply on_pass_ext; [apply finished_channel|done]. Qed.
Lemma finished_elem c' y : y ∈ k_del k' c' → d_used y = true → y ∈ k_del k c'.
Proof.
  unfold k', finished. simpl. destruct (upd_cases (k_del k) c c' (<[i:=freed x]> (k_del k c)))
    as [[-> ->]|[? ->]]; [|done].
  intros Hy Hu. rewrite insert_Permutation in Hy by (by eapply lookup_lt_Some).
  apply elem_of_cons in Hy as [->|Hy]; [done|].
  rewrite (delete_Permutation _ _ _ Hx). by right.
Qed.

Lemma finished_slots : slot_pos k j ≡ₚ d_mpos x :: slot_pos k' j.
Proof.
  destruct finished_chan as [_ Hc]. unfold slot_pos. rewrite finished_channel, Hc.
  unfold k', finished. simpl. rewrite upd_eq.
  destruct (omap_insert_Permutation (mine j) (k_del k c) i x (freed x) Hx) as [-> ->].
  rewrite mine_freed. assert (mine j x = Some (d_mpos x)) as -> by (by apply mine_own).
  done.
Qed.
Lemma finished_slots_ne j' : j' ≠ j → slot_pos k' j' ≡ₚ slot_pos k j'.
Proof.
  intros Hne. unfold slot_pos. rewrite finished_channel. unfold k', finished. simpl.
  destruct (upd_cases (k_del k) c (j_channel (k_jo k !!! j')) (<[i:=freed x]> (k_del k c)))
    as [[-> ->]|[? ->]]; [|done].
  destruct (omap_insert_Permutation (mine j') (k_del k c) i x (freed x) Hx) as [-> ->].
  rewrite mine_freed. assert (mine j' x = None) as -> by (by apply mine_other, not_eq_sym).
  done.
Qed.

(** The remaining obligation: [open'] accounts for job [j]. *)
Lemma finished_job ino open open' :
  job_ok k j ino open →
  Z.of_nat (length open') = n →
  slot_pos k' j ⊆+ open' →
  (∀ pos, pos ∈ open → pos ∈ open' ∨ pos = d_mpos x ∧
     handled k (j_id (k_jo k !!! j)) c (d_recip x)) →
  job_ok k' j ino open'.
Proof.
  intros [] Hn Hsub Hopen. destruct finished_chan as [Hj Hc].
  split; rewrite ?finished_channel, ?finished_id, ?finished_on_pass; auto.
  - intros i' Hi'. apply jk_file. eapply lookup_weaken; [|done]. done.
  - intros id Hid. eapply jk_sep, lookup_weaken; done.
  - rewrite finished_jo, decide_True by done. done.
  - intros y H1 H2 H3. apply finished_elem in H1; [|done]. auto.
  - intros pos l Hr Hp.
    assert (Hs : scanned k' j ino = scanned k j ino).
    { unfold scanned. rewrite finished_on_pass, finished_channel, finished_jo, decide_True by done.
      done. }
    rewrite Hs in Hp. destruct (jk_scanned pos l Hr Hp) as [Hin|Hh]; [|by right].
    destruct (Hopen pos Hin) as [|[-> Hh]]; [by left|]. right. rewrite Hc.
    assert (Hxin : x ∈ k_del k (j_channel (k_jo k !!! j))).
    { rewrite Hc. by eapply list_elem_of_lookup_2. }
    destruct (jk_slot x Hxin Hused eq_refl) as (_ & h & _ & m & Hr' & Hm).
    destruct Hr as [_ Hr], Hr' as [_ Hr']. unfold data in Hr, Hr'. simpl in Hr.
    assert (m = l) as -> by congruence. by rewrite Hm.
  - intros Hp. destruct (jk_pass Hp) as (? & ? & ?). split_and!; [done| |done].
    rewrite finished_jo, decide_True by done. done.
Qed.

Lemma finished_inv ino open open' :
  job_ok k j ino open →
  Z.of_nat (length open') = n →
  slot_pos k' j ⊆+ open' →
  (∀ pos, pos ∈ open → pos ∈ open' ∨ pos = d_mpos x ∧
     handled k (j_id (k_jo k !!! j)) c (d_recip x)) →
  jobs_inv k'.
Proof.
  intros Hok Hn Hsub Hopen. destruct finished_chan as [Hj Hc]. pose proof Hinv as [].
  assert (Hlen : length (k_jo k') = length (k_jo k)) by apply length_insert.
  split; rewrite ?Hlen.
  - intros c' y H1 H2. rewrite finished_channel. apply ji_slot; [|done].
    by apply finished_elem.
  - intros c' Hp. rewrite finished_channel, finished_id. by apply ji_pass.
  - intros j' Hj'. rewrite finished_on_pass, finished_jo. case_decide as Hd.
    + subst j'. simpl. rewrite ji_refs, finished_slots by done. simpl. lia.
    + rewrite ji_refs by done. by rewrite finished_slots_ne.
  - intros c'. unfold k', finished. simpl.
    pose proof (used_count_insert (k_del k c) i x (freed x) Hx) as Hu.
    rewrite Hused in Hu. simpl in Hu. unfold upd. case_decide as Hd; [|apply ji_used].
    subst. rewrite ji_used. lia.
  - intros p i' Hi'. eapply ji_next, lookup_weaken; [exact Hi'|done].
  - intros p1 id1 c1 i' Hb Hcf. eapply ji_sep; (eapply lookup_weaken; [|exact Hns]); done.
  - intros id c1 id' c2 i' H1 H2. eapply ji_inj; (eapply lookup_weaken; [|exact Hns]); done.
  - intros c1. eapply lookup_weaken_None; [apply ji_zero|done].
  - intros j' Hj' Hr. destruct (decide (j' = j)) as [->|Hne].
    { exists ino, open'. by apply finished_job with open. }
    rewrite finished_jo, decide_False in Hr by done.
    destruct (ji_job j' Hj' Hr) as (ino' & op' & Hok'). exists ino', op'.
    assert (Hsl : slot_pos k' j' ⊆+ op').
    { rewrite finished_slots_ne by done. apply Hok'. }
    destruct Hok'. split; rewrite ?finished_channel, ?finished_id, ?finished_on_pass; auto.
    + intros i' Hi'. apply jk_file. eapply lookup_weaken; done.
    + intros id Hid. eapply jk_sep, lookup_weaken; done.
    + by rewrite finished_jo, decide_False.
    + intros y H1 H2 H3. apply finished_elem in H1; [|done]. auto.
    + intros pos l Hr' Hp. unfold scanned in Hp.
      rewrite finished_on_pass, finished_channel, finished_jo, decide_False in Hp by done.
      by apply jk_scanned.
    + intros Hp. rewrite finished_jo, decide_False by done. auto.
Qed.
End finished.

(** ** Leaving the channel file *)

Definition left_pass (c : channel) (hiteof : bool) (retry : Z) (ns : gmap bytes nat)
    (k : coreT) : coreT :=
  let p := k_pass k c in
  let y := k_jo k !!! p_j p in
  Core (<[p_j p := set_retry retry (set_hiteof hiteof (set_refs (j_refs y - 1) y))]> (k_jo k))
    (k_del k) (upd (k_pass k) c (Pass 0 (p_j p) (p_fd p) (p_mpos p)))
    (k_used k) ns (k_inodes k) (k_next k) (k_trace k).

Section left_pass.
Context (k : coreT) (c : channel) (hiteof : bool) (retry : Z) (ns : gmap bytes nat).
Hypothesis Hinv : jobs_inv k.
Hypothesis Hact : p_id (k_pass k c) ≠ 0%Z.
Hypothesis Hns : ns ⊆ k_names k.
Hypothesis Heof : hiteof = true →
  ∃ l, line_at (drop (p_mpos (k_pass k c)) (data k (p_fd (k_pass k c)))) = (l, false).
Let j := p_j (k_pass k c).
Let k' := left_pass c hiteof retry ns k.

Lemma left_chan : j < length (k_jo k) ∧ j_channel (k_jo k !!! j) = c.
Proof. by destruct (ji_pass _ _ Hinv c Hact) as (? & ? & _). Qed.
Lemma left_on : on_pass k j = true.
Proof.
  destruct left_chan as [_ Hc]. unfold on_pass. rewrite Hc.
  by rewrite !bool_decide_true by done.
Qed.
Lemma left_jo j' :
  k_jo k' !!! j' = if decide (j' = j)
    then set_retry retry (set_hiteof hiteof (set_refs (j_refs (k_jo k !!! j) - 1) (k_jo k !!! j)))
    else k_jo k !!! j'.
Proof.
  destruct left_chan as [Hj _]. unfold k', left_pass. simpl. case_decide as Hd.
  - subst. by rewrite list_lookup_total_insert_eq.
  - by rewrite list_lookup_total_insert_ne by (intros Hjj; apply Hd; by symmetry).
Qed.
Lemma left_channel j' : j_channel (k_jo k' !!! j') = j_channel (k_jo k !!! j').
Proof. rewrite left_jo. by case_decide; subst. Qed.
Lemma left_id j' : j_id (k_jo k' !!! j') = j_id (k_jo k !!! j').
Proof. rewrite left_jo. by case_decide; subst. Qed.
Lemma left_slots j' : slot_pos k' j' = slot_pos k j'.
Proof. apply slot_pos_ext; [apply left_channel|done]. Qed.
Lemma left_on_pass j' : on_pass k' j' = if decide (j' = j) then false else on_pass k j'.
Proof.
  destruct left_chan as [Hj Hc]. unfold on_pass. rewrite left_channel.
  unfold k', left_pass. simpl.
  destruct (upd_cases (k_pass k) c (j_channel (k_jo k !!! j'))
    (Pass 0 (p_j (k_pass k c)) (p_fd (k_pass k c)) (p_mpos (k_pass k c))))
    as [[Hcc ->]|[Hcc ->]].
  - simpl. case_decide as Hd; [done|]. rewrite Hcc.
    rewrite (bool_decide_false (p_j (k_pass k c) = j')) by (by apply not_eq_sym).
    by rewrite andb_false_r.
  - case_decide as Hd; [|done]. subst j'. congruence.
Qed.

Lemma left_job ino open : job_ok k j ino open → job_ok k' j ino open.
Proof.
  intros []. destruct left_chan as [Hj Hc].
  split; rewrite ?left_channel, ?left_id, ?left_slots, ?left_on_pass; auto.
  - intros i' Hi'. apply jk_file. eapply lookup_weaken; done.
  - intros id Hid. eapply jk_sep, lookup_weaken; done.
  - rewrite left_jo, decide_True by done. done.
  - intros pos l Hr Hp. apply jk_scanned; [done|].
    unfold scanned in *. rewrite left_on. rewrite left_on_pass, decide_True in Hp by done.
    rewrite left_jo, decide_True in Hp by done. simpl in Hp.
    destruct hiteof; [|lia]. destruct (Heof eq_refl) as [l' Hl'].
    destruct (jk_pass left_on) as (Hfd & _ & Hb). rewrite Hc in Hfd, Hb |- *.
    rewrite Hfd in Hl'. by eapply rec_at_before.
  - by rewrite decide_True.
Qed.

Lemma left_inv : jobs_inv k'.
Proof.
  destruct left_chan as [Hj Hc]. pose proof Hinv as [].
  assert (Hlen : length (k_jo k') = length (k_jo k)) by apply length_insert.
  split; rewrite ?Hlen.
  - intros c' y H1 H2. rewrite left_channel. by apply ji_slot.
  - intros c'. unfold k' at 1 2 3 4 5, left_pass. simpl.
    destruct (upd_cases (k_pass k) c c'
      (Pass 0 (p_j (k_pass k c)) (p_fd (k_pass k c)) (p_mpos (k_pass k c))))
      as [[-> ->]|[Hcc ->]]; [done|].
    intros Hp. fold k'. rewrite left_channel, left_id. by apply ji_pass.
  - intros j' Hj'. rewrite left_on_pass, left_slots, left_jo. case_decide as Hd.
    + subst j'. simpl. rewrite ji_refs, left_on by done. lia.
    + by apply ji_refs.
  - apply ji_used.
  - intros p i' Hi'. eapply ji_next, lookup_weaken; [exact Hi'|done].
  - intros p1 id1 c1 i' Hb Hcf. eapply ji_sep; (eapply lookup_weaken; [|exact Hns]); done.
  - intros id c1 id' c2 i' H1 H2. eapply ji_inj; (eapply lookup_weaken; [|exact Hns]); done.
  - intros c1. eapply lookup_weaken_None; [apply ji_zero|done].
  - intros j' Hj' Hr. destruct (decide (j' = j)) as [->|Hne].
    { destruct (ji_job j Hj) as (ino & open & Hok).
      - rewrite ji_refs, left_on by done. lia.
      - exists ino, open. by apply left_job. }
    rewrite left_jo, decide_False in Hr by done.
    destruct (ji_job j' Hj' Hr) as (ino' & op' & []). exists ino', op'.
    split; rewrite ?left_channel, ?left_id, ?left_slots, ?left_on_pass; auto.
    + intros i' Hi'. apply jk_file. eapply lookup_weaken; done.
    + intros id Hid. eapply jk_sep, lookup_weaken; done.
    + by rewrite left_jo, decide_False.
    + intros pos l Hr' Hp. apply jk_scanned; [done|]. unfold scanned in *.
      rewrite left_on_pass, left_channel, left_jo, !decide_False in Hp by done.
      destruct (on_pass k j') eqn:Ho; [|done]. unfold on_pass in Ho.
      apply andb_true_iff in Ho as [_ Ho%bool_decide_eq_true].
      unfold k', left_pass in Hp. simpl in Hp.
      rewrite upd_ne in Hp; [done|]. intros Heq. rewrite Heq in Ho. by apply Hne.
    + rewrite decide_False by done. intros Ho. destruct (jk_pass Ho) as (H1 & H2 & H3).
      unfold on_pass in Ho. apply andb_true_iff in Ho as [_ Ho%bool_decide_eq_true].
      unfold k', left_pass. simpl. rewrite upd_ne.
      * fold k'. split_and!; [done| |done]. fold (left_pass c hiteof retry ns k). fold k'.
        change (j_flaghiteof (k_jo k' !!! j') = false). by rewrite left_jo, decide_False.
      * intros Heq. rewrite Heq in Ho. by apply Hne.
Qed.
End left_pass.

(** ** Passing over a record *)

(** [n] is the new [numtodo], [len] the length of the record. *)
Definition advanced (c : channel) (n : Z) (len : nat) (k : coreT) : coreT :=
  let p := k_pass k c in
  Core (<[p_j p := set_numtodo n (k_jo k !!! p_j p)]> (k_jo k)) (k_del k)
    (upd (k_pass k) c (Pass (p_id p) (p_j p) (p_fd p) (p_mpos p + len)))
    (k_used k) (k_names k) (k_inodes k) (k_next k) (k_trace k).

Section advanced.
Context (k : coreT) (c : channel) (n : Z) (line : bytes).
Hypothesis Hinv : jobs_inv k.
Hypothesis Hact : p_id (k_pass k c) ≠ 0%Z.
Hypothesis Hline : line_at (drop (p_mpos (k_pass k c)) (data k (p_fd (k_pass k c)))) = (line, true).
Let j := p_j (k_pass k c).
Let k' := advanced c n (length line) k.

Lemma advanced_jo j' :
  k_jo k' !!! j' = if decide (j' = j) then set_numtodo n (k_jo k !!! j) else k_jo k !!! j'.
Proof.
  destruct (left_chan k c Hinv Hact) as [Hj _]. unfold k', advanced. simpl.
  case_decide as Hd.
  - subst. by rewrite list_lookup_total_insert_eq.
  - by rewrite list_lookup_total_insert_ne by (intros Hjj; apply Hd; by symmetry).
Qed.
Lemma advanced_channel j' : j_channel (k_jo k' !!! j') = j_channel (k_jo k !!! j').
Proof. rewrite advanced_jo. by case_decide; subst. Qed.
Lemma advanced_id j' : j_id (k_jo k' !!! j') = j_id (k_jo k !!! j').
Proof. rewrite advanced_jo. by case_decide; subst. Qed.
Lemma advanced_hiteof j' : j_flaghiteof (k_jo k' !!! j') = j_flaghiteof (k_jo k !!! j').
Proof. rewrite advanced_jo. by case_decide; subst. Qed.
Lemma advanced_slots j' : slot_pos k' j' = slot_pos k j'.
Proof. apply slot_pos_ext; [apply advanced_channel|done]. Qed.
Lemma advanced_pass c' :
  k_pass k' c' = if decide (c' = c)
    then Pass (p_id (k_pass k c)) j (p_fd (k_pass k c)) (p_mpos (k_pass k c) + length line)
    else k_pass k c'.
Proof. done. Qed.
Lemma advanced_on_pass j' : on_pass k' j' = on_pass k j'.
Proof.
  unfold on_pass. rewrite advanced_channel, advanced_pass.
  by destruct (decide (_ = c)) as [->|].
Qed.
(** Another job on the channel is not on its pass. *)
Lemma advanced_other j' :
  j' ≠ j → on_pass k j' = true → k_pass k' (j_channel (k_jo k !!! j')) =
                                 k_pass k (j_channel (k_jo k !!! j')).
Proof.
  intros Hne Ho. rewrite advanced_pass. case_decide as Hd; [|done].
  unfold on_pass in Ho. apply andb_true_iff in Ho as [_ Ho%bool_decide_eq_true].
  rewrite Hd in Ho. destruct Hne. by rewrite <- Ho.
Qed.

Lemma advanced_job ino open open' :
  job_ok k j ino open →
  Z.of_nat (length open') = n →
  (open' = open ∧ head line ≠ Some 84%Z ∨ open' = p_mpos (k_pass k c) :: open) →
  job_ok k' j ino open'.
Proof.
  intros [] Hn Hopen. destruct (left_chan k c Hinv Hact) as [Hj Hc].
  pose proof (left_on k c Hinv Hact) as Hon. fold j in Hj, Hc, Hon.
  destruct (jk_pass Hon) as (Hfd & Hnoeof & Hb). rewrite Hc in Hfd, Hb. rewrite Hfd in Hline.
  assert (Hsub : open ⊆+ open').
  { destruct Hopen as [[-> _]| ->]; [done|]. apply submseteq_cons. done. }
  split; rewrite ?advanced_channel, ?advanced_id, ?advanced_slots, ?advanced_on_pass,
    ?advanced_hiteof; auto.
  - rewrite advanced_jo, decide_True by done. done.
  - by etrans.
  - intros pos l Hr Hp. unfold scanned in Hp.
    rewrite advanced_on_pass, Hon, advanced_channel, Hc, advanced_pass, decide_True in Hp by done.
    simpl in Hp.
    destruct (Nat.lt_trichotomy pos (p_mpos (k_pass k c))) as [Hlt|[->|Hgt]].
    + destruct (jk_scanned pos l Hr) as [Hin|Hh]; [|left|by right].
      * unfold scanned. by rewrite Hon, Hc.
      * by eapply elem_of_submseteq.
    + left. destruct Hopen as [[_ Hhd]| ->]; [|by left]. destruct Hr as [_ Hr].
      change (data k' ino) with (data k ino) in Hr. rewrite Hline in Hr.
      injection Hr as ->. done.
    + destruct Hr as [Hbp _]. pose proof (boundary_gap _ _ _ _ Hb Hbp Hline Hgt). lia.
  - intros _. rewrite Hc, advanced_pass, decide_True by done. simpl.
    split_and!; [done|done|]. by apply boundary_next.
Qed.

Lemma advanced_inv open' :
  (∃ ino open, job_ok k j ino open ∧
     (open' = open ∧ head line ≠ Some 84%Z ∨ open' = p_mpos (k_pass k c) :: open)) →
  Z.of_nat (length open') = n →
  jobs_inv k'.
Proof.
  intros (ino & open & Hok & Hopen) Hn. destruct (left_chan k c Hinv Hact) as [Hj Hc].
  pose proof Hinv as [].
  assert (Hlen : length (k_jo k') = length (k_jo k)) by apply length_insert.
  split; rewrite ?Hlen; auto.
  - intros c' y H1 H2. rewrite advanced_channel. by apply ji_slot.
  - intros c'. rewrite !advanced_pass. destruct (decide (c' = c)) as [->|Hcc]; simpl; intros Hp.
    + rewrite advanced_channel, advanced_id. by apply (ji_pass c).
    + rewrite advanced_channel, advanced_id. by apply ji_pass.
  - intros j' Hj'. rewrite advanced_on_pass, advanced_slots, advanced_jo.
    case_decide; subst; by apply ji_refs.
  - intros j' Hj' Hr. destruct (decide (j' = j)) as [->|Hne].
    { exists ino, open'. by apply advanced_job with open. }
    rewrite advanced_jo, decide_False in Hr by done.
    destruct (ji_job j' Hj' Hr) as (ino' & op' & []). exists ino', op'.
    split; rewrite ?advanced_channel, ?advanced_id, ?advanced_slots, ?advanced_on_pass,
      ?advanced_hiteof; auto.
    + by rewrite advanced_jo, decide_False.
    + intros pos l Hr' Hp. apply jk_scanned; [done|]. unfold scanned in *.
      rewrite advanced_on_pass, advanced_channel, advanced_hiteof in Hp.
      destruct (on_pass k j') eqn:Ho; [|done]. by rewrite advanced_other in Hp.
    + intros Ho. rewrite advanced_other by done. auto.
Qed.
End advanced.

(** ** Starting a delivery *)

Definition started (c : channel) (i j : nat) (d : DEL) (e : event) (k : coreT) : coreT :=
  let y := k_jo k !!! j in
  Core (<[j := set_refs (j_refs y + 1) y]> (k_jo k))
    (upd (k_del k) c (<[i := d]> (k_del k c))) (k_pass k)
    (upd (k_used k) c (k_used k c + 1)%Z) (k_names k) (k_inodes k) (k_next k) (e :: k_trace k).

Section started.
Context (k : coreT) (i j : nat) (old d : DEL) (ino : nat) (open : list nat).
Let c := j_channel (k_jo k !!! j).
Let e := EvStart (d_delid d) (j_id (k_jo k !!! j)) c (d_recip d).
Let k' := started c i j d e k.
Hypothesis Hinv : jobs_inv k.
Hypothesis Hj : j < length (k_jo k).
Hypothesis Hrefs : (0 < j_refs (k_jo k !!! j))%Z.
Hypothesis Hold : k_del k c !! i = Some old.
Hypothesis Hfree : d_used old = false.
Hypothesis Hd : d_used d = true ∧ d_j d = j.
Hypothesis Hok : job_ok k j ino (d_mpos d :: open).
Hypothesis Hsub : slot_pos k j ⊆+ open.
Hypothesis Hrec : ∃ h, (h = 84 ∨ h = 68)%Z ∧ ∃ l,
  rec_at (data k ino) (d_mpos d) (h :: l) ∧ cstr l = d_recip d.

Lemma started_jo j' :
  k_jo k' !!! j' = if decide (j' = j)
    then set_refs (j_refs (k_jo k !!! j) + 1) (k_jo k !!! j) else k_jo k !!! j'.
Proof.
  unfold k', started. simpl. case_decide as Hd'.
  - subst. by rewrite list_lookup_total_insert_eq.
  - by rewrite list_lookup_total_insert_ne by (intros Hjj; apply Hd'; by symmetry).
Qed.
Lemma started_channel j' : j_channel (k_jo k' !!! j') = j_channel (k_jo k !!! j').
Proof. rewrite started_jo. by case_decide; subst. Qed.
Lemma started_id j' : j_id (k_jo k' !!! j') = j_id (k_jo k !!! j').
Proof. rewrite started_jo. by case_decide; subst. Qed.
Lemma started_hiteof j' : j_flaghiteof (k_jo k' !!! j') = j_flaghiteof (k_jo k !!! j').
Proof. rewrite started_jo. by case_decide; subst. Qed.
Lemma started_on_pass j' : on_pass k' j' = on_pass k j'.
Proof. apply on_pass_ext; [apply started_channel|done]. Qed.
Lemma started_elem c' y :
  y ∈ k_del k' c' → d_used y = true → y ∈ k_del k c' ∨ c' = c ∧ y = d.
Proof.
  unfold k', started. simpl.
  destruct (upd_cases (k_del k) c c' (<[i:=d]> (k_del k c))) as [[-> ->]|[? ->]]; [|by left].
  intros Hy Hu. rewrite insert_Permutation in Hy by (by eapply lookup_lt_Some).
  apply elem_of_cons in Hy as [->|Hy]; [by right|]. left.
  rewrite (delete_Permutation _ _ _ Hold). by right.
Qed.
Lemma started_slots_ne j' : j' ≠ j → slot_pos k' j' ≡ₚ slot_pos k j'.
Proof.
  intros Hne. unfold slot_pos. rewrite started_channel. unfold k', started. simpl.
  destruct (upd_cases (k_del k) c (j_channel (k_jo k !!! j')) (<[i:=d]> (k_del k c)))
    as [[-> ->]|[? ->]]; [|done].
  destruct (omap_insert_Permutation (mine j') (k_del k c) i old d Hold) as [-> ->].
  destruct Hd as [_ Hdj]. rewrite (mine_other j' d) by congruence.
  by rewrite (mine_free j' old).
Qed.
Lemma started_slots : slot_pos k' j ≡ₚ d_mpos d :: slot_pos k j.
Proof.
  unfold slot_pos. rewrite started_channel. unfold k', started. simpl. fold c.
  rewrite upd_eq.
  destruct (omap_insert_Permutation (mine j) (k_del k c) i old d Hold) as [-> ->].
  destruct Hd as [Hu Hdj]. assert (mine j d = Some (d_mpos d)) as ->.
  { rewrite <- Hdj. by apply mine_own. }
  by rewrite (mine_free j old).
Qed.

Lemma started_handled id c' r : handled k id c' r → handled k' id c' r.
Proof. apply handled_mono. intros e' He. by right. Qed.

Lemma started_inv : jobs_inv k'.
Proof.
  pose proof Hinv as [].
  assert (Hlen : length (k_jo k') = length (k_jo k)) by apply length_insert.
  split; rewrite ?Hlen; auto.
  - intros c' y H1 H2. rewrite started_channel.
    destruct (started_elem c' y H1 H2) as [H|[-> ->]]; [by apply ji_slot|].
    destruct Hd as [_ ->]. done.
  - intros c' Hp. rewrite started_channel, started_id. by apply ji_pass.
  - intros j' Hj'. rewrite started_on_pass, started_jo. case_decide as Hdd.
    + subst j'. simpl. rewrite ji_refs, started_slots by done. simpl. lia.
    + rewrite ji_refs by done. by rewrite started_slots_ne.
  - intros c'. unfold k', started. simpl.
    pose proof (used_count_insert (k_del k c) i old d Hold) as Hu.
    destruct Hd as [Hud _]. rewrite Hud, Hfree in Hu. unfold upd.
    case_decide as Hdd; [|apply ji_used]. subst. rewrite ji_used. fold c. lia.
  - intros j' Hj' Hr. destruct (decide (j' = j)) as [->|Hne].
    + exists ino, (d_mpos d :: open). destruct Hok.
      split; rewrite ?started_channel, ?started_id, ?started_on_pass, ?started_hiteof; auto.
      * rewrite started_jo, decide_True by done. done.
      * rewrite started_slots. by apply submseteq_skip.
      * intros y H1 H2 H3. destruct (started_elem _ y H1 H2) as [H|[Hcc ->]].
        -- destruct (jk_slot y H H2 H3) as [? ?]. split; [by right|done].
        -- split; [by left|done].
      * intros pos l Hr' Hp. unfold scanned in Hp.
        rewrite started_on_pass, started_channel, started_hiteof in Hp.
        destruct (jk_scanned pos l Hr' Hp); [by left|right]. by apply started_handled.
    + rewrite started_jo, decide_False in Hr by done.
      destruct (ji_job j' Hj' Hr) as (ino' & op' & []). exists ino', op'.
      split; rewrite ?started_channel, ?started_id, ?started_on_pass, ?started_hiteof; auto.
      * by rewrite started_jo, decide_False.
      * by rewrite started_slots_ne.
      * intros y H1 H2 H3. destruct (started_elem _ y H1 H2) as [H|[Hcc ->]].
        -- destruct (jk_slot y H H2 H3) as [? ?]. split; [by right|done].
        -- destruct Hd as [_ Hdj]. congruence.
      * intros pos l Hr' Hp. unfold scanned in Hp.
        rewrite started_on_pass, started_channel, started_hiteof in Hp.
        destruct (jk_scanned pos l Hr' Hp); [by left|right]. by apply started_handled.
Qed.
End started.

(** ** Beginning a pass *)

Definition begun (c : channel) (j fd : nat) (y : job) (k : coreT) : coreT :=
  Core (<[j := y]> (k_jo k)) (k_del k) (upd (k_pass k) c (Pass (j_id y) j fd 0))
    (k_used k) (k_names k) (k_inodes k) (k_next k) (k_trace k).

Section begun.
Context (k : coreT) (c : channel) (j fd : nat) (y : job).
Let k' := begun c j fd y k.
Hypothesis Hinv : jobs_inv k.
Hypothesis Hj : j < length (k_jo k).
Hypothesis Hfree : j_refs (k_jo k !!! j) = 0%Z.
Hypothesis Hidle : p_id (k_pass k c) = 0%Z.
Hypothesis Hid : good_id (j_id y).
Hypothesis Hy : j_refs y = 1%Z ∧ j_channel y = c ∧ j_numtodo y = 0%Z ∧ j_flaghiteof y = false.
Hypothesis Hfd : k_names k !! chanfile (j_id y) c = Some fd.

Lemma begun_unused c' x : x ∈ k_del k c' → d_used x = true → d_j x ≠ j.
Proof.
  intros Hx Hu Hdj. destruct (ji_slot _ _ Hinv c' x Hx Hu) as [_ Hc].
  pose proof (ji_refs _ _ Hinv j Hj) as Hr. rewrite Hfree in Hr.
  assert (d_mpos x ∈ slot_pos k j) as Hin.
  { unfold slot_pos. apply list_elem_of_omap. exists x. rewrite <- Hdj, Hc. split; [done|].
    by apply mine_own. }
  destruct (slot_pos k j); [by apply not_elem_of_nil in Hin|]. simpl in Hr.
  destruct (on_pass k j); lia.
Qed.
Lemma begun_jo j' : k_jo k' !!! j' = if decide (j' = j) then y else k_jo k !!! j'.
Proof.
  unfold k', begun. simpl. case_decide as Hd.
  - subst. by rewrite list_lookup_total_insert_eq.
  - by rewrite list_lookup_total_insert_ne by (intros Hjj; apply Hd; by symmetry).
Qed.
Lemma begun_jo_ne j' : j' ≠ j → k_jo k' !!! j' = k_jo k !!! j'.
Proof. intros. by rewrite begun_jo, decide_False. Qed.
Lemma begun_pass c' : k_pass k' c' = if decide (c' = c) then Pass (j_id y) j fd 0 else k_pass k c'.
Proof. done. Qed.
Lemma begun_slots : slot_pos k' j = [].
Proof.
  unfold slot_pos. rewrite begun_jo, decide_True by done. destruct Hy as (_ & -> & _).
  change (k_del k' c) with (k_del k c). destruct (omap (mine j) (k_del k c)) as [|p l] eqn:E; [done|].
  assert (p ∈ omap (mine j) (k_del k c)) as Hin by (rewrite E; by left).
  apply list_elem_of_omap in Hin as (x & Hx & Hm). unfold mine in Hm.
  destruct (d_used x) eqn:Hu; [|done]. simpl in Hm.
  case_bool_decide as Hdj; [|done]. by destruct (begun_unused c x Hx Hu).
Qed.
Lemma begun_slots_ne j' : j' ≠ j → slot_pos k' j' = slot_pos k j'.
Proof. intros. apply slot_pos_ext; [by rewrite begun_jo_ne|done]. Qed.
Lemma begun_on : on_pass k' j = true.
Proof.
  unfold on_pass. rewrite begun_jo, decide_True by done. destruct Hy as (_ & -> & _).
  rewrite begun_pass, decide_True by done. simpl. destruct Hid. by rewrite !bool_decide_true.
Qed.
Lemma begun_on_ne j' : j' ≠ j → on_pass k' j' = on_pass k j'.
Proof.
  intros Hne. unfold on_pass. rewrite begun_jo_ne by done. rewrite begun_pass.
  destruct (decide (_ = c)) as [->|]; [|done]. simpl. rewrite Hidle.
  rewrite (bool_decide_false (j = j')) by (by apply not_eq_sym).
  by rewrite andb_false_r.
Qed.
(** The pass a job is on is not the idle one. *)
Lemma begun_pass_ne j' :
  on_pass k j' = true → k_pass k' (j_channel (k_jo k !!! j')) = k_pass k (j_channel (k_jo k !!! j')).
Proof.
  intros Ho. rewrite begun_pass. case_decide as Hd; [|done].
  unfold on_pass in Ho. rewrite Hd, Hidle in Ho. done.
Qed.

Lemma begun_inv : jobs_inv k'.
Proof.
  pose proof Hinv as [].
  assert (Hlen : length (k_jo k') = length (k_jo k)) by apply length_insert.
  split; rewrite ?Hlen; auto.
  - intros c' x H1 H2. rewrite begun_jo_ne by (by eapply begun_unused). by apply ji_slot.
  - intros c'. rewrite begun_pass. case_decide as Hc; simpl.
    + intros _. rewrite begun_jo, decide_True by done. destruct Hy as (_ & ? & _). by subst.
    + intros Hp. destruct (ji_pass c' Hp) as (H1 & H2 & H3).
      rewrite begun_jo_ne; [done|]. intros Hjj.
      pose proof (ji_refs j Hj) as Hr. rewrite Hfree in Hr.
      assert (on_pass k j = true) as Ho; [|rewrite Ho in Hr; lia].
      subst j. unfold on_pass. rewrite H2. by rewrite !bool_decide_true.
  - intros j' Hj'. destruct (decide (j' = j)) as [->|Hne].
    + rewrite begun_slots, begun_on, begun_jo, decide_True by done. destruct Hy as (-> & _). done.
    + rewrite begun_slots_ne, begun_on_ne, begun_jo_ne by done. auto.
  - intros j' Hj' Hr. destruct (decide (j' = j)) as [->|Hne].
    + exists fd, []. destruct Hy as (_ & Hc & Hn & He).
      split; rewrite ?begun_slots, ?begun_on, ?begun_jo, ?decide_True by done; rewrite ?Hc; auto.
      * intros i Hi. change (k_names k !! chanfile (j_id y) c = Some i) in Hi. congruence.
      * by eapply ji_next.
      * intros id Hb. eapply ji_sep; done.
      * intros x H1 H2 H3. by destruct (begun_unused c x H1 H2).
      * intros pos l _ Hp. unfold scanned in Hp. rewrite begun_on, begun_jo, decide_True in Hp by done.
        rewrite Hc, begun_pass, decide_True in Hp by done. simpl in Hp. lia.
      * intros _. rewrite begun_pass, decide_True by done. simpl. split_and!; [done..|constructor].
    + rewrite begun_jo_ne in Hr by done.
      destruct (ji_job j' Hj' Hr) as (ino & open & []). exists ino, open.
      split; rewrite ?begun_slots_ne, ?begun_on_ne, ?begun_jo_ne by done; auto.
      * intros pos l Hr' Hp. apply jk_scanned; [done|]. unfold scanned in *.
        rewrite begun_on_ne, begun_jo_ne in Hp by done.
        destruct (on_pass k j') eqn:Ho; [|done]. by rewrite begun_pass_ne in Hp.
      * intros Ho. rewrite begun_pass_ne by done. auto.
Qed.
End begun.
End SendSteps.
