(* ===== verification/SendEffects.v ===== *)
(** * The effects of the handlers of qmail-send on deliveries and files

    No recipient is lost: [safe k k'] says that a recipient still marked T in a
    channel file stays so, or has a logged success or failure.  The lemmas here
    give it for the changes the handlers consist of. *)

From S2P Require Import Prelude LibQmail Prioq Filesys Records Fmtqfn SendState SendQueue.
From S2P Require Import SendDeliver SendBounce SendPass SendInv SendSafety SendSteps.

Section SendEffects.
Context {L : LibQmail} {LL : LibQmailLaws L} (cfg : config).
Hypothesis split_pos : (0 < split_of (conf_split cfg) (auto_split cfg) < 2 ^ 31)%Z.
Abbreviation chanfile := (fnmake_chanaddr cfg).
Abbreviation bouncefile := (fnmake_bounce cfg).
Abbreviation jobs_inv := (jobs_inv cfg).
Abbreviation job_ok := (job_ok cfg).
Abbreviation harmless := (harmless cfg).

Definition safe (k k' : coreT) : Prop :=
  (∀ e, e ∈ k_trace k → e ∈ k_trace k') ∧
  ∀ id c i pos l, ulong id → k_names k !! chanfile id c = Some i →
    rec_at (data k i) pos (84%Z :: l) →
    (k_names k' !! chanfile id c = Some i ∧ rec_at (data k' i) pos (84%Z :: l)) ∨
    handled k' id c (cstr l).

Lemma safe_refl k : safe k k.
Proof. split; auto. Qed.
Lemma safe_trans k1 k2 k3 : safe k1 k2 → safe k2 k3 → safe k1 k3.
Proof.
  intros [T1 S1] [T2 S2]. split; [auto|]. intros id c i pos l Hid Hi Hr.
  destruct (S1 id c i pos l Hid Hi Hr) as [[Hi' Hr']|Hh]; [by apply S2|].
  right. by eapply handled_mono.
Qed.

(** The files of the queue have different names. *)
Lemma bounce_not_chan id id' c : bouncefile id ≠ chanfile id' c.
Proof. by destruct c. Qed.
Lemma info_not_chan id id' c : fnmake_info cfg id ≠ chanfile id' c.
Proof. by destruct c. Qed.
Lemma chan_dir c : queue_dir (chanaddr c).
Proof.
  destruct c; [exists (lit "local")|exists (lit "remote")]; (split; [|done]);
    apply (bool_decide_unpack _); by vm_compute.
Qed.
Lemma chan_inj id c id' c' :
  ulong id → ulong id' → chanfile id c = chanfile id' c' → id = id' ∧ c = c'.
Proof.
  intros H1 H2 H. apply (qfn_inj _ _ split_pos) in H as (Hc & ? & _); [|by try apply chan_dir..].
  split; [done|]. by destruct c, c'.
Qed.

(** ** Changes that are safe *)

Lemma harmless_safe k k' : jobs_inv k → harmless k k' → safe k k'.
Proof.
  intros Hinv Hh. split; [apply (h_trace _ _ _ Hh)|]. intros id c i pos l _ Hi Hr. left.
  rewrite (h_chan _ _ _ Hh), (h_data _ _ _ Hh); [done|by eapply ji_next|].
  intros p Hp. by eapply (ji_sep _ _ Hinv).
Qed.

Lemma same_files_safe k k' :
  k_names k' = k_names k → k_inodes k' = k_inodes k →
  (∀ e, e ∈ k_trace k → e ∈ k_trace k') → safe k k'.
Proof. intros Hn Hi Ht. split; [done|]. unfold data. rewrite Hn, Hi. auto. Qed.

(** Marking the record of a recipient whose outcome is logged. *)
Lemma marked_safe k id c i pos t a h l :
  jobs_inv k → k_names k !! chanfile id c = Some i → ulong id →
  rec_at (data k i) pos (h :: l) → (h = 84 ∨ h = 68)%Z →
  handled k id c (cstr l) → safe k (marked i pos t a k).
Proof.
  intros Hinv Hi Hid Hrec Hh Hd. split; [done|]. intros id' c' i' p m Hid' Hi' Hr.
  rewrite data_marked. destruct (decide (i' = i)) as [->|]; [|by left].
  destruct (decide (p = pos)) as [->|Hp].
  - right. pose proof (ji_inj _ _ Hinv _ _ _ _ _ Hi' Hi) as Heq.
    apply chan_inj in Heq as [-> ->]; [|done..].
    destruct Hrec as [_ Hrec], Hr as [_ Hr]. assert (m = l) as -> by congruence. done.
  - left. split; [done|]. apply (rec_at_mark _ pos (h :: l) h 68); try done; [lia|].
    exists (84%Z :: m). by rewrite decide_False.
Qed.

Lemma rec_at_lt s pos l : rec_at s pos l → pos < length s.
Proof.
  intros [_ Hl]. pose proof (line_at_length _ _ Hl). apply line_at_prefix in Hl.
  apply prefix_length in Hl. rewrite length_drop in Hl. lia.
Qed.

(** Nothing is owed when the file was read to its end and no delivery is left. *)
Lemma all_handled k j ino open :
  job_ok k j ino open → on_pass k j = false → j_flaghiteof (k_jo k !!! j) = true →
  j_numtodo (k_jo k !!! j) = 0%Z → ∀ pos l, rec_at (data k ino) pos (84%Z :: l) →
  handled k (j_id (k_jo k !!! j)) (j_channel (k_jo k !!! j)) (cstr l).
Proof.
  intros Hok Hon Heof Hn pos l Hr. pose proof (jk_open _ _ _ _ _ Hok) as Ho. rewrite Hn in Ho.
  destruct (jk_scanned _ _ _ _ _ Hok pos l Hr) as [Hin|]; [|destruct open|done].
  - unfold scanned. rewrite Hon, Heof. by eapply rec_at_lt.
  - by apply not_elem_of_nil in Hin.
  - simpl in Ho. lia.
Qed.

(** Removing the file of such a job. *)
Lemma removed_safe k k' j ino open :
  job_ok k' j ino open → on_pass k' j = false → j_flaghiteof (k_jo k' !!! j) = true →
  j_numtodo (k_jo k' !!! j) = 0%Z →
  k_names k' = delete (chanfile (j_id (k_jo k' !!! j)) (j_channel (k_jo k' !!! j))) (k_names k) →
  (∀ i, k_names k !! chanfile (j_id (k_jo k' !!! j)) (j_channel (k_jo k' !!! j)) = Some i → i = ino) →
  k_inodes k' = k_inodes k → (∀ e, e ∈ k_trace k → e ∈ k_trace k') → safe k k'.
Proof.
  intros Hok Hon Heof Hn Hns Hfile Hin Ht. split; [done|]. intros id c i pos l Hid Hi Hr.
  assert (Hd : data k' i = data k i) by (unfold data; by rewrite Hin). rewrite Hns, Hd.
  destruct (decide (chanfile (j_id (k_jo k' !!! j)) (j_channel (k_jo k' !!! j)) = chanfile id c))
    as [Heq|Hne]; [|left; by rewrite lookup_delete_ne].
  right. rewrite Heq in Hfile. apply Hfile in Hi as ->.
  apply chan_inj in Heq as [<- <-]; [|apply (jk_id _ _ _ _ _ Hok)|done].
  eapply all_handled; try done. by rewrite Hd.
Qed.

(** ** The ends of deliveries and of passes *)

Definition names_closed (j : nat) (gone : bool) (k : coreT) : gmap bytes nat :=
  if gone then delete (chanfile (j_id (k_jo k !!! j)) (j_channel (k_jo k !!! j))) (k_names k)
  else k_names k.

Lemma names_closed_sub j gone k : names_closed j gone k ⊆ k_names k.
Proof. destruct gone; [apply delete_subseteq|done]. Qed.

(** The file of job [j] may go; [n] is what its [numtodo] will be. *)
Definition can_go (k : coreT) (j : nat) (hiteof : bool) (n : Z) : Prop :=
  (j_refs (k_jo k !!! j) ≤ 1)%Z ∧ hiteof = true ∧ n = 0%Z.

Lemma refs_done k j :
  jobs_inv k → j < length (k_jo k) → (j_refs (k_jo k !!! j) ≤ 0)%Z → on_pass k j = false.
Proof.
  intros Hinv Hj Hr. rewrite (ji_refs _ _ Hinv j Hj) in Hr. destruct (on_pass k j); [lia|done].
Qed.

Lemma finished_fine k c i x n gone ino open open' :
  let j := d_j x in let k' := finished c i j x n (names_closed j gone k) k in
  jobs_inv k → k_del k c !! i = Some x → d_used x = true →
  job_ok k j ino open → Z.of_nat (length open') = n → slot_pos k' j ⊆+ open' →
  (∀ pos, pos ∈ open → pos ∈ open' ∨ pos = d_mpos x ∧
     handled k (j_id (k_jo k !!! j)) c (d_recip x)) →
  (gone = true → can_go k j (j_flaghiteof (k_jo k !!! j)) n) →
  jobs_inv k' ∧ safe k k'.
Proof.
  intros j k' Hinv Hx Hu Hok Hn Hsub Hopen Hgone.
  pose proof (names_closed_sub j gone k) as Hns.
  pose proof (finished_inv cfg k c i x n _ Hinv Hx Hu Hns ino open open' Hok Hn Hsub Hopen) as Hinv'.
  split; [exact Hinv'|]. destruct gone; [|by apply same_files_safe].
  destruct (Hgone eq_refl) as (Hr & Heof & Hz).
  pose proof (finished_job cfg k c i x n _ Hinv Hx Hu Hns ino open open' Hok Hn Hsub Hopen) as Hok'.
  destruct (finished_chan cfg k c i x Hinv Hx Hu) as [Hj Hc].
  pose proof (finished_jo cfg k c i x n (names_closed j true k) Hinv Hx Hu j) as Hjo.
  rewrite decide_True in Hjo by done. fold j in Hok', Hjo, Hinv'. fold k' in Hok', Hjo, Hinv'.
  eapply removed_safe; [exact Hok'|..]; rewrite ?Hjo; simpl; auto.
  - apply refs_done; [done| |].
    + unfold k'. simpl. by rewrite length_insert.
    + rewrite Hjo. simpl. lia.
  - intros i'. apply (jk_file _ _ _ _ _ Hok).
Qed.

Lemma left_fine k c hiteof retry gone :
  let j := p_j (k_pass k c) in let k' := left_pass c hiteof retry (names_closed j gone k) k in
  jobs_inv k → p_id (k_pass k c) ≠ 0%Z →
  (hiteof = true → ∃ l, line_at (drop (p_mpos (k_pass k c)) (data k (p_fd (k_pass k c)))) = (l, false)) →
  (gone = true → can_go k j hiteof (j_numtodo (k_jo k !!! j))) →
  jobs_inv k' ∧ safe k k'.
Proof.
  intros j k' Hinv Hact Heof Hgone.
  pose proof (names_closed_sub j gone k) as Hns.
  pose proof (left_inv cfg k c hiteof retry _ Hinv Hact Hns Heof) as Hinv'.
  split; [exact Hinv'|]. destruct gone; [|by apply same_files_safe].
  destruct (Hgone eq_refl) as (Hr & Hh & Hz).
  destruct (left_chan cfg k c Hinv Hact) as [Hj Hc].
  pose proof (left_jo cfg k c hiteof retry (names_closed j true k) Hinv Hact j) as Hjo.
  rewrite decide_True in Hjo by done.
  destruct (ji_job _ _ Hinv j Hj) as (ino & open & Hok).
  { pose proof (left_on cfg k c Hinv Hact) as Hon. fold j in Hon.
    rewrite (ji_refs _ _ Hinv), Hon by done. lia. }
  pose proof (left_job cfg k c hiteof retry _ Hinv Hact Hns Heof ino open Hok) as Hok'.
  fold j in Hok', Hjo, Hinv'. fold k' in Hok', Hjo, Hinv'.
  eapply removed_safe; [exact Hok'|..]; rewrite ?Hjo; simpl; auto.
  - apply refs_done; [done| |].
    + unfold k'. simpl. by rewrite length_insert.
    + rewrite Hjo. simpl. lia.
  - intros i'. apply (jk_file _ _ _ _ _ Hok).
Qed.
End SendEffects.
