(* ===== verification/SendHandlers.v ===== *)
(** * The handlers of qmail-send keep the invariant and lose no recipient

    Each handler is taken from a state with the invariant to a state with it, by
    a [safe] change. *)

From S2P Require Import Prelude LibQmail Prioq Filesys Records Fmtqfn SendState SendQueue.
From S2P Require Import SendDeliver SendBounce SendPass SendInv SendSafety SendSteps.
From S2P Require Import SendEffects.

Section SendHandlers.
Context {L : LibQmail} {LL : LibQmailLaws L} (cfg : config) (bc : bounce_config).
Hypothesis split_pos : (0 < split_of (conf_split cfg) (auto_split cfg) < 2 ^ 31)%Z.
Abbreviation chanfile := (fnmake_chanaddr cfg).
Abbreviation bouncefile := (fnmake_bounce cfg).
Abbreviation jobs_inv := (jobs_inv cfg).
Abbreviation job_ok := (job_ok cfg).
Abbreviation harmless := (harmless cfg).
Abbreviation safe := (safe cfg).

Definition fine (k k' : coreT) : Prop := jobs_inv k' ∧ safe k k'.

Lemma fine_refl k : jobs_inv k → fine k k.
Proof. split; [done|apply safe_refl]. Qed.
Lemma fine_trans k1 k2 k3 : fine k1 k2 → fine k2 k3 → fine k1 k3.
Proof. intros [_ S1] [I2 S2]. split; [done|]. by eapply safe_trans. Qed.
Lemma harmless_fine k k' : jobs_inv k → harmless k k' → fine k k'.
Proof. split; [by eapply harmless_inv|by eapply harmless_safe]. Qed.

Lemma wp_fine_bind {A B} (m : M A) (f : A → M B) k s :
  fine k (core s) → (jobs_inv (core s) → wp m (λ _ s', fine (core s) (core s')) s) →
  (∀ a s', fine k (core s') → wp (f a) (λ _ s'', fine k (core s'')) s') →
  wp (m ≫= f) (λ _ s'', fine k (core s'')) s.
Proof.
  intros Hk Hm Hf. apply wp_bind. eapply wp_mono; [apply Hm, Hk|]. intros a s' Hs'.
  apply Hf. by eapply fine_trans.
Qed.
Lemma wp_fine {A} (m : M A) k s :
  fine k (core s) → (jobs_inv (core s) → wp m (λ _ s', fine (core s) (core s')) s) →
  wp m (λ _ s', fine k (core s')) s.
Proof.
  intros Hk Hm. eapply wp_mono; [apply Hm, Hk|]. intros a s' Hs'. by eapply fine_trans.
Qed.
Lemma wp_neutral_fine {A} (m : M A) k s :
  neutral m → fine k (core s) → wp m (λ _ s', fine k (core s')) s.
Proof. intros Hm Hk. apply wp_neutral; [done|]. by intros s' ->. Qed.

(** ** Log lines and bounce files *)

Lemma harmless_trace e k : harmless k (kset_trace (e :: k_trace k) k).
Proof. split; auto. intros e' He. by right. Qed.

Lemma wp_until_done {A} (dflt : A) (m : ST world (errno + A)) (Q : A → world → Prop) w :
  (∀ f, wp m (λ r w', ∃ a, r = inr a ∧ Q a w') (set_faults f w)) →
  wp (until_done dflt (syscall m)) Q w.
Proof.
  intros Hm. unfold wp, until_done. fold (wp (retry (S (length (faults w))) dflt (syscall m)) Q w).
  assert (H : ∀ n f, length f < n → wp (retry n dflt (syscall m)) Q (set_faults f w)).
  { induction n as [|n IH]; intros f Hf; [lia|]. simpl. apply wp_bind. unfold syscall.
    apply wp_bind. unfold wp at 1, fault. simpl. destruct f as [|[] f]; simpl in *.
    - eapply wp_mono; [apply Hm|]. intros r w' (a & -> & Ha). by apply wp_ret.
    - apply wp_ret. apply (IH f). lia.
    - eapply wp_mono; [apply (Hm f)|]. intros r w' (a & -> & Ha). by apply wp_ret. }
  specialize (H (S (length (faults w))) (faults w) ltac:(lia)). by destruct w.
Qed.

Definition opened (p : bytes) (w w' : world) (i : nat) : Prop :=
  (names w' = names w ∧ inodes w' = inodes w ∧ next_ino w' = next_ino w ∧ names w !! p = Some i) ∨
  (names w' = <[p := next_ino w]> (names w) ∧ i = next_ino w ∧
   (∃ n, inodes w' = <[i := n]> (inodes w)) ∧ next_ino w' = S (next_ino w) ∧ names w !! p = None).

Lemma wp_open_append p (Q : nat → world → Prop) w :
  (∀ i w', opened p w w' i → Q i w') → wp (until_done 0 (open_append p)) Q w.
Proof.
  intros HQ. apply wp_until_done. intros f. unfold lookup_name.
  apply wp_bind, wp_bind, wp_getS, wp_ret. simpl. destruct (names w !! p) as [i|] eqn:E.
  - apply wp_ret. exists i. split; [done|]. apply HQ. by left.
  - unfold create. wp_steps. apply wp_getS. wp_steps. exists (next_ino w). split; [done|].
    apply HQ. right. simpl. eauto 10.
Qed.

Lemma addbounce_harmless id recip report s :
  (∀ p i, names (wd s) !! p = Some i → i < next_ino (wd s)) →
  wp (addbounce cfg id recip report) (λ _ s', harmless (core s) (core s')) s.
Proof.
  intros Hnext. unfold addbounce. apply wp_bind, wp_getS. cbv zeta.
  apply wp_bind, wp_modify, wp_bind, wp_sys, wp_open_append. intros i w Hw.
  apply wp_bind, wp_sys, wp_until_done. intros f. apply wp_bind. apply wp_bind. apply wp_getS, wp_ret.
  apply wp_bind, wp_modify, wp_ret. exists tt. split; [done|]. apply wp_ret. simpl in *.
  set (n0 := default _ _).
  destruct Hw as [(Hn & Hi & Hx & Hp)|(Hn & -> & (n & Hi) & Hx & Hp)];
    unfold core; split; simpl; rewrite ?Hn, ?Hi, ?Hx; auto.
  - intros i' Hi' Hb. unfold data. simpl. rewrite lookup_insert_ne; [done|]. intros ->.
    destruct (Hb _ Hp) as (id' & c & Heq). by eapply bounce_not_chan.
  - intros id' c. apply lookup_insert_ne, bounce_not_chan.
  - intros p i' [[_ <-]|[_ ?]]%lookup_insert_Some; [right; left; lia|by left].
  - intros i' Hi' Hb. unfold data. simpl. by rewrite !lookup_insert_ne by lia.
Qed.

(** ** Marking a recipient *)

Lemma insert_as_write (d : bytes) pos x :
  pos < length d → take pos d ++ replicate (pos - length d) 0%Z ++ x :: drop (pos + 1) d = <[pos := x]> d.
Proof.
  intros Hp. replace (pos - length d) with 0 by lia. simpl.
  rewrite insert_take_drop by done. by rewrite Nat.add_1_r.
Qed.

Lemma markdone_core c id pos s :
  (∀ i, names (wd s) !! chanfile id c = Some i → pos < length (data (core s) i)) →
  wp (markdone cfg c id pos) (λ _ s', core s' = core s ∨
    ∃ i t a, k_names (core s) !! chanfile id c = Some i ∧ core s' = marked i pos t a (core s)) s.
Proof.
  intros Hpos. unfold markdone, open_write.
  apply wp_bind, wp_sys, wp_open; [intros e f; apply wp_ret; by left|]. intros i f Hi.
  apply wp_neutral_bind; [apply neutral_sys; auto with quiet|]. intros [e|st] s1 Hs1;
    [apply wp_ret; by left|].
  apply wp_neutral_bind; [apply neutral_sys; auto with quiet|]. intros [e|[]] s2 Hs2;
    [apply wp_ret; left; by rewrite Hs2|].
  assert (Hc : core s2 = core s) by (by rewrite Hs2, Hs1). clear s1 Hs1 Hs2.
  apply wp_bind, wp_sys, wp_write_at.
  - intros e f'. apply wp_ret. by left.
  - intros f'. apply wp_ret. right. injection Hc as H1 H2 H3 H4 Hn Hin H5 H6.
    eexists i, _, _. split; [done|]. unfold core, marked, kset_inodes. simpl.
    rewrite insert_as_write; [|rewrite Hin; by apply Hpos]. unfold data. simpl. by rewrite H1, H2, H3, H4, Hn, Hin, H5, H6.
Qed.

(** Marking keeps what is known about the job the record belongs to. *)
Lemma markdone_fine c id j ino open pos h l s :
  jobs_inv (core s) → job_ok (core s) j ino open → id = j_id (k_jo (core s) !!! j) →
  c = j_channel (k_jo (core s) !!! j) →
  rec_at (data (core s) ino) pos (h :: l) → (h = 84 ∨ h = 68)%Z →
  handled (core s) id c (cstr l) →
  wp (markdone cfg c id pos) (λ _ s',
    fine (core s) (core s') ∧ job_ok (core s') j ino open ∧ k_jo (core s') = k_jo (core s) ∧
    k_del (core s') = k_del (core s) ∧ k_trace (core s') = k_trace (core s)) s.
Proof.
  intros Hinv Hok -> -> Hr Hh Hd. eapply wp_mono; [apply markdone_core|].
  - intros i Hi. apply (jk_file _ _ _ _ _ Hok) in Hi as ->. by eapply rec_at_lt.
  - intros _ s' [->|(i & t & a & Hi & ->)].
    { split_and!; try done. by apply fine_refl. }
    pose proof (jk_file _ _ _ _ _ Hok i Hi) as ->.
    split_and!; try done; [split|].
    + eapply marked_inv; eauto.
    + eapply marked_safe; eauto. apply (jk_id _ _ _ _ _ Hok).
    + eapply marked_job_ok; eauto.
Qed.

(** ** The end of a delivery *)

Lemma list_insert_total_id `{Inhabited A} (l : list A) i x : l !!! i = x → <[i := x]> l = l.
Proof.
  intros <-. destruct (decide (i < length l)).
  - apply list_insert_id. by apply list_lookup_lookup_total_lt.
  - apply list_insert_ge. lia.
Qed.
Lemma set_numtodo_same y : set_numtodo (j_numtodo y) y = y.
Proof. by destruct y. Qed.

Lemma del_finish_core c i x n s k :
  let j := d_j x in
  core s = kset_jo (<[j := set_numtodo n (k_jo k !!! j)]> (k_jo k)) k →
  k_del k c !! i = Some x → j < length (k_jo k) →
  wp (del_finish cfg c i) (λ _ s', ∃ gone,
    core s' = finished c i j x n (names_closed cfg j gone k) k ∧
    (gone = true → can_go k j (j_flaghiteof (k_jo k !!! j)) n)) s.
Proof.
  intros j Hs Hx Hj. unfold del_finish. apply wp_bind, wp_getS.
  assert (Hdel : del s c !!! i = x).
  { change (del s c) with (k_del (core s) c). rewrite Hs. simpl. by apply list_lookup_total_correct. }
  assert (Hjo : jo s = <[j := set_numtodo n (k_jo k !!! j)]> (k_jo k)) by (by injection Hs).
  assert (Hj' : j < length (jo s)) by (by rewrite Hjo, length_insert).
  rewrite Hdel. apply wp_bind. eapply wp_mono; [by apply job_close_core|].
  intros _ s' (gone & Hs' & Hgone). apply wp_bind, wp_modify, wp_modify. exists gone.
  unfold job_closed, closed_job in Hs'. rewrite Hs in Hs', Hgone. unfold may_remove in Hgone.
  simpl in Hs', Hgone. rewrite list_lookup_total_insert_eq in Hs', Hgone by done. simpl in Hs', Hgone.
  rewrite list_insert_insert_eq in Hs'. split.
  - injection Hs' as H1 H2 H3 H4 H5 H6 H7 H8.
    unfold core, finished, upd_del, names_closed. simpl. rewrite H1, H2, H3, H4, H5, H6, H7, H8.
    rewrite alter_insert_total by (by eapply lookup_lt_Some).
    by rewrite (list_lookup_total_correct _ _ _ Hx).
  - intros Hg. destruct (Hgone Hg) as (? & ? & ? & _). done.
Qed.

Lemma slot_mpos k c i x :
  jobs_inv k → k_del k c !! i = Some x → d_used x = true → d_mpos x ∈ slot_pos k (d_j x).
Proof.
  intros Hinv Hx Hu.
  destruct (ji_slot _ _ Hinv c x) as [_ Hc]; [by eapply list_elem_of_lookup_2|done|].
  unfold slot_pos. rewrite Hc. apply list_elem_of_omap. exists x.
  split; [by eapply list_elem_of_lookup_2|by apply mine_own].
Qed.

(** [n] is the number of recipients left to do after the delivery. *)
Lemma del_finish_fine c i x n ino open k s :
  let j := d_j x in
  jobs_inv k → k_del k c !! i = Some x → d_used x = true → job_ok k j ino open →
  core s = kset_jo (<[j := set_numtodo n (k_jo k !!! j)]> (k_jo k)) k →
  n = j_numtodo (k_jo k !!! j) ∨
    n = (j_numtodo (k_jo k !!! j) - 1)%Z ∧ handled k (j_id (k_jo k !!! j)) c (d_recip x) →
  wp (del_finish cfg c i) (λ _ s', fine k (core s')) s.
Proof.
  intros j Hinv Hx Hu Hok Hs Hn. destruct (finished_chan cfg k c i x Hinv Hx Hu) as [Hj Hc].
  eapply wp_mono; [by apply (del_finish_core c i x n s k Hs)|]. intros _ s' (gone & -> & Hgone).
  pose proof (slot_mpos _ _ _ _ Hinv Hx Hu) as Hm.
  pose proof (jk_slots _ _ _ _ _ Hok) as Hsl. pose proof (jk_open _ _ _ _ _ Hok) as Ho.
  pose proof (finished_slots cfg k c i x n (names_closed cfg j gone k) Hinv Hx Hu) as Hfs.
  fold j in Hfs, Hm. rewrite Hfs in Hsl. destruct Hn as [->|[-> Hh]].
  - eapply (finished_fine cfg split_pos k c i x _ gone ino open open); try done.
    + etrans; [|exact Hsl]. by apply submseteq_cons.
    + by left.
  - destruct (submseteq_Permutation _ _ Hsl) as [open' Hp]. simpl in Hp.
    set (sp := slot_pos _ j) in Hp.
    eapply (finished_fine cfg split_pos k c i x _ gone ino open (sp ++ open')); try done.
    + rewrite Hp in Ho. simpl in Ho. lia.
    + by apply submseteq_inserts_r.
    + intros pos Hpos. rewrite Hp in Hpos. apply elem_of_cons in Hpos as [->|?]; [by right|by left].
Qed.

(** What a report needs to know about its delivery. *)
Record running (k : coreT) (c : channel) (i : nat) (x : DEL) (ino : nat) (open : list nat) : Prop := {
  ru_inv : jobs_inv k;
  ru_slot : k_del k c !! i = Some x;
  ru_used : d_used x = true;
  ru_job : job_ok k (d_j x) ino open
}.

Lemma running_of k c i x :
  jobs_inv k → k_del k c !! i = Some x → d_used x = true → ∃ ino open, running k c i x ino open.
Proof.
  intros Hinv Hx Hu. destruct (finished_chan cfg k c i x Hinv Hx Hu) as [Hj Hc].
  destruct (ji_job _ _ Hinv (d_j x) Hj) as (ino & open & Hok); [|by exists ino, open].
  rewrite (ji_refs _ _ Hinv) by done. pose proof (slot_mpos _ _ _ _ Hinv Hx Hu) as Hm.
  destruct (slot_pos k (d_j x)); [by apply not_elem_of_nil in Hm|]. simpl.
  destruct (on_pass _ _); lia.
Qed.

Lemma running_harmless k k' c i x ino open :
  running k c i x ino open → harmless k k' → running k' c i x ino open.
Proof.
  intros [] Hh. split; [by eapply harmless_inv|by rewrite (h_del _ _ _ Hh)|done|].
  by eapply harmless_job_ok.
Qed.

Lemma running_started k c i x ino open :
  running k c i x ino open →
  EvStart (d_delid x) (j_id (k_jo k !!! d_j x)) c (d_recip x) ∈ k_trace k ∧
  j_channel (k_jo k !!! d_j x) = c ∧
  ∃ h, (h = 84 ∨ h = 68)%Z ∧ ∃ l, rec_at (data k ino) (d_mpos x) (h :: l) ∧ cstr l = d_recip x.
Proof.
  intros [Hinv Hx Hu Hok]. destruct (finished_chan cfg k c i x Hinv Hx Hu) as [Hj Hc].
  pose proof (jk_slot _ _ _ _ _ Hok x) as Hsl. rewrite Hc in Hsl.
  destruct Hsl as [? ?]; [by eapply list_elem_of_lookup_2|done..|]. done.
Qed.

(** A logged outcome, the mark in the file and the end of the delivery. *)
Lemma outcome_fine c i x ino open s :
  running (core s) c i x ino open →
  (EvSuccess (d_delid x) ∈ trace s ∨ EvFailure (d_delid x) ∈ trace s) →
  wp (markdone cfg c (j_id (jo s !!! d_j x)) (d_mpos x);;
      modify (upd_job (d_j x) (λ y, set_numtodo (j_numtodo y - 1) y)))
    (λ _, wp (del_finish cfg c i) (λ _ s', fine (core s) (core s'))) s.
Proof.
  intros Hru Hev. pose proof (running_started _ _ _ _ _ _ Hru) as (Hst & Hc & h & Hh & l & Hr & Hl).
  destruct Hru as [Hinv Hx Hu Hok].
  assert (Hd : handled (core s) (j_id (jo s !!! d_j x)) c (d_recip x)) by (by exists (d_delid x)).
  apply wp_bind. eapply wp_mono.
  { eapply (markdone_fine c _ (d_j x)); try done. by rewrite Hl. }
  intros _ s1 (Hf & Hok1 & Hjo & Hdel & Htr). apply wp_modify.
  destruct (finished_chan cfg (core s) c i x Hinv Hx Hu) as [Hj _].
  assert (Hjo1 : jo s1 = jo s) by apply Hjo.
  eapply wp_mono.
  - apply (del_finish_fine c i x (j_numtodo (jo s !!! d_j x) - 1) ino open (core s1)); try done.
    + apply Hf.
    + by rewrite Hdel.
    + unfold core, upd_job, kset_jo. simpl. f_equal. rewrite Hjo1. by rewrite alter_insert_total.
    + right. rewrite Hjo. split; [done|]. eapply handled_mono; [|exact Hd]. by rewrite Htr.
  - intros ? s2 Hs2. simpl in Hs2. by eapply fine_trans.
Qed.

Lemma del_result_fine c i x r s :
  jobs_inv (core s) → del s c !! i = Some x → d_used x = true →
  wp (del_result cfg c i r) (λ _ s', fine (core s) (core s')) s.
Proof.
  intros Hinv Hx Hu. destruct (running_of _ _ _ _ Hinv Hx Hu) as (ino & open & Hru).
  unfold del_result. apply wp_bind, wp_getS. cbv zeta.
  rewrite (list_lookup_total_correct _ _ _ Hx). destruct (report_result _ r) as [letter text].
  assert (Hstep : ∀ (m : M unit) s1, harmless (core s) (core s1) →
    wp m (λ _, wp (del_finish cfg c i) (λ _ s', fine (core s1) (core s'))) s1 →
    wp m (λ _, wp (del_finish cfg c i) (λ _ s', fine (core s) (core s'))) s1).
  { intros m s1 Hh Hm. eapply wp_mono; [exact Hm|]. intros ? s2 Hs2.
    eapply wp_mono; [exact Hs2|]. intros ? s3 Hs3. eapply fine_trans; [|exact Hs3].
    by apply harmless_fine. }
  assert (Hlog : ∀ e, harmless (core s) (core (run (log e) s)))
    by (intros e; apply harmless_trace).
  assert (Hplain : ∀ e, wp (log e) (λ _, wp (del_finish cfg c i) (λ _ s', fine (core s) (core s'))) s).
  { intros e. apply Hstep with (s1 := s); [apply harmless_refl|]. apply wp_modify.
    specialize (Hlog e). set (s1 := set_trace _ s). change (run (log e) s) with s1 in Hlog.
    destruct (running_harmless _ _ _ _ _ _ _ Hru Hlog) as [Hinv1 Hx1 _ Hok1].
    eapply wp_mono.
    - apply (del_finish_fine c i x (j_numtodo (jo s !!! d_j x)) ino open (core s1)); try done.
      + rewrite set_numtodo_same. change (k_jo (core s1)) with (jo s).
        by rewrite list_insert_total_id.
      + by left.
    - intros ? s' Hs'. eapply fine_trans; [|exact Hs']. by apply harmless_fine. }
  apply wp_bind. repeat case_decide; [|apply Hplain| |apply Hplain].
  - apply wp_bind, wp_modify. specialize (Hlog (EvSuccess (d_delid x))).
    apply Hstep; [done|]. set (s1 := set_trace _ s). change (run _ s) with s1 in Hlog.
    apply (outcome_fine c i x ino open s1); [|left; by left].
    by eapply running_harmless.
  - apply wp_bind, wp_modify. specialize (Hlog (EvFailure (d_delid x))).
    apply wp_bind. set (s1 := set_trace _ s). change (run _ s) with s1 in Hlog.
    eapply wp_mono; [apply addbounce_harmless|].
    { intros p i' Hi'. by apply (ji_next _ _ Hinv p). }
    intros ? s2 Hs2. pose proof (harmless_trans _ _ _ _ Hlog Hs2) as Hs2'.
    apply Hstep; [done|].
    assert (Hjo : jo s2 = jo s) by apply (h_jo _ _ _ Hs2').
    rewrite <- Hjo. apply (outcome_fine c i x ino open); [by eapply running_harmless|].
    right. apply (h_trace _ _ _ Hs2). by left.
Qed.

Lemma del_byte_fine c ch s :
  jobs_inv (core s) → wp (del_byte cfg c ch) (λ _ s', fine (core s) (core s')) s.
Proof.
  intros Hinv. unfold del_byte. apply wp_bind, wp_modify, wp_bind, wp_getS. cbv zeta.
  set (s1 := set_dline _ s). change (core s) with (core s1) in *. clearbody s1.
  destruct (_ && _); [|by apply fine_refl]. apply wp_bind. eapply wp_mono.
  2:{ intros ? s' Hs'. apply wp_modify. exact Hs'. }
  assert (Hlog : ∀ e, wp (log e) (λ _ s', fine (core s1) (core s')) s1).
  { intros e. apply harmless_fine; [done|apply harmless_trace]. }
  case_decide; [apply Hlog|]. destruct (del s1 c !! _) as [x|] eqn:Hx; [|by apply fine_refl].
  destruct (d_used x) eqn:Hu; [|apply Hlog]. by eapply del_result_fine.
Qed.

Lemma del_dochan_fine c r s :
  jobs_inv (core s) → wp (del_dochan cfg c r) (λ _ s', fine (core s) (core s')) s.
Proof.
  intros Hinv. destruct r as [l|]; [|by apply fine_refl]. unfold del_dochan.
  assert (H : ∀ l k s, fine k (core s) → wp (del_bytes cfg c l) (λ _ s', fine k (core s')) s).
  { clear -split_pos LL. intros l. induction l as [|ch l IH]; intros k s Hk; simpl; [by apply wp_ret|].
    apply wp_fine_bind; [done|apply del_byte_fine|]. intros _ s'. apply IH. }
  destruct l; [|by apply H, fine_refl].
  apply wp_neutral_fine; [apply neutral_spawndied|by apply fine_refl].
Qed.
End SendHandlers.
