(* ===== verification/SendPassInv.v ===== *)
(** * Passes and finished messages keep the invariant and lose no recipient *)

From S2P Require Import Prelude LibQmail Prioq Filesys Records Fmtqfn SendState SendQueue.
From S2P Require Import SendDeliver SendBounce SendPass SendInv SendSafety SendSteps.
From S2P Require Import SendEffects SendHandlers.

Section SendPassInv.
Context {L : LibQmail} {LL : LibQmailLaws L} (cfg : config) (bc : bounce_config).
Context (delivery_rate : qsend → channel → bytes → Z → Z * Z * bool).
Hypothesis split_pos : (0 < split_of (conf_split cfg) (auto_split cfg) < 2 ^ 31)%Z.
Abbreviation chanfile := (fnmake_chanaddr cfg).
Abbreviation bouncefile := (fnmake_bounce cfg).
Abbreviation jobs_inv := (jobs_inv cfg).
Abbreviation job_ok := (job_ok cfg).
Abbreviation harmless := (harmless cfg).
Abbreviation fine := (fine cfg).

(** ** Leaving a channel file *)

Lemma set_retry_hiteof_same y : set_retry (j_retry y) (set_hiteof (j_flaghiteof y) y) = y.
Proof. by destruct y. Qed.

Lemma pass_leave_core c h r s k :
  let j := p_j (k_pass k c) in
  core s = kset_jo (<[j := set_retry r (set_hiteof h (k_jo k !!! j))]> (k_jo k)) k →
  j < length (k_jo k) →
  wp (pass_leave cfg c) (λ _ s', ∃ gone,
    core s' = left_pass c h r (names_closed cfg j gone k) k ∧
    (gone = true → can_go k j h (j_numtodo (k_jo k !!! j)))) s.
Proof.
  intros j Hs Hj. unfold pass_leave. apply wp_bind, wp_getS.
  assert (Hpass : pass s c = k_pass k c).
  { change (pass s c) with (k_pass (core s) c). by rewrite Hs. }
  assert (Hjo : jo s = <[j := set_retry r (set_hiteof h (k_jo k !!! j))]> (k_jo k)) by (by injection Hs).
  assert (Hj' : j < length (jo s)) by (by rewrite Hjo, length_insert).
  rewrite Hpass. apply wp_bind. eapply wp_mono; [by apply job_close_core|].
  intros _ s' (gone & Hs' & Hgone). apply wp_modify. exists gone.
  fold j in Hs', Hgone.
  unfold job_closed, closed_job in Hs'. rewrite Hs in Hs', Hgone. unfold may_remove in Hgone.
  simpl in Hs', Hgone. rewrite list_lookup_total_insert_eq in Hs', Hgone by done. simpl in Hs', Hgone.
  rewrite list_insert_insert_eq in Hs'. split.
  - injection Hs' as H1 H2 H3 H4 H5 H6 H7 H8.
    unfold core, left_pass, names_closed. simpl. by rewrite H1, H2, H3, H4, H5, H6, H7, H8.
  - intros Hg. destruct (Hgone Hg) as (? & ? & ? & _). done.
Qed.

(** [h] and [r]: what became of [flaghiteof] and [retry] before. *)
Lemma pass_leave_fine c h r k s :
  let j := p_j (k_pass k c) in
  jobs_inv k → p_id (k_pass k c) ≠ 0%Z →
  core s = kset_jo (<[j := set_retry r (set_hiteof h (k_jo k !!! j))]> (k_jo k)) k →
  (h = true → ∃ l, line_at (drop (p_mpos (k_pass k c)) (data k (p_fd (k_pass k c)))) = (l, false)) →
  wp (pass_leave cfg c) (λ _ s', fine k (core s')) s.
Proof.
  intros j Hinv Hact Hs Heof. destruct (left_chan cfg k c Hinv Hact) as [Hj _].
  eapply wp_mono; [by apply (pass_leave_core c h r s k Hs)|].
  intros _ s' (gone & -> & Hgone). by apply left_fine.
Qed.

Lemma pass_leave_plain c s :
  jobs_inv (core s) → p_id (pass s c) ≠ 0%Z →
  wp (pass_leave cfg c) (λ _ s', fine (core s) (core s')) s.
Proof.
  intros Hinv Hact.
  eapply (pass_leave_fine c (j_flaghiteof (jo s !!! p_j (pass s c))) _ (core s)); [done..| |].
  - rewrite set_retry_hiteof_same. change (k_jo (core s)) with (jo s).
    by rewrite list_insert_total_id.
  - intros Hh. destruct (left_chan cfg (core s) c Hinv Hact) as [Hj Hc].
    pose proof (left_on cfg (core s) c Hinv Hact) as Hon.
    destruct (ji_job _ _ Hinv _ Hj) as (ino & open & Hok).
    { rewrite (ji_refs _ _ Hinv), Hon by done. lia. }
    destruct (jk_pass _ _ _ _ _ Hok Hon) as (_ & Hf & _). simpl in Hf. congruence.
Qed.

(** ** Starting a delivery *)

Lemma find_slot_free n i d k : find_slot n i d = SFree k → ∃ x, d !! k = Some x ∧ d_used x = false.
Proof.
  revert i. induction n as [|n IH]; intros i; simpl; [done|].
  destruct (d !! i) as [x|] eqn:E; [|done]. destruct (d_used x) eqn:Hu; [apply IH|].
  intros [= <-]. by exists x.
Qed.

Lemma del_start_core j mpos recip s :
  let c := j_channel (jo s !!! j) in
  j < length (jo s) →
  wp (del_start cfg j mpos recip) (λ _ s', core s' = core s ∨
    ∃ i old d, del s c !! i = Some old ∧ d_used old = false ∧
      d = Del true j (d_delid d) mpos recip ∧
      core s' = started c i j d (EvStart (d_delid d) (j_id (jo s !!! j)) c recip) (core s)) s.
Proof.
  intros c Hj. unfold del_start. apply wp_bind, wp_getS. fold c. cbv zeta.
  destruct (_ || _); [by left|]. destruct (find_slot _ _ _) as [i| |] eqn:Hslot; [|by left..].
  apply find_slot_free in Hslot as (old & Hold & Hfree).
  apply wp_neutral_bind; [apply neutral_sys; auto with quiet|]. intros [] s1 Hs1; [by left|].
  injection Hs1 as H1 H2 H3 H4 H5 H6 H7 H8.
  apply wp_bind, wp_modify, wp_bind, wp_modify, wp_bind, wp_modify, wp_bind, wp_modify, wp_bind, wp_getS.
  cbv zeta. apply wp_neutral_bind; [apply neutral_comm_write|]. intros _ s2 Hs2. apply wp_modify. cbv beta zeta.
  right. exists i, old, (Del true j (masterdelid s1) mpos recip). split_and!; [done..|].
  simpl. unfold upd_job in Hs2. simpl in Hs2. injection Hs2 as G1 G2 G3 G4 G5 G6 G7 G8.
  unfold core, started. simpl. rewrite G1, G2, G3, G4, G5, G6, G7, G8, H1, H2, H3, H4, H5, H6, H7, H8.
  rewrite upd_eq, alter_insert_total, list_lookup_total_insert_eq by done. simpl.
  rewrite alter_insert_total by (by eapply lookup_lt_Some).
  rewrite list_lookup_total_insert_eq by (by eapply lookup_lt_Some). done.
Qed.

(** ** The records of a channel file *)

Definition advance (c : channel) (len : nat) : M unit :=
  modify (λ s, let p := pass s c in
    set_pass (upd (pass s) c (Pass (p_id p) (p_j p) (p_fd p) (p_mpos p + len))) s).

Lemma wp_getln fd pos (Q : option (bytes * bool) → qsend → Prop) s :
  (∀ s', core s' = core s → Q None s') →
  (∀ s', core s' = core s → Q (Some (line_at (drop pos (data (core s) fd)))) s') →
  wp (sys (getln fd pos)) Q s.
Proof.
  intros H1 H2. apply wp_sys. unfold getln. apply wp_bind, wp_fault. intros [] f.
  - apply wp_ret. by apply H1.
  - apply wp_bind. unfold read_inode. apply wp_bind, wp_getS, wp_ret, wp_ret. by apply H2.
Qed.

Section record.
Context (c : channel) (k : coreT).
Let p := k_pass k c.
Let j := p_j p.
Hypothesis Hinv : jobs_inv k.
Hypothesis Hact : p_id p ≠ 0%Z.

Lemma pass_job : ∃ ino open, job_ok k j ino open ∧ p_fd p = ino.
Proof.
  destruct (left_chan cfg k c Hinv Hact) as [Hj Hc]. pose proof (left_on cfg k c Hinv Hact) as Hon.
  fold p j in Hj, Hc, Hon.
  destruct (ji_job _ _ Hinv j Hj) as (ino & open & Hok).
  { rewrite (ji_refs _ _ Hinv), Hon by done. lia. }
  exists ino, open. split; [done|]. destruct (jk_pass _ _ _ _ _ Hok Hon) as (Hfd & _).
  by rewrite Hc in Hfd.
Qed.

(** A record that is not to be delivered. *)
Lemma advance_done line s :
  core s = k → line_at (drop (p_mpos p) (data k (p_fd p))) = (line, true) →
  head line ≠ Some 84%Z → wp (advance c (length line)) (λ _ s', fine k (core s')) s.
Proof.
  intros Hs Hl Hh. apply wp_modify. cbv beta zeta. destruct pass_job as (ino & open & Hok & Hfd).
  assert (core (set_pass (upd (pass s) c (Pass (p_id (pass s c)) (p_j (pass s c)) (p_fd (pass s c))
    (p_mpos (pass s c) + length line))) s) = advanced c (j_numtodo (k_jo k !!! j)) (length line) k) as ->.
  { assert (Hp : pass s c = p) by (unfold p; by rewrite <- Hs).
    rewrite Hp. unfold advanced. fold p j.
    rewrite set_numtodo_same, list_insert_total_id by done. by rewrite <- Hs. }
  split; [|by apply same_files_safe].
  eapply advanced_inv; [done..| |apply (jk_open _ _ _ _ _ Hok)].
  exists ino, open. split; [done|]. by left.
Qed.

(** A recipient: one more to do, a delivery if one can be started. *)
Lemma advance_recipient line recip s :
  core s = k → line_at (drop (p_mpos p) (data k (p_fd p))) = (line, true) →
  (∃ l, line = 84%Z :: l ∧ cstr l = recip) →
  wp (modify (upd_job j (λ x, set_numtodo (j_numtodo x + 1) x)))
    (λ _, wp (del_start cfg j (p_mpos p) recip)
      (λ _, wp (advance c (length line)) (λ _ s', fine k (core s')))) s.
Proof.
  intros Hs Hl Hh. destruct pass_job as (ino & open & Hok & Hfd).
  destruct (left_chan cfg k c Hinv Hact) as [Hj Hc]. fold p j in Hj, Hc.
  pose proof (left_on cfg k c Hinv Hact) as Hon. fold p j in Hon.
  set (n := (j_numtodo (k_jo k !!! j) + 1)%Z).
  set (k1 := kset_jo (<[j := set_numtodo n (k_jo k !!! j)]> (k_jo k)) k).
  assert (Hopen' : Z.of_nat (length (p_mpos p :: open)) = n).
  { pose proof (jk_open _ _ _ _ _ Hok). simpl. unfold n. lia. }
  assert (Hadv : jobs_inv (advanced c n (length line) k)).
  { eapply advanced_inv; [done..| |exact Hopen']. exists ino, open. split; [done|by right]. }
  assert (Hjob : job_ok (advanced c n (length line) k) j ino (p_mpos p :: open)).
  { eapply advanced_job; try done. by right. }
  apply wp_modify. set (s1 := upd_job j _ s).
  assert (Hs1 : core s1 = k1).
  { unfold s1, k1, core, upd_job, kset_jo. rewrite <- Hs. simpl. f_equal.
    rewrite <- Hs in Hj. rewrite alter_insert_total by done. unfold n. by rewrite <- Hs. }
  assert (Hjo1 : jo s1 = k_jo k1) by (by rewrite <- Hs1).
  assert (Hlen : j < length (jo s1)) by (rewrite Hjo1; unfold k1; simpl; by rewrite length_insert).
  eapply wp_mono; [by apply del_start_core|].
  assert (Hx : jo s1 !!! j = set_numtodo n (k_jo k !!! j)).
  { rewrite Hjo1. unfold k1. simpl. by rewrite list_lookup_total_insert_eq. }
  rewrite Hx. simpl. rewrite Hc. intros _ s2 Hs2. apply wp_modify. cbv beta zeta.
  set (s3 := set_pass _ s2).
  assert (Hs3 : core s3 = kset_pass (upd (k_pass (core s2)) c (Pass (p_id (k_pass (core s2) c))
    (p_j (k_pass (core s2) c)) (p_fd (k_pass (core s2) c)) (p_mpos (k_pass (core s2) c) + length line)))
    (core s2)) by done.
  clearbody s3. rewrite Hs3. clear s3 Hs3.
  destruct Hs2 as [Hs2|(i & old & d & Hold & Hfree & Hd & Hs2)]; rewrite Hs2, Hs1; clear Hs2.
  - split; [exact Hadv|by apply same_files_safe].
  - assert (Hold' : k_del k c !! i = Some old).
    { assert (Hdel : del s = k_del k) by (by rewrite <- Hs). by rewrite Hdel in Hold. }
    set (k2 := advanced c n (length line) k) in *.
    assert (Hk2jo : k_jo k2 !!! j = set_numtodo n (k_jo k !!! j)).
    { unfold k2, advanced. simpl. fold p j. by rewrite list_lookup_total_insert_eq. }
    assert (Hk2c : j_channel (k_jo k2 !!! j) = c) by (by rewrite Hk2jo).
    split; [|by apply same_files_safe; [..|intros e He; right]].
    assert (started c i j d (EvStart (d_delid d) (j_id (k_jo k2 !!! j)) c recip) k2 =
      started (j_channel (k_jo k2 !!! j)) i j d
        (EvStart (d_delid d) (j_id (k_jo k2 !!! j)) (j_channel (k_jo k2 !!! j)) (d_recip d)) k2) as Heq.
    { rewrite Hk2c. by rewrite Hd. }
    match goal with |- SendSafety.jobs_inv _ ?x => replace x with
      (started c i j d (EvStart (d_delid d) (j_id (k_jo k2 !!! j)) c recip) k2) end.
    2:{ by rewrite Hk2jo. }
    rewrite Heq. destruct Hh as (l & -> & Hcs). rewrite Hd.
    eapply (started_inv cfg k2 i j old _ ino open); rewrite ?Hk2c; auto.
    + unfold k2, advanced. simpl. by rewrite length_insert.
    + assert (slot_pos k2 j = slot_pos k j) as ->; [|by apply (jk_slots _ _ _ _ _ Hok)].
      apply slot_pos_ext; [by rewrite Hk2jo|done].
    + exists 84%Z. split; [by left|]. exists l. split; [|done].
      change (data k2 ino) with (data k ino). rewrite <- Hfd. split; [|done].
      destruct (jk_pass _ _ _ _ _ Hok Hon) as (Hfd' & _ & Hb). rewrite Hc in Hb. by rewrite Hfd.
Qed.
End record.

Lemma pass_recipient_fine c pe_id line k s :
  core s = k → jobs_inv k → p_id (k_pass k c) ≠ 0%Z →
  line_at (drop (p_mpos (k_pass k c)) (data k (p_fd (k_pass k c)))) = (line, true) →
  head line = Some 84%Z →
  wp (pass_recipient cfg delivery_rate c pe_id (cstr (tail line)))
    (λ go : bool, wp (when go (advance c (length line))) (λ _ s', fine k (core s'))) s.
Proof.
  intros Hs Hinv Hact Hl Hh. unfold pass_recipient. apply wp_bind, wp_getS. cbv zeta.
  assert (Hp : pass s c = k_pass k c) by (by rewrite <- Hs).
  rewrite Hp. destruct (delivery_rate _ _ _ _) as [[i t] limited]. case_decide as Hi.
  - apply wp_bind, wp_modify. apply wp_bind, wp_modify. cbv beta.
    set (s1 := upd_job _ _ _).
    assert (Hj : p_j (k_pass k c) < length (jo s)).
    { rewrite <- Hs in *. by apply (left_chan cfg (core s) c Hinv Hact). }
    apply wp_bind. eapply wp_mono.
    + eapply (pass_leave_fine c (j_flaghiteof (k_jo k !!! p_j (k_pass k c))) _ k); [done..| |].
      * unfold s1, upd_job, core, kset_jo. simpl. rewrite <- Hs. simpl.
        rewrite <- Hs in Hj. rewrite alter_insert_total by done.
        match goal with |- context [set_retry ?r (jo s !!! _)] => instantiate (1 := r) end.
        f_equal; f_equal; by destruct (jo s !!! _).
      * intros Hhe. destruct (pass_job c k Hinv Hact) as (ino & open & Hok & _).
        pose proof (left_on cfg k c Hinv Hact) as Hon.
        destruct (jk_pass _ _ _ _ _ Hok Hon) as (_ & Hf & _). congruence.
    + intros ? s2 Hs2. apply wp_bind, wp_modify, wp_ret, wp_ret. exact Hs2.
  - apply wp_neutral_bind; [solve_neutral|]. intros _ s1 Hs1.
    assert (Hk : core s1 = k) by (by rewrite Hs1).
    destruct line as [|h l]; [done|]. injection Hh as ->.
    apply wp_bind. eapply wp_mono.
    { apply (advance_recipient c k Hinv Hact _ (cstr l) s1 Hk Hl). by exists l. }
    intros ? s2 Hs2. apply wp_bind. eapply wp_mono; [exact Hs2|].
    intros ? s3 Hs3. apply wp_ret. exact Hs3.
Qed.

Lemma pass_record_fine c pe_id s :
  jobs_inv (core s) → p_id (pass s c) ≠ 0%Z →
  wp (pass_record cfg delivery_rate c pe_id) (λ _ s', fine (core s) (core s')) s.
Proof.
  intros Hinv Hact. unfold pass_record. apply wp_bind, wp_getS. cbv zeta.
  assert (Hplain : ∀ s', core s' = core s →
    wp (pass_leave cfg c) (λ _ s', fine (core s) (core s')) s').
  { intros s' Hs'. rewrite <- Hs'. apply pass_leave_plain; [by rewrite Hs'|].
    change (pass s') with (k_pass (core s')). by rewrite Hs'. }
  apply wp_bind, wp_getln; intros s1 Hs1; [by apply Hplain|].
  destruct (line_at _) as [line m] eqn:Hl. destruct m.
  - apply wp_bind. destruct (head line) as [h|] eqn:Hh.
    2:{ apply wp_bind. eapply wp_mono; [by apply Hplain|]. intros ? s2 Hs2. by apply wp_ret. }
    destruct (decide (h = 84%Z)) as [->|H84].
    { by apply pass_recipient_fine. }
    destruct (decide (h = 68%Z)) as [->|H68].
    { apply wp_ret. simpl. eapply (advance_done c (core s)); try done. by rewrite Hh. }
    assert (Hother : wp (pass_leave cfg c;; mret false)
      (λ go : bool, wp (when go (advance c (length line))) (λ _ s', fine (core s) (core s'))) s1).
    { apply wp_bind. eapply wp_mono; [by apply Hplain|]. intros ? s2 Hs2. by apply wp_ret. }
    destruct h as [|h|h]; try exact Hother. repeat (destruct h as [h|h|]; try exact Hother; try done).
  - apply wp_bind, wp_modify.
    destruct (left_chan cfg (core s) c Hinv Hact) as [Hj Hc].
    eapply (pass_leave_fine c true (j_retry (jo s !!! p_j (pass s c))) (core s)); try done.
    + unfold core, upd_job, kset_jo. injection Hs1 as H1 H2 H3 H4 H5 H6 H7 H8. simpl.
      rewrite H1, H2, H3, H4, H5, H6, H7, H8. simpl in Hj.
      rewrite alter_insert_total by done. f_equal; f_equal; by destruct (jo s !!! _).
    + intros _. by exists line.
Qed.

(** ** Beginning a pass *)

Lemma idle_pass k c p :
  jobs_inv k → p_id (k_pass k c) = 0%Z → p_id p = 0%Z → fine k (kset_pass (upd (k_pass k) c p) k).
Proof.
  intros Hinv H0 Hp. split; [|by apply same_files_safe]. set (k' := kset_pass _ k).
  assert (Hpass : ∀ c', p_id (k_pass k c') ≠ 0%Z ∨ p_id (k_pass k' c') ≠ 0%Z →
    k_pass k' c' = k_pass k c').
  { intros c' Hc'. unfold k' in *. simpl in *.
    destruct (upd_cases (k_pass k) c c' p) as [[-> Hu]|[_ Hu]]; rewrite Hu in *; naive_solver. }
  assert (Hon : ∀ j, on_pass k' j = on_pass k j).
  { intros j. unfold on_pass. change (k_jo k') with (k_jo k). set (c' := j_channel _).
    destruct (decide (p_id (k_pass k c') = 0%Z)) as [Hz|Hz]; [|by rewrite Hpass by auto].
    destruct (decide (p_id (k_pass k' c') = 0%Z)) as [Hz'|Hz']; [|by rewrite Hpass by auto].
    by rewrite Hz, Hz'. }
  assert (Hon' : ∀ j, on_pass k j = true →
    k_pass k' (j_channel (k_jo k !!! j)) = k_pass k (j_channel (k_jo k !!! j))).
  { intros j Ho. apply Hpass. left. unfold on_pass in Ho.
    by apply andb_true_iff in Ho as [Ho%bool_decide_eq_true _]. }
  destruct Hinv. split; auto.
  - intros c' Hc'. rewrite Hpass by auto. apply ji_pass. by rewrite <- Hpass by auto.
  - intros j Hj. rewrite Hon. by apply ji_refs.
  - intros j Hj Hr. destruct (ji_job j Hj Hr) as (ino & open & []). exists ino, open.
    split; auto.
    + intros pos l Hr' Hp'. apply jk_scanned; [done|]. unfold scanned in *. rewrite Hon in Hp'.
      destruct (on_pass k j) eqn:Ho; [|done]. by rewrite <- Hon'.
    + intros Ho. rewrite Hon in Ho. change (k_jo k') with (k_jo k). rewrite Hon' by done. auto.
Qed.

Lemma job_avail_free s j : job_avail s = Some j → j < length (jo s) ∧ j_refs (jo s !!! j) = 0%Z.
Proof.
  unfold job_avail. intros ([j' x] & Hf & ->)%fmap_Some. apply list_find_Some in Hf as (Hx & Hr & _).
  simpl. split; [by eapply lookup_lt_Some|]. by rewrite (list_lookup_total_correct _ _ _ Hx).
Qed.

Lemma job_start_fine c pe j fd i k s :
  core s = k → jobs_inv k → j < length (k_jo k) → j_refs (k_jo k !!! j) = 0%Z →
  p_id (k_pass k c) = 0%Z → good_id (pid pe) → k_names k !! chanfile (pid pe) c = Some fd →
  wp (job_start cfg c pe j fd i) (λ _ s', fine k (core s') ∧ p_id (pass s' c) ≠ 0%Z) s.
Proof.
  intros Hs Hinv Hj Hr Hp Hid Hfd. unfold job_start. apply wp_bind, wp_getS.
  unfold set_pass_of, job_open. apply wp_bind, wp_modify, wp_bind, wp_modify. cbv zeta.
  apply wp_modify. set (y := Job (pid pe) 1 c 0 false (bool_decide (in_birth i + (if decide (in_sender i = [])
    then bouncelifetime cfg else lifetime cfg) < recent s)%Z)
    (nextretry (recent s) (in_birth i) c) (in_sender i) (in_qqeh i) (in_envh i)).
  set (s' := upd_job j _ _). assert (Hs' : core s' = begun c j fd y k).
  { unfold s', begun, core, upd_job. rewrite <- Hs in *. simpl in *.
    rewrite !alter_insert_total by (by rewrite ?length_alter).
    rewrite list_lookup_total_insert_eq, list_insert_insert_eq by done. done. }
  rewrite Hs'. split; [split|].
  - apply begun_inv; try done.
  - by apply same_files_safe.
  - change (pass s') with (k_pass (core s')). rewrite Hs'. simpl. rewrite upd_eq. apply Hid.
Qed.

Lemma pass_begin_fine c s :
  jobs_inv (core s) →
  (∀ pe, prioq_get (pqchan s c) = Some pe → ulong (pid pe)) →
  wp (pass_begin cfg c) (λ r s', fine (core s) (core s') ∧
    (r ≠ None → p_id (pass s' c) ≠ 0%Z)) s.
Proof.
  intros Hinv Hids. unfold pass_begin. apply wp_bind, wp_getS.
  case_decide as Hp; [split; [by apply fine_refl|done]|].
  assert (H0 : p_id (pass s c) = 0%Z) by lia.
  destruct (job_avail s) as [j|] eqn:Hj; [|split; [by apply fine_refl|done]].
  apply job_avail_free in Hj as [Hj Hr].
  destruct (prioq_get _) as [pe|]; [|split; [by apply fine_refl|done]].
  specialize (Hids pe eq_refl). case_decide; [split; [by apply fine_refl|done]|].
  apply wp_neutral_bind; [apply neutral_del_chan|]. intros _ s1 Hs1.
  apply wp_bind, wp_modify. cbv beta zeta. set (s2 := set_pass _ s1).
  assert (Hs2 : core s2 = kset_pass (upd (k_pass (core s)) c
    (Pass 0 (p_j (pass s c)) (p_fd (pass s c)) 0)) (core s)).
  { unfold s2. injection Hs1 as H1 H2 H3 H4 H5 H6 H7 H8. unfold core, kset_pass. simpl.
    by rewrite H1, H2, H3, H4, H5, H6, H7, H8. }
  clearbody s2. assert (Hf2 : fine (core s) (core s2)) by (rewrite Hs2; by apply idle_pass).
  assert (Htr : ∀ s', core s' = core s2 →
    wp (pass_trouble c pe;; mret None) (λ (r : option Z) s', fine (core s) (core s') ∧
      (r ≠ None → p_id (pass s' c) ≠ 0%Z)) s').
  { intros s' Hs'. apply wp_neutral_bind; [unfold pass_trouble; solve_neutral|].
    intros _ s3 Hs3. apply wp_ret. split; [by rewrite Hs3, Hs'|done]. }
  apply wp_bind, wp_sys, wp_open; [intros e f; by apply Htr|]. intros fd f Hfd.
  apply wp_neutral_bind; [apply neutral_getinfo|]. intros [i|] s3 Hs3; [|by apply Htr].
  assert (Hs3' : core s3 = core s2) by exact Hs3.
  apply wp_bind. eapply wp_mono.
  - assert (Hid : good_id (pid pe)).
    { split; [done|]. intros Hz. pose proof (ji_zero _ _ (proj1 Hf2) c) as Hno.
      change (k_names (core s2) !! chanfile (pid pe) c = Some fd) in Hfd. by rewrite Hz, Hno in Hfd. }
    eapply (job_start_fine c pe j fd i (core s2)); [done|apply Hf2|..|done|].
    + by rewrite Hs2.
    + by rewrite Hs2.
    + rewrite Hs2. simpl. by rewrite upd_eq.
    + exact Hfd.
  - intros ? s4 [Hs4 Hp4]. apply wp_ret. split; [by eapply fine_trans|done].
Qed.

Lemma pass_dochan_fine c s :
  jobs_inv (core s) →
  (∀ pe, prioq_get (pqchan s c) = Some pe → ulong (pid pe)) →
  wp (pass_dochan cfg delivery_rate c) (λ _ s', fine (core s) (core s')) s.
Proof.
  intros Hinv Hids. unfold pass_dochan. apply wp_bind, wp_getS.
  destruct (flagexitsend s); [by apply fine_refl|]. apply wp_bind.
  eapply wp_mono; [by apply pass_begin_fine|]. intros [pe_id|] s1 [Hs1 Hp1]; [|done].
  apply wp_bind, wp_getS, wp_when; intros _; [|done].
  apply wp_fine; [done|]. intros Hinv1. apply pass_record_fine; [done|]. by apply Hp1.
Qed.

(** ** Finished messages *)

Lemma harmless_unlink p k :
  (∀ id c, p ≠ chanfile id c) → harmless k (kset_names (delete p (k_names k)) k).
Proof.
  intros Hp. split; auto.
  - intros id c. apply lookup_delete_ne, Hp.
  - intros q i. simpl. intros [_ ?]%lookup_delete_Some. by left.
Qed.

Lemma harmless_log k e s : harmless k (core s) → wp (log e) (λ _ s', harmless k (core s')) s.
Proof. intros H. eapply harmless_trans; [exact H|]. apply harmless_trace. Qed.

Lemma remove_bounce_harmless k id s :
  harmless k (core s) → wp (remove_bounce cfg id) (λ _ s', harmless k (core s')) s.
Proof.
  intros H. unfold remove_bounce. apply wp_bind, wp_sys, wp_unlink.
  - intros e f. by apply wp_ret.
  - intros i f Hi. apply wp_ret. eapply harmless_trans; [exact H|].
    apply (harmless_unlink (bouncefile id)). intros. apply bounce_not_chan.
Qed.

Lemma harmless_neutral {A} (m : M A) k s :
  neutral m → harmless k (core s) → wp m (λ _ s', harmless k (core s')) s.
Proof. intros Hm H. apply wp_neutral; [done|]. by intros s' ->. Qed.

Lemma harmless_neutral_bind {A B} (m : M A) (f : A → M B) k s :
  neutral m → harmless k (core s) →
  (∀ a s', harmless k (core s') → wp (f a) (λ _ s', harmless k (core s')) s') →
  wp (m ≫= f) (λ _ s', harmless k (core s')) s.
Proof. intros Hm H Hf. apply wp_neutral_bind; [done|]. intros a s' Hs'. apply Hf. by rewrite Hs'. Qed.

Lemma quiet_read_file p : quiet (read_file p).
Proof. unfold read_file. eauto 10 with quiet. Qed.

Lemma submit_bounce_harmless k be id birth sender0 sender fail s :
  harmless k (core s) →
  wp (submit_bounce cfg bc be id birth sender0 sender fail) (λ _ s', harmless k (core s')) s.
Proof.
  intros H. unfold submit_bounce. destruct (bounce_envelope _ _ _) as [from to]. cbv zeta.
  apply harmless_neutral_bind; [solve_neutral|done|]. intros s0 s1 H1.
  apply harmless_neutral_bind; [apply neutral_sys, quiet_read_file|done|]. intros notes s2 H2.
  apply harmless_neutral_bind; [destruct notes as [[]|]; solve_neutral|done|]. intros _ s3 H3.
  apply harmless_neutral_bind; [apply neutral_sys, quiet_read_file|done|]. intros mess s4 H4.
  case_decide.
  - apply wp_bind. eapply wp_mono; [by apply remove_bounce_harmless|]. intros [] s5 H5.
    + apply wp_bind. eapply wp_mono; [by apply harmless_log|]. intros ? s6 H6. by apply wp_ret.
    + apply wp_bind, wp_when; [done|]. intros _. by apply wp_ret.
  - match goal with |- wp (if ?b then _ else _) _ _ => destruct b end; [by apply wp_ret|].
    apply harmless_neutral_bind; [solve_neutral|done|].
    intros _ s5 H5. apply wp_bind. eapply wp_mono; [by apply harmless_log|].
    intros ? s6 H6. by apply remove_bounce_harmless.
Qed.

Lemma injectbounce_harmless k be id s :
  harmless k (core s) → wp (injectbounce cfg bc be id) (λ _ s', harmless k (core s')) s.
Proof.
  intros H. unfold injectbounce. apply harmless_neutral_bind; [apply neutral_getinfo|done|].
  intros [i|] s1 H1; [|by apply wp_ret]. cbv zeta.
  apply harmless_neutral_bind; [apply neutral_sys; auto with quiet|done|]. intros r s2 H2.
  assert (Hlog : ∀ e, wp (log e;; remove_bounce cfg id) (λ _ s', harmless k (core s')) s2).
  { intros e. apply wp_bind. eapply wp_mono; [by apply harmless_log|].
    intros ? s3 H3. by apply remove_bounce_harmless. }
  destruct r as [[]|st]; [by apply wp_ret..|].
  case_decide; [apply Hlog|]. case_decide; [apply Hlog|].
  destruct (_ || _); [by apply wp_ret|].
  apply harmless_neutral_bind; [|done|].
  { apply neutral_when, neutral_reread. }
  intros _ s5 Hs5. destruct (be_open be); [by apply wp_ret|].
  destruct (bounce_srs _ _ _) as [sender' fail]. by apply submit_bounce_harmless.
Qed.

Lemma neutral_no_channel_file id cs : neutral (no_channel_file cfg id cs).
Proof. induction cs as [|c cs IH]; simpl; solve_neutral. Qed.
Lemma neutral_message_done id : neutral (message_done cfg id).
Proof.
  unfold message_done. apply neutral_bind; [apply neutral_no_channel_file|]. solve_neutral.
Qed.
Lemma neutral_messdone_fail id : neutral (messdone_fail cfg id).
Proof. unfold messdone_fail. solve_neutral. Qed.
Lemma neutral_ask_clean id : neutral (ask_clean cfg id).
Proof. unfold ask_clean, cleandied, exit_todo. solve_neutral. Qed.

Lemma messdone_harmless k be id s :
  harmless k (core s) → wp (messdone cfg bc be id) (λ _ s', harmless k (core s')) s.
Proof.
  intros H. unfold messdone. apply harmless_neutral_bind; [apply neutral_message_done|done|].
  intros [[]|] s1 H1; [|by apply harmless_neutral; [apply neutral_messdone_fail|]|by apply wp_ret].
  apply wp_bind. eapply wp_mono; [by apply injectbounce_harmless|]. intros [] s2 H2.
  2:{ by apply harmless_neutral; [apply neutral_messdone_fail|]. }
  apply wp_bind. eapply wp_mono; [by apply harmless_log|]. intros ? s3 H3.
  apply wp_bind, wp_sys, wp_unlink.
  - intros e f. by apply harmless_neutral; [apply neutral_messdone_fail|].
  - intros i f Hi. apply harmless_neutral; [apply neutral_ask_clean|].
    eapply harmless_trans; [exact H3|].
    apply (harmless_unlink (fnmake_info cfg id)). intros. apply info_not_chan.
Qed.
End SendPassInv.
