(* ===== verification/SendReach.v ===== *)
(** * Every run of qmail-send

    The transitions of the daemon and of its environment as a step relation; an
    iteration of the main loop is a sequence of such steps.  Every reachable
    state satisfies the invariant, and no recipient is lost on the way. *)

From stdpp Require Import relations.
From S2P Require Import Prelude LibQmail Prioq Filesys Records Fmtqfn SendState SendQueue.
From S2P Require Import SendDeliver SendBounce SendPass SendLoop SendInv SendQueuesInv.
From S2P Require Import SendSafety SendSteps SendEffects SendHandlers SendPassInv.

Section SendReach.
Context {L : LibQmail} (cfg : config) (bc : bounce_config).
Context (delivery_rate : qsend → channel → bytes → Z → Z * Z * bool).
Abbreviation chanfile := (fnmake_chanaddr cfg).
Abbreviation bouncefile := (fnmake_bounce cfg).

(** ** Steps *)

(** The numbers of queue files are inode numbers. *)
Definition entries_ok (l : list dirent) : Prop := Forall (λ e, ulong e.2) l.

Definition tick : M unit := t ← sys now; modify (set_recent t).

Inductive handler : M unit → Prop :=
  | h_tick : handler tick
  | h_time_needed : handler (modify (set_time_needed 0))
  | h_runasap : handler (modify (set_flagrunasap false);; pqrun)
  | h_reread ct : handler (modify (set_flagreadasap false);; reread true ct)
  | h_todo_selprep : handler todo_selprep
  | h_comm_do c ready w : handler (_ ← comm_do c ready w; skip)
  | h_del_dochan c r : handler (del_dochan cfg c r)
  | h_todo_do r : handler (todo_do cfg r)
  | h_pass_dochan c : handler (pass_dochan cfg delivery_rate c)
  | h_pass_fail : handler (pass_fail cfg)
  | h_pass_done be : handler (pass_done cfg bc be)
  | h_cleanup_do e : handler (cleanup_do cfg e)
  | h_attach l : entries_ok l → handler (attach cfg l)
  | h_sigterm : handler sigterm
  | h_sigalrm : handler sigalrm
  | h_sighup : handler sighup
  | h_sigusr1 : handler sigusr1
  | h_sigusr2 l : entries_ok l → handler (sigusr2 cfg l)
  | h_pqfinish : handler (pqfinish cfg).

(** A job in use for a channel file. *)
Definition job_on (s : qsend) (p : bytes) : Prop :=
  ∃ j, j < length (jo s) ∧ (0 < j_refs (jo s !!! j))%Z ∧
    chanfile (j_id (jo s !!! j)) (j_channel (jo s !!! j)) = p.

(** What other processes may do: anything to files that are not channel files
    (create, write, link, remove), and, as todo-proc does, make the channel file
    of a message that has none and that qmail-send is not working on.  System
    calls may fail and the clock may move at any time. *)
Record env_ok (w w' : world) : Prop := {
  e_chan id c : names w' !! chanfile id c = names w !! chanfile id c;
  e_names p i : names w' !! p = Some i → names w !! p = Some i ∨ next_ino w ≤ i < next_ino w' ∨
    ∃ q, names w !! q = Some i ∧ ¬ is_chan cfg q;
  e_next : next_ino w ≤ next_ino w';
  e_kept i : i < next_ino w → (∀ p, names w !! p = Some i → is_chan cfg p) →
    inodes w' !! i = inodes w !! i
}.

Inductive step : qsend → qsend → Prop :=
  | step_handler m s : handler m → step s (run m s)
  | step_env s w' : env_ok (wd s) w' → step s (set_wd w' s)
  | step_new_message s id c n : good_id id → names (wd s) !! chanfile id c = None →
      ¬ job_on s (chanfile id c) →
      step s (set_wd (set_next (S (next_ino (wd s)))
        (set_names (<[chanfile id c := next_ino (wd s)]> (names (wd s)))
        (set_inodes (<[next_ino (wd s) := n]> (inodes (wd s))) (wd s)))) s).

(** An iteration of the main loop is a sequence of steps. *)
Definition reaches {A} (m : M A) : Prop := ∀ s, rtc step s (run m s).

Lemma reaches_handler m : handler m → reaches m.
Proof. intros Hm s. by apply rtc_once, step_handler. Qed.
Lemma reaches_ret {A} (a : A) : reaches (mret a).
Proof. intros s. apply rtc_refl. Qed.
Lemma reaches_skip : reaches skip.
Proof. intros s. apply rtc_refl. Qed.
Lemma reaches_bind {A B} (m : M A) (f : A → M B) :
  reaches m → (∀ a, reaches (f a)) → reaches (m ≫= f).
Proof. intros Hm Hf s. rewrite run_bind. by etrans; [apply Hm|apply Hf]. Qed.
Lemma reaches_getS_bind {B} (f : qsend → M B) : (∀ s, reaches (f s)) → reaches (getS ≫= f).
Proof. intros Hf s. rewrite run_bind. apply Hf. Qed.
Lemma reaches_when b (m : M unit) : reaches m → reaches (when b m).
Proof. destruct b; [done|]. intros _. apply reaches_skip. Qed.
Lemma reaches_ext {A} (m m' : M A) : (∀ s, run m s = run m' s) → reaches m' → reaches m.
Proof. intros H Hm s. rewrite H. apply Hm. Qed.

Definition inputs_ok (i : inputs) : Prop := entries_ok (in_info i).

Lemma serve_reaches r : reaches (serve cfg bc delivery_rate r).
Proof.
  unfold serve. apply reaches_bind; [apply reaches_handler; constructor|]. intros _.
  apply (reaches_ext _ (tick;; (comm_do_all r;; del_do cfg r;; todo_do cfg (rd_todo r);;
    pass_do cfg bc delivery_rate (rd_bounce r);; cleanup_do cfg (rd_mess r)))).
  { intros s. unfold tick. by rewrite !run_bind. }
  apply reaches_bind; [apply reaches_handler; constructor|]. intros _.
  apply reaches_bind; [|intros _].
  { unfold comm_do_all.
    apply (reaches_ext _ ((_ ← comm_do Local (rd_write r Local) (rd_wres r Local); skip);;
      (_ ← comm_do Remote (rd_write r Remote) (rd_wres r Remote); skip))).
    { intros s. by rewrite !run_bind. }
    apply reaches_bind; intros; apply reaches_handler; constructor. }
  apply reaches_bind; [|intros _].
  { assert (∀ c d, reaches (del_do_one cfg c d)) as Hd.
    { intros c d. apply reaches_getS_bind. intros s. destruct d; [|apply reaches_skip].
      apply reaches_when, reaches_handler. constructor. }
    apply reaches_bind; intros; apply Hd. }
  apply reaches_bind; [apply reaches_handler; constructor|]. intros _.
  apply reaches_bind; [|intros _; apply reaches_handler; constructor].
  unfold pass_do. repeat (apply reaches_bind; [apply reaches_handler; constructor|intros _]).
  apply reaches_handler. constructor.
Qed.

Lemma iteration_reaches i : inputs_ok i → reaches (iteration cfg bc delivery_rate i).
Proof.
  intros Hi. unfold iteration. apply reaches_bind; [|intros _].
  { unfold prepare.
    apply (reaches_ext _ (tick;; (s ← getS;
      when (flagrunasap s) (modify (set_flagrunasap false);; pqrun);;
      s ← getS; when (flagreadasap s) (modify (set_flagreadasap false);; reread true (in_controls i));;
      todo_selprep))).
    { intros s. unfold tick. by rewrite !run_bind. }
    apply reaches_bind; [apply reaches_handler; constructor|]. intros _.
    apply reaches_getS_bind. intros s.
    apply reaches_bind; [apply reaches_when, reaches_handler; constructor|]. intros _.
    apply reaches_getS_bind. intros s'.
    apply reaches_bind; [apply reaches_when, reaches_handler; constructor|]. intros _.
    apply reaches_handler. constructor. }
  apply reaches_getS_bind. intros s. apply reaches_bind.
  { destruct (in_select i); [apply reaches_ret..|].
    apply reaches_bind; [apply serve_reaches|intros _; apply reaches_ret]. }
  intros []; [|apply reaches_ret]. apply reaches_getS_bind. intros s'.
  apply reaches_bind; [|intros _; apply reaches_ret].
  apply reaches_when, reaches_handler. by constructor.
Qed.

Lemma main_loop_reaches l : Forall inputs_ok l → reaches (main_loop cfg bc delivery_rate l).
Proof.
  induction 1 as [|i l Hi Hl IH]; simpl; [apply reaches_skip|].
  apply reaches_getS_bind. intros s. destruct (may_leave s); [apply reaches_handler; constructor|].
  apply reaches_bind; [by apply iteration_reaches|]. intros []; [done|].
  apply reaches_handler. constructor.
Qed.
End SendReach.

(** ** The invariant *)

Section SendInvariant.
Context {L : LibQmail} {LL : LibQmailLaws L} (cfg : config) (bc : bounce_config).
Context (delivery_rate : qsend → channel → bytes → Z → Z * Z * bool).
Hypothesis split_pos : (0 < split_of (conf_split cfg) (auto_split cfg) < 2 ^ 31)%Z.
Abbreviation chanfile := (fnmake_chanaddr cfg).
Abbreviation step := (step cfg bc delivery_rate).

Record send_inv (s : qsend) : Prop := {
  si_jobs : jobs_inv cfg (core s);
  si_queues : queues_ok s
}.

Lemma neutral_good {A} (m : M A) s :
  neutral m → jobs_inv cfg (core s) → fine cfg (core s) (core (run m s)).
Proof. intros Hm Hinv. rewrite Hm. by apply fine_refl. Qed.
Lemma harmless_good {A} (m : M A) s :
  wp m (λ _ s', harmless cfg (core s) (core s')) s → jobs_inv cfg (core s) →
  fine cfg (core s) (core (run m s)).
Proof. intros Hm Hinv. by apply harmless_fine. Qed.

Lemma pqfinish_chan_harmless fuel c k s :
  harmless cfg k (core s) → wp (pqfinish_chan cfg fuel c) (λ _ s', harmless cfg k (core s')) s.
Proof.
  revert s. induction fuel as [|fuel IH]; intros s Hs; simpl; [done|].
  apply wp_bind, wp_getS. destruct (prioq_get _) as [pe|]; [|done].
  apply harmless_neutral_bind; [apply neutral_del_chan|done|]. intros _ s1 H1.
  apply wp_bind. eapply wp_mono; [|intros ? s2 H2; apply IH, H2].
  apply wp_sys. unfold utimes. apply wp_syscall; [intros f; exact H1|]. intros f.
  unfold lookup_name. apply wp_bind, wp_bind, wp_getS, wp_ret. simpl.
  destruct (names (wd s1) !! _) as [i|] eqn:Hi; [|apply wp_ret; exact H1].
  unfold read_inode. apply wp_bind, wp_bind, wp_getS, wp_ret, wp_bind, wp_modify, wp_ret.
  eapply harmless_trans; [exact H1|]. split; auto.
  intros i' _ _. unfold data, core. simpl.
  destruct (decide (i' = i)) as [->|]; [by rewrite lookup_insert_eq|by rewrite lookup_insert_ne].
Qed.

Lemma neutral_tell_todo ch : neutral (tell_todo ch).
Proof. unfold tell_todo. solve_neutral. Qed.
Lemma neutral_attach l : neutral (attach cfg l).
Proof.
  unfold attach. apply neutral_bind; [apply neutral_pqstart|]. intros _.
  apply neutral_bind; [apply neutral_tell_todo|]. solve_neutral.
Qed.
Lemma neutral_todo_del l : neutral (todo_del cfg l).
Proof.
  unfold todo_del. destruct (todo_channels _); [|done]. destruct (scan_ulong _).
  case_decide; [done|]. apply neutral_bind; [solve_neutral|]. intros t.
  apply neutral_bind; [apply neutral_insert_chans|]. intros _. apply neutral_when, neutral_insert_done.
Qed.
Lemma neutral_todo_do r : neutral (todo_do cfg r).
Proof.
  assert (H : ∀ l, neutral (todo_bytes cfg l)).
  { induction l as [|ch l IH]; simpl; [done|]. apply neutral_bind; [|done].
    pose proof neutral_todo_del. unfold todo_byte, todo_line, tododied. solve_neutral. }
  unfold todo_do, tododied. solve_neutral.
Qed.
Lemma neutral_cleanup_do e : neutral (cleanup_do cfg e).
Proof.
  pose proof (neutral_ask_clean cfg).
  unfold cleanup_do, cleanup_message, absent. solve_neutral.
Qed.
Lemma neutral_sigusr1 : neutral sigusr1.
Proof. pose proof neutral_tell_todo. unfold sigusr1. solve_neutral. Qed.
Lemma neutral_sigusr2 l : neutral (sigusr2 cfg l).
Proof. pose proof neutral_attach. unfold sigusr2. solve_neutral. Qed.
Lemma neutral_pass_fail : neutral (pass_fail cfg).
Proof.
  pose proof neutral_del_fail. pose proof (neutral_pqadd cfg). unfold pass_fail. solve_neutral.
Qed.

Lemma handler_fine m s :
  handler cfg bc delivery_rate m → send_inv s → fine cfg (core s) (core (run m s)).
Proof.
  intros Hm [Hinv Hq].
  assert (Hr : fine cfg (core s) (core s)) by (by apply fine_refl).
  assert (Hn : neutral m → fine cfg (core s) (core (run m s))) by (intros; by apply neutral_good).
  destruct Hm; try done.
  - apply Hn. unfold tick. solve_neutral.
  - apply Hn, neutral_bind; [done|]. intros _. apply neutral_reread.
  - apply Hn, neutral_modify. intros s'. by destruct (_ && _).
  - apply Hn, neutral_bind; [apply neutral_comm_do|done].
  - by apply del_dochan_fine.
  - apply Hn, neutral_todo_do.
  - apply pass_dochan_fine; [done..|]. intros pe. apply queue_head, Hq.
  - apply Hn, neutral_pass_fail.
  - apply harmless_good; [|done]. unfold pass_done. apply wp_bind, wp_getS.
    destruct (prioq_get _) as [pe|]; [|apply harmless_refl].
    apply wp_when; intros _; [|apply harmless_refl].
    apply harmless_neutral_bind; [done|apply harmless_refl|]. intros _ s'. by apply messdone_harmless.
  - apply Hn, neutral_cleanup_do.
  - apply Hn, neutral_attach.
  - apply Hn. unfold sigterm, exit_todo. solve_neutral.
  - apply Hn, neutral_sigusr1.
  - apply Hn, neutral_sigusr2.
  - apply harmless_good; [|done]. unfold pqfinish. apply wp_bind, wp_getS, wp_bind.
    eapply wp_mono; [apply pqfinish_chan_harmless, harmless_refl|].
    intros ? s1 H1. by apply pqfinish_chan_harmless.
Qed.

Lemma handler_kept m : handler cfg bc delivery_rate m → kept m.
Proof.
  destruct 1.
  - unfold tick. solve_kept.
  - solve_kept.
  - solve_kept.
  - apply kept_bind; [solve_kept|]. intros _. apply kept_reread.
  - apply kept_modify. intros s. by destruct (_ && _).
  - apply kept_bind; [apply kept_comm_do|solve_kept].
  - apply kept_del_dochan.
  - apply kept_todo_do.
  - apply kept_pass_dochan.
  - apply kept_pass_fail.
  - apply kept_pass_done.
  - apply kept_cleanup_do.
  - by apply kept_attach.
  - apply kept_sigterm.
  - unfold sigalrm. solve_kept.
  - unfold sighup. solve_kept.
  - apply kept_sigusr1.
  - by apply kept_sigusr2.
  - apply kept_pqfinish.
Qed.

Lemma env_harmless s w' : env_ok cfg (wd s) w' → harmless cfg (core s) (core (set_wd w' s)).
Proof.
  intros []. split; simpl; auto. intros i Hi Hp. unfold data, core. simpl. by rewrite e_kept0.
Qed.

(** A new channel file. *)
Definition new_file (p : bytes) (n : inode) (k : coreT) : coreT :=
  Core (k_jo k) (k_del k) (k_pass k) (k_used k) (<[p := k_next k]> (k_names k))
    (<[k_next k := n]> (k_inodes k)) (S (k_next k)) (k_trace k).

Lemma new_file_data p n k i : i < k_next k → data (new_file p n k) i = data k i.
Proof. intros Hi. unfold data, new_file. simpl. by rewrite lookup_insert_ne by lia. Qed.

Lemma new_file_job k j ino open id c n :
  job_ok cfg k j ino open → chanfile (j_id (k_jo k !!! j)) (j_channel (k_jo k !!! j)) ≠ chanfile id c →
  job_ok cfg (new_file (chanfile id c) n k) j ino open.
Proof.
  intros [] Hne. split; auto; try rewrite new_file_data by done; auto.
  - intros i. simpl. rewrite lookup_insert_ne by (by apply not_eq_sym). auto.
  - simpl. lia.
  - intros p. simpl. intros [[_ ?]|[_ ?]]%lookup_insert_Some; [lia|auto].
  - intros pos l Hr Hp. unfold scanned in Hp. rewrite new_file_data in Hp by done. by apply jk_scanned.
Qed.

Lemma new_file_fine k id c n :
  jobs_inv cfg k → good_id id → k_names k !! chanfile id c = None →
  (∀ j, j < length (k_jo k) → (0 < j_refs (k_jo k !!! j))%Z →
    chanfile (j_id (k_jo k !!! j)) (j_channel (k_jo k !!! j)) ≠ chanfile id c) →
  fine cfg k (new_file (chanfile id c) n k).
Proof.
  intros Hinv [Hid Hnz] Hno Hjob. split.
  - destruct Hinv. split; auto; simpl.
    + intros p i [[_ <-]|[_ Hi]]%lookup_insert_Some; [lia|]. apply ji_next in Hi. lia.
    + intros p id' c' i [[<- <-]|[Hp Hi]]%lookup_insert_Some; [by eexists _, _|].
      intros [[_ <-]|[_ Hi']]%lookup_insert_Some; [apply ji_next in Hi; lia|eauto].
    + intros id1 c1 id2 c2 i [[<- <-]|[H1 Hi]]%lookup_insert_Some [[Heq ?]|[H2 Hi']]%lookup_insert_Some.
      * done.
      * apply ji_next in Hi'. lia.
      * apply ji_next in Hi. lia.
      * eauto.
    + intros c'. rewrite lookup_insert_ne; [done|]. intros Heq.
      apply (chan_inj cfg split_pos) in Heq as [? _]; [done|done|by unfold ulong].
    + intros j Hj Hr. destruct (ji_job j Hj Hr) as (ino & open & Hok). exists ino, open.
      apply new_file_job; auto.
  - split; [done|]. intros id' c' i pos l Hid' Hi Hr. left.
    rewrite new_file_data by (by eapply ji_next). split; [|done]. simpl.
    rewrite lookup_insert_ne; [done|]. intros Heq. by rewrite Heq, Hi in Hno.
Qed.

Lemma step_good s s' :
  step s s' → send_inv s → send_inv s' ∧ safe cfg (core s) (core s').
Proof.
  intros Hs Hinv. destruct Hs as [m s Hm|s w' He|s id c n Hid Hno Hjob].
  - destruct (handler_fine m s Hm Hinv) as [H1 H2]. split; [split|done]; [done|].
    by apply handler_kept, Hinv.
  - destruct (harmless_fine cfg _ _ (si_jobs s Hinv) (env_harmless s w' He)) as [H1 H2].
    split; [split|done]; [done|]. eapply queues_ok_ext; [|apply Hinv]. done.
  - destruct (new_file_fine (core s) id c n (si_jobs s Hinv) Hid Hno) as [H1 H2].
    { intros j Hj Hr Heq. apply Hjob. by exists j. }
    split; [split|exact H2]; [exact H1|]. eapply queues_ok_ext; [|apply Hinv]. done.
Qed.

Lemma steps_good s s' :
  rtc step s s' → send_inv s → send_inv s' ∧ safe cfg (core s) (core s').
Proof.
  induction 1 as [s|s1 s2 s3 H12 H23 IH]; intros Hinv; [split; [done|apply safe_refl]|].
  destruct (step_good _ _ H12 Hinv) as [Hinv2 Hs]. destruct (IH Hinv2) as [Hinv3 Hs'].
  split; [done|]. by eapply safe_trans.
Qed.

(** ** The start *)

(** The queue the daemon finds: every channel file has an inode of its own,
    under no other name, and belongs to a message number that is not 0. *)
Record queue_files (w : world) : Prop := {
  qf_next p i : names w !! p = Some i → i < next_ino w;
  qf_own p id c i : names w !! p = Some i → names w !! chanfile id c = Some i → p = chanfile id c;
  qf_zero c : names w !! chanfile 0 c = None
}.

Lemma jobs_inv_idle k :
  Forall (λ x, j_refs x = 0%Z) (k_jo k) → (∀ c x, x ∈ k_del k c → d_used x = false) →
  (∀ c, p_id (k_pass k c) = 0%Z) → (∀ c, k_used k c = 0%Z) →
  (∀ p i, k_names k !! p = Some i → i < k_next k) →
  (∀ p id c i, k_names k !! p = Some i → k_names k !! chanfile id c = Some i → p = chanfile id c) →
  (∀ c, k_names k !! chanfile 0 c = None) → jobs_inv cfg k.
Proof.
  intros Hjo Hdel Hpass Hused Hnext Hown Hzero.
  assert (Hslots : ∀ j, slot_pos k j = []).
  { intros j. unfold slot_pos. destruct (omap _ _) as [|p l] eqn:E; [done|].
    assert (p ∈ omap (mine j) (k_del k (j_channel (k_jo k !!! j)))) as Hp by (rewrite E; by left).
    apply list_elem_of_omap in Hp as (x & Hx & Hm). unfold mine in Hm.
    by rewrite (Hdel _ _ Hx) in Hm. }
  assert (Hrefs : ∀ j, j < length (k_jo k) → j_refs (k_jo k !!! j) = 0%Z).
  { intros j Hj. by apply (Forall_lookup_total_1 _ _ _ Hjo). }
  split; auto.
  - intros c x Hx Hu. by rewrite (Hdel _ _ Hx) in Hu.
  - intros c Hp. by rewrite Hpass in Hp.
  - intros j Hj. rewrite Hslots, Hrefs by done. unfold on_pass. by rewrite Hpass.
  - intros c. rewrite Hused. unfold used_count. destruct (filter _ _) as [|x l] eqn:E; [done|].
    assert (x ∈ filter (λ x, d_used x = true) (k_del k c)) as Hx by (rewrite E; by left).
    apply list_elem_of_filter in Hx as [Hu Hx]. by rewrite (Hdel _ _ Hx) in Hu.
  - intros p id c i Hp Hi. exists id, c. by eapply Hown.
  - intros id c id' c' i Hi Hi'. by eapply Hown.
  - intros j Hj Hr. rewrite Hrefs in Hr by done. lia.
Qed.

Lemma pqstart_unchanged l s : core (run (pqstart cfg l) s) = core s.
Proof. apply neutral_pqstart. Qed.

Lemma send_init_inv w conc hold vdoms replies info :
  queue_files w → entries_ok info →
  send_inv (send_init cfg w conc hold vdoms replies info).
Proof.
  intros Hw Hinfo. unfold send_init. cbv zeta.
  match goal with |- context [run (pqstart cfg info) ?s0] => set (s0' := s0) end.
  assert (Hq0 : queues_ok s0').
  { split; simpl; auto; try (intros; split; [apply heap_nil|done]); split; done || apply heap_nil. }
  pose proof (kept_pqstart cfg info Hinfo s0' Hq0) as Hq1.
  pose proof (pqstart_unchanged info s0') as Hc1.
  set (s1 := run (pqstart cfg info) s0') in *. clearbody s1.
  set (s2 := set_del _ _).
  assert (Hq2 : queues_ok s2).
  { destruct Hq1. split; auto. unfold s2. simpl. by apply Forall_replicate. }
  assert (Hc2 : core s2 = Core (replicate (conc Local + conc Remote) inhabitant)
    (λ c, replicate (conc c) inhabitant) (λ _, Pass 0 0 0 0) (λ _, 0%Z)
    (names w) (inodes w) (next_ino w) []).
  { injection Hc1 as H1 H2 H3 H4 H5 H6 H7 H8. unfold core, s2. simpl.
    by rewrite H3, H4, H5, H6, H7, H8. }
  clearbody s2. set (m := (modify (set_flagtodoalive true);; todo_init)).
  assert (Hn1 : neutral m).
  { apply neutral_bind; [done|]. intros _. apply neutral_bind; [apply neutral_tell_todo|done]. }
  assert (Hk1 : kept m).
  { apply kept_bind; [solve_kept|]. intros _. apply kept_bind; [apply kept_tell_todo|solve_kept]. }
  set (m2 := (t ← sys now; modify (set_cleanuptime t)) : ST qsend unit).
  assert (Hn2 : neutral m2) by (unfold m2; solve_neutral).
  assert (Hk2 : kept m2) by (unfold m2; solve_kept).
  split; [|by apply Hk2, Hk1]. rewrite Hn2, Hn1, Hc2. apply jobs_inv_idle; simpl; try apply Hw; auto.
  - by apply Forall_replicate.
  - intros c x Hx. apply elem_of_replicate in Hx as [-> _]. done.
Qed.
End SendInvariant.
