(* ===== verification/SendTheorems.v ===== *)
(** * What holds of every run of qmail-send *)

From stdpp Require Import relations.
From S2P Require Import Prelude LibQmail Prioq Filesys Records Fmtqfn SendState SendQueue.
From S2P Require Import SendDeliver SendBounce SendPass SendLoop SendInv SendQueuesInv.
From S2P Require Import SendSafety SendSteps SendEffects SendHandlers SendPassInv SendReach.
From S2P Require Import PassTheorems SendBounds BounceTheorems.

Section SendTheorems.
Context {L : LibQmail} {LL : LibQmailLaws L} (cfg : config) (bc : bounce_config).
Context (delivery_rate : qsend → channel → bytes → Z → Z * Z * bool).
Hypothesis split_pos : (0 < split_of (conf_split cfg) (auto_split cfg) < 2 ^ 31)%Z.
Abbreviation chanfile := (fnmake_chanaddr cfg).
Abbreviation step := (step cfg bc delivery_rate).

(** The contents of an inode. *)
Definition contents (s : qsend) (i : nat) : bytes :=
  i_data (default (Inode [] 0 0) (inodes (wd s) !! i)).

(** The log shows a delivery of message [id] to [recip] and its outcome. *)
Definition outcome_logged (s : qsend) (id : Z) (c : channel) (recip : bytes) : Prop :=
  ∃ d, EvStart d id c recip ∈ trace s ∧ (EvSuccess d ∈ trace s ∨ EvFailure d ∈ trace s).

Section reachable.
Context (w : world) (conc : channel → nat) (hold : channel → bool)
  (vdoms : bytes → option bytes) (replies : list Z) (info : list dirent).
Let s0 := send_init cfg w conc hold vdoms replies info.

(** C1. No recipient is lost.  Whatever the reports of the spawn processes, the
    messages of todo-proc, the signals, the failures of system calls and the
    interleaving with other processes: a recipient that is to do (a record T)
    in the channel file of a message is, in every later state, either still to
    do in that file, or the log shows that a delivery to it was started and
    has succeeded or failed. *)
Theorem no_recipient_lost s s' id c i pos recip :
  queue_files cfg w → entries_ok info → rtc step s0 s → rtc step s s' →
  ulong id → names (wd s) !! chanfile id c = Some i →
  rec_at (contents s i) pos (84%Z :: recip) →
  (names (wd s') !! chanfile id c = Some i ∧ rec_at (contents s' i) pos (84%Z :: recip)) ∨
  outcome_logged s' id c (cstr recip).
Proof.
  intros Hw Hi Hs Hs' Hid Hf Hr.
  destruct (steps_good cfg bc delivery_rate split_pos _ _ Hs) as [Hinv _].
  { by apply send_init_inv. }
  destruct (steps_good cfg bc delivery_rate split_pos _ _ Hs' Hinv) as [_ [_ Hsafe]].
  by apply (Hsafe id c i pos recip).
Qed.

(** C2. The counters agree with the tables in every reachable state: each
    channel's [concurrencyused] is the number of its running deliveries, and
    the references of a job are its running deliveries plus one for the pass
    that is on its file. *)
Theorem counters_agree s :
  queue_files cfg w → entries_ok info → rtc step s0 s →
  (∀ c, concurrencyused s c = Z.of_nat (length (filter (λ x, d_used x = true) (del s c)))) ∧
  (∀ j, j < length (jo s) →
    let x := jo s !!! j in
    j_refs x = (Z.of_nat (length (filter (λ y, d_used y = true ∧ d_j y = j) (del s (j_channel x)))) +
                if decide (p_id (pass s (j_channel x)) ≠ 0%Z ∧ p_j (pass s (j_channel x)) = j)
                then 1 else 0)%Z).
Proof.
  intros Hw Hi Hs. destruct (steps_good cfg bc delivery_rate split_pos _ _ Hs) as [[Hinv _] _].
  { by apply send_init_inv. }
  split; [apply (ji_used _ _ Hinv)|]. intros j Hj. cbv zeta.
  change (jo s) with (k_jo (core s)). rewrite (ji_refs _ _ Hinv j Hj). f_equal.
  - f_equal. unfold slot_pos. simpl. induction (del s _) as [|y l IH]; [done|]. simpl.
    rewrite filter_cons. unfold mine at 1. case_decide as Hy.
    + destruct Hy as [-> ->]. rewrite bool_decide_true by done. simpl. by f_equal.
    + destruct (d_used y) eqn:Hu; simpl; [|done].
      rewrite bool_decide_false by naive_solver. done.
  - unfold on_pass. simpl. by destruct (decide (_ ∧ _)) as [[??]|?];
      repeat case_bool_decide; simpl; naive_solver.
Qed.

(** C3. The message at the head of each queue is the one that has been due the
    longest, in every reachable state: this is what a pass, a retry of a failed
    [stat] and the end of a message take. *)
Theorem earliest_first s pe :
  queue_files cfg w → entries_ok info → rtc step s0 s →
  (∀ c, prioq_get (pqchan s c) = Some pe → ∀ x, x ∈ pqchan s c → (dt pe ≤ dt x)%Z) ∧
  (prioq_get (pqdone s) = Some pe → ∀ x, x ∈ pqdone s → (dt pe ≤ dt x)%Z) ∧
  (prioq_get (pqfail s) = Some pe → ∀ x, x ∈ pqfail s → (dt pe ≤ dt x)%Z).
Proof.
  intros Hw Hi Hs. destruct (steps_good cfg bc delivery_rate split_pos _ _ Hs) as [[_ Hq] _].
  { by apply send_init_inv. }
  assert (H : ∀ pq, queue_ok pq → prioq_get pq = Some pe → ∀ x, x ∈ pq → (dt pe ≤ dt x)%Z).
  { intros pq [Hh _] Hg x Hx. pose proof (get_above _ _ _ _ Hh Hg Hx) as Ha.
    by apply bool_decide_eq_true in Ha. }
  split_and!; [intros c|..]; apply H, Hq.
Qed.
End reachable.
End SendTheorems.

(** ** A run

    One message with one local recipient is delivered. *)
Module Run.
#[local] Existing Instance reference_libqmail.

Definition cfg : config := Config 0 23 true 604800 604800 false 129600 0.
Definition bc : bounce_config :=
  BounceConfig (lit "MAILER-DAEMON") (lit "example.org") (lit "postmaster@example.org")
    (lit "failure notice") (lit "failure notice") [] [] 0 [] false (lit "qmail-send").
Definition rate : qsend → channel → bytes → Z → Z * Z * bool := λ _ _ _ _, (1, 0, false)%Z.
Definition be : bounce_env :=
  BounceEnv false false 0 None false (0%Z, []) (lit "Date: 1 Jan 1970 00:00:00 -0000" ++ [10%Z]) 0 false.

Definition w : world :=
  World {[ lit "local/5/5" := 0; lit "info/5/5" := 1; lit "mess/5/5" := 2 ]}
    {[ 0 := Inode (lit "Tbob@example.org" ++ [0%Z]) 100 100;
       1 := Inode (lit "Fjoe@example.org" ++ [0%Z]) 100 100;
       2 := Inode (lit "Subject: hi" ++ [10%Z]) 100 100 ]} 3 [] 1000 [].
Definition conc : channel → nat := λ _, 2.
Definition info : list dirent := [(1, 5)]%Z.
Definition s0 : qsend := send_init cfg w conc (λ _, false) (λ _, None) (lit "++") info.

Definition quiet_round (report : option (option bytes)) : inputs :=
  Inputs None (SelReady (Ready (λ _, true) (λ _, WSome 200)
    (λ c, match c with Local => report | Remote => None end) None be (0, 0)%Z)) [].

(** The pass starts the delivery, reaches the end of the file, and the report
    comes. *)
Definition rounds : list inputs :=
  [quiet_round None; quiet_round None; quiet_round (Some (Some ([0; 0; 75; 0]%Z)));
   quiet_round None].
Definition s1 : qsend := run (main_loop cfg bc rate rounds) s0.

Lemma w_ok : queue_files cfg w.
Proof.
  split.
  - intros p i. unfold w. simpl. rewrite !lookup_insert_Some, lookup_singleton_Some.
    intros H. repeat destruct H as [[? ?]|[? H]]; destruct_and?; lia.
  - intros p id c i. unfold w. simpl. rewrite !lookup_insert_Some, !lookup_singleton_Some.
    intros H H'. repeat (destruct H as [[? ?]|[? H]] || destruct H' as [[? ?]|[? H']]); destruct_and?; congruence.
  - intros []; by vm_compute.
Qed.
Lemma info_ok : entries_ok info.
Proof. repeat constructor; simpl; lia. Qed.
Lemma split_ok : (0 < split_of (conf_split cfg) (auto_split cfg) < 2 ^ 31)%Z.
Proof. vm_compute. split; reflexivity. Qed.
Lemma rounds_ok : Forall inputs_ok rounds.
Proof. repeat constructor. Qed.
Lemma s1_reached : rtc (step cfg bc rate) s0 s1.
Proof. apply main_loop_reaches, rounds_ok. Qed.
Lemma bob_at_0 : rec_at (contents s0 0) 0 (84%Z :: lit "bob@example.org" ++ [0%Z]).
Proof. split; [constructor|by vm_compute]. Qed.

#[local] Existing Instance reference_laws.

(** Bob's record is in the file at the start; at the end the file is gone and
    the log shows the delivery. *)
Lemma no_recipient_lost_witness :
  names (wd s0) !! lit "local/5/5" = Some 0 ∧ names (wd s1) !! lit "local/5/5" = None ∧
  outcome_logged s1 5 Local (lit "bob@example.org").
Proof.
  split; [by vm_compute|]. assert (Hgone : names (wd s1) !! lit "local/5/5" = None) by (by vm_compute).
  split; [exact Hgone|].
  destruct (no_recipient_lost cfg bc rate split_ok w conc (λ _, false) (λ _, None) (lit "++") info
    s0 s1 5 Local 0 0 (lit "bob@example.org" ++ [0%Z]) w_ok info_ok (rtc_refl _ _) s1_reached)
    as [[H _]|H].
  - split; by vm_compute.
  - by vm_compute.
  - apply bob_at_0.
  - exfalso. change (fnmake_chanaddr cfg 5 Local) with (lit "local/5/5") in H. congruence.
  - exact H.
Defined.

(** A delivery is running and the pass is still on the file. *)
Definition s_mid : qsend := run (main_loop cfg bc rate [quiet_round None]) s0.
Lemma s_mid_reached : rtc (step cfg bc rate) s0 s_mid.
Proof. apply main_loop_reaches. repeat constructor. Qed.

Lemma counters_agree_witness :
  concurrencyused s_mid Local = 1%Z ∧ j_refs (jo s_mid !!! 0) = 2%Z ∧
  (∀ c, concurrencyused s_mid c = Z.of_nat (length (filter (λ x, d_used x = true) (del s_mid c)))).
Proof.
  destruct (counters_agree cfg bc rate split_ok w conc (λ _, false) (λ _, None) (lit "++") info s_mid
    w_ok info_ok s_mid_reached) as [H _].
  split; [by vm_compute|]. split; [by vm_compute|exact H].
Defined.

Lemma earliest_first_witness :
  prioq_get (pqchan s0 Local) = Some (PE 100 5 0) ∧
  ∀ x, x ∈ pqchan s0 Local → (dt (PE 100 5 0) ≤ dt x)%Z.
Proof.
  destruct (earliest_first cfg bc rate split_ok w conc (λ _, false) (λ _, None) (lit "++") info s0
    (PE 100 5 0) w_ok info_ok (rtc_refl _ _)) as [H _].
  assert (Hg : prioq_get (pqchan s0 Local) = Some (PE 100 5 0)) by (by vm_compute).
  split; [exact Hg|exact (H Local Hg)].
Defined.

(** The message has been due since 100, it is 1000: no waiting, although there is
    nothing to clean up for a day. *)
Definition s_idle : qsend := set_cleanuptime 90000 s0.
Lemma wakes_for_work_witness : select_timeout s_idle = 0%Z.
Proof.
  assert (Hw : work_due s_idle 100).
  { right. right. exists Local, (PE 100 5 0). split_and!; by vm_compute. }
  apply (wakes_for_work s_idle 100); [by vm_compute|by vm_compute|lia|by vm_compute|by left|].
  apply (bool_decide_unpack _). by vm_compute.
Defined.

(** [todo_del] does not set [delayed] in the element it inserts.  When what happens to be
    there is not zero, a message that has been due since 100 does not end the wait at
    1000, although no rate limit is in force. *)
Example due_but_asleep :
  let s := set_pqchan (λ c, if c is Local then [PE 100 5 1] else []) s_idle in
  time_needed s = 0%Z ∧ recent s = 1000%Z ∧ select_timeout s = (SLEEP_FOREVER + 1)%Z.
Proof. by vm_compute. Qed.

Lemma s0_in_bounds : in_bounds conc s0.
Proof. split; [by vm_compute|]. intros []; vm_compute; lia. Qed.
Lemma rounds_fit : Forall (inputs_fit conc) rounds.
Proof.
  repeat apply Forall_cons_2; try apply Forall_nil_2;
    (split; [done|]; intros r [= <-]; done).
Qed.
Lemma tables_in_bounds_witness : ub (run (main_loop cfg bc rate rounds) s0) = false.
Proof. exact (tables_in_bounds cfg bc conc rate rounds s0 rounds_fit s0_in_bounds). Defined.

(** ** Raising the concurrency

    Three recipients, tables of two entries, and a SIGHUP after
    concurrencylocal was raised to 5. *)
Definition w3 : world :=
  World (names w)
    (<[ 0 := Inode (lit "Ta@x" ++ [0%Z] ++ lit "Tb@x" ++ [0%Z] ++ lit "Tc@x" ++ [0%Z]) 100 100 ]>
      (inodes w)) 3 [] 1000 [].
Definition raised : controls :=
  Controls true (Some None) (λ c, match c with Local => RSet 5 | Remote => RAbsent end)
    (λ _, RAbsent) true true.
Definition hup_round : inputs :=
  Inputs (Some raised) (in_select (quiet_round None)) [].

(** The program leaves the bounds of a delivery table when the control file
    concurrencylocal is raised and SIGHUP is sent: the tables are not enlarged,
    and the search for a free entry runs past the two that were allocated. *)
Theorem raised_concurrency_overruns :
  let s := send_init cfg w3 conc (λ _, false) (λ _, None) (lit "++") info in
  in_bounds conc s ∧
  ub (run (main_loop cfg bc rate [hup_round; quiet_round None; quiet_round None])
       (run sighup s)) = true.
Proof.
  cbv zeta. split; [split; [by vm_compute|]; intros []; vm_compute; lia|]. by vm_compute.
Qed.

(** ** A bounce *)
Definition sb : qsend :=
  set_wd (set_names (<[ lit "bounce/5" := 3 ]> (delete (lit "local/5/5") (names w)))
    (set_inodes (<[ 3 := Inode (lit "<bob@example.org>:" ++ [10%Z]) 100 100 ]> (inodes w)) w)) s0.


Lemma bounces_end_witness :
  answered 2 sb (run (injectbounce cfg bc be 5) sb) ∧
  map om_to (outbox (run (injectbounce cfg bc be 5) sb)) = [lit "joe@example.org"].
Proof.
  assert (Hi : names (wd sb) !! fnmake_bounce cfg 5 = Some 3) by (by vm_compute).
  split; [|by vm_compute].
  exact (bounces_end cfg bc be 5 sb 3 (Info (lit "joe@example.org") [] [] 100)
    (snd (getinfo cfg 5 sb)) Hi eq_refl).
Defined.
End Run.
