(* ===== verification/TodoProc.v ===== *)
(** * The preprocessor of the queue: [todo-proc.c]

    todo-proc finds the messages that qmail-queue has put in todo, splits the
    envelope of each into the files info, local and remote, has qmail-clean
    remove the envelope and tells qmail-send about the message.

    The static variables are one record.  The configuration modelled is the
    static queue ([dynamic_queue] = 0, so that [do_readsubdir] stays 1); POSIX
    message queues are not modelled.  [readsubdir] is modelled by the results of
    its successive calls, the constmaps by the functions they look up, [select]
    by what it returns, and [stralloc] appends succeed.  Output through [substdio]
    is written at once: a [substdio_put] and a [substdio_flush] may each fail. *)

From S2P Require Import Prelude LibQmail Filesys Fmtqfn SendState.

Record tproc := TProc {
  tw : world  (* files, pending failures, clock *);
  recent : Z;
  comm_buf : bytes  (* what is to be written to qmail-send *);
  comm_pos : nat;
  comm_count : Z;
  flagsendalive : bool;
  flagdetached : bool;
  flagexittodo : bool;
  flagreadasap : bool;
  flagtododir : bool;
  nexttodorun : Z;
  todo_interval : Z;
  use_fsync : Z;
  use_fdatasync : Z;
  envnoathost : bytes;
  mappercenthack : bytes → bool;
  maplocals : bytes → bool;
  mapvdoms : bytes → option bytes;
  mailfrom : bytes;
  mailto : bytes;
  todosubdir : list (Z * Z * option bytes)  (* results of the next calls of [readsubdir_next], with the name *);
  to_clean : list bytes  (* requests written to qmail-clean *);
  from_clean : list Z  (* replies qmail-clean will send; none left: end of file *);
  sent : bytes  (* bytes written to qmail-send *)
}.

Definition set_tw (v : world) (s : tproc) : tproc :=
  TProc v (recent s) (comm_buf s) (comm_pos s) (comm_count s) (flagsendalive s) (flagdetached s)
    (flagexittodo s) (flagreadasap s) (flagtododir s) (nexttodorun s) (todo_interval s)
    (use_fsync s) (use_fdatasync s) (envnoathost s) (mappercenthack s) (maplocals s) (mapvdoms
    s) (mailfrom s) (mailto s) (todosubdir s) (to_clean s) (from_clean s) (sent s).
Definition set_recent (v : Z) (s : tproc) : tproc :=
  TProc (tw s) v (comm_buf s) (comm_pos s) (comm_count s) (flagsendalive s) (flagdetached s)
    (flagexittodo s) (flagreadasap s) (flagtododir s) (nexttodorun s) (todo_interval s)
    (use_fsync s) (use_fdatasync s) (envnoathost s) (mappercenthack s) (maplocals s) (mapvdoms
    s) (mailfrom s) (mailto s) (todosubdir s) (to_clean s) (from_clean s) (sent s).
Definition set_comm_buf (v : bytes) (s : tproc) : tproc :=
  TProc (tw s) (recent s) v (comm_pos s) (comm_count s) (flagsendalive s) (flagdetached s)
    (flagexittodo s) (flagreadasap s) (flagtododir s) (nexttodorun s) (todo_interval s)
    (use_fsync s) (use_fdatasync s) (envnoathost s) (mappercenthack s) (maplocals s) (mapvdoms
    s) (mailfrom s) (mailto s) (todosubdir s) (to_clean s) (from_clean s) (sent s).
Definition set_comm_pos (v : nat) (s : tproc) : tproc :=
  TProc (tw s) (recent s) (comm_buf s) v (comm_count s) (flagsendalive s) (flagdetached s)
    (flagexittodo s) (flagreadasap s) (flagtododir s) (nexttodorun s) (todo_interval s)
    (use_fsync s) (use_fdatasync s) (envnoathost s) (mappercenthack s) (maplocals s) (mapvdoms
    s) (mailfrom s) (mailto s) (todosubdir s) (to_clean s) (from_clean s) (sent s).
Definition set_comm_count (v : Z) (s : tproc) : tproc :=
  TProc (tw s) (recent s) (comm_buf s) (comm_pos s) v (flagsendalive s) (flagdetached s)
    (flagexittodo s) (flagreadasap s) (flagtododir s) (nexttodorun s) (todo_interval s)
    (use_fsync s) (use_fdatasync s) (envnoathost s) (mappercenthack s) (maplocals s) (mapvdoms
    s) (mailfrom s) (mailto s) (todosubdir s) (to_clean s) (from_clean s) (sent s).
Definition set_flagsendalive (v : bool) (s : tproc) : tproc :=
  TProc (tw s) (recent s) (comm_buf s) (comm_pos s) (comm_count s) v (flagdetached s)
    (flagexittodo s) (flagreadasap s) (flagtododir s) (nexttodorun s) (todo_interval s)
    (use_fsync s) (use_fdatasync s) (envnoathost s) (mappercenthack s) (maplocals s) (mapvdoms
    s) (mailfrom s) (mailto s) (todosubdir s) (to_clean s) (from_clean s) (sent s).
Definition set_flagdetached (v : bool) (s : tproc) : tproc :=
  TProc (tw s) (recent s) (comm_buf s) (comm_pos s) (comm_count s) (flagsendalive s) v
    (flagexittodo s) (flagreadasap s) (flagtododir s) (nexttodorun s) (todo_interval s)
    (use_fsync s) (use_fdatasync s) (envnoathost s) (mappercenthack s) (maplocals s) (mapvdoms
    s) (mailfrom s) (mailto s) (todosubdir s) (to_clean s) (from_clean s) (sent s).
Definition set_flagexittodo (v : bool) (s : tproc) : tproc :=
  TProc (tw s) (recent s) (comm_buf s) (comm_pos s) (comm_count s) (flagsendalive s)
    (flagdetached s) v (flagreadasap s) (flagtododir s) (nexttodorun s) (todo_interval s)
    (use_fsync s) (use_fdatasync s) (envnoathost s) (mappercenthack s) (maplocals s) (mapvdoms
    s) (mailfrom s) (mailto s) (todosubdir s) (to_clean s) (from_clean s) (sent s).
Definition set_flagreadasap (v : bool) (s : tproc) : tproc :=
  TProc (tw s) (recent s) (comm_buf s) (comm_pos s) (comm_count s) (flagsendalive s)
    (flagdetached s) (flagexittodo s) v (flagtododir s) (nexttodorun s) (todo_interval s)
    (use_fsync s) (use_fdatasync s) (envnoathost s) (mappercenthack s) (maplocals s) (mapvdoms
    s) (mailfrom s) (mailto s) (todosubdir s) (to_clean s) (from_clean s) (sent s).
Definition set_flagtododir (v : bool) (s : tproc) : tproc :=
  TProc (tw s) (recent s) (comm_buf s) (comm_pos s) (comm_count s) (flagsendalive s)
    (flagdetached s) (flagexittodo s) (flagreadasap s) v (nexttodorun s) (todo_interval s)
    (use_fsync s) (use_fdatasync s) (envnoathost s) (mappercenthack s) (maplocals s) (mapvdoms
    s) (mailfrom s) (mailto s) (todosubdir s) (to_clean s) (from_clean s) (sent s).
Definition set_nexttodorun (v : Z) (s : tproc) : tproc :=
  TProc (tw s) (recent s) (comm_buf s) (comm_pos s) (comm_count s) (flagsendalive s)
    (flagdetached s) (flagexittodo s) (flagreadasap s) (flagtododir s) v (todo_interval s)
    (use_fsync s) (use_fdatasync s) (envnoathost s) (mappercenthack s) (maplocals s) (mapvdoms
    s) (mailfrom s) (mailto s) (todosubdir s) (to_clean s) (from_clean s) (sent s).
Definition set_todo_interval (v : Z) (s : tproc) : tproc :=
  TProc (tw s) (recent s) (comm_buf s) (comm_pos s) (comm_count s) (flagsendalive s)
    (flagdetached s) (flagexittodo s) (flagreadasap s) (flagtododir s) (nexttodorun s) v
    (use_fsync s) (use_fdatasync s) (envnoathost s) (mappercenthack s) (maplocals s) (mapvdoms
    s) (mailfrom s) (mailto s) (todosubdir s) (to_clean s) (from_clean s) (sent s).
Definition set_use_fsync (v : Z) (s : tproc) : tproc :=
  TProc (tw s) (recent s) (comm_buf s) (comm_pos s) (comm_count s) (flagsendalive s)
    (flagdetached s) (flagexittodo s) (flagreadasap s) (flagtododir s) (nexttodorun s)
    (todo_interval s) v (use_fdatasync s) (envnoathost s) (mappercenthack s) (maplocals s)
    (mapvdoms s) (mailfrom s) (mailto s) (todosubdir s) (to_clean s) (from_clean s) (sent s).
Definition set_use_fdatasync (v : Z) (s : tproc) : tproc :=
  TProc (tw s) (recent s) (comm_buf s) (comm_pos s) (comm_count s) (flagsendalive s)
    (flagdetached s) (flagexittodo s) (flagreadasap s) (flagtododir s) (nexttodorun s)
    (todo_interval s) (use_fsync s) v (envnoathost s) (mappercenthack s) (maplocals s) (mapvdoms
    s) (mailfrom s) (mailto s) (todosubdir s) (to_clean s) (from_clean s) (sent s).
Definition set_envnoathost (v : bytes) (s : tproc) : tproc :=
  TProc (tw s) (recent s) (comm_buf s) (comm_pos s) (comm_count s) (flagsendalive s)
    (flagdetached s) (flagexittodo s) (flagreadasap s) (flagtododir s) (nexttodorun s)
    (todo_interval s) (use_fsync s) (use_fdatasync s) v (mappercenthack s) (maplocals s)
    (mapvdoms s) (mailfrom s) (mailto s) (todosubdir s) (to_clean s) (from_clean s) (sent s).
Definition set_mappercenthack (v : bytes → bool) (s : tproc) : tproc :=
  TProc (tw s) (recent s) (comm_buf s) (comm_pos s) (comm_count s) (flagsendalive s)
    (flagdetached s) (flagexittodo s) (flagreadasap s) (flagtododir s) (nexttodorun s)
    (todo_interval s) (use_fsync s) (use_fdatasync s) (envnoathost s) v (maplocals s) (mapvdoms
    s) (mailfrom s) (mailto s) (todosubdir s) (to_clean s) (from_clean s) (sent s).
Definition set_maplocals (v : bytes → bool) (s : tproc) : tproc :=
  TProc (tw s) (recent s) (comm_buf s) (comm_pos s) (comm_count s) (flagsendalive s)
    (flagdetached s) (flagexittodo s) (flagreadasap s) (flagtododir s) (nexttodorun s)
    (todo_interval s) (use_fsync s) (use_fdatasync s) (envnoathost s) (mappercenthack s) v
    (mapvdoms s) (mailfrom s) (mailto s) (todosubdir s) (to_clean s) (from_clean s) (sent s).
Definition set_mapvdoms (v : bytes → option bytes) (s : tproc) : tproc :=
  TProc (tw s) (recent s) (comm_buf s) (comm_pos s) (comm_count s) (flagsendalive s)
    (flagdetached s) (flagexittodo s) (flagreadasap s) (flagtododir s) (nexttodorun s)
    (todo_interval s) (use_fsync s) (use_fdatasync s) (envnoathost s) (mappercenthack s)
    (maplocals s) v (mailfrom s) (mailto s) (todosubdir s) (to_clean s) (from_clean s) (sent s).
Definition set_mailfrom (v : bytes) (s : tproc) : tproc :=
  TProc (tw s) (recent s) (comm_buf s) (comm_pos s) (comm_count s) (flagsendalive s)
    (flagdetached s) (flagexittodo s) (flagreadasap s) (flagtododir s) (nexttodorun s)
    (todo_interval s) (use_fsync s) (use_fdatasync s) (envnoathost s) (mappercenthack s)
    (maplocals s) (mapvdoms s) v (mailto s) (todosubdir s) (to_clean s) (from_clean s) (sent s).
Definition set_mailto (v : bytes) (s : tproc) : tproc :=
  TProc (tw s) (recent s) (comm_buf s) (comm_pos s) (comm_count s) (flagsendalive s)
    (flagdetached s) (flagexittodo s) (flagreadasap s) (flagtododir s) (nexttodorun s)
    (todo_interval s) (use_fsync s) (use_fdatasync s) (envnoathost s) (mappercenthack s)
    (maplocals s) (mapvdoms s) (mailfrom s) v (todosubdir s) (to_clean s) (from_clean s) (sent
    s).
Definition set_todosubdir (v : list (Z * Z * option bytes)) (s : tproc) : tproc :=
  TProc (tw s) (recent s) (comm_buf s) (comm_pos s) (comm_count s) (flagsendalive s)
    (flagdetached s) (flagexittodo s) (flagreadasap s) (flagtododir s) (nexttodorun s)
    (todo_interval s) (use_fsync s) (use_fdatasync s) (envnoathost s) (mappercenthack s)
    (maplocals s) (mapvdoms s) (mailfrom s) (mailto s) v (to_clean s) (from_clean s) (sent s).
Definition set_to_clean (v : list bytes) (s : tproc) : tproc :=
  TProc (tw s) (recent s) (comm_buf s) (comm_pos s) (comm_count s) (flagsendalive s)
    (flagdetached s) (flagexittodo s) (flagreadasap s) (flagtododir s) (nexttodorun s)
    (todo_interval s) (use_fsync s) (use_fdatasync s) (envnoathost s) (mappercenthack s)
    (maplocals s) (mapvdoms s) (mailfrom s) (mailto s) (todosubdir s) v (from_clean s) (sent s).
Definition set_from_clean (v : list Z) (s : tproc) : tproc :=
  TProc (tw s) (recent s) (comm_buf s) (comm_pos s) (comm_count s) (flagsendalive s)
    (flagdetached s) (flagexittodo s) (flagreadasap s) (flagtododir s) (nexttodorun s)
    (todo_interval s) (use_fsync s) (use_fdatasync s) (envnoathost s) (mappercenthack s)
    (maplocals s) (mapvdoms s) (mailfrom s) (mailto s) (todosubdir s) (to_clean s) v (sent s).
Definition set_sent (v : bytes) (s : tproc) : tproc :=
  TProc (tw s) (recent s) (comm_buf s) (comm_pos s) (comm_count s) (flagsendalive s)
    (flagdetached s) (flagexittodo s) (flagreadasap s) (flagtododir s) (nexttodorun s)
    (todo_interval s) (use_fsync s) (use_fdatasync s) (envnoathost s) (mappercenthack s)
    (maplocals s) (mapvdoms s) (mailfrom s) (mailto s) (todosubdir s) (to_clean s) (from_clean
    s) v.

(** What [control_readint] leaves in a variable: it fails, finds no file, or
    reads a number. *)
Inductive tint := TErr | TAbsent | TSet (v : Z).

(** The control files, as [regetcontrols] reads them. *)
Record tcontrols := TControls {
  tc_locals : option (bytes → bool);
  tc_vdoms : option (option (bytes → option bytes));   (* error, no file, contents *)
  tc_interval : tint;
  tc_envnoathost : option bytes;
  tc_syncdir : tint; tc_fsync : tint; tc_fdatasync : tint
}.

(** [write] and [read] on the pipes from and to qmail-send. *)
Inductive twrite := TWrote (n : nat) | TPipe | TNone.
Inductive tread := TByte (c : Z) | TGone | TIntr.

(** One return of [select]. *)
Record tready := TReady {
  tr_trigger : bool;            (* [trigger_pulled] *)
  tr_write : option twrite;     (* qmail-send's pipe accepts bytes, and what [write] returns *)
  tr_read : option tread        (* qmail-send has sent something, and what [read] returns *)
}.
Inductive tselected := TSelIntr | TSelFail | TSelReady (r : tready).
Record tinputs := TInputs { ti_controls : option tcontrols; ti_select : tselected }.

Definition SLEEP_TODO : Z := 1500.

Notation "'TD' A" := (ST tproc A) (at level 10, A at next level, only parsing) : mta_scope.

(** A computation that may [goto fail]. *)
Definition ebind {S A B} (m : ST S (option A)) (k : A → ST S (option B)) : ST S (option B) :=
  r ← m; match r with Some a => k a | None => mret None end.
Notation "x ←! m ; k" := (ebind m (λ x, k)) (at level 20, m at level 100, k at level 200).
Notation "m ;;! k" := (ebind m (λ _, k)) (at level 100, k at level 200, right associativity).
Definition fail {S A} : ST S (option A) := mret None.

Section TodoProc.
Context {L : LibQmail} (cfg : config).
Context (argv0 mypid queuedesc : bytes) (error_str : errno → bytes).
Context (controldir auto_qmail : bytes).
Context (scan_int : bytes → Z).
Context (chunk_wait todo_chunk_size : Z).

Definition tsys {A} (m : ST world A) : TD A :=
  λ s, let '(a, w) := m (tw s) in (a, set_tw w s).

Definition emit (d : bytes) : TD unit := modify (λ s, set_comm_buf (comm_buf s ++ d) s).

(** A log line for qmail-send: the letter L, the strings, a zero byte. *)
Definition todo_log (l : list bytes) : TD unit := emit (lit "L" ++ mjoin l ++ [0%Z]).

Definition head_of (kind : bytes) : list bytes := [kind; argv0; lit ": "; queuedesc].
Definition nl : bytes := [c_lf].

(** The warnings of [todo_do]: what could not be done with which file. *)
Definition warn (what fn : bytes) (e : errno) : TD unit :=
  todo_log (head_of (lit "warn: ") ++ [lit ": "; what; fn; lit ": "; error_str e; nl]).

(** ** Signals and the end of the process *)

Definition sighup : TD unit :=
  modify (set_flagreadasap true);;
  todo_log [lit "alert: "; argv0; lit ": pid "; mypid; lit " got HUP: "; queuedesc; nl].

Definition senddied : TD unit := modify (set_flagsendalive false).

Definition comm_exit : TD unit := emit (lit "X" ++ [0%Z]).

(** The part that [sigterm] and [exit_todo] share. *)
Definition stop_asap : TD unit :=
  s ← getS;
  when (negb (flagexittodo s))
    (todo_log (head_of (lit "info: ") ++ [lit " stop todo processing asap"; nl]));;
  modify (set_flagexittodo true);;
  comm_exit.

Definition sigterm : TD unit :=
  todo_log [lit "alert: "; argv0; lit ": pid "; mypid; lit " got TERM: "; queuedesc; nl];;
  stop_asap.

Definition exit_todo : TD unit :=
  todo_log [lit "alert: "; argv0; lit ": pid "; mypid; lit " ordered to quit by qmail-send: ";
            queuedesc; nl];;
  stop_asap.

Definition cleandied : TD unit :=
  todo_log (head_of (lit "alert: ") ++ [lit ": oh no! lost qmail-clean connection! dying..."; nl]);;
  modify (set_flagexittodo true);;
  comm_exit.

(** ** Addresses *)

(** The loop over percenthack domains: while the domain after position [i] is
    one, the last percent sign before [i] becomes the at sign. *)
Fixpoint percent_loop (percenthack : bytes → bool) (fuel : nat) (addr : bytes) (i : nat) : bytes :=
  match fuel with
  | 0 => addr
  | S fuel =>
    if percenthack (drop (i + 1) addr) then
      let j := byte_rchr (take i addr) 37 in
      if decide (j = i) then addr
      else percent_loop percenthack fuel (<[j := c_at]> (take i addr)) j
    else addr
  end.

(** The search for a virtual domain, from position [i] on. *)
Fixpoint vdom_loop (vdoms : bytes → option bytes) (addr : bytes) (at_ n i : nat) : option bytes :=
  match n with
  | 0 => None
  | S n =>
    if decide (i = 0 ∨ i = at_ + 1 ∨ i = length addr ∨ (at_ < i ∧ addr !! i = Some c_dot)) then
      match vdoms (drop i addr) with
      | Some x => if decide (x = []) then None else Some x
      | None => vdom_loop vdoms addr at_ n (S i)
      end
    else vdom_loop vdoms addr at_ n (S i)
  end.

(** The address after the defaults and the percent hack. *)
Definition qualify (s : tproc) (recip : bytes) : bytes :=
  let i := byte_rchr recip c_at in
  let addr := if decide (i = length recip) then recip ++ lit "@" ++ envnoathost s else recip in
  percent_loop (mappercenthack s) (S (length recip)) addr i.

(** The line for the channel file, [rwline], and the result: 1 by land, 2 by sea. *)
Definition rewrite (s : tproc) (recip : bytes) : bytes * Z :=
  let addr := qualify s recip in
  let at_ := byte_rchr addr c_at in
  if maplocals s (drop (at_ + 1) addr) then (lit "T" ++ addr ++ [0%Z], 1%Z)
  else match vdom_loop (mapvdoms s) addr at_ (S (length addr)) 0 with
       | Some x => (lit "T" ++ x ++ lit "-" ++ addr ++ [0%Z], 1%Z)
       | None => (lit "T" ++ addr ++ [0%Z], 2%Z)
       end.

Definition issafe (ch : Z) : bool :=
  negb (bool_decide (ch = 37%Z ∨ schar ch < 33 ∨ 126 < schar ch)%Z).

(** ** Messages to qmail-send *)

Definition comm_canwrite (s : tproc) : bool :=
  flagsendalive s && negb (bool_decide (comm_buf s = [])).

(** The message that tells qmail-send which channel files a message has. *)
Definition announcement (id : Z) (local remote : bool) : bytes :=
  let letter := if local && remote then lit "B" else if local then lit "L"
                else if remote then lit "R" else lit "X" in
  lit "D" ++ letter ++ fmt_ulong id ++ [0%Z].

Definition comm_write (id : Z) (local remote : bool) : TD unit :=
  s ← getS;
  if flagdetached s then skip else emit (announcement id local remote).

Definition sanitize (c : Z) : Z :=
  if decide (c = c_lf) then c_slash else if issafe c then c else 95%Z.

Definition comm_info (id size : Z) (from : bytes) (pid uid : Z) : TD unit :=
  modify (λ s, set_comm_count (comm_count s + 1)%Z s);;
  emit (lit "Linfo msg " ++ fmt_ulong id ++ lit ": bytes " ++ fmt_ulong size ++ lit " from <" ++
        map sanitize from ++
        lit "> qp " ++ fmt_ulong pid ++ lit " uid " ++ fmt_ulong uid ++ lit " " ++ queuedesc ++ nl ++
        [0%Z]).

Definition comm_selprep : TD unit :=
  s ← getS;
  when (flagsendalive s && flagexittodo s && negb (comm_canwrite s)) comm_exit.

Definition comm_send (w : twrite) : TD unit :=
  s ← getS;
  match w with
  | TNone => skip
  | TPipe => senddied
  | TWrote n =>
    modify (λ s, set_sent (sent s ++ take n (drop (comm_pos s) (comm_buf s)))
                 (set_comm_pos (comm_pos s + n) s));;
    when (bool_decide (comm_pos s + n = length (comm_buf s)))
      (modify (λ s, set_comm_buf [] (set_comm_pos 0 (set_comm_count 0 s))))
  end.

Definition comm_recv (r : tread) : TD unit :=
  match r with
  | TIntr => skip
  | TGone => senddied
  | TByte 65%Z (* A *) =>
    modify (set_flagdetached false);;
    todo_log [lit "alert: "; argv0; lit ": pid "; mypid;
              lit " got 'A' command: todo-proc attached: "; queuedesc; nl]
  | TByte 68%Z (* D *) =>
    modify (set_flagdetached true);;
    todo_log [lit "alert: "; argv0; lit ": pid "; mypid;
              lit " got 'D' command: todo-proc detached: "; queuedesc; nl]
  | TByte 72%Z (* H *) => sighup
  | TByte 88%Z (* X *) => exit_todo
  | TByte _ =>
    todo_log (head_of (lit "warn: ") ++ [lit ": qmail-send speaks an obscure dialect"; nl])
  end.

Definition comm_do (r : tready) : TD unit :=
  s ← getS;
  match tr_write r with
  | Some w => when (flagsendalive s && comm_canwrite s) (comm_send w)
  | None => skip
  end;;
  s ← getS;
  match tr_read r with
  | Some d => when (flagsendalive s) (comm_recv d)
  | None => skip
  end.

(** ** Finding messages *)

(** The trigger is opened as well. *)
Definition todo_init : TD unit :=
  t ← tsys now; modify (λ s, set_flagtododir false (set_nexttodorun t s)).

Definition todo_selprep (s : tproc) (wakeup : Z) : Z :=
  if flagexittodo s then wakeup
  else
    let wakeup := if flagtododir s then 0%Z else wakeup in
    if decide (nexttodorun s < wakeup)%Z then nexttodorun s else wakeup.

Fixpoint stat_lines (fuel : nat) (id nbytes : Z) (mailfrom p : bytes) : TD unit :=
  match fuel with
  | 0 => skip
  | S fuel =>
    match p with
    | [] => skip
    | ch :: _ =>
      let rcpt := cstr (drop 2 p) in
      todo_log [if decide (ch = 76%Z) then lit "local: " else lit "remote: ";
                if decide (3 < length mailfrom) then cstr (tail mailfrom) else lit "<>";
                lit " "; if decide (rcpt = []) then lit "<>" else rcpt;
                lit " " ++ fmt_ulong id; lit " " ++ fmt_ulong nbytes; lit " bytes "; queuedesc;
                lit " opendir mode"; nl];;
      stat_lines fuel id nbytes mailfrom (drop (str_len (cstr p) + 1) p)
    end
  end.

Definition log_stat (id nbytes : Z) : TD unit :=
  s ← getS;
  stat_lines (length (mailto s)) id nbytes (mailfrom s) (mailto s);;
  modify (λ s, set_mailfrom [] (set_mailto [] s)).

Definition readsubdir_next : TD (Z * Z * option bytes) := λ s,
  match todosubdir s with
  | [] => ((0, 0, None)%Z, s)
  | e :: r => (e, set_todosubdir r s)
  end.

(** The result of [todo_scan], or the message it found with its name. *)
Definition todo_scan (trigger : bool) : TD (Z + Z * option bytes) :=
  s ← getS;
  if decide (0 < todo_interval s ∧ recent s < nexttodorun s)%Z then mret (inl 1%Z)
  else if negb (flagtododir s) && negb trigger && bool_decide (recent s < nexttodorun s)%Z
  then mret (inl 1%Z)
  else
    when (negb (flagtododir s))
      (modify (λ s, set_flagtododir true
         (set_nexttodorun (recent s + (if decide (0 < todo_interval s) then todo_interval s
                                       else SLEEP_TODO))%Z s)));;
    e ← readsubdir_next;
    let '(r, id, name) := e in
    if decide (r = 1%Z) then mret (inr (id, name))
    else when (bool_decide (r = 0%Z)) (modify (set_flagtododir false));; mret (inl (-1)%Z).

(** ** One message *)

(** [unlink], when the file is there. *)
Definition clear (fn : bytes) : TD (option unit) :=
  r ← tsys (unlink fn);
  match r with
  | inl EOTHER | inl EEXIST => warn (lit "unable to unlink ") fn EOTHER;; fail
  | _ => mret (Some tt)
  end.

Definition create_file (fn : bytes) : TD (option nat) :=
  r ← tsys (open_excl fn);
  match r with
  | inl e => warn (lit "unable to create ") fn e;; fail
  | inr i => mret (Some i)
  end.

Definition put (i : nat) (fn d : bytes) : TD (option unit) :=
  r ← tsys (append i d);
  match r with
  | inl e => warn (lit "trouble writing to ") fn e;; fail
  | inr _ => mret (Some tt)
  end.

Definition flush (fn : bytes) : TD (option unit) :=
  bad ← tsys fault;
  if bad : bool then warn (lit "trouble writing to ") fn EOTHER;; fail else mret (Some tt).

Definition sync (fn : bytes) : TD (option unit) :=
  s ← getS;
  if decide (0 < use_fsync s ∨ 0 < use_fdatasync s)%Z then
    bad ← tsys fault;
    if bad : bool then warn (lit "trouble fsyncing ") fn EOTHER;; fail else mret (Some tt)
  else mret (Some tt).

(** What the loop over the envelope keeps: the file named by [fn], the user and
    process numbers, and the open channel files. *)
Record scanning := Scanning {
  sc_fn : bytes; sc_uid : Z; sc_pid : Z; sc_chan : channel → option nat
}.

(** The record T: the recipient goes to the file of its channel. *)
Definition todo_recipient (id : Z) (line : bytes) (x : scanning) : TD (option scanning) :=
  s ← getS;
  let '(rwline, r) := rewrite s (cstr (tail line)) in
  let c := if decide (r = 2%Z) then Remote else Local in
  modify (λ s, set_mailto (mailto s ++ (if decide (r = 2%Z) then lit "R" else lit "L") ++ line) s);;
  x ←! match sc_chan x c with
       | Some _ => mret (Some x)
       | None =>
         i ←! create_file (fnmake_chanaddr cfg id c);
         mret (Some (Scanning (fnmake_chanaddr cfg id c) (sc_uid x) (sc_pid x)
                       (upd (sc_chan x) c (Some i))))
       end;
  match sc_chan x c with
  | Some i => put i (fnmake_chanaddr cfg id c) rwline;;! mret (Some x)
  | None => fail
  end.

(** One record of the envelope. *)
Definition todo_record (id size : Z) (fdinfo : nat) (line : bytes) (x : scanning)
    : TD (option scanning) :=
  match head line with
  | Some 117%Z (* u *) =>
    mret (Some (Scanning (sc_fn x) (snd (scan_ulong (cstr (tail line)))) (sc_pid x) (sc_chan x)))
  | Some 112%Z (* p *) =>
    mret (Some (Scanning (sc_fn x) (sc_uid x) (snd (scan_ulong (cstr (tail line)))) (sc_chan x)))
  | Some 104%Z (* h *) | Some 101%Z (* e *) => put fdinfo (sc_fn x) line;;! mret (Some x)
  | Some 70%Z (* F *) =>
    put fdinfo (sc_fn x) line;;!
    modify (set_mailfrom (line ++ [0%Z]));;
    comm_info id size (cstr (tail line)) (sc_pid x) (sc_uid x);;
    mret (Some x)
  | Some 84%Z (* T *) => todo_recipient id line x
  | _ => warn (lit "unknown record type in ") (fnmake_todo cfg id) EOTHER;; fail
  end.

(** The loop over the envelope, of which [fuel] bounds the records. *)
Fixpoint todo_loop (fuel : nat) (id size : Z) (fd fdinfo pos : nat) (x : scanning)
    : TD (option scanning) :=
  match fuel with
  | 0 => fail
  | S fuel =>
    l ← tsys (getln fd pos);
    match l with
    | None => warn (lit "trouble reading ") (fnmake_todo cfg id) EOTHER;; fail
    | Some (_, false) => mret (Some x)
    | Some (line, true) =>
      x ←! todo_record id size fdinfo line x;
      todo_loop fuel id size fd fdinfo (pos + length line) x
    end
  end.

(** For the channels that have a file, in order. *)
Fixpoint each_chan (f : channel → TD (option unit)) (cs : list channel) (fds : channel → option nat)
    : TD (option unit) :=
  match cs with
  | [] => mret (Some tt)
  | c :: cs =>
    match fds c with Some _ => f c | None => mret (Some tt) end;;!
    each_chan f cs fds
  end.

(** From the envelope [fd] to complete info and channel files; the channels that
    have one. *)
Definition todo_split (id size : Z) (fd : nat) : TD (option (channel → option nat)) :=
  clear (fnmake_chanaddr cfg id Local);;!
  clear (fnmake_chanaddr cfg id Remote);;!
  clear (fnmake_info cfg id);;!
  fdinfo ←! create_file (fnmake_info cfg id);
  todo_log [lit "new msg "; fmt_ulong id; lit " "; queuedesc; nl];;
  st ← tsys (read_inode fd);
  x ←! todo_loop (S (length (i_data st))) id size fd fdinfo 0
         (Scanning (fnmake_info cfg id) 0 0 (λ _, None));
  flush (fnmake_info cfg id);;!
  each_chan (λ c, flush (fnmake_chanaddr cfg id c)) channels (sc_chan x);;!
  sync (fnmake_info cfg id);;!
  each_chan (λ c, sync (fnmake_chanaddr cfg id c)) channels (sc_chan x);;!
  mret (Some (sc_chan x)).

(** The reply of qmail-clean, or the end of the connection. *)
Definition clean_reply : TD (option Z) := λ s,
  match from_clean s with
  | [] => (None, s)
  | ch :: r => (Some ch, set_from_clean r s)
  end.

(** Have the envelope removed, and tell qmail-send. *)
Definition todo_publish (id size : Z) (fds : channel → option nat) : TD Z :=
  bad ← tsys fault;
  if bad : bool then cleandied;; mret (-1)%Z
  else
    modify (λ s, set_to_clean (to_clean s ++ [fnmake_todo cfg id ++ [0%Z]]) s);;
    ch ← clean_reply;
    match ch with
    | None => cleandied;; mret (-1)%Z
    | Some ch =>
      if decide (ch ≠ c_plus) then
        warn (lit "qmail-clean unable to clean up ") (fnmake_todo cfg id) EOTHER;; mret (-1)%Z
      else
        comm_write id (bool_decide (is_Some (fds Local))) (bool_decide (is_Some (fds Remote)));;
        log_stat id size;;
        s ← getS;
        mret (if flagtododir s
              then if decide (Z.rem (comm_count s) todo_chunk_size = 0) then 3 else 2
              else 4)%Z
    end.

(** The directory of the message is where [fmtqfn] looks for it. *)
Definition right_split (id : Z) (name : option bytes) : TD bool :=
  match name with
  | None => mret true
  | Some ptr =>
    let fn := fnmake_todo cfg id in
    let ok := bool_decide (scan_int ptr = scan_int (drop 5 fn)) in
    todo_log (head_of (if ok then lit "info: " else lit "warn: ") ++
              [lit ": subdir=todo/"; ptr; lit " fn="; fn;
               if ok then nl else lit " incorrect split" ++ nl]);;
    mret ok
  end.

Definition todo_message (id : Z) (name : option bytes) : TD Z :=
  ok ← right_split id name;
  if negb ok : bool then mret (-1)%Z
  else
    fd ← tsys (open_read (fnmake_todo cfg id));
    match fd with
    | inl e => warn (lit "open ") (fnmake_todo cfg id) e;; mret (-1)%Z
    | inr fd =>
      st ← tsys (stat (fnmake_mess cfg id));
      match st with
      | inl e => warn (lit "unable to stat ") (fnmake_mess cfg id) e;; mret (-1)%Z
      | inr st =>
        let size := Z.of_nat (length (i_data st)) in
        r ← todo_split id size fd;
        match r with
        | None => mret (-1)%Z
        | Some fds => todo_publish id size fds
        end
      end
    end.

Definition todo_do (trigger : bool) : TD Z :=
  s ← getS;
  if flagexittodo s then mret 0%Z
  else
    r ← todo_scan trigger;
    match r with
    | inl i => mret i
    | inr (id, name) => todo_message id name
    end.

(** ** Control files *)

(** The log line of [regetcontrols] about a file, and its return. *)
Definition unable (what file : bytes) : TD (option unit) :=
  todo_log (head_of (lit "alert: ") ++ [what; controldir; file; nl]);; fail.

(** What [control_readint] does to a variable. *)
Definition read_int (set : Z → tproc → tproc) (file : bytes) (v : tint) : TD (option unit) :=
  match v with
  | TErr => unable (lit ": unable to reread ") file
  | TAbsent => mret (Some tt)
  | TSet v => modify (set v);; mret (Some tt)
  end.

Definition regetcontrols (ct : tcontrols) : TD (option unit) :=
  match tc_locals ct, tc_vdoms ct with
  | None, _ => unable (lit ": unable to reread ") (lit "/locals")
  | _, None => unable (lit ": reread ") (lit "/virtualdomains")
  | Some locals, Some vdoms =>
    read_int set_todo_interval (lit "/todointerval") (tc_interval ct);;!
    match tc_envnoathost ct with
    | None => unable (lit ": unable to reread ") (lit "/envnoathost")
    | Some h => modify (set_envnoathost h);; mret (Some tt)
    end;;!
    read_int (λ _ s, s) (lit "/conf-syncdir") (tc_syncdir ct);;!
    read_int set_use_fsync (lit "/conf-fsync") (tc_fsync ct);;!
    read_int set_use_fdatasync (lit "/conf-fdatasync") (tc_fdatasync ct);;!
    modify (set_maplocals locals);;
    modify (set_mapvdoms (default (λ _, None) vdoms));;
    mret (Some tt)
  end.

(** [None]: the directory of the control files could not be entered.  The way
    back to the queue directory is retried until it succeeds. *)
Definition reread (ct : option tcontrols) : TD unit :=
  match ct with
  | None =>
    todo_log (head_of (lit "alert: ") ++
              [lit ": cannot start: unable to switch to "; auto_qmail; lit ": "; error_str EOTHER; nl])
  | Some ct => _ ← regetcontrols ct; skip
  end.

(** ** The main loop *)

Fixpoint todo_run (fuel : nat) (trigger : bool) : TD unit :=
  match fuel with
  | 0 => skip
  | S fuel => r ← todo_do trigger; if decide (r = 2%Z) then todo_run fuel trigger else skip
  end.

(** Every call that returns 2 takes an entry of the directory. *)
Definition todo_serve (r : tready) : TD unit :=
  t ← tsys now;
  modify (set_recent t);;
  s ← getS;
  todo_run (S (length (todosubdir s))) (tr_trigger r);;
  comm_do r.

(** The time [select] may wait. *)
Definition todo_timeout (s : tproc) : Z :=
  let wakeup := todo_selprep s (recent s + SLEEP_FOREVER)%Z in
  if decide (wakeup ≤ recent s)%Z then 0%Z else (wakeup - recent s + chunk_wait)%Z.

(** The exit code, when the process ends. *)
Definition todo_iteration (i : tinputs) : TD (option Z) :=
  t ← tsys now;
  modify (set_recent t);;
  s ← getS;
  when (flagreadasap s) (modify (set_flagreadasap false);; reread (ti_controls i));;
  s ← getS;
  if negb (flagsendalive s) then mret (Some (if flagexittodo s then 0%Z else 1%Z))
  else
    comm_selprep;;
    match ti_select i with
    | TSelIntr => skip
    | TSelFail =>
      todo_log (head_of (lit "warn: ") ++ [lit ": trouble in select"; nl])
    | TSelReady r => todo_serve r
    end;;
    mret None.

Fixpoint todo_main (l : list tinputs) : TD (option Z) :=
  match l with
  | [] => mret None
  | i :: l => r ← todo_iteration i; match r with Some e => mret (Some e) | None => todo_main l end
  end.
End TodoProc.
