(* ===== verification/TodoAddresses.v ===== *)
(** * How todo-proc addresses a message

    The rewriting of recipients, and that qmail-send undoes it. *)

From S2P Require Import Prelude LibQmail Filesys Fmtqfn SendState SendDeliver TodoProc.

Section TodoAddresses.
Context {L : LibQmail} {LL : LibQmailLaws L}.

(** ** The percent hack *)

(** One step of the percent hack, on an address given as the parts before and
    after its at sign: at a domain of percenthack, what follows the last percent
    sign is the domain. *)
Inductive hack (ph : bytes → bool) : bytes * bytes → bytes * bytes → Prop :=
| hack_step u d h : ph h = true → 37%Z ∉ d → hack ph (u ++ 37%Z :: d, h) (u, d).

(** The two parts of a recipient; without an at sign the domain is [host]. *)
Definition parts (host recip : bytes) (bd : bytes * bytes) : Prop :=
  (recip = bd.1 ++ c_at :: bd.2 ∧ (c_at ∉ bd.2)) ∨ ((c_at ∉ recip) ∧ bd = (recip, host)).

(** The loop makes such steps until there is none. *)
Lemma percent_loop_hack ph fuel box dom : length box < fuel →
  ∃ bd, rtc (hack ph) (box, dom) bd ∧ nf (hack ph) bd ∧
    percent_loop ph fuel (box ++ c_at :: dom) (length box) = bd.1 ++ c_at :: bd.2.
Proof.
  revert box dom. induction fuel as [|fuel IH]; intros box dom Hf; [lia|]. cbn [percent_loop].
  rewrite drop_app_ge, take_app_length by lia.
  replace (length box + 1 - length box) with 1 by lia. cbn [drop]. rewrite drop_0.
  destruct (ph dom) eqn:Hp.
  2:{ exists (box, dom). split_and!; [apply rtc_refl| |done]. intros [? Hh]. inversion Hh; congruence. }
  rewrite byte_rchr_ok. destruct (decide (37%Z ∈ box)) as [Hin|Hin].
  - apply rindex_split in Hin as (u & d & -> & Hd & ->).
    rewrite decide_False by (rewrite length_app; simpl; lia).
    rewrite insert_app_r_alt, Nat.sub_diag by lia. cbn.
    destruct (IH u d) as (bd & Hr & Hn & ->); [rewrite length_app in Hf; simpl in Hf; lia|].
    exists bd. split_and!; [|done..]. eapply rtc_l; [by constructor|done].
  - rewrite rindex_of_none, decide_True by done. exists (box, dom). split_and!; [done| |done].
    intros [? Hh]. inversion Hh; subst. set_solver.
Qed.

Lemma qualify_hack s recip :
  ∃ bd bd', parts (envnoathost s) recip bd ∧
    rtc (hack (mappercenthack s)) bd bd' ∧ nf (hack (mappercenthack s)) bd' ∧
    qualify s recip = bd'.1 ++ c_at :: bd'.2.
Proof.
  unfold qualify, parts. rewrite !byte_rchr_ok. destruct (decide (c_at ∈ recip)) as [Hin|Hin].
  - apply rindex_split in Hin as (box & dom & -> & Hd & ->). exists (box, dom).
    rewrite decide_False by (rewrite length_app; simpl; lia).
    destruct (percent_loop_hack (mappercenthack s) (S (length (box ++ c_at :: dom))) box dom)
      as (bd & Hb); [rewrite length_app; simpl; lia|]. exists bd. split; [by left|done].
  - rewrite rindex_of_none, decide_True by done. exists (recip, envnoathost s).
    destruct (percent_loop_hack (mappercenthack s) (S (length recip)) recip (envnoathost s))
      as (bd & Hb); [lia|]. exists bd. split; [by right|done].
Qed.

(** ** Virtual domains *)

(** The entries of virtualdomains that may have a domain besides the domain
    itself: the parts from a dot on, the longest first, and the empty one. *)
Fixpoint parents (dom : bytes) : list bytes :=
  match dom with
  | [] => [[]]
  | c :: r => (if decide (c = c_dot) then [dom] else []) ++ parents r
  end.

(** All of them, in the order in which they count: the whole address first. *)
Definition candidates (addr dom : bytes) : list bytes := addr :: dom :: parents dom.

(** The entry that counts. *)
Definition virtual_entry (vdoms : bytes → option bytes) (addr dom : bytes) : option bytes :=
  head (omap vdoms (candidates addr dom)).

(** An entry without a prefix says that the domain is not virtual. *)
Definition prefix_of_entry (e : option bytes) : option bytes :=
  match e with Some [] => None | _ => e end.

(** The search in the domain, from one past the at sign on. *)
Lemma vdom_loop_domain vdoms addr at_ n i :
  0 < i ≤ at_ + 1 → at_ < length addr → n + i = S (length addr) →
  vdom_loop vdoms addr at_ n i = vdom_loop vdoms addr at_ (length addr - at_) (at_ + 1).
Proof.
  revert i. induction n as [|n IH]; intros i Hi Hat Hn; [lia|].
  destruct (decide (i = at_ + 1)) as [->|].
  { by replace (length addr - at_) with (S n) by lia. }
  cbn [vdom_loop]. rewrite decide_False by lia. apply IH; lia.
Qed.

Lemma prefix_found (vdoms : bytes → option bytes) a l r :
  prefix_of_entry (head (omap vdoms l)) = r →
  match vdoms a with Some x => if decide (x = []) then None else Some x | None => r end =
  prefix_of_entry (head (omap vdoms (a :: l))).
Proof. intros <-. cbn. by destruct (vdoms a) as [[|]|]. Qed.

Lemma vdom_loop_S vdoms addr at_ n i :
  vdom_loop vdoms addr at_ (S n) i =
    if decide (i = 0 ∨ i = at_ + 1 ∨ i = length addr ∨ (at_ < i ∧ addr !! i = Some c_dot)) then
      match vdoms (drop i addr) with
      | Some x => if decide (x = []) then None else Some x
      | None => vdom_loop vdoms addr at_ n (S i)
      end
    else vdom_loop vdoms addr at_ n (S i).
Proof. done. Qed.

(** Behind the first position of the domain. *)
Lemma vdom_loop_parents vdoms at_ a dom : S at_ < length a →
  vdom_loop vdoms (a ++ dom) at_ (S (length dom)) (length a) =
    prefix_of_entry (head (omap vdoms (parents dom))).
Proof.
  revert a. induction dom as [|c r IH]; intros a Ha; cbn [length]; rewrite vdom_loop_S.
  - rewrite app_nil_r, decide_True, drop_all by lia. by apply (prefix_found vdoms [] []).
  - specialize (IH (a ++ [c])). rewrite <- (assoc_L app), length_app in IH. cbn [length] in IH.
    cbn [app] in IH. replace (length a + 1) with (S (length a)) in IH by lia.
    rewrite drop_app_length, lookup_app_r, Nat.sub_diag, length_app by done. cbn [lookup list_lookup].
    destruct (decide (c = c_dot)) as [->|Hc].
    + rewrite decide_True by (right; right; right; split; [lia|done]).
      rewrite IH by lia. by apply (prefix_found vdoms (c_dot :: r) (parents r)).
    + rewrite decide_False by (simpl; intros Hd; destruct_or?; naive_solver lia).
      cbn [parents]. rewrite decide_False by done. apply IH. lia.
Qed.

(** The loop finds the prefix of the entry that counts. *)
Lemma vdom_loop_entry vdoms box dom :
  let addr := box ++ c_at :: dom in
  vdom_loop vdoms addr (length box) (S (length addr)) 0 =
    prefix_of_entry (virtual_entry vdoms addr dom).
Proof.
  cbv zeta. rewrite vdom_loop_S, decide_True, drop_0 by lia. apply prefix_found. symmetry.
  rewrite vdom_loop_domain by (rewrite ?length_app; simpl; lia).
  replace (length (box ++ c_at :: dom) - length box) with (S (length dom))
    by (rewrite length_app; simpl; lia).
  rewrite vdom_loop_S, decide_True by lia.
  rewrite drop_app_ge by lia. replace (length box + 1 - length box) with 1 by lia. cbn [drop]. rewrite drop_0.
  unfold virtual_entry, candidates. destruct dom as [|c r].
  - cbn. by destruct (vdoms []) as [[|]|].
  - pose proof (vdom_loop_parents vdoms (length box) (box ++ [c_at; c]) r) as H.
    rewrite <- (assoc_L app), length_app in H. cbn [app length] in H. cbn [length].
    replace (S (length box + 1)) with (length box + 2) by lia. rewrite H by lia.
    cbn [omap list_omap parents head]. destruct (vdoms (c :: r)) as [[|]|] eqn:E; [done..|].
    case_decide; [|done]. cbn. by rewrite E.
Qed.

(** qmail-send searches the domain of the address in the same order. *)
Lemma strip_loop_vdom vdoms x box dom n i :
  let addr := box ++ c_at :: dom in
  n + i = S (length dom) →
  vdom_loop vdoms addr (length box) n (length box + 1 + i) = Some x →
  strip_loop vdoms (x ++ c_minus :: addr) dom n i = addr.
Proof.
  cbv zeta. revert i. induction n as [|n IH]; intros i Hn Hv; [done|].
  cbn [strip_loop vdom_loop] in *.
  assert (Hdrop : drop (length box + 1 + i) (box ++ c_at :: dom) = drop i dom).
  { rewrite drop_app_ge by lia. by replace (length box + 1 + i - length box) with (S i) by lia. }
  assert (Hlook : (box ++ c_at :: dom) !! (length box + 1 + i) = head (drop i dom)).
  { rewrite head_lookup, lookup_drop, Nat.add_0_r, lookup_app_r by lia.
    by replace (length box + 1 + i - length box) with (S i) by lia. }
  rewrite Hdrop, Hlook, length_app in Hv. simpl length in Hv.
  assert (Hiff : (length box + 1 + i = 0 ∨ length box + 1 + i = length box + 1 ∨
      length box + 1 + i = length box + S (length dom) ∨
      (length box < length box + 1 + i ∧ head (drop i dom) = Some c_dot)) ↔
      (i = 0 ∨ drop i dom = [] ∨ head (drop i dom) = Some c_dot)).
  { assert (drop i dom = [] ↔ i = length dom) as ->; [|intuition lia].
    split; [|intros ->; apply drop_all].
    intros E. apply (f_equal length) in E. rewrite length_drop in E. simpl in E. lia. }
  destruct (decide (length box + 1 + i = 0 ∨ _)) as [Hc|Hc]; rewrite Hiff in Hc.
  - rewrite decide_True by done. destruct (vdoms (drop i dom)) as [y|]; [|apply IH; [lia|]].
    + case_decide; [done|]. injection Hv as ->.
      rewrite str_len_ok, take_app_length, decide_False by (intros Hne; by apply Hne).
      rewrite lookup_app_r, Nat.sub_diag, decide_False by (try lia; intros Hne; by apply Hne).
      rewrite drop_app_ge by lia. by replace (length x + 1 - length x) with 1 by lia.
    + by replace (length box + 1 + S i) with (S (length box + 1 + i)) by lia.
  - rewrite decide_False by done. apply IH; [lia|].
    by replace (length box + 1 + S i) with (S (length box + 1 + i)) by lia.
Qed.

(** ** The line of a recipient *)

Lemma rewrite_virtual vdoms box dom x : c_at ∉ dom →
  let addr := box ++ c_at :: dom in
  prefix_of_entry (virtual_entry vdoms addr dom) = Some x → vdoms addr = None →
  stripvdomprepend vdoms (x ++ lit "-" ++ addr) = addr.
Proof.
  cbv zeta. intros Hd Hv Hn. rewrite <- vdom_loop_entry in Hv.
  rewrite vdom_loop_S, decide_True, drop_0, Hn in Hv by lia.
  rewrite (vdom_loop_domain _ _ (length box)) in Hv; try (rewrite ?length_app; simpl; lia).
  unfold stripvdomprepend. rewrite str_rchr_ok.
  change (lit "-" ++ box ++ c_at :: dom) with (c_minus :: box ++ c_at :: dom).
  assert (rindex_of c_at (x ++ c_minus :: box ++ c_at :: dom) = length (x ++ c_minus :: box)) as ->.
  { rewrite app_comm_cons, (assoc_L app). by apply rindex_of_app. }
  rewrite decide_False by (rewrite !length_app; simpl; rewrite length_app; simpl; lia).
  rewrite app_comm_cons, (assoc_L app), drop_app_ge by lia.
  replace (length (x ++ c_minus :: box) + 1 - length (x ++ c_minus :: box)) with 1 by lia.
  change (drop 1 (c_at :: dom)) with dom.
  rewrite <- (assoc_L app), <- app_comm_cons, str_len_ok. apply strip_loop_vdom; [lia|].
  rewrite Nat.add_0_r. rewrite <- Hv. f_equal. rewrite length_app. simpl. lia.
Qed.

(** C11. The line that [rewrite] writes for a recipient.  The recipient is split
    at its last at sign, or has the default host behind it, and percent hacks are
    undone until there is none.  The address so completed goes to the local
    channel when its domain is local.  Otherwise the first of the whole address,
    the domain, the parts of the domain from a dot on from the longest, and the
    empty domain that has an entry in virtualdomains decides: an entry with a
    prefix puts the prefix before the address and sends it to the local channel;
    with an entry without a prefix, or no entry, the address goes to the remote
    channel.  When there is a prefix and no entry for the whole address, what
    qmail-send writes into a bounce for the line is the completed address again. *)
Theorem rewrite_channels s recip :
  ∃ bd bd' box dom, let addr := bd'.1 ++ c_at :: bd'.2 in
    parts (envnoathost s) recip bd ∧
    rtc (hack (mappercenthack s)) bd bd' ∧ nf (hack (mappercenthack s)) bd' ∧
    addr = box ++ c_at :: dom ∧ (c_at ∉ dom) ∧
    rewrite s recip =
      (if maplocals s dom then (lit "T" ++ addr ++ [0%Z], 1%Z) else
       match virtual_entry (mapvdoms s) addr dom with
       | None | Some [] => (lit "T" ++ addr ++ [0%Z], 2%Z)
       | Some x => (lit "T" ++ x ++ lit "-" ++ addr ++ [0%Z], 1%Z)
       end) ∧
    (∀ x, virtual_entry (mapvdoms s) addr dom = Some x → x ≠ [] → mapvdoms s addr = None →
       stripvdomprepend (mapvdoms s) (x ++ lit "-" ++ addr) = addr).
Proof.
  destruct (qualify_hack s recip) as (bd & bd' & Hp & Hr & Hn & Hq).
  assert (c_at ∈ bd'.1 ++ c_at :: bd'.2) as (box & dom & E & Hd & Hi)%rindex_split by set_solver.
  exists bd, bd', box, dom. cbv zeta. split_and!; [done..| |].
  - unfold rewrite. rewrite Hq, byte_rchr_ok, Hi, E, drop_app_ge by lia.
    replace (length box + 1 - length box) with 1 by lia. change (drop 1 (c_at :: dom)) with dom.
    rewrite vdom_loop_entry. destruct (maplocals s dom); [done|].
    by destruct (virtual_entry _ _ _) as [[|]|].
  - rewrite E. intros x Hx Hne Hv. apply rewrite_virtual; [done| |done].
    rewrite Hx. by destruct x.
Qed.
End TodoAddresses.

#[local] Existing Instance reference_libqmail.
#[local] Existing Instance reference_laws.

(** A virtual domain with an exception, and the percent hack. *)
Definition example_tproc : tproc :=
  TProc (World ∅ ∅ 0 [] 0 []) 0 [] 0 0 true false false false true 0 (-1) 1 0 (lit "example.org")
    (λ d, bool_decide (d = lit "hack.org")) (λ d, bool_decide (d = lit "example.org"))
    (λ d, if decide (d = lit ".virt.org") then Some (lit "v") else
          if decide (d = lit "real.virt.org") then Some [] else None) [] [] [] [] [] [].

Example rewrite_exception :
  rewrite example_tproc (lit "ann@real.virt.org") = (lit "Tann@real.virt.org" ++ [0%Z], 2%Z).
Proof. by vm_compute. Qed.

Example rewrite_default :
  rewrite example_tproc (lit "ann") = (lit "Tann@example.org" ++ [0%Z], 1%Z).
Proof. by vm_compute. Qed.

Example rewrite_hack : rewrite example_tproc (lit "ann%sub.virt.org@hack.org") =
  (lit "Tv-ann@sub.virt.org" ++ [0%Z], 1%Z).
Proof. by vm_compute. Qed.

(** The prefix is put before the address, and qmail-send takes it away. *)
Lemma rewrite_channels_witness :
  let recip := lit "ann%sub.virt.org@hack.org" in
  ∃ bd bd' box dom, let addr := bd'.1 ++ c_at :: bd'.2 in
    parts (lit "example.org") recip bd ∧ rtc (hack (mappercenthack example_tproc)) bd bd' ∧
    addr = box ++ c_at :: dom ∧
    (lit "Tv-ann@sub.virt.org" ++ [0%Z], 1%Z) =
      (if maplocals example_tproc dom then (lit "T" ++ addr ++ [0%Z], 1%Z) else
       match virtual_entry (mapvdoms example_tproc) addr dom with
       | None | Some [] => (lit "T" ++ addr ++ [0%Z], 2%Z)
       | Some x => (lit "T" ++ x ++ lit "-" ++ addr ++ [0%Z], 1%Z)
       end) ∧
    stripvdomprepend (mapvdoms example_tproc) (lit "v-ann@sub.virt.org") = lit "ann@sub.virt.org".
Proof.
  cbv zeta.
  destruct (rewrite_channels example_tproc (lit "ann%sub.virt.org@hack.org"))
    as (bd & bd' & box & dom & Hp & Hr & _ & E & _ & Hl & _).
  exists bd, bd', box, dom. split_and!; [exact Hp|exact Hr|exact E| |by vm_compute].
  rewrite <- Hl. by vm_compute.
Defined.
