(* ===== verification/TodoSplit.v ===== *)
(** * How todo-proc splits an envelope

    Rules for the computations of [todo_do] that may fail, and the invariant of
    its loop over the envelope. *)

From S2P Require Import Prelude LibQmail Filesys Records Fmtqfn SendState TodoProc.

(** ** The records of an envelope *)

Fixpoint records_from (acc s : bytes) : list bytes :=
  match s with
  | [] => []
  | c :: r => if decide (c = 0%Z) then (acc ++ [c]) :: records_from [] r
              else records_from (acc ++ [c]) r
  end.
Definition records (s : bytes) : list bytes := records_from [] s.

Lemma records_from_line acc s :
  records_from acc s =
  let '(l, m) := line_at s in
  if m : bool then (acc ++ l) :: records (drop (length l) s) else [].
Proof.
  revert acc. induction s as [|c s IH]; intros acc; simpl; [done|].
  case_decide; [by subst|]. rewrite IH. destruct (line_at s) as [l []]; simpl; [|done].
  by rewrite <- (assoc_L app).
Qed.

Lemma records_line s :
  records s = let '(l, m) := line_at s in if m : bool then l :: records (drop (length l) s) else [].
Proof. apply records_from_line. Qed.

Definition info_record (l : bytes) : bool :=
  bool_decide (head l = Some 70%Z ∨ head l = Some 104%Z ∨ head l = Some 101%Z).
Definition recipient_record (l : bytes) : bool := bool_decide (head l = Some 84%Z).
Definition known_record (l : bytes) : bool :=
  info_record l || recipient_record l || bool_decide (head l = Some 117%Z ∨ head l = Some 112%Z).

(** What the info file is to hold. *)
Definition info_of (rs : list bytes) : bytes := mjoin (filter (λ l, info_record l = true) rs).

Section split.
Context {L : LibQmail} (cfg : config).
Context (argv0 queuedesc : bytes) (error_str : errno → bytes).

(** The control files, as [rewrite] uses them. *)
Definition ctl (s : tproc) := (envnoathost s, mappercenthack s, maplocals s, mapvdoms s).

(** What splitting a message leaves alone. *)
Definition frame (s : tproc) := (ctl s, to_clean s, from_clean s, flagdetached s).

Lemma rewrite_ctl s s' recip : ctl s = ctl s' → rewrite s recip = rewrite s' recip.
Proof. unfold ctl, rewrite, qualify. by intros [= -> -> -> ->]. Qed.

Definition channel_of (s : tproc) (l : bytes) : channel :=
  if decide ((rewrite s (cstr (tail l))).2 = 2%Z) then Remote else Local.

(** The recipients of a channel, and what the channel's file is to hold. *)
Definition recips (s : tproc) (c : channel) (rs : list bytes) : list bytes :=
  filter (λ l, recipient_record l = true ∧ channel_of s l = c) rs.
Definition chan_of (s : tproc) (c : channel) (rs : list bytes) : bytes :=
  mjoin (map (λ l, (rewrite s (cstr (tail l))).1) (recips s c rs)).

(** ** Rules

    [esafe A m B]: from a world in [A], the computation leaves the control files
    and the connection to qmail-clean alone, keeps the invariant [Inv] of the
    world, establishes [B] when it does not fail, and fails only with an
    [excuse]. *)
Section rules.
Context (s0 : tproc) (Inv : world → Prop) (excuse : Prop).
Hypothesis Inv_faults : ∀ f w, (faults w = [] → f = []) → Inv w → Inv (set_faults f w).
Hypothesis Inv_excuse : ∀ w, Inv w → faults w ≠ [] → excuse.

Definition same (s : tproc) : Prop := frame s = frame s0.

Definition esafe {X} (A : world → Prop) (m : TD (option X)) (B : X → world → Prop) : Prop :=
  ∀ s, same s → A (tw s) → Inv (tw s) →
    wp m (λ r s', same s' ∧ Inv (tw s') ∧
      match r with Some x => B x (tw s') | None => excuse end) s.

Lemma esafe_bind {X Y} A (m : TD (option X)) B (k : X → TD (option Y)) C :
  esafe A m B → (∀ x, esafe (B x) (k x) C) → esafe A (ebind m k) C.
Proof.
  intros Hm Hk s Hs HA HI. unfold ebind. apply wp_bind.
  apply (wp_mono _ _ _ _ (Hm s Hs HA HI)). intros [x|] s' (Hs' & HI' & HB).
  - apply Hk; auto.
  - by apply wp_ret.
Qed.

Lemma esafe_ret {X} (A : world → Prop) (x : X) (B : X → world → Prop) :
  (∀ w, A w → B x w) → esafe A (mret (Some x)) B.
Proof. intros H s Hs HA HI. apply wp_ret. auto. Qed.

Lemma esafe_fail {X} (A : world → Prop) (B : X → world → Prop) :
  (∀ w, A w → excuse) → esafe A fail B.
Proof. intros H s Hs HA HI. apply wp_ret. eauto. Qed.

Lemma esafe_pre {X} (A A' : world → Prop) (m : TD (option X)) B :
  (∀ w, A w → Inv w → A' w) → esafe A' m B → esafe A m B.
Proof. intros H Hm s Hs HA HI. by apply Hm; auto. Qed.

(** Computations that change neither the world nor what [same] compares. *)
Definition silent {X} (m : TD X) : Prop :=
  ∀ s, tw (run m s) = tw s ∧ frame (run m s) = frame s.

Lemma esafe_silent {X Y} (m : TD Y) A (k : Y → TD (option X)) B :
  silent m → (∀ y, esafe A (k y) B) → esafe A (m ≫= k) B.
Proof.
  intros Hm Hk s Hs HA HI. apply wp_bind. destruct (Hm s) as (E1 & E2).
  apply Hk; unfold run in *; [|by rewrite E1..].
  unfold same. by rewrite E2.
Qed.

Lemma esafe_getS {X} A (k : tproc → TD (option X)) B :
  (∀ s, same s → esafe A (k s) B) → esafe A (getS ≫= k) B.
Proof. intros H s Hs HA HI. apply wp_bind, wp_getS. by apply H. Qed.

Lemma esafe_warn {X} A a b e (B : X → world → Prop) :
  (∀ w, A w → excuse) → esafe A (warn argv0 queuedesc error_str a b e;; fail) B.
Proof. intros H. apply esafe_silent; [done|intros; by apply esafe_fail]. Qed.

(** A file-system call, after which the computation goes on. *)
Lemma esafe_sys {X Y} (m : ST world Y) A (k : Y → TD (option X)) B Q :
  (∀ w, A w → Inv w → wp m (λ y w', Q y w' ∧ Inv w') w) →
  (∀ y, esafe (Q y) (k y) B) →
  esafe A (tsys m ≫= k) B.
Proof.
  intros Hm Hk s Hs HA HI. apply wp_bind. unfold wp, tsys.
  specialize (Hm (tw s) HA HI). unfold wp in Hm. destruct (m (tw s)) as [y w']. simpl in *.
  destruct Hm. by apply Hk.
Qed.

Lemma esafe_clear A fn B :
  (∀ w f, A w → Inv w → (faults w = [] → f = []) →
     let w' := set_names (delete fn (names w)) (set_faults f w) in B tt w' ∧ Inv w') →
  esafe A (clear argv0 queuedesc error_str fn) B.
Proof.
  intros H. apply (esafe_sys _ _ _ _
    (λ r w, match r with inl EOTHER | inl EEXIST => excuse | _ => B tt w end)).
  - intros w HA HI. unfold unlink. apply wp_syscall_only.
    { intros Hf f. split; [by eapply Inv_excuse|]. by apply Inv_faults. }
    intros f Hf. unfold lookup_name. apply wp_bind, wp_bind, wp_getS, wp_ret. simpl.
    destruct (H w f HA HI Hf) as [HB HI']. destruct (names w !! fn) eqn:E; [by apply wp_ret|].
    apply wp_ret. rewrite delete_id in HB, HI' by done. by destruct w.
  - intros [[]|[]]; try (by apply esafe_warn); by apply esafe_ret.
Qed.

Lemma esafe_create A fn (B : nat → world → Prop) :
  (∀ w, A w → names w !! fn = None) →
  (∀ w f, A w → Inv w → (faults w = [] → f = []) → let i := next_ino w in
     let w' := set_next (S i) (set_inodes (<[i := Inode [] (clock w) (clock w)]> (inodes w))
                 (set_names (<[fn := i]> (names w)) (set_faults f w))) in
     B i w' ∧ Inv w') →
  esafe A (create_file argv0 queuedesc error_str fn) B.
Proof.
  intros Hn H. apply (esafe_sys _ _ _ _ (λ r w, match r with inl _ => excuse | inr i => B i w end)).
  - intros w HA HI. unfold open_excl. apply wp_syscall_only.
    { intros Hf f. split; [by eapply Inv_excuse|]. by apply Inv_faults. }
    intros f Hf. unfold lookup_name. apply wp_bind, wp_bind, wp_getS, wp_ret. simpl.
    rewrite Hn by done. by destruct (H w f HA HI Hf).
  - intros [e|i]; [by apply esafe_warn|by apply esafe_ret].
Qed.

Lemma esafe_put A i fn d (B : unit → world → Prop) :
  (∀ w f, A w → Inv w → (faults w = [] → f = []) →
     let n := default (Inode [] 0 0) (inodes w !! i) in
     let w' := set_inodes (<[i := Inode (i_data n ++ d) (clock w) (i_atime n)]> (inodes w))
                 (set_faults f w) in
     B tt w' ∧ Inv w') →
  esafe A (put argv0 queuedesc error_str i fn d) B.
Proof.
  intros H. apply (esafe_sys _ _ _ _ (λ r w, match r with inl _ => excuse | inr _ => B tt w end)).
  - intros w HA HI. unfold append. apply wp_syscall_only.
    { intros Hf f. split; [by eapply Inv_excuse|]. by apply Inv_faults. }
    intros f Hf. by destruct (H w f HA HI Hf).
  - intros [e|[]]; [by apply esafe_warn|by apply esafe_ret].
Qed.

(** A call that only takes a fault. *)
Lemma esafe_fault (A : world → Prop) what fn :
  (∀ w f, A w → A (set_faults f w)) →
  esafe A (bad ← tsys fault;
           if bad : bool then warn argv0 queuedesc error_str what fn EOTHER;; fail
           else mret (Some tt)) (λ _, A).
Proof.
  intros H. apply (esafe_sys _ _ _ _ (λ b w, if b : bool then excuse else A w)).
  - intros w HA HI. apply wp_fault_only; [|auto].
    intros Hf f. split; [by eapply Inv_excuse|]. by apply Inv_faults.
  - intros []; [by apply esafe_warn|by apply esafe_ret].
Qed.
Lemma esafe_flush (A : world → Prop) fn :
  (∀ w f, A w → A (set_faults f w)) → esafe A (flush argv0 queuedesc error_str fn) (λ _, A).
Proof. apply esafe_fault. Qed.
Lemma esafe_sync (A : world → Prop) fn :
  (∀ w f, A w → A (set_faults f w)) → esafe A (sync argv0 queuedesc error_str fn) (λ _, A).
Proof.
  intros H. unfold sync. apply esafe_getS. intros s _.
  case_decide; [by apply esafe_fault|by apply esafe_ret].
Qed.
Lemma esafe_each (A : world → Prop) f cs fds :
  (∀ c, esafe A (f c) (λ _, A)) → esafe A (each_chan f cs fds) (λ _, A).
Proof.
  intros Hf. induction cs as [|c cs IH]; simpl; [by apply esafe_ret|].
  apply (esafe_bind _ _ (λ _, A)); [|intros []; apply IH].
  destruct (fds c); [apply Hf|by apply esafe_ret].
Qed.
End rules.

(** ** What the records contribute *)

Lemma info_of_snoc rs l :
  info_of (rs ++ [l]) = info_of rs ++ (if info_record l then l else []).
Proof.
  unfold info_of. rewrite filter_app, join_app, filter_cons, filter_nil.
  destruct (info_record l); simpl; by rewrite ?app_nil_r.
Qed.

Lemma recips_snoc s c rs l :
  recips s c (rs ++ [l]) =
  recips s c rs ++ (if decide (recipient_record l = true ∧ channel_of s l = c) then [l] else []).
Proof. unfold recips. rewrite filter_app, filter_cons, filter_nil. by case_decide. Qed.

Lemma chan_of_snoc s c rs l :
  chan_of s c (rs ++ [l]) =
  chan_of s c rs ++ (if decide (recipient_record l = true ∧ channel_of s l = c)
                     then (rewrite s (cstr (tail l))).1 else []).
Proof.
  unfold chan_of. rewrite recips_snoc, map_app, join_app.
  case_decide; simpl; by rewrite ?app_nil_r.
Qed.

(** ** The invariant of the loop *)

(** Everything but the info and channel files of the message is as in [w0], and
    calls fail only with an excuse. *)
Record kept_but (excuse : Prop) (id : Z) (w0 w : world) : Prop := {
  kb_excuse : faults w ≠ [] → excuse;
  kb_next : next_ino w0 ≤ next_ino w;
  kb_names p : p ≠ fnmake_info cfg id → (∀ c, p ≠ fnmake_chanaddr cfg id c) →
    names w !! p = names w0 !! p;
  kb_inodes i : i < next_ino w0 → inodes w !! i = inodes w0 !! i
}.

(** The records [rs] have been written; [fds] are the open channel files. *)
Record splitting (s0 : tproc) (id : Z) (w0 : world) (fdinfo : nat) (rs : list bytes)
    (fds : channel → option nat) (w : world) : Prop := {
  sp_info : names w !! fnmake_info cfg id = Some fdinfo;
  sp_info_new : next_ino w0 ≤ fdinfo < next_ino w;
  sp_info_data : file_data w fdinfo = info_of rs;
  sp_chan c i : fds c = Some i →
    names w !! fnmake_chanaddr cfg id c = Some i ∧ next_ino w0 ≤ i < next_ino w ∧ i ≠ fdinfo ∧
    file_data w i = chan_of s0 c rs;
  sp_none c : fds c = None → names w !! fnmake_chanaddr cfg id c = None ∧ recips s0 c rs = [];
  sp_sep i : fds Local = Some i → fds Remote ≠ Some i;
  sp_known : Forall (λ l, known_record l = true) rs
}.

Lemma kept_but_faults excuse id w0 f w :
  (faults w = [] → f = []) → kept_but excuse id w0 w → kept_but excuse id w0 (set_faults f w).
Proof. intros Hf []. split; simpl; auto. Qed.
Lemma splitting_faults s0 id w0 fdinfo rs fds f w :
  splitting s0 id w0 fdinfo rs fds w → splitting s0 id w0 fdinfo rs fds (set_faults f w).
Proof. by intros []. Qed.

(** Writing to a file made since [w0]. *)
Lemma kept_but_write excuse id w0 w i n f :
  (faults w = [] → f = []) → kept_but excuse id w0 w → next_ino w0 ≤ i →
  kept_but excuse id w0 (set_inodes (<[i := n]> (inodes w)) (set_faults f w)).
Proof.
  intros Hf [H0 H1 H2 H3] Hi. split; simpl; [auto..|]. intros j Hj.
  rewrite lookup_insert_ne by lia. auto.
Qed.

(** A record that goes to the info file. *)
Lemma splitting_info s0 id w0 fdinfo rs fds w l f c a :
  splitting s0 id w0 fdinfo rs fds w → info_record l = true →
  splitting s0 id w0 fdinfo (rs ++ [l]) fds
    (set_inodes (<[fdinfo := Inode (file_data w fdinfo ++ l) c a]> (inodes w)) (set_faults f w)).
Proof.
  intros [H1 H2 H3 H4 H5 H6 H7] Hl.
  assert (Hnot : recipient_record l = false).
  { unfold info_record, recipient_record in *. apply bool_decide_eq_true in Hl.
    apply bool_decide_eq_false. intros E. rewrite E in Hl. naive_solver. }
  split; simpl; try done.
  - rewrite file_data_insert, decide_True by done. simpl. by rewrite H3, info_of_snoc, Hl.
  - intros ch i Hi. destruct (H4 ch i Hi) as (? & ? & ? & Hd). split_and!; try done; try lia.
    rewrite file_data_insert, decide_False by done.
    rewrite chan_of_snoc, decide_False by (intros [? _]; congruence). by rewrite app_nil_r.
  - intros ch Hi. destruct (H5 ch Hi) as [? Hr]. split; [done|].
    rewrite recips_snoc, Hr, decide_False by (intros [? _]; congruence). done.
  - apply Forall_app. split; [done|]. repeat constructor. unfold known_record. by rewrite Hl.
Qed.

(** A record that goes nowhere. *)
Lemma splitting_other s0 id w0 fdinfo rs fds w l :
  splitting s0 id w0 fdinfo rs fds w → head l = Some 117%Z ∨ head l = Some 112%Z →
  splitting s0 id w0 fdinfo (rs ++ [l]) fds w.
Proof.
  intros [H1 H2 H3 H4 H5 H6 H7] Hl.
  assert (Hi : info_record l = false) by (unfold info_record; apply bool_decide_eq_false; naive_solver).
  assert (Hr : recipient_record l = false)
    by (unfold recipient_record; apply bool_decide_eq_false; naive_solver).
  split; try done.
  - by rewrite info_of_snoc, Hi, app_nil_r.
  - intros ch i Hfd. destruct (H4 ch i Hfd) as (? & ? & ? & ?). split_and!; try done; try lia.
    rewrite chan_of_snoc, decide_False by (intros [? _]; congruence). by rewrite app_nil_r.
  - intros ch Hfd. destruct (H5 ch Hfd) as [? E]. split; [done|].
    rewrite recips_snoc, E, decide_False by (intros [? _]; congruence). done.
  - apply Forall_app. split; [done|]. repeat constructor. unfold known_record.
    by rewrite Hi, Hr, bool_decide_true.
Qed.

(** A recipient, whose channel file is open. *)
Lemma splitting_recip s0 id w0 fdinfo rs fds w l i f c a :
  splitting s0 id w0 fdinfo rs fds w → recipient_record l = true →
  fds (channel_of s0 l) = Some i →
  splitting s0 id w0 fdinfo (rs ++ [l]) fds
    (set_inodes (<[i := Inode (file_data w i ++ (rewrite s0 (cstr (tail l))).1) c a]> (inodes w))
       (set_faults f w)).
Proof.
  intros [H1 H2 H3 H4 H5 H6 H7] Hl Hi. destruct (H4 _ _ Hi) as (Hn & Hb & Hne & Hd).
  assert (Hnot : info_record l = false).
  { unfold info_record, recipient_record in *. apply bool_decide_eq_true in Hl.
    apply bool_decide_eq_false. rewrite Hl. naive_solver. }
  split; simpl; try done.
  - rewrite file_data_insert, decide_False by done. by rewrite info_of_snoc, Hnot, app_nil_r.
  - intros ch j Hj. destruct (H4 ch j Hj) as (? & ? & ? & Hdj). split_and!; try done; try lia.
    rewrite file_data_insert, chan_of_snoc.
    destruct (decide (channel_of s0 l = ch)) as [<-|Hch].
    + rewrite Hi in Hj. injection Hj as <-. rewrite !decide_True by done. simpl. by rewrite Hd.
    + rewrite (decide_False (P := _ ∧ _)) by naive_solver. rewrite app_nil_r, decide_False; [done|].
      intros <-. by destruct ch, (channel_of s0 l); try done; eapply H6.
  - intros ch Hj. destruct (H5 ch Hj) as [? Hr]. split; [done|].
    rewrite recips_snoc, Hr, decide_False; [done|]. intros [_ <-]. congruence.
  - apply Forall_app. split; [done|]. repeat constructor. unfold known_record. rewrite Hl.
    by rewrite orb_true_r.
Qed.

(** Opening the file of a channel. *)
Lemma splitting_open s0 id w0 fdinfo rs fds w c f :
  next_ino w0 ≤ next_ino w → splitting s0 id w0 fdinfo rs fds w → fds c = None →
  let i := next_ino w in
  splitting s0 id w0 fdinfo rs (upd fds c (Some i))
    (set_next (S i) (set_inodes (<[i := Inode [] (clock w) (clock w)]> (inodes w))
       (set_names (<[fnmake_chanaddr cfg id c := i]> (names w)) (set_faults f w)))).
Proof.
  intros K1 [H1 H2 H3 H4 H5 H6 H7] Hc i. subst i.
  destruct (H5 c Hc) as [Hnone Hrec].
  assert (Hdata : ∀ j, j < next_ino w →
    file_data (set_next (S (next_ino w)) (set_inodes (<[next_ino w := Inode [] (clock w) (clock w)]> (inodes w))
       (set_names (<[fnmake_chanaddr cfg id c := next_ino w]> (names w)) (set_faults f w)))) j = file_data w j).
  { intros j Hj. unfold file_data. simpl. by rewrite lookup_insert_ne by lia. }
  split; simpl; try done.
  - rewrite lookup_insert_ne; [done|]. by destruct c.
  - lia.
  - rewrite Hdata by lia. done.
  - intros ch j Hj. destruct (upd_cases fds c ch (Some (next_ino w))) as [[-> E]|[Hne E]];
      rewrite E in Hj.
    + injection Hj as <-. rewrite lookup_insert_eq. split_and!; [done|lia..|].
      unfold file_data. simpl. rewrite lookup_insert_eq. unfold chan_of. by rewrite Hrec.
    + destruct (H4 ch j Hj) as (? & ? & ? & ?). rewrite Hdata by lia. split_and!; try done; try lia.
      rewrite lookup_insert_ne; [done|]. by destruct c, ch.
  - intros ch Hj. destruct (upd_cases fds c ch (Some (next_ino w))) as [[-> E]|[Hne E]];
      rewrite E in Hj; [done|].
    destruct (H5 ch Hj). split; [|done]. rewrite lookup_insert_ne; [done|]. by destruct c, ch.
  - intros j. unfold upd. intros Hl Hr. destruct c; simplify_eq/=.
    + destruct (H4 _ _ Hr) as (_ & ? & _). lia.
    + destruct (H4 _ _ Hl) as (_ & ? & _). lia.
Qed.
End split.
