(* ===== verification/TodoTheorems.v ===== *)
(** * todo-proc does not lose a message

    The envelope in todo is handed to qmail-clean only when the files info, local
    and remote hold all of its records; what todo-proc tells qmail-send is what
    qmail-send reads. *)

From S2P Require Import Prelude LibQmail Prioq Filesys Records Fmtqfn SendState SendQueue.
From S2P Require Import SendLoop SendTheorems TodoProc TodoSplit.

#[local] Arguments announcement : simpl never.
#[local] Arguments fnmake_todo : simpl never.
#[local] Arguments fnmake_chanaddr : simpl never.

Section TodoTheorems.
Context {L : LibQmail} (cfg : config).
Context (argv0 queuedesc : bytes) (error_str : errno → bytes) (scan_int : bytes → Z).
Context (todo_chunk_size : Z).

#[local] Abbreviation todo_do :=
  (TodoProc.todo_do cfg argv0 queuedesc error_str scan_int todo_chunk_size).

Section message.
Context (s0 : tproc) (id : Z) (fd : nat).
Let w0 := tw s0.
Let data := file_data w0 fd.
Hypothesis fd_old : fd < next_ino w0.

(** What may keep a message in todo: a failing call, or a record that is not
    known. *)
Definition excuse : Prop :=
  faults w0 ≠ [] ∨ ¬ Forall (λ l, known_record l = true) (records data).

#[local] Abbreviation kept := (kept_but cfg excuse id w0).
#[local] Abbreviation safely := (esafe s0 kept excuse).
#[local] Abbreviation at_ := (splitting cfg s0 id w0).

Lemma kept_faults f w : (faults w = [] → f = []) → kept w → kept (set_faults f w).
Proof. apply kept_but_faults. Qed.

Lemma kept_unlink w f p :
  (faults w = [] → f = []) → kept w →
  p = fnmake_info cfg id ∨ (∃ c, p = fnmake_chanaddr cfg id c) →
  kept (set_names (delete p (names w)) (set_faults f w)).
Proof.
  intros Hf [H0 H1 H2 H3] Hp. split; simpl; [auto|done| |done]. intros q Hq Hc.
  rewrite lookup_delete_ne; [by apply H2|]. intros <-. destruct Hp as [?|[c ?]]; [done|].
  by apply (Hc c).
Qed.

Lemma kept_create w f p d :
  (faults w = [] → f = []) → kept w →
  p = fnmake_info cfg id ∨ (∃ c, p = fnmake_chanaddr cfg id c) →
  kept (set_next (S (next_ino w)) (set_inodes (<[next_ino w := d]> (inodes w))
    (set_names (<[p := next_ino w]> (names w)) (set_faults f w)))).
Proof.
  intros Hf [H0 H1 H2 H3] Hp. split; simpl; [auto|lia|..].
  - intros q Hq Hc. rewrite lookup_insert_ne; [by apply H2|]. intros <-.
    destruct Hp as [?|[c ?]]; [done|]. by apply (Hc c).
  - intros i Hi. rewrite lookup_insert_ne by lia. auto.
Qed.

(** [put] to one of the new files. *)
Lemma put_safely (A B : world → Prop) i fn d :
  (∀ w, A w → next_ino w0 ≤ i) →
  (∀ w f, A w → B (set_inodes (<[i := Inode (file_data w i ++ d) (clock w)
                    (i_atime (default (Inode [] 0 0) (inodes w !! i)))]> (inodes w)) (set_faults f w))) →
  safely A (put argv0 queuedesc error_str i fn d) (λ _, B).
Proof.
  intros Hi HB. apply esafe_put; [apply kept_faults|apply kb_excuse|].
  intros w f HA HK Hf. split; [by apply HB|].
  apply kept_but_write; [done..|]. by eapply Hi.
Qed.

Lemma recipient_safely fdinfo rs l x :
  recipient_record l = true →
  safely (at_ fdinfo rs (sc_chan x)) (todo_recipient cfg argv0 queuedesc error_str id l x)
    (λ y, at_ fdinfo (rs ++ [l]) (sc_chan y)).
Proof.
  intros Hl. unfold todo_recipient. apply esafe_getS. intros s Hs.
  rewrite (rewrite_ctl s s0) by (unfold same, frame in Hs; congruence). destruct (rewrite s0 _) as [line r] eqn:E.
  assert (Hc : (if decide (r = 2%Z) then Remote else Local) = channel_of s0 l).
  { unfold channel_of. by rewrite E. }
  rewrite Hc. cbv zeta. apply esafe_silent; [done|]. intros [].
  apply (esafe_bind _ _ _ _ _ (λ y w, at_ fdinfo rs (sc_chan y) w ∧ is_Some (sc_chan y (channel_of s0 l)))).
  - destruct (sc_chan x (channel_of s0 l)) eqn:Hx; [apply esafe_ret; intros; split; [done|by eexists]|].
    apply (esafe_bind _ _ _ _ _ (λ i w, at_ fdinfo rs (upd (sc_chan x) (channel_of s0 l) (Some i)) w)).
    + apply esafe_create; [apply kept_faults|apply kb_excuse|..].
      { intros w HA. by apply (sp_none _ _ _ _ _ _ _ _ HA). }
      intros w f HA HK Hf. cbv zeta. split.
      * apply splitting_open; [apply HK|done..].
      * apply kept_create; [done..|]. right. by eexists.
    + intros i. apply esafe_ret. intros w HA. split; [done|]. simpl. rewrite upd_eq. by eexists.
  - intros y. destruct (sc_chan y (channel_of s0 l)) as [i|] eqn:Hy.
    2:{ apply esafe_fail. by intros w [_ [? ?]]. }
    apply (esafe_bind _ _ _ _ _ (λ _, at_ fdinfo (rs ++ [l]) (sc_chan y))).
    + apply put_safely.
      * intros w [HA _]. destruct (sp_chan _ _ _ _ _ _ _ _ HA _ _ Hy) as (_ & ? & _). lia.
      * intros w f [HA _]. pose proof (splitting_recip cfg s0 id w0 fdinfo rs _ w l i f
          (clock w) (i_atime (default (Inode [] 0 0) (inodes w !! i))) HA Hl Hy) as H.
        by rewrite E in H.
    + intros _. by apply esafe_ret.
Qed.

Lemma unknown_excuse l :
  l ∈ records data → known_record l = false → excuse.
Proof.
  intros Hl Hk. right. intros Hall. rewrite Forall_forall in Hall.
  specialize (Hall l Hl). congruence.
Qed.

Lemma record_safely fdinfo rs l x size :
  l ∈ records data →
  safely (at_ fdinfo rs (sc_chan x)) (todo_record cfg argv0 queuedesc error_str id size fdinfo l x)
    (λ y, at_ fdinfo (rs ++ [l]) (sc_chan y)).
Proof.
  intros Hin. unfold todo_record.
  assert (Hput : info_record l = true → ∀ fn,
    safely (at_ fdinfo rs (sc_chan x)) (put argv0 queuedesc error_str fdinfo fn l)
      (λ _, at_ fdinfo (rs ++ [l]) (sc_chan x))).
  { intros Hl fn. apply put_safely.
    - intros w HA. pose proof (sp_info_new _ _ _ _ _ _ _ _ HA). lia.
    - intros w f HA. by apply splitting_info. }
  assert (Hbad : known_record l = false →
    safely (at_ fdinfo rs (sc_chan x))
      (warn argv0 queuedesc error_str (lit "unknown record type in ") (fnmake_todo cfg id) EOTHER;; fail)
      (λ y : scanning, at_ fdinfo (rs ++ [l]) (sc_chan y))).
  { intros Hk. apply esafe_warn. intros _ _. by eapply unknown_excuse. }
  destruct l as [|h l]; [by apply Hbad|]. cbn [head].
  destruct h as [|p|p]; try (by apply Hbad).
  do 8 (try (destruct p as [p|p|]; try (by apply Hbad))); cbv beta iota.
  all: lazymatch goal with
    | |- _ (mret _) _ => apply esafe_ret; intros w HA; apply splitting_other; auto
    | |- _ (todo_recipient _ _ _ _ _ _ _) _ => by apply recipient_safely
    | _ => eapply esafe_bind; [by apply Hput|]; intros ?;
           repeat (apply esafe_silent; [done|intros []]); by apply esafe_ret
    end.
Qed.
Lemma kept_contents w : kept w → file_data w fd = data.
Proof. intros H. unfold data, file_data. by rewrite (kb_inodes _ _ _ _ _ H) by done. Qed.

Lemma loop_safely fuel size fdinfo pos rs x :
  records data = rs ++ records (drop pos data) → pos ≤ length data → length data < fuel + pos →
  safely (at_ fdinfo rs (sc_chan x))
    (todo_loop cfg argv0 queuedesc error_str fuel id size fd fdinfo pos x)
    (λ y, at_ fdinfo (records data) (sc_chan y)).
Proof.
  revert pos rs x. induction fuel as [|fuel IH]; intros pos rs x Hrs Hpos Hfuel; [lia|].
  cbn [todo_loop].
  apply (esafe_sys _ _ _ _ _ _ _ (λ r w, at_ fdinfo rs (sc_chan x) w ∧
    match r with None => excuse | Some r => r = line_at (drop pos data) end)).
  { intros w HA HK. unfold getln. apply wp_bind, wp_fault_only.
    - intros Hf f. apply wp_ret. split_and!; [by apply splitting_faults|by apply (kb_excuse _ _ _ _ _ HK)|].
      by apply kept_faults.
    - intros f Hf. apply wp_bind. unfold read_inode. apply wp_bind, wp_getS, wp_ret, wp_ret.
      split_and!; [by apply splitting_faults| |by apply kept_faults].
      simpl. fold (file_data w fd). by rewrite kept_contents. }
  intros [[l m]|]; [|apply esafe_warn; by intros w [_ ?]].
  destruct m.
  - apply (esafe_pre _ _ _ _ (λ w, at_ fdinfo rs (sc_chan x) w ∧ (l, true) = line_at (drop pos data)));
      [done|].
    intros s Hs [HA Hl] HI. revert s Hs HA HI. symmetry in Hl.
    rewrite (records_line (drop pos data)), Hl, drop_drop in Hrs.
    assert (Hlen : 0 < length l ≤ length (drop pos data)).
    { split; [by apply line_at_length in Hl|].
      apply line_at_prefix in Hl as [k Hk]. rewrite Hk, length_app. lia. }
    rewrite length_drop in Hlen.
    match goal with |- ∀ s, _ → _ → _ → wp (?m) _ s =>
      change (safely (at_ fdinfo rs (sc_chan x)) m (λ y, at_ fdinfo (records data) (sc_chan y))) end.
    apply (esafe_bind _ _ _ _ _ (λ y, at_ fdinfo (rs ++ [l]) (sc_chan y))).
    + apply record_safely. rewrite Hrs. set_solver.
    + intros y. apply IH; [by rewrite <- (assoc_L app)|lia..].
  - apply esafe_ret. intros w [HA Hl]. by rewrite Hrs, (records_line (drop pos data)), <- Hl, app_nil_r.
Qed.

Lemma split_safely size :
  safely (λ _, True) (todo_split cfg argv0 queuedesc error_str id size fd)
    (λ fds w, ∃ fdinfo, at_ fdinfo (records data) fds w).
Proof.
  unfold todo_split.
  apply (esafe_bind _ _ _ _ _ (λ _ w, names w !! fnmake_chanaddr cfg id Local = None)).
  { apply esafe_clear; [apply kept_faults|apply kb_excuse|]. intros w f _ HK Hf. cbv zeta.
    split; [apply lookup_delete_eq|]. apply kept_unlink; eauto. }
  intros [].
  apply (esafe_bind _ _ _ _ _ (λ _ w, ∀ c, names w !! fnmake_chanaddr cfg id c = None)).
  { apply esafe_clear; [apply kept_faults|apply kb_excuse|]. intros w f HA HK Hf. cbv zeta.
    split; [|apply kept_unlink; eauto]. intros []; simpl; [|apply lookup_delete_eq].
    by rewrite lookup_delete_ne. }
  intros [].
  apply (esafe_bind _ _ _ _ _ (λ _ w, names w !! fnmake_info cfg id = None ∧
    ∀ c, names w !! fnmake_chanaddr cfg id c = None)).
  { apply esafe_clear; [apply kept_faults|apply kb_excuse|]. intros w f HA HK Hf. cbv zeta.
    split; [|apply kept_unlink; eauto]. split; [apply lookup_delete_eq|]. intros c. simpl.
    rewrite lookup_delete_ne; [done|]. by destruct c. }
  intros [].
  apply (esafe_bind _ _ _ _ _ (λ fdinfo, at_ fdinfo [] (λ _, None))).
  { apply esafe_create; [apply kept_faults|apply kb_excuse|by intros w []|].
    intros w f [Hi Hc] HK Hf. cbv zeta. split; [|apply kept_create; eauto].
    pose proof (kb_next _ _ _ _ _ HK). split; simpl; try done.
    - apply lookup_insert_eq.
    - lia.
    - unfold file_data. simpl. by rewrite lookup_insert_eq.
    - intros c _. split; [|done]. rewrite lookup_insert_ne; [done|]. by destruct c. }
  intros fdinfo. apply esafe_silent; [done|]. intros [].
  apply (esafe_sys _ _ _ _ _ _ _ (λ st w, at_ fdinfo [] (λ _, None) w ∧ i_data st = data)).
  { intros w HA HK. unfold read_inode. apply wp_bind, wp_getS, wp_ret. split_and!; [done| |done].
    by apply kept_contents. }
  intros st.
  apply (esafe_bind _ _ _ _ _ (λ x, at_ fdinfo (records data) (sc_chan x))).
  { intros s Hs [HA Hd] HI. rewrite Hd.
    apply (loop_safely _ size fdinfo 0 []); [done|lia|lia|done..]. }
  intros x.
  repeat (eapply (esafe_bind _ _ _ _ _ (λ _, at_ fdinfo (records data) (sc_chan x)));
    [first [apply esafe_flush|apply esafe_sync|apply esafe_each; intros c;
            first [apply esafe_flush|apply esafe_sync]];
     first [apply kept_faults|apply kb_excuse|intros; by apply splitting_faults]|intros _]).
  apply esafe_ret. eauto.
Qed.
End message.

(** ** Handing over *)

(** The files of a message hold all of its envelope. *)
Definition published (s : tproc) (id : Z) (data : bytes) (w : world) : Prop :=
  (∃ i, names w !! fnmake_info cfg id = Some i ∧ file_data w i = info_of (records data)) ∧
  ∀ c, match names w !! fnmake_chanaddr cfg id c with
       | Some i => file_data w i = chan_of s c (records data)
       | None => recips s c (records data) = []
       end.

(** Files that are not info or channel files. *)
Definition untouched (w w' : world) : Prop :=
  ∀ p i, names w !! p = Some i → (∀ id, p ≠ fnmake_info cfg id) →
    (∀ id c, p ≠ fnmake_chanaddr cfg id c) → names w' !! p = Some i ∧ file_data w' i = file_data w i.

Definition inodes_ok (w : world) : Prop := ∀ p i, names w !! p = Some i → i < next_ino w.

Definition handed_over (s : tproc) (id : Z) (s' : tproc) : Prop :=
  to_clean s' = to_clean s ++ [fnmake_todo cfg id ++ [0%Z]] ∧
  ∃ fd, names (tw s') !! fnmake_todo cfg id = Some fd ∧
    let data := file_data (tw s') fd in
    Forall (λ l, known_record l = true) (records data) ∧ published s id data (tw s').

Lemma kept_untouched e id w w' : inodes_ok w → kept_but cfg e id w w' → untouched w w'.
Proof.
  intros Hok [_ H1 H2 H3] p i Hp Hi Hc. split; [by rewrite H2|].
  unfold file_data. by rewrite H3 by (by eapply Hok).
Qed.

Lemma untouched_refl w : untouched w w.
Proof. by intros p i. Qed.

Lemma todo_not_info id id' : fnmake_todo cfg id ≠ fnmake_info cfg id'.
Proof. done. Qed.
Lemma todo_not_chan id id' c : fnmake_todo cfg id ≠ fnmake_chanaddr cfg id' c.
Proof. by destruct c. Qed.

Lemma splitting_published s id w0 fdinfo data fds w :
  splitting cfg s id w0 fdinfo (records data) fds w →
  published s id data w ∧ ∀ c, is_Some (fds c) ↔ is_Some (names w !! fnmake_chanaddr cfg id c).
Proof.
  intros [H1 _ H3 H4 H5 _ _]. split; [split; [eauto|]|]; intros c.
  - destruct (fds c) as [i|] eqn:E.
    + by destruct (H4 c i E) as (-> & _ & _ & ?).
    + by destruct (H5 c E) as (-> & ?).
  - destruct (fds c) as [i|] eqn:E; [by destruct (H4 c i E) as (-> & _)|by destruct (H5 c E) as (-> & _)].
Qed.

(** Logging only adds to the buffer. *)
Lemma stat_lines_adds fuel id n from p s :
  let s' := run (stat_lines queuedesc fuel id n from p) s in
  tw s' = tw s ∧ to_clean s' = to_clean s ∧ ∃ b, comm_buf s' = comm_buf s ++ b.
Proof.
  revert p s. induction fuel as [|fuel IH]; intros p s; cbn [stat_lines].
  { split_and!; [done..|]. exists []. by rewrite app_nil_r. }
  destruct p as [|ch p]; [split_and!; [done..|]; exists []; by rewrite app_nil_r|].
  rewrite run_bind. match goal with |- context [run (stat_lines _ _ _ _ _ ?q) ?s1] =>
    destruct (IH q s1) as (-> & -> & b & ->) end.
  split_and!; [done..|]. simpl. rewrite <- (assoc_L app). by eexists.
Qed.

(** Everything a message needs to leave todo. *)
Record sound_message (s : tproc) (id : Z) (name : option bytes) : Prop := {
  sm_faults : faults (tw s) = [];
  sm_split : match name with Some p => scan_int p = scan_int (drop 5 (fnmake_todo cfg id)) | None => True end;
  sm_mess : is_Some (names (tw s) !! fnmake_mess cfg id);
  sm_todo fd : names (tw s) !! fnmake_todo cfg id = Some fd →
    Forall (λ l, known_record l = true) (records (file_data (tw s) fd));
  sm_here : is_Some (names (tw s) !! fnmake_todo cfg id);
  sm_clean : head (from_clean s) = Some c_plus;
  sm_attached : flagdetached s = false
}.

(** qmail-send has been told, and of the channel files there are. *)
Definition announced (id : Z) (s' : tproc) : Prop :=
  let has c := bool_decide (is_Some (names (tw s') !! fnmake_chanaddr cfg id c)) in
  ∃ b b', comm_buf s' = b ++ announcement id (has Local) (has Remote) ++ b'.

Lemma publish_spec s id size fds :
  (∀ c, is_Some (fds c) ↔ is_Some (names (tw s) !! fnmake_chanaddr cfg id c)) →
  wp (todo_publish cfg argv0 queuedesc error_str todo_chunk_size id size fds) (λ r s',
    (∃ f, tw s' = set_faults f (tw s)) ∧
    (to_clean s' = to_clean s ∨ to_clean s' = to_clean s ++ [fnmake_todo cfg id ++ [0%Z]]) ∧
    (faults (tw s) = [] → head (from_clean s) = Some c_plus → flagdetached s = false →
     to_clean s' = to_clean s ++ [fnmake_todo cfg id ++ [0%Z]] ∧
     (r = 2 ∨ r = 3 ∨ r = 4)%Z ∧ announced id s')) s.
Proof.
  intros Hfds. unfold todo_publish. apply wp_bind. unfold wp at 1, tsys.
  assert (Hf : wp fault (λ b w, (b = true → faults (tw s) ≠ []) ∧ ∃ f, w = set_faults f (tw s)) (tw s)).
  { apply wp_fault_only; intros; split; eauto. }
  unfold wp in Hf. destruct (fault (tw s)) as [bad w]. simpl in *. destruct Hf as [Hbad [f ->]].
  destruct bad.
  { split_and!; [by eexists|by left|]. intros H. by destruct (Hbad eq_refl). }
  apply wp_bind, wp_modify, wp_bind. unfold wp at 1, clean_reply. simpl.
  destruct (from_clean s) as [|ch q] eqn:Eq; simpl.
  { split_and!; [by eexists|by right|done]. }
  case_decide as Hch.
  { split_and!; [by eexists|by right|]. intros _ [= ->]. done. }
  apply wp_bind. unfold comm_write. apply wp_bind, wp_getS. simpl flagdetached.
  destruct (flagdetached s) eqn:Edet.
  all: try apply wp_ret; unfold emit; try apply wp_modify; apply wp_bind, wp_bind, wp_getS, wp_bind;
    match goal with |- wp (stat_lines _ ?n _ _ ?from ?p) _ ?s1 =>
      destruct (stat_lines_adds n id size from p s1) as (Etw & Ecl & b & Eb) end;
    unfold wp at 1; unfold run in *; set (s2 := (stat_lines _ _ _ _ _ _ _).2) in *; clearbody s2;
    apply wp_modify, wp_bind, wp_getS, wp_ret; simpl in *.
  - split_and!; [by eexists|by right|done].
  - split_and!; [by eexists|by right|]. intros _ _ _. split_and!; [done| |].
    + destruct (flagtododir s2); [case_decide; auto|auto].
    + assert (Hhas : ∀ c, bool_decide (is_Some (names (tw s) !! fnmake_chanaddr cfg id c)) =
                          bool_decide (is_Some (fds c))).
      { intros c. apply bool_decide_ext. by rewrite Hfds. }
      unfold announced. simpl. rewrite Eb, Etw. simpl. rewrite !Hhas.
      eexists (comm_buf s), b. by rewrite <- (assoc_L app).
Qed.

#[local] Abbreviation message := (todo_message cfg argv0 queuedesc error_str scan_int todo_chunk_size).

Lemma right_split_spec id name s :
  let '(ok, s') := right_split cfg argv0 queuedesc scan_int id name s in
  tw s' = tw s ∧ frame s' = frame s ∧
  (match name with Some p => scan_int p = scan_int (drop 5 (fnmake_todo cfg id)) | None => True end →
   ok = true).
Proof.
  unfold right_split. destruct name as [p|]; [|done].
  simpl. split_and!; [done..|].
  intros ->. by apply bool_decide_eq_true.
Qed.

Lemma wp_tsys {A} (m : ST world A) (Q : A → tproc → Prop) s :
  wp m (λ a w, Q a (set_tw w s)) (tw s) → wp (tsys m) Q s.
Proof. unfold wp, tsys. by destruct (m (tw s)). Qed.

(** Opening or examining a file by its name. *)
Lemma wp_examine {A} (g : nat → ST world (errno + A)) p (Q : errno + A → world → Prop) w :
  (∀ e f, faults w ≠ [] ∨ names w !! p = None → Q (inl e) (set_faults f w)) →
  (∀ f i, (faults w = [] → f = []) → names w !! p = Some i → wp (g i) Q (set_faults f w)) →
  wp (syscall (r ← lookup_name p; match r with inl e => mret (inl e) | inr i => g i end)) Q w.
Proof.
  intros H1 H2. apply wp_syscall_only; [auto|]. intros f Hf. unfold lookup_name.
  apply wp_bind, wp_bind, wp_getS, wp_ret. simpl. destruct (names w !! p) as [i|] eqn:E; [auto|].
  apply wp_ret. auto.
Qed.
Lemma open_examine p :
  open_read p = syscall (lookup_name p).
Proof. done. Qed.

(** One message: either nothing is handed over, or all of it is. *)
Definition outcome (s : tproc) (id : Z) (name : option bytes) (r : Z) (s' : tproc) : Prop :=
  untouched (tw s) (tw s') ∧ (to_clean s' = to_clean s ∨ handed_over s id s') ∧
  (sound_message s id name → handed_over s id s' ∧ (r = 2 ∨ r = 3 ∨ r = 4)%Z ∧ announced id s').

Lemma outcome_none s id name r s' :
  untouched (tw s) (tw s') → to_clean s' = to_clean s → (sound_message s id name → False) →
  outcome s id name r s'.
Proof. intros H1 H2 H3. split_and!; [done|by left|]. intros H. by destruct (H3 H). Qed.

Lemma handed_over_ctl s s1 id s' :
  ctl s1 = ctl s → to_clean s1 = to_clean s → handed_over s1 id s' → handed_over s id s'.
Proof.
  intros Hc Hq [H1 (fd & H2 & H3 & H4 & H5)]. split; [by rewrite <- Hq|].
  exists fd. cbv zeta. split_and!; [done..|]. split; [done|]. intros c. specialize (H5 c).
  assert (Hch : ∀ l, channel_of s1 l = channel_of s l).
  { intros l. unfold channel_of. by rewrite (rewrite_ctl s1 s _ Hc). }
  assert (Hr : recips s1 c (records (file_data (tw s') fd)) = recips s c (records (file_data (tw s') fd))).
  { unfold recips. apply list_filter_iff. intros l. by rewrite Hch. }
  revert H5. destruct (names (tw s') !! fnmake_chanaddr cfg id c); intros H5; [|congruence].
  rewrite H5. unfold chan_of. rewrite Hr. f_equal.
  apply map_ext. intros l. by rewrite (rewrite_ctl s1 s _ Hc).
Qed.

(** From the open envelope on. *)
Lemma split_publish s id size fd :
  inodes_ok (tw s) → names (tw s) !! fnmake_todo cfg id = Some fd →
  wp (r ← todo_split cfg argv0 queuedesc error_str id size fd;
      match r with
      | None => mret (-1)%Z
      | Some fds => todo_publish cfg argv0 queuedesc error_str todo_chunk_size id size fds
      end) (λ r s', untouched (tw s) (tw s') ∧ (to_clean s' = to_clean s ∨ handed_over s id s') ∧
        (Forall (λ l, known_record l = true) (records (file_data (tw s) fd)) → faults (tw s) = [] →
         head (from_clean s) = Some c_plus → flagdetached s = false →
         handed_over s id s' ∧ (r = 2 ∨ r = 3 ∨ r = 4)%Z ∧ announced id s')) s.
Proof.
  intros Hok Hfd. pose proof (Hok _ _ Hfd) as Hold. apply wp_bind.
  assert (Hk : kept_but cfg (excuse s fd) id (tw s) (tw s)).
  { split; [intros; by left|done..]. }
  apply (wp_mono _ _ _ _ (split_safely s id fd Hold size s eq_refl I Hk)).
  intros r s1 (Hfr & Hk1 & Hr). unfold same, frame in Hfr.
  pose proof (kept_untouched _ _ _ _ Hok Hk1) as Hun.
  destruct r as [fds|].
  2:{ apply wp_ret. split_and!; [done|left; congruence|]. intros Hall Hf. by destruct Hr. }
  destruct Hr as [fdinfo Hsp]. pose proof (sp_known _ _ _ _ _ _ _ _ Hsp) as Hknown.
  apply splitting_published in Hsp as [Hpub Hfds].
  apply (wp_mono _ _ _ _ (publish_spec s1 id size fds Hfds)).
  intros r s2 ([f Hw] & Hto & Hlive).
  assert (Hdone : to_clean s2 = to_clean s1 ++ [fnmake_todo cfg id ++ [0%Z]] → handed_over s id s2).
  { intros E. split; [rewrite E; congruence|]. exists fd. rewrite Hw. cbv zeta.
    change (file_data (set_faults f (tw s1)) fd) with (file_data (tw s1) fd).
    assert (file_data (tw s1) fd = file_data (tw s) fd) as ->.
    { unfold file_data. by rewrite (kb_inodes _ _ _ _ _ Hk1) by done. }
    split_and!; [|done|done]. simpl. rewrite (kb_names _ _ _ _ _ Hk1); [done|..].
    - apply todo_not_info.
    - intros c. apply todo_not_chan. }
  split_and!.
  - rewrite Hw. intros p i Hp Hi Hc. by destruct (Hun p i Hp Hi Hc).
  - destruct Hto as [->|E]; [left; congruence|by right; apply Hdone].
  - intros _ Hf Hq Hdet. destruct Hlive as (E & ? & ?); [| |congruence|by auto].
    + destruct (decide (faults (tw s1) = [])) as [|Hn]; [done|].
      apply (kb_excuse _ _ _ _ _ Hk1) in Hn as [Hn|Hn]; [done|by destruct Hn].
    + congruence.
Qed.

Lemma message_spec id name s :
  inodes_ok (tw s) → wp (message id name) (outcome s id name) s.
Proof.
  intros Hok. unfold todo_message. apply wp_bind. unfold wp at 1.
  pose proof (right_split_spec id name s) as Hs. destruct (right_split _ _ _ _ _ _ s) as [ok s1].
  destruct Hs as (Etw & Efr & Hsp). simpl. unfold frame in Efr.
  assert (Hsame : ∀ f, untouched (tw s) (set_faults f (tw s1))) by (rewrite Etw; by intros f p i).
  destruct ok; simpl.
  2:{ apply wp_ret. apply outcome_none; [rewrite Etw; by intros p i|congruence|].
      intros Hm. apply sm_split in Hm; auto. by apply Hsp in Hm. }
  apply wp_bind, wp_tsys. rewrite open_examine. 
  apply wp_syscall_only.
  { intros Hf f. apply wp_bind, wp_modify, wp_ret. apply outcome_none; [apply Hsame|simpl; congruence|].
    intros Hm. apply sm_faults in Hm. by rewrite Etw in Hf. }
  intros f Hf. unfold lookup_name. apply wp_bind, wp_getS, wp_ret. simpl.
  destruct (names (tw s1) !! fnmake_todo cfg id) as [fd|] eqn:Hfd.
  2:{ apply wp_bind, wp_modify, wp_ret. apply outcome_none; [apply Hsame|simpl; congruence|].
      intros Hm. apply sm_here in Hm. rewrite Etw in Hfd. rewrite Hfd in Hm. by destruct Hm. }
  apply wp_bind, wp_tsys, wp_examine; simpl.
  { intros e f' Hbad. apply wp_bind, wp_modify, wp_ret. apply outcome_none; [apply Hsame|simpl; congruence|].
    intros Hm. rewrite Etw in *. destruct Hbad as [Hbad|Hbad].
    - apply Hbad, Hf, (sm_faults _ _ _ Hm).
    - destruct (sm_mess _ _ _ Hm) as [? ?]. congruence. }
  intros f' m Hf' Hm. unfold read_inode. apply wp_bind, wp_bind, wp_getS, wp_ret, wp_ret.
  set (s2 := set_tw _ _).
  assert (Hok2 : inodes_ok (tw s2)) by (simpl; by rewrite Etw).
  assert (Ec : ctl s2 = ctl s) by (change (ctl s2) with (ctl s1); congruence).
  assert (Eq : to_clean s2 = to_clean s) by (simpl; congruence).
  assert (Er : from_clean s2 = from_clean s) by (simpl; congruence).
  assert (Ed : flagdetached s2 = flagdetached s) by (simpl; congruence).
  eapply wp_mono; [apply (split_publish s2 id _ fd Hok2)|].
  { done. }
  intros r s3 (H1 & H2 & H3). split_and!.
  - intros p i Hp Hi Hc. rewrite <- Etw in Hp. by destruct (H1 p i Hp Hi Hc) as [? ->]; rewrite <- Etw.
  - destruct H2 as [->|H2]; [by left|right]. by eapply handed_over_ctl.
  - intros Hsound. destruct H3 as (H3 & H4 & H5).
    + simpl. rewrite Etw. apply (sm_todo _ _ _ Hsound). by rewrite <- Etw.
    + simpl. apply Hf', Hf. rewrite Etw. apply (sm_faults _ _ _ Hsound).
    + rewrite Er. apply (sm_clean _ _ _ Hsound).
    + rewrite Ed. apply (sm_attached _ _ _ Hsound).
    + split_and!; [|done|done]. by eapply handed_over_ctl.
Qed.

Lemma scan_spec trigger s :
  let '(r, s') := todo_scan trigger s in
  tw s' = tw s ∧ frame s' = frame s ∧
  (flagexittodo s = false → (todo_interval s ≤ 0 ∨ nexttodorun s ≤ recent s)%Z → flagtododir s = true →
   ∀ id name q, todosubdir s = ((1%Z, id), name) :: q → r = inr (id, name)).
Proof.
  unfold todo_scan, mbind, ST_bind, getS. case_decide as Ht; simpl.
  { split_and!; [done..|]. lia. }
  destruct (flagtododir s) eqn:Hd; simpl.
  - unfold skip, mret, ST_ret, readsubdir_next. destruct (todosubdir s) as [|[[r id] name] q] eqn:E; simpl.
    { split_and!; [done..|]. intros _ _ _ id name q. discriminate. }
    case_decide; simpl; [split_and!; [done..|]; intros; by simplify_eq|].
    unfold when. case_bool_decide; simpl; (split_and!; [done..|]); intros; by simplify_eq.
  - destruct (negb trigger && _); simpl; [done|]. unfold readsubdir_next. simpl.
    destruct (todosubdir s) as [|[[r id] name] q]; simpl; [done|].
    case_decide; simpl; [done|]. unfold when. by case_bool_decide.
Qed.

(** C12. todo-proc does not lose a message.  Whatever calls fail, one run of
    [todo_do] asks qmail-clean to remove an envelope only when the info file
    holds its sender and headers and the channel files hold the rewritten line of
    every recipient, each in the file of its channel; the envelope is then still
    there and all of its records are of a known type.  No other file than info
    and channel files is changed or removed. *)
Theorem envelope_not_lost s trigger :
  inodes_ok (tw s) →
  let s' := run (todo_do trigger) s in
  untouched (tw s) (tw s') ∧ (to_clean s' = to_clean s ∨ ∃ id, handed_over s id s').
Proof.
  intros Hok s'. unfold s'. clear s'. unfold TodoProc.todo_do. rewrite run_bind.
  change (val getS s) with s. change (run getS s) with s.
  destruct (flagexittodo s); [split; [apply untouched_refl|by left]|].
  pose proof (scan_spec trigger s) as Hsc. unfold run, mbind, ST_bind.
  destruct (todo_scan trigger s) as [[r|[id name]] s1]; destruct Hsc as (Etw & Efr & _); unfold frame in Efr.
  - simpl. rewrite Etw. split; [apply untouched_refl|left; congruence].
  - assert (Hok1 : inodes_ok (tw s1)) by (by rewrite Etw).
    destruct (message_spec id name s1 Hok1) as (H1 & H2 & _). rewrite Etw in H1. split; [done|].
    destruct H2 as [E|H2]; [left; congruence|right; exists id].
    eapply handed_over_ctl; [..|exact H2]; congruence.
Qed.

Lemma todo_do_publishes s trigger id name q :
  inodes_ok (tw s) → sound_message s id name →
  flagexittodo s = false → (todo_interval s ≤ 0 ∨ nexttodorun s ≤ recent s)%Z →
  flagtododir s = true → todosubdir s = ((1%Z, id), name) :: q →
  let '(r, s') := todo_do trigger s in
  untouched (tw s) (tw s') ∧ handed_over s id s' ∧ (r = 2 ∨ r = 3 ∨ r = 4)%Z ∧ announced id s'.
Proof.
  intros Hok Hm Hex Hrec Hdir Hsub. unfold TodoProc.todo_do, mbind, ST_bind, getS. rewrite Hex.
  pose proof (scan_spec trigger s) as Hsc. destruct (todo_scan trigger s) as [r s1].
  destruct Hsc as (Etw & Efr & Hr). rewrite (Hr Hex Hrec Hdir id name q Hsub). unfold frame in Efr.
  assert (Hok1 : inodes_ok (tw s1)) by (by rewrite Etw).
  destruct (message_spec id name s1 Hok1) as (H0 & _ & H3).
  destruct (message id name s1) as [r' s'].
  destruct H3 as (H4 & H5 & H6).
  - destruct Hm. split; rewrite ?Etw; auto; congruence.
  - split_and!; [by rewrite <- Etw| |done|done]. eapply handed_over_ctl; [..|exact H4]; congruence.
Qed.

(** C13. A message whose turn it is leaves todo.  When no call fails, its records
    are of known types and qmail-clean agrees, the message is handed over whole,
    [todo_do] asks to be called again or reports the end of a chunk, and
    qmail-send is told of exactly the channel files there are. *)
Theorem message_published s trigger id name q :
  inodes_ok (tw s) → sound_message s id name →
  flagexittodo s = false → (todo_interval s ≤ 0 ∨ nexttodorun s ≤ recent s)%Z →
  flagtododir s = true → todosubdir s = ((1%Z, id), name) :: q →
  let '(r, s') := todo_do trigger s in
  handed_over s id s' ∧ (r = 2 ∨ r = 3 ∨ r = 4)%Z ∧ announced id s'.
Proof.
  intros H1 H2 H3 H4 H5 H6. pose proof (todo_do_publishes s trigger id name q H1 H2 H3 H4 H5 H6) as H.
  destruct (todo_do trigger s). by destruct H.
Qed.
End TodoTheorems.

(** ** What qmail-send reads *)

Section announcement.
Context {L : LibQmail} {LL : LibQmailLaws L} (cfg : config).

Lemma todo_bytes_app a b s :
  run (todo_bytes cfg (a ++ b)) s = run (todo_bytes cfg b) (run (todo_bytes cfg a) s).
Proof.
  revert s. induction a as [|x a IH]; intros s; [done|]. simpl. by rewrite !run_bind, IH.
Qed.

Lemma todo_bytes_collect l s :
  Forall (λ c, c ≠ 0%Z) l → length (todoline s) + length l ≤ REPORTMAX →
  run (todo_bytes cfg l) s = set_todoline (todoline s ++ l) s.
Proof.
  intros Hl. revert s. induction Hl as [|x l Hx Hl IH]; intros s Hlen; simpl.
  { rewrite app_nil_r. by destruct s. }
  simpl in Hlen.
  assert (run (todo_byte cfg x) s = set_todoline (todoline s ++ [x]) s) as E.
  { unfold todo_byte, skip, mret, ST_ret, mbind, ST_bind, run, modify, getS. simpl.
    rewrite take_ge by (rewrite length_app; simpl; lia). by rewrite decide_False by naive_solver. }
  rewrite run_bind, E.
  rewrite IH by (simpl; rewrite length_app; simpl; lia). simpl. by rewrite <- (assoc_L app).
Qed.

Lemma decimal_nonzero n : ulong n → Forall (λ c, c ≠ 0%Z) (fmt_ulong n).
Proof.
  intros Hn. rewrite fmt_ulong_ok by done. eapply Forall_impl; [by apply decimal_digits|].
  intros c Hc ->. done.
Qed.

(** A whole line. *)
Lemma todo_bytes_line l s :
  Forall (λ c, c ≠ 0%Z) l → 0 < length l < REPORTMAX → todoline s = [] →
  run (todo_bytes cfg (l ++ [0%Z])) s =
  set_todoline [] (run (todo_line cfg (l ++ [0%Z])) (set_todoline (l ++ [0%Z]) s)).
Proof.
  intros Hl Hlen Hs.
  rewrite todo_bytes_app, (todo_bytes_collect l s); [|done|rewrite Hs; cbn [length]; lia].
  rewrite Hs. cbn [app todo_bytes].
  unfold todo_byte, skip, mret, ST_ret, mbind, ST_bind, run, modify, getS.
  cbn [todoline set_todoline fst snd].
  rewrite take_ge, decide_True; [|split; [done|]|]; rewrite ?length_app; cbn [length]; try lia.
  cbn [fst snd]. by destruct (todo_line _ _ _).
Qed.

Lemma val_sys {A} (m : ST world A) s : val (sys m) s = val m (wd s).
Proof. unfold val, sys. by destruct (m (wd s)). Qed.
Lemma run_sys {A} (m : ST world A) s : run (sys m) s = set_wd (run m (wd s)) s.
Proof. unfold run, sys. by destruct (m (wd s)). Qed.

Lemma todo_line_del l s :
  flagexitsend s = false → Forall (λ c, c ≠ 0%Z) l →
  run (todo_line cfg ((68%Z :: l) ++ [0%Z])) s = run (todo_del cfg l) s.
Proof.
  intros Hex Hl. unfold todo_line. rewrite run_bind. change (val getS s) with s.
  change (run getS s) with s. cbn [app head tail]. by rewrite Hex, cstr_app.
Qed.

(** The entries a line makes. *)
Definition enter (pe : prioq_elt) (cs : list channel) : ST qsend unit :=
  insert_chans (map (λ c, (c, pe)) cs);; when (bool_decide (cs = [])) (insert_done pe).

Lemma todo_del_entered x cs id s :
  ulong id → todo_channels (Some x) = Some cs →
  run (todo_del cfg (x :: fmt_ulong id)) s =
  run (enter (PE (val now (wd s)) id (junk cfg)) cs) (set_wd (run now (wd s)) s).
Proof.
  intros Hid Hch. unfold todo_del. cbn [head tail]. rewrite Hch.
  pose proof (scan_fmt_ulong id [] Hid I) as Hscan. rewrite app_nil_r in Hscan. rewrite Hscan.
  rewrite drop_all, decide_False.
  2:{ intros [H|H]; [|done]. apply (decimal_not_nil id). apply length_zero_iff_nil.
      by rewrite <- fmt_ulong_ok. }
  rewrite run_bind. unfold wrap. rewrite Z.mod_small by done.
  by rewrite val_sys, run_sys.
Qed.

(** C14. qmail-send reads from todo-proc's announcement what todo-proc meant: it
    enters the message, with the present time, into the queue of each channel that
    has a file, or among the finished messages when neither has, and is ready for
    the next line. *)
Theorem announcement_read id local remote s :
  ulong id → flagexitsend s = false → todoline s = [] →
  let s' := run (todo_bytes cfg (announcement id local remote)) s in
  let pe := PE (val now (wd s)) id (junk cfg) in
  let entered pq := (insert_pq pq pe s).1 in
  pqchan s' Local = (if local : bool then entered (pqchan s Local) else pqchan s Local) ∧
  pqchan s' Remote = (if remote : bool then entered (pqchan s Remote) else pqchan s Remote) ∧
  pqdone s' = (if local || remote then pqdone s else entered (pqdone s)) ∧
  todoline s' = [].
Proof.
  intros Hid Hex Hline. cbv zeta. unfold announcement.
  set (letter := if local && remote then _ else _).
  assert (Hdig : 0 < length (fmt_ulong id) ≤ 20).
  { rewrite fmt_ulong_ok by done. pose proof (decimal_not_nil id). pose proof (decimal_length 20 id).
    unfold decimal in *. destruct (decimal_aux 20 id); [done|]. simpl in *. lia. }
  assert (Hlet : ∃ x, letter = [x] ∧ x ≠ 0%Z ∧ todo_channels (Some x) =
    Some ((if local : bool then [Local] else []) ++ (if remote : bool then [Remote] else []))).
  { unfold letter. by destruct local, remote; eexists. }
  destruct Hlet as (x & -> & Hx & Hch).
  change (lit "D" ++ [x] ++ fmt_ulong id ++ [0%Z]) with ((68%Z :: x :: fmt_ulong id) ++ [0%Z]).
  rewrite todo_bytes_line; [|by repeat constructor; try done; apply decimal_nonzero|
    unfold REPORTMAX; simpl; lia|done].
  rewrite todo_line_del; [|done|by constructor; [|apply decimal_nonzero]].
  rewrite (todo_del_entered _ _ _ _ Hid Hch). clear Hch.
  destruct local, remote; simpl; by repeat split.
Qed.
End announcement.

(** ** A message with a local, a virtual and a remote recipient *)
Module TodoRun.
#[local] Existing Instance reference_libqmail.
#[local] Existing Instance reference_laws.

Definition cfg : config := Config 0 23 true 604800 604800 false 129600 0.
Definition z (s : string) : bytes := lit s ++ [0%Z].
Definition envelope : bytes :=
  z "u501" ++ z "p77" ++ z "Fjoe@example.org" ++ z "Tbob@example.org" ++ z "Tann@virt.org" ++
  z "Teve@example.net".
Definition w : world :=
  World {[ lit "todo/5/5" := 0; lit "mess/5/5" := 1; lit "local/5/5" := 2 ]}
    {[ 0 := Inode envelope 100 100; 1 := Inode (lit "Subject: hi") 100 100;
       2 := Inode (z "Tstale") 100 100 ]} 3 [] 1000 [].
Definition s : tproc :=
  TProc w 1000 [] 0 0 true false false false true 1000 (-1) 1 0 (lit "example.org")
    (λ _, false) (λ d, bool_decide (d = lit "example.org"))
    (λ d, if decide (d = lit "virt.org") then Some (lit "v") else None)
    [] [] [((1%Z, 5%Z), Some (lit "5"))] [] [c_plus] [].
Definition scan_int (p : bytes) : Z := value_of (digit_prefix p).
Definition step (s : tproc) : Z * tproc :=
  TodoProc.todo_do cfg (lit "todo-proc") (lit "queue1") (λ _, lit "error") scan_int 10 false s.

Lemma s_inodes : inodes_ok (tw s).
Proof.
  intros p i. simpl. rewrite !lookup_insert_Some, lookup_singleton_Some.
  intros H. repeat destruct H as [[? ?]|[? H]]; destruct_and?; lia.
Qed.
Lemma s_sound : sound_message cfg scan_int s 5 (Some (lit "5")).
Proof.
  split; try (by vm_compute).
  - by eexists.
  - intros fd [= <-]. repeat constructor.
  - by eexists.
Qed.
End TodoRun.

Lemma envelope_not_lost_witness :
  ∃ id, @handed_over reference_libqmail TodoRun.cfg TodoRun.s id (TodoRun.step TodoRun.s).2.
Proof.
  destruct (@envelope_not_lost reference_libqmail TodoRun.cfg (lit "todo-proc") (lit "queue1")
    (λ _, lit "error") TodoRun.scan_int 10 TodoRun.s false TodoRun.s_inodes) as [_ [E|H]].
  - exfalso. vm_compute in E. discriminate E.
  - exact H.
Defined.

Lemma message_published_witness :
  let '(r, s') := TodoRun.step TodoRun.s in
  @handed_over reference_libqmail TodoRun.cfg TodoRun.s 5 s' ∧ (r = 2 ∨ r = 3 ∨ r = 4)%Z ∧
  @announced reference_libqmail TodoRun.cfg 5 s'.
Proof.
  apply (@message_published reference_libqmail TodoRun.cfg (lit "todo-proc") (lit "queue1")
    (λ _, lit "error") TodoRun.scan_int 10 TodoRun.s false 5 (Some (lit "5")) []).
  - exact TodoRun.s_inodes.
  - exact TodoRun.s_sound.
  - reflexivity.
  - left. by vm_compute.
  - reflexivity.
  - reflexivity.
Defined.

Lemma announcement_read_witness :
  todoline (run (@todo_bytes reference_libqmail Run.cfg
    (@announcement reference_libqmail 77 true false)) Run.s0) = [].
Proof.
  apply (@announcement_read reference_libqmail reference_laws Run.cfg 77 true false Run.s0).
  - split; [done|]. by vm_compute.
  - by vm_compute.
  - by vm_compute.
Defined.
