(* ===== verification/QmailClean.v ===== *)
(** * Removing queue files: [qmail-clean.c]

    qmail-clean reads the name of a file that is to go, from qmail-send
    (foop/..., a finished message) or todo-proc (todo/..., an envelope that has been
    split), removes it and its intd file, and answers with one byte. *)

From S2P Require Import Prelude LibQmail Filesys Fmtqfn SendState TodoProc.

Record clean := Clean {
  cw : world;
  cid : Z;               (* [id], kept from request to request *)
  cleanuploop : nat;
  answers : bytes        (* bytes written to the client *)
}.
Definition set_cw v s := Clean v (cid s) (cleanuploop s) (answers s).
Definition set_cid v s := Clean (cw s) v (cleanuploop s) (answers s).
Definition set_cleanuploop v s := Clean (cw s) (cid s) v (answers s).
Definition set_answers v s := Clean (cw s) (cid s) (cleanuploop s) v.

Notation "'CL' A" := (ST clean A) (at level 10, A at next level, only parsing) : mta_scope.

(** What the directory pid holds, when it can be opened. *)
Abbreviation listing := (option (list bytes)) (only parsing).

Section QmailClean.
Context {L : LibQmail} (cfg : config).

Definition csys {A} (m : ST world A) : CL A :=
  λ s, let '(a, w) := m (cw s) in (a, set_cw w s).

(** Old files of qmail-queue. *)
Definition cleanuppid_one (tm : Z) (name : bytes) : CL unit :=
  if decide (name = lit "." ∨ name = lit "..") then skip
  else
    let fn := lit "pid/" ++ name in
    st ← csys (stat fn);
    match st with
    | inl _ => skip
    | inr st =>
      if decide (wrap 64 tm < wrap 64 (i_atime st + ossified cfg))%Z then skip
      else _ ← csys (unlink fn); skip
    end.

Fixpoint cleanuppid_loop (tm : Z) (l : list bytes) : CL unit :=
  match l with
  | [] => skip
  | name :: l => cleanuppid_one tm name;; cleanuppid_loop tm l
  end.

Definition cleanuppid (pid : listing) : CL unit :=
  tm ← csys now;
  match pid with None => skip | Some l => cleanuppid_loop tm l end.

(** The process ends ([None]) when the client is gone. *)
Definition respond (c : Z) : CL (option unit) :=
  bad ← csys fault;
  if bad : bool then mret None else modify (λ s, set_answers (answers s ++ [c]) s);; mret (Some tt).

Fixpoint respond_times (n : nat) (c : Z) : CL (option unit) :=
  match n with 0 => mret (Some tt) | S n => respond c;;! respond_times n c end.

(** The loop over the name from its end: the index of the last slash, 4 if it is
    not after that, and how many bytes after it are no digits.  Each of those is
    answered with an x, and the request goes on. *)
Fixpoint check_digits (line : bytes) (i bad : nat) : nat * nat :=
  match i with
  | 0 => (0, bad)
  | S i' =>
    if decide (4 < i) then
      if decide (line !! i = Some c_slash) then (i, bad)
      else
        let bad := if decide (9 < wrap 8 (default 0 (line !! i) - 48))%Z then S bad else bad in
        check_digits line i' bad
    else (i, bad)
  end.

(** The macro [U]: [Some false] after an answer. *)
Definition remove (fn : bytes) : CL (option bool) :=
  r ← csys (unlink fn);
  match r with
  | inl EOTHER | inl EEXIST => respond 33 (* ! *);;! mret (Some false)
  | _ => mret (Some true)
  end.

Definition qfile (d : bytes) (id : Z) (flag : bool) : bytes :=
  qfn (conf_split cfg) (auto_split cfg) d id flag.

(** Two files, and the answer. *)
Definition remove_both (fn1 fn2 : bytes) : CL (option unit) :=
  ok ←! remove fn1;
  if negb ok : bool then mret (Some tt)
  else
    ok ←! remove fn2;
    if negb ok : bool then mret (Some tt) else respond c_plus.

(** One request, its terminating zero included. *)
Definition clean_request (line : bytes) : CL (option unit) :=
  if decide (length line < 7) then respond 120 (* x *)
  else if decide (100 < length line) then respond 120
  else if decide (last line ≠ Some 0%Z) then respond 120
  else
    let '(i, bad) := check_digits line (length line - 2) 0 in
    respond_times bad 120;;!
    ok ←! (if decide (line !! i = Some c_slash) then
             let '(len, id) := scan_ulong (cstr (drop (i + 1) line)) in
             modify (set_cid id);;
             if decide (len = 0) then respond 120;;! mret (Some false) else mret (Some true)
           else mret (Some true));
    if negb ok : bool then mret (Some tt)
    else
      s ← getS;
      if decide (take 5 line = lit "foop/") then
        remove_both (qfile (lit "intd/") (cid s) (bigtodo cfg)) (qfile (lit "mess/") (cid s) true)
      else if decide (take 4 line = lit "todo") then
        remove_both (qfile (lit "intd/") (cid s) (bigtodo cfg)) (qfile (lit "todo/") (cid s) (bigtodo cfg))
      else respond 120.

(** The main loop: the requests, and the directory pid whenever it is read. *)
Fixpoint clean_main (l : list (bytes * listing)) : CL (option unit) :=
  match l with
  | [] => mret None
  | (line, pid) :: l =>
    s ← getS;
    match cleanuploop s with
    | 0 => cleanuppid pid;; modify (set_cleanuploop 30)
    | S n => modify (set_cleanuploop n)
    end;;
    clean_request line;;!
    clean_main l
  end.
End QmailClean.

(** ** What a request removes *)

Section CleanTheorems.
Context {L : LibQmail} {LL : LibQmailLaws L} (cfg : config).
Hypothesis split_pos : (0 < split_of (conf_split cfg) (auto_split cfg) < 2 ^ 31)%Z.

(** The answer to the request for two files: the client is gone, or it is told + and
    both are gone, or it is told ! after an error; nothing else changes. *)
Definition removed (fn1 fn2 : bytes) (s : clean) (r : option unit) (s' : clean) : Prop :=
  inodes (cw s') = inodes (cw s) ∧
  (∀ p, p ≠ fn1 → p ≠ fn2 → names (cw s') !! p = names (cw s) !! p) ∧
  match r with
  | None => faults (cw s) ≠ []
  | Some _ =>
    (answers s' = answers s ++ [c_plus] ∧ names (cw s') !! fn1 = None ∧ names (cw s') !! fn2 = None) ∨
    (answers s' = answers s ++ [33%Z] ∧ faults (cw s) ≠ [])
  end.

Lemma wp_csys {A} (m : ST world A) (Q : A → clean → Prop) s :
  wp m (λ a w, Q a (set_cw w s)) (cw s) → wp (csys m) Q s.
Proof. unfold wp, csys. by destruct (m (cw s)). Qed.

(** One file. *)
Lemma remove_spec fn s (Q : option bool → clean → Prop) :
  (∀ f, (faults (cw s) = [] → f = []) →
     Q (Some true) (set_cw (set_names (delete fn (names (cw s))) (set_faults f (cw s))) s)) →
  (faults (cw s) ≠ [] → ∀ f, Q (Some false) (set_answers (answers s ++ [33%Z]) (set_cw (set_faults f (cw s)) s))) →
  (faults (cw s) ≠ [] → ∀ f, Q None (set_cw (set_faults f (cw s)) s)) →
  wp (remove fn) Q s.
Proof.
  intros H1 H2 H3. unfold remove. apply wp_bind, wp_csys. unfold unlink. apply wp_syscall_only.
  - intros Hf f. unfold respond, ebind. apply wp_bind, wp_bind, wp_csys. simpl.
    unfold wp, fault. simpl. destruct f as [|[] f]; simpl; [by apply H2|by apply H3|].
    by apply (H2 Hf f).
  - intros f Hf. unfold lookup_name. apply wp_bind, wp_bind, wp_getS, wp_ret. simpl.
    specialize (H1 f Hf). destruct (names (cw s) !! fn) eqn:E; apply wp_ret; [by apply wp_ret|].
    rewrite delete_id in H1 by done. by destruct s as [[]].
Qed.

Lemma remove_both_spec fn1 fn2 s : wp (remove_both fn1 fn2) (removed fn1 fn2 s) s.
Proof.
  unfold remove_both, ebind. apply wp_bind, remove_spec.
  2:{ intros Hf f. apply wp_ret. split_and!; [done..|]. by right. }
  2:{ intros Hf f. by apply wp_ret. }
  intros f Hf. apply wp_bind, remove_spec; simpl.
  - intros f' Hf'. unfold respond. apply wp_bind, wp_csys. apply wp_fault_only; simpl.
    + intros Hff f''. apply wp_ret. split_and!; [done| |].
      * intros p H1 H2. simpl. by rewrite !lookup_delete_ne.
      * intros E. apply Hff, Hf', Hf, E.
    + intros f'' _. apply wp_bind, wp_modify, wp_ret. split_and!; [done| |].
      * intros p H1 H2. simpl. by rewrite !lookup_delete_ne.
      * left. simpl. split; [done|]. split; [|apply lookup_delete_eq].
        destruct (decide (fn1 = fn2)) as [->|]; [apply lookup_delete_eq|].
        rewrite lookup_delete_ne by done. apply lookup_delete_eq.
  - intros Hff f'. apply wp_ret. split_and!; [done| |].
    + intros p H1 H2. simpl. by rewrite lookup_delete_ne.
    + right. split; [done|]. intros E. apply Hff, Hf, E.
  - intros Hff f'. apply wp_ret. split_and!; [done| |].
    + intros p H1 H2. simpl. by rewrite lookup_delete_ne.
    + intros E. apply Hff, Hf, E.
Qed.

(** ** Reading a request *)

Lemma check_digits_name pre ds k :
  4 ≤ length pre → Forall (λ c, is_digit c = true) ds → k ≤ length ds →
  check_digits (pre ++ c_slash :: ds ++ [0%Z]) (length pre + k) 0 = (length pre, 0).
Proof.
  intros Hp Hd. induction k as [|k IH]; intros Hk.
  - rewrite Nat.add_0_r. destruct (length pre) as [|i] eqn:E; [lia|]. cbn [check_digits]. rewrite <- E.
    case_decide; [|done]. by rewrite decide_True by (by rewrite lookup_app_r, Nat.sub_diag).
  - rewrite <- Nat.add_succ_comm, Nat.add_succ_l. cbn [check_digits].
    rewrite decide_True by lia. rewrite lookup_app_r by lia.
    replace (S (length pre + k) - length pre) with (S k) by lia. cbn [lookup list_lookup].
    destruct (lookup_lt_is_Some_2 ds k) as [c Hc]; [lia|].
    change ((ds ++ [0%Z]) !! k) with ((ds ++ [0%Z]) !! k). rewrite lookup_app_l by lia. rewrite Hc.
    pose proof (Forall_lookup_1 _ _ _ _ Hd Hc) as Hdig. unfold is_digit in Hdig.
    apply bool_decide_eq_true in Hdig. rewrite decide_False by (intros [= ->]; lia).
    assert (wrap 8 (c - 48) = (c - 48)%Z) as Hw.
    { apply Z.mod_small. change (2 ^ 8)%Z with 256%Z. lia. }
    simpl default. rewrite Hw, (decide_False (P := (9 < _)%Z)) by lia. apply IH. lia.
Qed.

(** A request that names a message is read back. *)
Lemma request_read pre id s Q :
  4 ≤ length pre ≤ 50 → ulong id →
  wp (let s1 := set_cid id s in
      λ _, (if decide (take 5 (pre ++ c_slash :: fmt_ulong id ++ [0%Z]) = lit "foop/") then
        remove_both (qfile cfg (lit "intd/") id (bigtodo cfg)) (qfile cfg (lit "mess/") id true)
      else if decide (take 4 (pre ++ c_slash :: fmt_ulong id ++ [0%Z]) = lit "todo") then
        remove_both (qfile cfg (lit "intd/") id (bigtodo cfg)) (qfile cfg (lit "todo/") id (bigtodo cfg))
      else respond 120) s1) Q s →
  wp (clean_request cfg (pre ++ c_slash :: fmt_ulong id ++ [0%Z])) Q s.
Proof.
  intros Hpre Hid HQ. unfold clean_request. pose proof Hid as Hu.
  set (line := pre ++ c_slash :: fmt_ulong id ++ [0%Z]) in *.
  assert (Hdig : Forall (λ c, is_digit c = true) (fmt_ulong id)).
  { rewrite fmt_ulong_ok by done. by apply decimal_digits. }
  assert (Hl : 0 < length (fmt_ulong id) ≤ 20).
  { rewrite fmt_ulong_ok by done. pose proof (decimal_not_nil id). pose proof (decimal_length 20 id).
    unfold decimal in *. destruct (decimal_aux 20 id); [done|]. simpl in *. lia. }
  assert (Hlen : length line = length pre + 2 + length (fmt_ulong id)).
  { unfold line. rewrite length_app. simpl. rewrite length_app. simpl. lia. }
  rewrite !decide_False; [|by unfold line; rewrite app_comm_cons, (assoc_L app), last_snoc; intros []|lia..].
  replace (length line - 2) with (length pre + length (fmt_ulong id)) by lia.
  unfold line at 1. rewrite check_digits_name by (done || lia). cbn [respond_times].
  unfold ebind. apply wp_bind, wp_ret. apply wp_bind.
  assert (Hat : line !! length pre = Some c_slash) by (unfold line; by rewrite lookup_app_r, Nat.sub_diag).
  rewrite (decide_True (P := line !! length pre = _)) by done.
  assert (Hsc : scan_ulong (cstr (drop (length pre + 1) line)) = (length (fmt_ulong id), id)).
  { unfold line. rewrite drop_app_ge by lia. replace (length pre + 1 - length pre) with 1 by lia.
    change (drop 1 (c_slash :: fmt_ulong id ++ [0%Z])) with (fmt_ulong id ++ [0%Z]).
    rewrite cstr_app by (by apply digits_no_zero).
    pose proof (scan_fmt_ulong id [] Hu I) as H. by rewrite app_nil_r in H. }
  rewrite Hsc. apply wp_bind, wp_modify. rewrite decide_False by lia. apply wp_ret. cbn [negb].
  apply wp_bind, wp_getS. exact HQ.
Qed.

(** C19. qmail-clean and its clients agree.  A request of todo-proc, the name of an
    envelope in todo, removes the envelope and its intd file; one of qmail-send, a name
    in foop, removes the message and its intd file.  The answer is one byte: + only
    when both files are gone, ! only after an error; no other file is touched, and
    without errors the answer is +. *)
Theorem clean_requests_answered id s :
  ulong id →
  (let '(r, s') := clean_request cfg (fnmake_todo cfg id ++ [0%Z]) s in
   removed (qfile cfg (lit "intd/") id (bigtodo cfg)) (fnmake_todo cfg id) s r s') ∧
  (let '(r, s') := clean_request cfg (fnmake_foop cfg id ++ [0%Z]) s in
   removed (qfile cfg (lit "intd/") id (bigtodo cfg)) (fnmake_mess cfg id) s r s').
Proof.
  intros Hid.
  assert (Hm : ulong (id mod wrap 64 (split_of (conf_split cfg) (auto_split cfg)))%Z) by by apply split_ulong.
  assert (Hwp : ∀ pre line fn, 4 ≤ length pre ≤ 50 → line = pre ++ c_slash :: fmt_ulong id ++ [0%Z] →
    (take 5 line = lit "foop/" ∧ fn = fnmake_mess cfg id ∨
     take 5 line ≠ lit "foop/" ∧ take 4 line = lit "todo" ∧ fn = fnmake_todo cfg id) →
    let '(r, s') := clean_request cfg line s in
    removed (qfile cfg (lit "intd/") id (bigtodo cfg)) fn s r s').
  { intros pre line fn Hpre -> Hcase.
    pose proof (request_read pre id s
      (removed (qfile cfg (lit "intd/") id (bigtodo cfg)) fn s) Hpre Hid) as H.
    unfold wp in H. destruct (clean_request _ _ _) as [r s']. apply H. clear H.
    destruct Hcase as [[Ht ->]|(Ht & Ht' & ->)].
    - rewrite decide_True by done. apply (remove_both_spec _ _ (set_cid id s)).
    - rewrite decide_False, decide_True by done. apply (remove_both_spec _ _ (set_cid id s)). }
  split.
  - unfold fnmake_todo, qfn. destruct (bigtodo cfg) eqn:Hb.
    + apply (Hwp (lit "todo/" ++ fmt_ulong (id mod wrap 64 (split_of (conf_split cfg) (auto_split cfg)))%Z)).
      * rewrite length_app, fmt_ulong_ok by done. simpl.
        pose proof (decimal_length 20 (id mod wrap 64 (split_of (conf_split cfg) (auto_split cfg)))%Z).
        unfold decimal. lia.
      * by rewrite <- !(assoc_L app).
      * right. split; [done|]. split; [done|]. unfold fnmake_todo, qfn. by rewrite Hb.
    + apply (Hwp (lit "todo")); [simpl; lia|by rewrite <- !(assoc_L app)|].
      right. split; [done|]. split; [done|]. unfold fnmake_todo, qfn. by rewrite Hb.
  - apply (Hwp (lit "foop")); [simpl; lia|unfold fnmake_foop, qfn; by rewrite <- !(assoc_L app)|].
    by left.
Qed.
End CleanTheorems.

Definition example_clean : clean :=
  Clean (World {[ lit "todo/5/5" := 0; lit "intd/5/5" := 0; lit "info/5/5" := 1 ]}
    {[ 0 := Inode (lit "Fjoe") 100 100; 1 := Inode (lit "Fjoe") 100 100 ]} 2 [] 1000 []) 0 3 [].

Definition example_config : config := Config 0 23 true 0 0 false 129600 0.

Lemma clean_requests_answered_witness :
  let '(r, s') := @clean_request reference_libqmail example_config
    (@fnmake_todo reference_libqmail example_config 5 ++ [0%Z]) example_clean in
  removed (@qfile reference_libqmail example_config (lit "intd/") 5 (bigtodo example_config))
    (@fnmake_todo reference_libqmail example_config 5) example_clean r s'.
Proof.
  exact (proj1 (@clean_requests_answered reference_libqmail reference_laws example_config
    ltac:(by vm_compute) 5 example_clean ltac:(by vm_compute))).
Defined.
