(* ===== verification/Spawn.v ===== *)
(** * The spawn processes: [spawn.c], with the reports of [qmail-lspawn.c] and
    [qmail-rspawn.c]

    qmail-lspawn and qmail-rspawn read delivery commands from qmail-send, start a
    child for each, collect what the children write and report when they end.

    [SPAWN], which forks, and what the children do are outside: [cmd_env] is what
    the system calls of one command give, and a child's output is an input.
    Output is kept report by report.  Writing is modelled as successful: once
    qmail-send is gone, [okwrite] discards. *)

From S2P Require Import Prelude LibQmail.

(** One entry of the table of deliveries. *)
Record slot := Slot {
  used : bool;
  fdin : nat; pid : Z;          (* zero if the child is dead *)
  wstat : Z;
  fdout : option nat;
  output : bytes
}.
#[export] Instance slot_inhabited : Inhabited slot := populate (Slot false 0 0 0 None []).

(** What the calls of [docmd] give. *)
Record cmd_env := CmdEnv {
  ce_open : bool; ce_fstat : bool;
  ce_size : Z; ce_regular : bool; ce_owner : bool;
  ce_pipe : option (nat * nat);
  ce_spawn : Z                  (* the result of [SPAWN] *)
}.

(** The arguments of [SPAWN], and the environment it is called in. *)
Record call := Call {
  ca_delnum : Z; ca_mess : bytes; ca_size : Z;
  ca_sender : bytes; ca_qqeh : bytes; ca_recip : bytes; ca_at : nat;
  ca_env : gmap bytes bytes
}.

Record spawn := Spawn {
  d : list slot  (* the table of deliveries, [auto_spawn] entries *);
  flagreading : bool;
  stage : nat  (* 0, 1: delnum 2: messid 3: sender 4: qqeh 5: envh 6: recip *);
  flagabort : bool;
  delnum : Z;
  messid : bytes;
  sender : bytes;
  qqeh : bytes;
  envh : bytes;
  recip : bytes;
  reports : list bytes  (* what is written to qmail-send, report by report *);
  environ : gmap bytes bytes;
  started : list call  (* the calls of [SPAWN] *);
  cmd_envs : list cmd_env  (* what the system calls of the next commands give *);
  mem : list bool  (* the next allocations that fail *)
}.

Definition set_d (v : list slot) (s : spawn) : spawn :=
  Spawn v (flagreading s) (stage s) (flagabort s) (delnum s) (messid s) (sender s) (qqeh s)
    (envh s) (recip s) (reports s) (environ s) (started s) (cmd_envs s) (mem s).
Definition set_flagreading (v : bool) (s : spawn) : spawn :=
  Spawn (d s) v (stage s) (flagabort s) (delnum s) (messid s) (sender s) (qqeh s) (envh s)
    (recip s) (reports s) (environ s) (started s) (cmd_envs s) (mem s).
Definition set_stage (v : nat) (s : spawn) : spawn :=
  Spawn (d s) (flagreading s) v (flagabort s) (delnum s) (messid s) (sender s) (qqeh s) (envh s)
    (recip s) (reports s) (environ s) (started s) (cmd_envs s) (mem s).
Definition set_flagabort (v : bool) (s : spawn) : spawn :=
  Spawn (d s) (flagreading s) (stage s) v (delnum s) (messid s) (sender s) (qqeh s) (envh s)
    (recip s) (reports s) (environ s) (started s) (cmd_envs s) (mem s).
Definition set_delnum (v : Z) (s : spawn) : spawn :=
  Spawn (d s) (flagreading s) (stage s) (flagabort s) v (messid s) (sender s) (qqeh s) (envh s)
    (recip s) (reports s) (environ s) (started s) (cmd_envs s) (mem s).
Definition set_messid (v : bytes) (s : spawn) : spawn :=
  Spawn (d s) (flagreading s) (stage s) (flagabort s) (delnum s) v (sender s) (qqeh s) (envh s)
    (recip s) (reports s) (environ s) (started s) (cmd_envs s) (mem s).
Definition set_sender (v : bytes) (s : spawn) : spawn :=
  Spawn (d s) (flagreading s) (stage s) (flagabort s) (delnum s) (messid s) v (qqeh s) (envh s)
    (recip s) (reports s) (environ s) (started s) (cmd_envs s) (mem s).
Definition set_qqeh (v : bytes) (s : spawn) : spawn :=
  Spawn (d s) (flagreading s) (stage s) (flagabort s) (delnum s) (messid s) (sender s) v (envh
    s) (recip s) (reports s) (environ s) (started s) (cmd_envs s) (mem s).
Definition set_envh (v : bytes) (s : spawn) : spawn :=
  Spawn (d s) (flagreading s) (stage s) (flagabort s) (delnum s) (messid s) (sender s) (qqeh s)
    v (recip s) (reports s) (environ s) (started s) (cmd_envs s) (mem s).
Definition set_recip (v : bytes) (s : spawn) : spawn :=
  Spawn (d s) (flagreading s) (stage s) (flagabort s) (delnum s) (messid s) (sender s) (qqeh s)
    (envh s) v (reports s) (environ s) (started s) (cmd_envs s) (mem s).
Definition set_reports (v : list bytes) (s : spawn) : spawn :=
  Spawn (d s) (flagreading s) (stage s) (flagabort s) (delnum s) (messid s) (sender s) (qqeh s)
    (envh s) (recip s) v (environ s) (started s) (cmd_envs s) (mem s).
Definition set_environ (v : gmap bytes bytes) (s : spawn) : spawn :=
  Spawn (d s) (flagreading s) (stage s) (flagabort s) (delnum s) (messid s) (sender s) (qqeh s)
    (envh s) (recip s) (reports s) v (started s) (cmd_envs s) (mem s).
Definition set_started (v : list call) (s : spawn) : spawn :=
  Spawn (d s) (flagreading s) (stage s) (flagabort s) (delnum s) (messid s) (sender s) (qqeh s)
    (envh s) (recip s) (reports s) (environ s) v (cmd_envs s) (mem s).
Definition set_cmd_envs (v : list cmd_env) (s : spawn) : spawn :=
  Spawn (d s) (flagreading s) (stage s) (flagabort s) (delnum s) (messid s) (sender s) (qqeh s)
    (envh s) (recip s) (reports s) (environ s) (started s) v (mem s).
Definition set_mem (v : list bool) (s : spawn) : spawn :=
  Spawn (d s) (flagreading s) (stage s) (flagabort s) (delnum s) (messid s) (sender s) (qqeh s)
    (envh s) (recip s) (reports s) (environ s) (started s) (cmd_envs s) v.

Notation "'SP' A" := (ST spawn A) (at level 10, A at next level, only parsing) : mta_scope.

(** ** What a spawn process reports of a child

    The interface between [spawn.c] and the two programs that are linked with it:
    a result letter and a text. *)
Class SpawnReport := {
  truncreport : nat;                      (* [truncreport_SPAWN] *)
  report_SPAWN : Z → bytes → bytes        (* exit status, output *)
}.
Class SpawnReportLaws (R : SpawnReport) : Prop := {
  report_shape w out : ∃ letter text, report_SPAWN w out = letter :: text ∧
    (letter = 75 ∨ letter = 90 ∨ letter = 68)%Z ∧ (0%Z ∉ text)
}.

(** [wait_crashed] and [wait_exitcode] are libqmail's. *)
Section reports.
Context (wait_crashed : Z → bool) (wait_exitcode : Z → Z).

Definition line (s : string) : bytes := lit s ++ [c_lf].

(** *** qmail-rspawn *)

(** The loop over the records of qmail-remote's output: the first record with a
    letter of its own decides; [j] is where the present record starts. *)
Fixpoint remote_result (n : nat) (s : bytes) (j k : nat) : Z :=
  match n with
  | 0 => (-1)%Z
  | S n =>
    if decide (s !! k = Some 0%Z) then
      if decide (s !! j = Some 75%Z) then 1%Z
      else if decide (s !! j = Some 90%Z) then 0%Z
      else if decide (s !! j = Some 68%Z) then (-1)%Z
      else remote_result n s (k + 1) (k + 1)
    else remote_result n s j (k + 1)
  end.

(** The texts: of the first record, and of the next when it is a message result
    and its result is not better than the recipient's. *)
Fixpoint remote_text (n : nat) (s : bytes) (both : bool) (k : nat) : bytes :=
  match n with
  | 0 => []
  | S n =>
    if decide (s !! k = Some 0%Z) then
      cstr (tail s) ++
      (if both && bool_decide (s !! (k + 1) = Some 90%Z ∨ s !! (k + 1) = Some 68%Z ∨ s !! (k + 1) = Some 75%Z)
       then cstr (drop (k + 2) s) else [])
    else remote_text n s both (k + 1)
  end.

Definition report_remote (w : Z) (s : bytes) : bytes :=
  if wait_crashed w then line "Zqmail-remote crashed."
  else if decide (wait_exitcode w = 111%Z) then line "ZUnable to run qmail-remote."
  else if decide (wait_exitcode w ≠ 0%Z) then line "DUnable to run qmail-remote."
  else if decide (s = []) then line "Zqmail-remote produced no output."
  else
    let result := remote_result (length s) s 0 0 in
    let orr := match head s with
               | Some 115%Z (* s *) => 0%Z
               | Some 104%Z (* h *) => (-1)%Z
               | _ => result
               end in
    (if decide (orr = 1%Z) then lit "K" else if decide (orr = 0%Z) then lit "Z" else lit "D") ++
    remote_text (length s - 1) s (bool_decide (result ≤ orr)%Z) 1.

(** *** qmail-lspawn *)

(** The exit codes of qlx.h. *)
Definition QLX_USAGE : Z := 112.
Definition QLX_ROOT : Z := 113.
Definition QLX_NFS : Z := 115.
Definition QLX_NOALIAS : Z := 116.
Definition QLX_CDB : Z := 117.
Definition QLX_SYS : Z := 118.
Definition QLX_NOMEM : Z := 119.
Definition QLX_EXECSOFT : Z := 120.
Definition QLX_EXECPW : Z := 121.
Definition QLX_DIR : Z := 122.
Definition QLX_EXECHARD : Z := 126.
Definition QLX_UIDGID : Z := 127.

Context (user : bytes).  (* the user of the last delivery, its zero included *)

Definition local_letter (e : Z) : bytes :=
  if decide (e = 111 ∨ e = 71 ∨ e = 74 ∨ e = 75)%Z then lit "Z"
  else if decide (e = 0%Z) then lit "K" else lit "D".

Definition report_local (w : Z) (s : bytes) : bytes :=
  if wait_crashed w then line "Zqmail-local crashed."
  else
    let e := wait_exitcode w in
    if decide (e = QLX_CDB) then line "ZTrouble reading users/cdb in qmail-lspawn."
    else if decide (e = QLX_NOMEM) then line "ZOut of memory in qmail-lspawn."
    else if decide (e = QLX_SYS) then line "ZTemporary failure in qmail-lspawn."
    else if decide (e = QLX_NOALIAS) then line "ZUnable to find alias user!"
    else if decide (e = QLX_ROOT) then line "ZNot allowed to perform deliveries as root."
    else if decide (e = QLX_DIR) then line "ZUnable to cd to root directory."
    else if decide (e = QLX_USAGE) then line "ZInternal qmail-lspawn bug."
    else if decide (e = QLX_NFS) then line "ZNFS failure in qmail-local."
    else if decide (e = QLX_EXECHARD) then line "DUnable to run qmail-local."
    else if decide (e = QLX_EXECSOFT) then line "ZUnable to run qmail-local."
    else if decide (e = QLX_EXECPW) then line "ZUnable to run qmail-getpw."
    else if decide (e = QLX_UIDGID) then
      lit "ZUnable to set proper uid, gid" ++
      (if decide (user = []) then [] else lit " for " ++ take (length user - 1) user) ++ line "."
    else local_letter e ++ cstr s.
End reports.

Section Spawn.
Context {L : LibQmail} {R : SpawnReport} (auto_spawn : nat).

(** ** Children *)

(** One dead child: every entry with its process number. *)
Definition reap (c : Z * Z) : SP unit :=
  modify (λ s, set_d (map (λ x,
    if used x && bool_decide (pid x = fst c) then Slot true (fdin x) 0 (snd c) None (output x) else x)
    (d s)) s).

(** The children that [wait_nohang] finds, with their status. *)
Fixpoint sigchld (l : list (Z * Z)) : SP unit :=
  match l with
  | [] => skip
  | c :: l => if decide (fst c ≤ 0)%Z then skip else reap c;; sigchld l
  end.

(** ** Reports *)

Definition delnum_bytes (n : Z) : bytes := [wrap 8 n; wrap 8 (Z.shiftr n 8)].

Definition tell (n : Z) (text : bytes) : SP unit :=
  modify (λ s, set_reports (reports s ++ [delnum_bytes n ++ text ++ [0%Z]]) s).

Definition err (text : bytes) : SP unit := s ← getS; tell (delnum s) text.

(** ** The environment of a delivery *)

(** Whether the next allocation fails. *)
Definition oom : SP bool := λ s,
  match mem s with
  | [] => (false, s)
  | b :: r => (b, set_mem r s)
  end.

(** The lines of [envh] that end with a line feed. *)
Fixpoint header_lines (acc s : bytes) : list bytes :=
  match s with
  | [] => []
  | c :: r => if decide (c = 0%Z) then []
              else if decide (c = c_lf) then acc :: header_lines [] r
              else header_lines (acc ++ [c]) r
  end.

Definition toupper (c : Z) : Z := if decide (97 ≤ c ≤ 122)%Z then (c - 32)%Z else c.
Definition env_char (c : Z) : Z := if decide (c = c_minus) then 95%Z else toupper c.

Fixpoint skip_spaces (s : bytes) : bytes :=
  match s with
  | c :: r => if decide (c = c_space) then skip_spaces r else s
  | [] => []
  end.

(** A header line, its name turned into that of a variable; the name and value,
    when there is a colon. *)
Definition header_upcase (l : bytes) : bytes :=
  let i := index_of c_colon l in map env_char (take i l) ++ drop i l.
Definition header_pair (l : bytes) : option (bytes * bytes) :=
  let i := index_of c_colon l in
  if decide (i < length l) then Some (map env_char (take i l), skip_spaces (drop (i + 1) l)) else None.

(** The lines as they are left, and whether an allocation failed. *)
Fixpoint set_env_loop (l : list bytes) : SP (list bytes * bool) :=
  match l with
  | [] => mret ([], false)
  | y :: l =>
    match header_pair y with
    | None => r ← set_env_loop l; mret (header_upcase y :: fst r, snd r)
    | Some (n, v) =>
      bad ← oom;
      if bad : bool then mret (header_upcase y :: l, true)
      else
        modify (λ s, set_environ (<[n := v]> (environ s)) s);;
        r ← set_env_loop l;
        mret (header_upcase y :: fst r, snd r)
    end
  end.

Definition set_env_variables : SP (list bytes * bool) :=
  s ← getS;
  r ← set_env_loop (header_lines [] (envh s));
  if snd r : bool then mret r
  else
    bad ← oom;
    if bad : bool then mret (fst r, true)
    else modify (λ s, set_environ (<[lit "MESSID" := cstr (messid s)]> (environ s)) s);; mret r.

Fixpoint unset_env_variables (l : list bytes) : SP bool :=
  match l with
  | [] => mret false
  | y :: l =>
    let i := index_of c_colon y in
    if decide (i < length y) then
      bad ← oom;
      if bad : bool then mret true
      else modify (λ s, set_environ (delete (take i y) (environ s)) s);; unset_env_variables l
    else unset_env_variables l
  end.

(** ** Commands *)

(** [messid] has a byte that is neither a digit nor a slash after the first. *)
Fixpoint messid_bad (first : bool) (m : bytes) : bool :=
  match m with
  | [] => false
  | c :: m =>
    (negb (bool_decide (c = 0%Z)) && (first || negb (bool_decide (c = c_slash))) &&
     bool_decide (9 < wrap 8 (c - 48))%Z) || messid_bad false m
  end.

(** The checks of the delivery number and of the name of the message. *)
Definition check_cmd (s : spawn) : option bytes :=
  if flagabort s then Some (line "Zqmail-spawn out of memory. (#4.3.0)")
  else if decide (delnum s < 0)%Z then Some (line "ZInternal error: delnum negative. (#4.3.5)")
  else if decide (Z.of_nat auto_spawn ≤ delnum s)%Z then
    Some (line "ZInternal error: delnum too big. (#4.3.5)")
  else if used (d s !!! Z.to_nat (delnum s)) then
    Some (line "ZInternal error: delnum in use. (#4.3.5)")
  else if messid_bad true (messid s) then
    Some (line "DInternal error: messid has nonnumerics. (#5.3.5)")
  else if decide (100 < length (messid s)) then
    Some (line "DInternal error: messid too long. (#5.3.5)")
  else if decide (cstr (messid s) = []) then
    Some (line "DInternal error: messid too short. (#5.3.5)")
  else None.

(** The message: the error, or its size and the pipe. *)
Definition open_cmd (e : cmd_env) : bytes + Z * (nat * nat) :=
  if negb (ce_open e) then inl (line "Zqmail-spawn unable to open message. (#4.3.0)")
  else if negb (ce_fstat e) then inl (line "Zqmail-spawn unable to fstat message. (#4.3.0)")
  else if negb (ce_regular e) then inl (line "ZSorry, message has wrong type. (#4.3.5)")
  else if negb (ce_owner e) then inl (line "ZSorry, message has wrong owner. (#4.3.5)")
  else match ce_pipe e with
       | None => inl (line "Zqmail-spawn unable to create pipe. (#4.3.0)")
       | Some p => inr (ce_size e, p)
       end.

Definition spawn_error (f : Z) : bytes :=
  if decide (f = -1)%Z then line "Zqmail-spawn out of mem. (#4.3.0)"
  else if decide (f = -2)%Z then line "Zqmail-spawn temporary MySQL error. (#4.3.0)"
  else if decide (f = -3)%Z then line "Zqmail-spawn error loading indimail library. (#4.3.0)"
  else if decide (f = -4)%Z then line "Zqmail-spawn unable to fork. (#4.3.0)"
  else line "Zqmail-spawn unknown error (qmail-lspawn bug). (#4.3.0)".

Definition next_env : SP cmd_env := λ s,
  match cmd_envs s with
  | [] => (CmdEnv false false 0 false false None 0, s)
  | e :: r => (e, set_cmd_envs r s)
  end.

Definition set_slot (i : Z) (x : slot) : SP unit :=
  modify (λ s, set_d (<[Z.to_nat i := x]> (d s)) s).

(** The child is started in the environment of the headers, which is removed
    again. *)
Definition launch (e : cmd_env) (size : Z) (p : nat * nat) (j : nat) : SP unit :=
  s ← getS;
  r ← set_env_variables;
  if snd r : bool then
    err (line "Zqmail-spawn out of memory. (#4.3.0)");;
    _ ← unset_env_variables (fst r);
    skip
  else
    modify (λ s, set_started (started s ++ [Call (delnum s) (cstr (messid s)) size
      (cstr (sender s)) (cstr (qqeh s)) (cstr (recip s)) j (environ s)]) s);;
    bad ← unset_env_variables (fst r);
    if bad : bool then err (line "Zqmail-spawn out of memory. (#4.3.0)")
    else if decide (ce_spawn e < 0)%Z then err (spawn_error (ce_spawn e))
    else set_slot (delnum s) (Slot true (fst p) (ce_spawn e) (wstat (d s !!! Z.to_nat (delnum s)))
                       (Some (snd p)) []).

Definition out_of_memory : bytes := line "Zqmail-spawn out of memory. (#4.3.0)".

Definition docmd : SP unit :=
  s ← getS;
  match check_cmd s with
  | Some text => err text
  | None =>
    bad ← oom;
    if bad : bool then err out_of_memory
    else
      modify (λ s, set_d (alter (λ x, Slot (used x) (fdin x) (pid x) (wstat x) (fdout x) [])
                            (Z.to_nat (delnum s)) (d s)) s);;
      let j := byte_rchr (recip s) c_at in
      if decide (length (recip s) ≤ j) then
        err (line "DSorry, address must include host name. (#5.1.3)")
      else
        e ← next_env;
        match open_cmd e with
        | inl text => err text
        | inr (size, p) =>
          bad ← oom;
          if bad : bool then err out_of_memory else launch e size p j
        end
  end.

(** A byte of a string: appended unless memory is short; a zero byte ends the
    string. *)
Definition collect (get : spawn → bytes) (set : bytes → spawn → spawn) (ch : Z) (next : SP unit)
    : SP unit :=
  bad ← oom;
  (if bad : bool then modify (set_flagabort true) else modify (λ s, set (get s ++ [ch]) s));;
  if decide (ch = 0%Z) then next else skip.

Definition cmd_byte (ch : Z) : SP unit :=
  s ← getS;
  match stage s with
  | 0 => modify (λ s, set_stage 1 (set_delnum (wrap 8 ch) s))
  | 1 => modify (λ s, set_stage 2 (set_messid []
           (set_delnum (swrap 32 (delnum s + wrap 32 (wrap 32 (schar ch) * 256))) s)))
  | 2 => collect messid set_messid ch (modify (λ s, set_stage 3 (set_sender [] s)))
  | 3 => collect sender set_sender ch (modify (λ s, set_stage 4 (set_qqeh [] s)))
  | 4 => collect qqeh set_qqeh ch (modify (λ s, set_stage 5 (set_envh [] s)))
  | 5 => collect envh set_envh ch (modify (λ s, set_stage 6 (set_recip [] s)))
  | _ => collect recip set_recip ch
           (docmd;; modify (λ s, set_stage 0 (set_flagabort false s)))
  end.

Fixpoint cmd_bytes (l : bytes) : SP unit :=
  match l with
  | [] => skip
  | ch :: l => cmd_byte ch;; cmd_bytes l
  end.

(** [read]: interrupted, failed, or data; no data is the end of the file. *)
Inductive rdata := RIntr | RFail | RData (l : bytes).

Definition getcmd (r : rdata) : SP unit :=
  match r with
  | RIntr => skip
  | RFail | RData [] => modify (set_flagreading false)
  | RData l => cmd_bytes l
  end.

(** ** The main loop *)

Definition truncmess : bytes := [c_lf] ++ line "Error report too long, sorry.".

(** What a child wrote, or the end of its output. *)
Definition child_read (i : nat) (r : rdata) : SP unit :=
  match r with
  | RIntr | RFail => skip
  | RData [] =>
    s ← getS;
    let x := d s !!! i in
    tell (Z.of_nat i) (report_SPAWN (wstat x) (output x));;
    set_slot (Z.of_nat i) (Slot false (fdin x) (pid x) (wstat x) (fdout x) (output x))
  | RData l =>
    s ← getS;
    let x := d s !!! i in
    let out := output x ++ l in
    let out := if decide (100 < truncreport ∧ truncreport < length out)
               then take (truncreport - length truncmess - 3) out ++ truncmess else out in
    set_slot (Z.of_nat i) (Slot (used x) (fdin x) (pid x) (wstat x) (fdout x) out)
  end.

(** The entries from the [i]th on; [ready] tells what reading them gives. *)
Fixpoint children (n i : nat) (ready : nat → option rdata) : SP unit :=
  match n with
  | 0 => skip
  | S n =>
    s ← getS;
    (if used (d s !!! i) then
       match ready i with Some r => child_read i r | None => skip end
     else skip);;
    children n (S i) ready
  end.

(** One round: the children that died while signals were let in, and what [select]
    found; [None] when it failed. *)
Record round := Round {
  ro_dead : list (Z * Z);
  ro_ready : option (option rdata * (nat → option rdata))
}.

(** Whether the process goes on. *)
Definition spawn_round (r : round) : SP bool :=
  s ← getS;
  if negb (flagreading s) && forallb (λ x, negb (used x)) (take auto_spawn (d s)) then mret false
  else
    sigchld (ro_dead r);;
    match ro_ready r with
    | None => skip
    | Some (cmd, ready) =>
      s ← getS;
      match cmd with
      | Some c => when (flagreading s) (getcmd c)
      | None => skip
      end;;
      children auto_spawn 0 ready
    end;;
    mret true.

Fixpoint spawn_main (l : list round) : SP unit :=
  match l with
  | [] => skip
  | r :: l => go ← spawn_round r; if go : bool then spawn_main l else skip
  end.

(** The state when the loop starts; the number of entries is told first. *)
Definition spawn_init (env : gmap bytes bytes) (envs : list cmd_env) (m : list bool) : spawn :=
  Spawn (replicate auto_spawn (Slot false 0 0 0 None [])) true 0 false 0 [] [] [] [] []
    [delnum_bytes (Z.of_nat auto_spawn)] env [] envs m.
End Spawn.

(** The two programs. *)
Definition remote_reports (wait_crashed : Z → bool) (wait_exitcode : Z → Z) : SpawnReport :=
  {| truncreport := 0; report_SPAWN := report_remote wait_crashed wait_exitcode |}.
Definition local_reports (wait_crashed : Z → bool) (wait_exitcode : Z → Z) (user : bytes) : SpawnReport :=
  {| truncreport := 3000; report_SPAWN := report_local wait_crashed wait_exitcode user |}.
