(* ===== verification/SpawnTheorems.v ===== *)
(** * qmail-send and the spawn processes understand each other

    A command of qmail-send starts the delivery it describes, and the report of a
    delivery reaches the entry of the table it is about. *)

From S2P Require Import Prelude LibQmail Prioq Filesys Fmtqfn SendState SendQueue.
From S2P Require Import SendDeliver DeliverTheorems SendTheorems Spawn.

(** ** Reports *)

Section reports.
Context (wait_crashed : Z → bool) (wait_exitcode : Z → Z).

Definition shaped (r : bytes) : Prop :=
  ∃ letter text, r = letter :: text ∧ (letter = 75 ∨ letter = 90 ∨ letter = 68)%Z ∧ (0%Z ∉ text).

Lemma shaped_app letter text :
  (letter = 75 ∨ letter = 90 ∨ letter = 68)%Z → (0%Z ∉ text) → shaped ([letter] ++ text).
Proof. intros. by exists letter, text. Qed.

(** The reports that are a sentence of the program. *)
Definition shaped_line (r : bytes) : bool :=
  match r with
  | letter :: text => bool_decide ((letter = 75 ∨ letter = 90 ∨ letter = 68)%Z ∧ (0%Z ∉ text))
  | [] => false
  end.
Lemma shaped_line_ok r : shaped_line r = true → shaped r.
Proof.
  destruct r as [|letter text]; [done|]. intros [? ?]%bool_decide_eq_true. by apply shaped_app.
Qed.

Ltac sentences :=
  repeat case_decide;
  try lazymatch goal with |- shaped (line _) => by apply shaped_line_ok; vm_compute end.

Lemma remote_text_no_zero n s both k : 0%Z ∉ remote_text n s both k.
Proof.
  revert k. induction n as [|n IH]; intros k; simpl; [set_solver|]. case_decide; [|apply IH].
  intros [Hin|Hin]%elem_of_app; [by apply cstr_no_zero in Hin|]. revert Hin.
  destruct (both && _); [apply cstr_no_zero|set_solver].
Qed.

(** C15. Every report of qmail-rspawn and of qmail-lspawn, whatever the child's exit
    status and output, is one of the letters K, Z, D and a text without a zero
    byte: the report cannot end early, and is never mangled. *)
Theorem reports_shaped user w out :
  (0%Z ∉ take (length user - 1) user) →
  shaped (report_remote wait_crashed wait_exitcode w out) ∧
  shaped (report_local wait_crashed wait_exitcode user w out).
Proof.
  intros Huser. split.
  - unfold report_remote. destruct (wait_crashed w); sentences.
    all: apply shaped_app; [by auto|apply remote_text_no_zero].
  - unfold report_local. destruct (wait_crashed w); [sentences|]. cbv zeta.
    pose proof (cstr_no_zero out). sentences.
    3: unfold local_letter; sentences; apply shaped_app; by auto.
    + by apply shaped_line_ok; vm_compute.
    + change (lit "ZUnable to set proper uid, gid") with ([90%Z] ++ lit "Unable to set proper uid, gid").
      rewrite <- (assoc_L app [90%Z]). apply shaped_app; [by auto|].
      rewrite !not_elem_of_app. split_and!; try done; apply (bool_decide_unpack _); by vm_compute.
Qed.
End reports.

(** ** A report reaches its delivery *)

Section received.
Context {L : LibQmail} (cfg : config).

(** [s] with another buffer of the reports of channel [c]. *)
Definition with_dline (c : channel) (l : bytes) (s s' : qsend) : Prop :=
  ∃ f, f c = l ∧ (∀ c', c' ≠ c → f c' = dline s c') ∧ s' = set_dline f s.

Lemma with_dline_trans c l l' s s1 s2 :
  with_dline c l s s1 → with_dline c l' s1 s2 → with_dline c l' s s2.
Proof.
  intros (f & _ & H2 & ->) (g & H3 & H4 & ->). exists g. split_and!; [done| |done].
  intros c' Hc. rewrite H4 by done. by apply H2.
Qed.

Lemma del_byte_more c ch s :
  length (dline s c) < REPORTMAX → ch ≠ 0%Z ∨ length (dline s c) < 2 →
  with_dline c (dline s c ++ [ch]) s (run (del_byte cfg c ch) s).
Proof.
  intros Hlen Hch.
  exists (upd (dline s) c (dline s c ++ [ch])). split; [by rewrite upd_eq|].
  split; [intros; by rewrite upd_ne|].
  unfold del_byte, mbind, ST_bind, run, modify, getS. simpl.
  rewrite take_ge by (rewrite length_app; simpl; lia). rewrite upd_eq.
  destruct (bool_decide _ && _) eqn:E; [|done].
  apply andb_true_iff in E as [E1%bool_decide_eq_true E2%bool_decide_eq_true].
  rewrite length_app in E2. simpl in E2. destruct Hch; [done|lia].
Qed.

Lemma del_bytes_more c l s :
  Forall (λ ch, ch ≠ 0%Z) l → length (dline s c) + length l ≤ REPORTMAX →
  with_dline c (dline s c ++ l) s (run (del_bytes cfg c l) s).
Proof.
  intros Hl. revert s. induction Hl as [|ch l Hch Hl IH]; intros s Hlen; simpl in *.
  { exists (dline s). rewrite app_nil_r. split_and!; [done..|]. by destruct s. }
  rewrite run_bind.
  pose proof (del_byte_more c ch s ltac:(lia) ltac:(auto)) as H. eapply with_dline_trans; [exact H|].
  set (s1 := run (del_byte cfg c ch) s) in *. clearbody s1. destruct H as (f & Hf & _ & ->).
  simpl in IH. specialize (IH (set_dline f s)). simpl in IH. rewrite Hf in IH.
  rewrite <- (assoc_L app) in IH. apply IH. rewrite length_app. simpl. lia.
Qed.

Lemma del_bytes_app c a b s :
  run (del_bytes cfg c (a ++ b)) s = run (del_bytes cfg c b) (run (del_bytes cfg c a) s).
Proof.
  revert s. induction a as [|x a IH]; intros s; [done|]. simpl. by rewrite !run_bind, IH.
Qed.

Lemma delnum_roundtrip i r :
  (Z.of_nat i < 32768)%Z → report_delnum (delnum_bytes (Z.of_nat i) ++ r) = Z.of_nat i.
Proof.
  intros Hi. unfold delnum_bytes, report_delnum. simpl.
  rewrite Z.shiftr_div_pow2 by lia. change (2 ^ 8)%Z with 256%Z.
  rewrite report_value by (unfold wrap; apply Z.mod_pos_bound; lia). unfold wrap.
  change (2 ^ 8)%Z with 256%Z.
  assert (Hq : (0 ≤ Z.of_nat i / 256 < 128)%Z).
  { split; [apply Z.div_pos; lia|apply Z.div_lt_upper_bound; lia]. }
  rewrite (Z.mod_small (_ / 256)) by lia. rewrite decide_True by lia.
  pose proof (Z.div_mod (Z.of_nat i) 256). lia.
Qed.

(** The byte that completes a report. *)
Lemma del_byte_end c i x r s :
  take REPORTMAX (dline s c ++ [0%Z]) = r → 2 < length r → report_delnum r = Z.of_nat i →
  i < concurrency s c → del s c !! i = Some x → d_used x = true →
  with_dline c [] (run (del_result cfg c i r) (set_dline (upd (dline s) c r) s))
    (run (del_byte cfg c 0) s).
Proof.
  intros Hr Hlen Hn Hc Hx Hu. unfold del_byte. rewrite run_bind.
  change (run (modify ?f) s) with (f s). cbv beta. rewrite Hr. set (s1 := set_dline _ s).
  rewrite run_bind. change (val getS s1) with s1. change (run getS s1) with s1.
  unfold s1 at 1 3 4 5 6 7. simpl dline. rewrite upd_eq, !bool_decide_true by done. simpl andb. cbv iota beta.
  rewrite Hn, decide_False by (simpl; lia). rewrite Nat2Z.id. simpl del. rewrite Hx, Hu.
  rewrite run_bind. change (run (modify ?f) ?y) with (f y). cbv beta.
  set (s2 := run (del_result cfg c i r) s1).
  exists (upd (dline s2) c []). rewrite upd_eq. split_and!; [done| |done].
  intros c' Hc'. by rewrite upd_ne.
Qed.

End received.

(** ** A command starts its delivery *)

Section command.
Context {L : LibQmail} {LL : LibQmailLaws L} (auto_spawn : nat) (cfg : config).
Hypothesis split_pos : (0 < split_of (conf_split cfg) (auto_split cfg) < 2 ^ 31)%Z.

#[local] Abbreviation z l := (l ++ [0%Z]).
#[local] Abbreviation cmd_bytes := (Spawn.cmd_bytes auto_spawn).
#[local] Abbreviation cmd_byte := (Spawn.cmd_byte auto_spawn).

Lemma cmd_bytes_app a b s : run (cmd_bytes (a ++ b)) s = run (cmd_bytes b) (run (cmd_bytes a) s).
Proof.
  revert s. induction a as [|x a IH]; intros s; [done|]. simpl. by rewrite !run_bind, IH.
Qed.

(** Reading one string of a command, when memory is not short. *)
Section string.
Context (k : nat) (get : spawn → bytes) (set : bytes → spawn → spawn) (next : ST spawn unit).
Hypothesis at_stage : ∀ s ch, stage s = k → cmd_byte ch s = collect get set ch next s.
Hypothesis get_set : ∀ v s, get (set v s) = v.
Hypothesis set_set : ∀ v v' s, set v (set v' s) = set v s.
Hypothesis set_get : ∀ s, set (get s) s = s.
Hypothesis set_stage_mem : ∀ v s, stage (set v s) = stage s ∧ mem (set v s) = mem s.

Lemma collect_byte ch s :
  stage s = k → mem s = [] →
  run (cmd_byte ch) s =
  run (if decide (ch = 0%Z) then next else skip) (set (get s ++ [ch]) s).
Proof.
  intros Hs Hm. unfold run. rewrite at_stage by done. unfold collect, mbind, ST_bind, oom.
  rewrite Hm. simpl. by case_decide.
Qed.

Lemma collect_string l s :
  Forall (λ c, c ≠ 0%Z) l → stage s = k → mem s = [] →
  run (cmd_bytes (l ++ [0%Z])) s = run next (set (get s ++ l ++ [0%Z]) s).
Proof.
  intros Hl. revert s. induction Hl as [|c l Hc Hl IH]; intros s Hs Hm.
  - simpl. rewrite run_bind, collect_byte by done. by rewrite decide_True.
  - cbn [app Spawn.cmd_bytes]. rewrite run_bind, collect_byte by done. rewrite decide_False by done.
    change (run skip ?y) with y. destruct (set_stage_mem (get s ++ [c]) s) as [E1 E2].
    rewrite IH by congruence. by rewrite get_set, set_set, <- (assoc_L app).
Qed.
End string.

(** The state when the last byte of a command has been read. *)
Definition loaded (n : Z) (m snd q e r : bytes) (s : spawn) : spawn :=
  set_recip r (set_envh e (set_qqeh q (set_sender snd (set_messid m (set_delnum n (set_stage 6 s)))))).

Ltac at_string :=
  first [ reflexivity | eassumption | by intros [] | by intros ? []
        | intros ? ? Hst; unfold Spawn.cmd_byte, mbind, ST_bind, getS; by rewrite Hst ].

Lemma command_read n m snd q e r s :
  (0 ≤ n < 32768)%Z → stage s = 0 → mem s = [] →
  Forall (λ c, c ≠ 0%Z) m → Forall (λ c, c ≠ 0%Z) snd → Forall (λ c, c ≠ 0%Z) q →
  Forall (λ c, c ≠ 0%Z) e → Forall (λ c, c ≠ 0%Z) r →
  run (cmd_bytes (delnum_bytes n ++ z m ++ z snd ++ z q ++ z e ++ z r)) s =
  set_stage 0 (set_flagabort false (run (docmd auto_spawn)
    (loaded n (z m) (z snd) (z q) (z e) (z r) s))).
Proof.
  intros Hn Hs Hm H1 H2 H3 H4 H5.
  rewrite (cmd_bytes_app (delnum_bytes n)).
  assert (E : run (cmd_bytes (delnum_bytes n)) s = set_stage 2 (set_messid [] (set_delnum n (set_stage 1 s)))).
  { unfold delnum_bytes. simpl. rewrite !run_bind.
    unfold cmd_byte at 1 2, mbind, ST_bind, run, modify, getS, skip, mret, ST_ret. rewrite Hs. simpl.
    match goal with |- context [swrap 32 ?x] => assert (Ex : swrap 32 x = n); [|by rewrite Ex] end.
    rewrite Z.shiftr_div_pow2 by lia. change (2 ^ 8)%Z with 256%Z.
    rewrite report_value by (unfold wrap; apply Z.mod_pos_bound; lia).
    unfold wrap. change (2 ^ 8)%Z with 256%Z.
    assert (0 ≤ n / 256 < 128)%Z by (split; [apply Z.div_pos; lia|apply Z.div_lt_upper_bound; lia]).
    rewrite (Z.mod_small (n / 256)), ?Z.mod_mod by lia. rewrite decide_True by lia.
    pose proof (Z.div_mod n 256). lia. }
  rewrite E. clear E. set (s1 := set_stage 2 _). set (last := z r) at 1.
  rewrite cmd_bytes_app, (collect_string 2 messid set_messid (modify (λ s, set_stage 3 (set_sender [] s)))) by at_string.
  rewrite cmd_bytes_app, (collect_string 3 sender set_sender (modify (λ s, set_stage 4 (set_qqeh [] s)))) by at_string.
  rewrite cmd_bytes_app, (collect_string 4 qqeh set_qqeh (modify (λ s, set_stage 5 (set_envh [] s)))) by at_string.
  rewrite cmd_bytes_app, (collect_string 5 envh set_envh (modify (λ s, set_stage 6 (set_recip [] s)))) by at_string.
  unfold last. rewrite (collect_string 6 recip set_recip (docmd auto_spawn;; modify (λ s, set_stage 0 (set_flagabort false s)))) by at_string.
  rewrite run_bind. done.
Qed.

(** Memory is not short: the environment is set and unset. *)
Lemma set_env_ok l s :
  mem s = [] → ∃ E, set_env_loop l s = ((map header_upcase l, false), set_environ E s).
Proof.
  revert s. induction l as [|y l IH]; intros s Hm; cbn [set_env_loop map].
  { exists (environ s). by destruct s. }
  destruct (header_pair y) as [[n v]|]; unfold mbind, ST_bind, oom, modify.
  - rewrite Hm. destruct (IH (set_environ (<[n := v]> (environ s)) s) Hm) as [E ->]. by exists E.
  - destruct (IH s Hm) as [E ->]. by exists E.
Qed.

Lemma unset_env_ok l s : mem s = [] → ∃ E, unset_env_variables l s = (false, set_environ E s).
Proof.
  revert s. induction l as [|y l IH]; intros s Hm; cbn [unset_env_variables].
  { exists (environ s). by destruct s. }
  case_decide; [|by apply IH]. unfold mbind, ST_bind, oom, modify.
  rewrite Hm. destruct (IH (set_environ (delete (take (index_of c_colon y) y) (environ s)) s) Hm) as [E ->].
  by exists E.
Qed.

Lemma launch_ok e size p j s :
  mem s = [] → (0 ≤ ce_spawn e)%Z →
  ∃ E E', E !! lit "MESSID" = Some (cstr (messid s)) ∧
  run (launch e size p j) s =
    set_d (<[Z.to_nat (delnum s) := Slot true p.1 (ce_spawn e) (wstat (d s !!! Z.to_nat (delnum s)))
              (Some p.2) []]> (d s))
    (set_environ E' (set_started (started s ++ [Call (delnum s) (cstr (messid s)) size
      (cstr (sender s)) (cstr (qqeh s)) (cstr (recip s)) j E]) s)).
Proof.
  intros Hm He. unfold launch, set_env_variables, set_slot, run, mbind, ST_bind, getS, modify, oom.
  destruct (set_env_ok (header_lines [] (envh s)) s Hm) as [E ->]. cbn [fst snd mem set_environ]. rewrite Hm.
  set (E1 := <[lit "MESSID" := cstr (messid (set_environ E s))]> _).
  cbn [fst snd mret ST_ret]. 
  match goal with |- context [unset_env_variables ?l ?s1] =>
    destruct (unset_env_ok l s1 Hm) as [E' ->] end.
  rewrite decide_False by lia. exists E1, E'. split; [apply lookup_insert_eq|]. done.
Qed.

(** ** The checks of a command *)

Lemma messid_digits first m r :
  Forall (λ c, is_digit c = true) m → messid_bad false r = false → (first = true → m ≠ []) →
  messid_bad first (m ++ r) = false.
Proof.
  intros Hm Hr. revert first. induction Hm as [|c m Hc Hm IH]; intros first Hf; simpl.
  { destruct first; [by destruct Hf|done]. }
  unfold is_digit in Hc. apply bool_decide_eq_true in Hc.
  assert (Hw : wrap 8 (c - 48) = (c - 48)%Z) by (apply Z.mod_small; change (2 ^ 8)%Z with 256%Z; lia).
  rewrite Hw, (bool_decide_false (9 < c - 48)%Z), andb_false_r by lia. by apply IH.
Qed.

Lemma split_name_ok id :
  ulong id → let m := fnmake_split cfg id ++ [0%Z] in
  messid_bad true m = false ∧ length m ≤ 100 ∧ cstr m ≠ [] ∧ Forall (λ c, c ≠ 0%Z) (fnmake_split cfg id).
Proof.
  intros Hid. unfold fnmake_split, qfn. cbn [app].
  pose proof (split_ulong _ _ split_pos id Hid) as Hs. rewrite !fmt_ulong_ok by done.
  set (a := decimal (id mod _)). set (b := decimal id).
  assert (Ha : Forall (λ c, is_digit c = true) a) by by apply decimal_digits.
  assert (Hb : Forall (λ c, is_digit c = true) b) by by apply decimal_digits.
  assert (Hna : a ≠ []) by apply decimal_not_nil.
  assert (Hla : length a ≤ 20) by apply decimal_length.
  assert (Hlb : length b ≤ 20) by apply decimal_length.
  assert (Hnz : Forall (λ c, c ≠ 0%Z) ((a ++ lit "/") ++ b)).
  { rewrite !Forall_app. split_and!; [by apply digits_no_zero..| |by apply digits_no_zero].
    by repeat constructor. }
  split_and!; [| | |done].
  - rewrite <- !(assoc_L app). apply messid_digits; [done| |done].
    simpl. by apply messid_digits.
  - rewrite !length_app. simpl. lia.
  - destruct a as [|c a]; [done|]. simpl. rewrite decide_False; [done|]. intros ->.
    by apply Forall_cons in Ha as [? _].
Qed.

Lemma senderadd_no_zero sd r :
  Forall (λ c, c ≠ 0%Z) sd → Forall (λ c, c ≠ 0%Z) r → Forall (λ c, c ≠ 0%Z) (senderadd sd r).
Proof.
  intros Hs Hr. unfold senderadd. cbv zeta. repeat case_match; try done.
  all: repeat (apply Forall_app; split); repeat apply Forall_take; repeat apply Forall_drop; try done.
  all: by repeat constructor.
Qed.

Lemma oom_none s : mem s = [] → oom s = (false, s).
Proof. unfold oom. by intros ->. Qed.

(** A command that passes all checks. *)
Lemma docmd_ok s e es p :
  check_cmd auto_spawn s = None → mem s = [] → c_at ∈ recip s → cmd_envs s = e :: es →
  open_cmd e = inr (ce_size e, p) → (0 ≤ ce_spawn e)%Z →
  let n := Z.to_nat (delnum s) in
  let d1 := alter (λ x, Slot (used x) (fdin x) (pid x) (wstat x) (fdout x) []) n (d s) in
  ∃ E E', E !! lit "MESSID" = Some (cstr (messid s)) ∧
  run (docmd auto_spawn) s =
    set_d (<[n := Slot true p.1 (ce_spawn e) (wstat (d1 !!! n)) (Some p.2) []]> d1)
    (set_environ E' (set_started (started s ++ [Call (delnum s) (cstr (messid s)) (ce_size e)
      (cstr (sender s)) (cstr (qqeh s)) (cstr (recip s)) (rindex_of c_at (recip s)) E])
    (set_cmd_envs es s))).
Proof.
  intros Hc Hm Hat He Ho Hs. cbv zeta.
  set (d1 := alter _ _ (d s)).
  destruct (launch_ok e (ce_size e) p (rindex_of c_at (recip s)) (set_cmd_envs es (set_d d1 s)) Hm Hs)
    as (E & E' & HE & Hr).
  exists E, E'. split; [exact HE|].
  unfold docmd, run, mbind, ST_bind, getS, modify. rewrite Hc. cbn [fst snd].
  rewrite oom_none by done. cbn [fst snd]. fold d1.
  rewrite byte_rchr_ok. apply rindex_split in Hat as (a & b & Ha & _ & Hi).
  rewrite decide_False by (rewrite Hi, Ha, length_app; simpl; lia).
  unfold next_env. cbn [cmd_envs set_d]. rewrite He. cbn [fst snd]. rewrite Ho.
  rewrite oom_none by done. exact Hr.
Qed.

(** C17. A command of qmail-send starts the delivery it describes.  When the entry is
    free, the message can be opened and neither memory nor processes are short, the
    spawn process calls [SPAWN] once, with the message, the sender after VERP, the
    headers and the recipient of the command, and the number of the message in the
    environment; the entry is taken by the child, nothing is reported, and the next
    command can be read. *)
Theorem command_starts_delivery n id sd q eh r e es p s :
  stage s = 0 → flagabort s = false → mem s = [] → length (d s) = auto_spawn →
  n < auto_spawn → (Z.of_nat n < 32768)%Z → used (d s !!! n) = false →
  cmd_envs s = e :: es → open_cmd e = inr (ce_size e, p) → (0 ≤ ce_spawn e)%Z → ulong id →
  Forall (λ c, c ≠ 0%Z) sd → Forall (λ c, c ≠ 0%Z) q → Forall (λ c, c ≠ 0%Z) eh →
  Forall (λ c, c ≠ 0%Z) r → c_at ∈ r →
  let s' := run (cmd_bytes (comm_command cfg n id sd q eh r)) s in
  stage s' = 0 ∧ flagabort s' = false ∧ reports s' = reports s ∧
  (∃ w, d s' = <[n := Slot true p.1 (ce_spawn e) w (Some p.2) []]> (d s)) ∧
  ∃ env, env !! lit "MESSID" = Some (fnmake_split cfg id) ∧
    started s' = started s ++ [Call (Z.of_nat n) (fnmake_split cfg id) (ce_size e)
      (senderadd sd r) q r (rindex_of c_at r) env].
Proof.
  intros Hst Hab Hm Hlen Hn Hn' Hu Henv Hopen Hsp Hid H1 H2 H3 H4 Hat.
  destruct (split_name_ok id Hid) as (Hm1 & Hm2 & Hm3 & Hm4).
  pose proof (senderadd_no_zero sd r H1 H4) as H1'.
  assert (E : comm_command cfg n id sd q eh r = delnum_bytes (Z.of_nat n) ++ z (fnmake_split cfg id) ++
      z (senderadd sd r) ++ z q ++ z eh ++ z r).
  { unfold comm_command, delnum_bytes. by rewrite <- !(assoc_L app). }
  rewrite E, command_read by (done || lia). clear E. cbv zeta.
  set (s1 := loaded _ _ _ _ _ _ s).
  assert (Hc : check_cmd auto_spawn s1 = None).
  { unfold check_cmd. simpl. rewrite Hab, Nat2Z.id, Hu, Hm1.
    by rewrite !decide_False by (done || lia). }
  destruct (docmd_ok s1 e es p Hc Hm) as (E & E' & HE & ->); [|done..|].
  { apply elem_of_app. by left. }
  simpl. rewrite Nat2Z.id.
  assert (Hz : ∀ l, Forall (λ c, c ≠ 0%Z) l → cstr (z l) = l) by (intros; by apply cstr_app).
  simpl in HE. rewrite !Hz in * by done. split_and!; [done..| |].
  - eexists. symmetry. apply list_eq_same_length with (length (d s)).
    all: rewrite ?length_insert, ?length_alter; try done.
    intros i x y Hi Hx Hy. destruct (decide (i = n)) as [->|Hne].
    + rewrite list_lookup_insert_eq in Hx, Hy by (rewrite ?length_alter; lia).
      injection Hx as <-. injection Hy as <-. reflexivity.
    + rewrite list_lookup_insert_ne in Hx, Hy by done. rewrite list_lookup_alter_ne in Hy by done.
      congruence.
  - exists E. split; [done|]. do 3 f_equal. apply rindex_split in Hat as (a & b & -> & Hb & ->).
    rewrite <- (assoc_L app). apply rindex_of_app. set_solver.
Qed.
End command.

(** ** Every command is answered *)

Section answered.
Context {L : LibQmail} (auto_spawn : nat).

(** What setting up the environment leaves alone. *)
Definition table (s : spawn) := (map used (d s), delnum s, reports s).

Lemma set_env_table l s : table (run (set_env_loop l) s) = table s.
Proof.
  revert s. induction l as [|y l IH]; intros s; [done|]. cbn [set_env_loop].
  destruct (header_pair y) as [[n v]|]; rewrite run_bind.
  - unfold oom, val at 1, run at 2. destruct (mem s) as [|[] m]; cbn [fst snd]; [|done|].
    all: rewrite run_bind; change (run (modify ?f) ?y) with (f y); cbv beta; rewrite run_bind; etrans; [apply IH|done].
  - apply IH.
Qed.

Lemma unset_env_table l s : table (run (unset_env_variables l) s) = table s.
Proof.
  revert s. induction l as [|y l IH]; intros s; [done|]. cbn [unset_env_variables].
  case_decide; [|apply IH]. rewrite run_bind.
  unfold oom, val at 1, run at 2. destruct (mem s) as [|[] m]; cbn [fst snd]; [|done|].
  all: rewrite run_bind; change (run (modify ?f) ?y) with (f y); cbv beta; etrans; [apply IH|done].
Qed.

Lemma set_variables_table s : table (run set_env_variables s) = table s.
Proof.
  unfold set_env_variables. rewrite !run_bind. change (run getS s) with s. change (val getS s) with s.
  pose proof (set_env_table (header_lines [] (envh s)) s) as E.
  set (s1 := run (set_env_loop _) s) in *. destruct (val (set_env_loop _) s) as [l []]; [done|].
  simpl. rewrite run_bind. unfold oom, val at 1, run at 2.
  by destruct (mem s1) as [|[] m]; cbn [fst snd].
Qed.

(** The answers to a command: a report, or a child in a free entry. *)
Definition answered (s s' : spawn) : Prop :=
  (∃ text, table s' = (map used (d s), delnum s, reports s ++ [delnum_bytes (delnum s) ++ text ++ [0%Z]])) ∨
  ((0 ≤ delnum s < Z.of_nat auto_spawn)%Z ∧ used (d s !!! Z.to_nat (delnum s)) = false ∧
   table s' = (<[Z.to_nat (delnum s) := true]> (map used (d s)), delnum s, reports s)).

Lemma answered_err s s1 text :
  table s1 = table s → answered s (run (err text) s1).
Proof.
  intros [= E1 E2 E3]. left. exists text.
  change (run (err text) s1) with (set_reports (reports s1 ++ [delnum_bytes (delnum s1) ++ text ++ [0%Z]]) s1).
  unfold table. cbn [d delnum reports set_reports]. congruence.
Qed.

Lemma answered_table s s1 s2 : table s1 = table s2 → answered s s1 → answered s s2.
Proof. unfold answered. by intros ->. Qed.

Lemma check_cmd_free s :
  check_cmd auto_spawn s = None →
  (0 ≤ delnum s < Z.of_nat auto_spawn)%Z ∧ used (d s !!! Z.to_nat (delnum s)) = false.
Proof.
  unfold check_cmd. destruct (flagabort s); [done|]. do 2 (case_decide; [done|]).
  destruct (used _); [done|]. split; [lia|done].
Qed.

Lemma launch_answered s s1 e size p j :
  table s1 = table s → check_cmd auto_spawn s = None → answered s (run (launch e size p j) s1).
Proof.
  intros Ht Hc. unfold launch. rewrite run_bind. change (val getS s1) with s1. change (run getS s1) with s1.
  rewrite run_bind. pose proof (set_variables_table s1) as E. rewrite Ht in E.
  set (s2 := run set_env_variables s1) in *. clearbody s2.
  destruct (val set_env_variables s1) as [l []]; cbn [fst snd].
  - rewrite run_bind. eapply answered_table; [|by apply (answered_err s s2 out_of_memory)].
    rewrite run_bind. change (run skip ?y) with y. by rewrite unset_env_table.
  - rewrite run_bind. change (run (modify ?f) s2) with (f s2). cbv beta. set (s3 := set_started _ s2).
    rewrite run_bind. pose proof (unset_env_table l s3) as E3.
    set (s4 := run (unset_env_variables l) s3) in *. clearbody s4.
    assert (E4 : table s4 = table s) by (by rewrite E3).
    destruct (val (unset_env_variables l) s3); [by apply answered_err|].
    case_decide; [by apply answered_err|]. right.
    destruct (check_cmd_free s Hc) as [Hn Hu]. split; [done|]. split; [done|].
    assert (E1 : table s1 = table s) by done. injection E4 as E5 E6 E7. injection E1 as _ E8 _.
    unfold table, set_slot. change (run (modify ?f) s4) with (f s4). cbn [d delnum reports set_d].
    apply pair_eq; split; [apply pair_eq; split; [|congruence]|congruence].
    rewrite <- E5. etrans; [apply (list_fmap_insert used)|]. simpl. f_equal; congruence.
Qed.

(** C18. No command goes without an answer, and none gets two.  Whatever the command
    holds, and whatever fails, [docmd] either reports once on the number of the
    command and leaves the entries as they were, or starts a child in a free entry
    within the table, whose report is still to come. *)
Theorem command_answered s : answered s (run (docmd auto_spawn) s).
Proof.
  unfold docmd. rewrite run_bind. change (val getS s) with s. change (run getS s) with s.
  destruct (check_cmd auto_spawn s) eqn:Hc; [by apply answered_err|].
  rewrite run_bind. 
  assert (Ho : ∀ s1, table (run oom s1) = table s1).
  { intros s1. unfold run, oom. by destruct (mem s1). }
  pose proof (Ho s) as E1. set (s1 := run oom s) in *. clearbody s1.
  destruct (val oom s); [by apply answered_err|].
  rewrite run_bind. change (run (modify ?f) s1) with (f s1). cbv beta. set (s2 := set_d _ s1).
  assert (E2 : table s2 = table s).
  { rewrite <- E1. unfold table, s2. simpl. f_equal. f_equal. apply list_eq. intros i.
    rewrite !list_lookup_fmap. destruct (decide (i = Z.to_nat (delnum s1))) as [->|Hne].
    - rewrite list_lookup_alter_eq. by destruct (d s1 !! _).
    - by rewrite list_lookup_alter_ne. }
  clearbody s2. case_decide; [by apply answered_err|].
  rewrite run_bind.
  assert (E3 : table (run next_env s2) = table s).
  { rewrite <- E2. unfold run, next_env. by destruct (cmd_envs s2). }
  set (s3 := run next_env s2) in *. clearbody s3. destruct (open_cmd _) as [text|[size p]].
  - by apply answered_err.
  - rewrite run_bind. pose proof (Ho s3) as E4. set (s4 := run oom s3) in *. clearbody s4.
    destruct (val oom s3); [apply answered_err|apply launch_answered]; congruence.
Qed.
End answered.

(** ** A delivery, from command to report *)
Module SpawnRun.
#[local] Existing Instance reference_libqmail.

Definition env : cmd_env := CmdEnv true true 300 true true (Some (5, 6)) 4711.
Definition s : spawn := spawn_init 2 ∅ [env] [].
Definition command : bytes :=
  comm_command Run.cfg 1 77 (lit "joe@example.org") [] (lit "X-Tag: a" ++ [c_lf]) (lit "bob@example.net").
End SpawnRun.

Lemma reports_shaped_witness :
  shaped (report_local (λ _, false) (λ w, w) (lit "bob" ++ [0%Z]) 127 []).
Proof.
  destruct (reports_shaped (λ _, false) (λ w, w) (lit "bob" ++ [0%Z]) 127 []) as [_ H].
  - apply (bool_decide_unpack _). vm_compute. exact I.
  - exact H.
Defined.


Lemma command_starts_delivery_witness :
  let s' := run (@cmd_bytes reference_libqmail 2 SpawnRun.command) SpawnRun.s in
  reports s' = reports SpawnRun.s ∧
  ∃ env, env !! lit "MESSID" = Some (lit "8/77") ∧
    started s' = [Call 1 (lit "8/77") 300 (lit "joe@example.org") [] (lit "bob@example.net") 3 env].
Proof.
  cbv zeta. destruct (@command_starts_delivery reference_libqmail reference_laws 2 Run.cfg Run.split_ok
    1 77 (lit "joe@example.org") [] (lit "X-Tag: a" ++ [c_lf]) (lit "bob@example.net")
    SpawnRun.env [] (5, 6) SpawnRun.s) as (_ & _ & H1 & _ & H2).
  all: lazymatch goal with
    | |- _ ∧ ∃ _, _ => split; [exact H1|exact H2]
    | |- ulong _ => split; [lia|reflexivity]
    | |- (0 ≤ _)%Z => by vm_compute
    | |- Forall _ _ => apply (bool_decide_unpack _); vm_compute; exact I
    | |- _ ∈ _ => apply (bool_decide_unpack _); vm_compute; exact I
    | |- _ = _ => reflexivity
    | |- _ => lia
    end.
Defined.
