(* ===== verification/Control.v ===== *)
(** * Control files: [control.c]

    The programs read their configuration from files of lines.  [ctlfile] is what
    opening and reading a control file came to; [control_readline] takes the first
    line, [control_readint] and [control_readulong] a number from it, and
    [control_readfile] all lines that are not empty and not comments, each
    terminated by a zero byte. *)

From S2P Require Import Prelude.

Inductive ctlfile :=
  | Absent       (* [error_noent] *)
  | Unreadable   (* another error of [open_read], or of [getln] *)
  | Contents (s : bytes).

(** [getln]: the next line with its separator, and whether there was one. *)
Fixpoint line_by (sep : Z) (s : bytes) : bytes * bool :=
  match s with
  | [] => ([], false)
  | c :: r => if decide (c = sep) then ([c], true)
              else let '(l, m) := line_by sep r in (c :: l, m)
  end.

Definition whitespace (c : Z) : bool := bool_decide (c = c_lf ∨ c = c_space ∨ c = 9)%Z.

(** The loop of [striptrailingwhitespace], from the end of the buffer. *)
Fixpoint strip_back (r : bytes) : bytes :=
  match r with
  | c :: r' => if whitespace c then strip_back r' else r
  | [] => []
  end.
Definition striptrailingwhitespace (s : bytes) : bytes := reverse (strip_back (reverse s)).

(** The result of the call, and the buffer where it was set. *)
Definition control_readline (f : ctlfile) : Z * option bytes :=
  match f with
  | Absent => (0%Z, None)
  | Unreadable => ((-1)%Z, None)
  | Contents s => (1%Z, Some (striptrailingwhitespace (line_by c_lf s).1))
  end.

(** [me] is the first line of the control file me, when that could be read. *)
Definition control_rldef (f : ctlfile) (flagme : bool) (me def : option bytes) : Z * option bytes :=
  match control_readline f with
  | (0%Z, _) =>
    match (if flagme then me else None), def with
    | Some m, _ => (1%Z, Some m)
    | None, Some d => (1%Z, Some d)
    | None, None => (0%Z, None)
    end
  | r => r
  end.

(** A number: [scan] is [scan_int] or [scan_ulong], the number of characters read
    and the value. *)
Definition control_readnumber (scan : bytes → nat * Z) (f : ctlfile) : Z * option Z :=
  match control_readline f with
  | (1%Z, Some line) =>
    let '(n, u) := scan (cstr line) in
    if decide (n = 0) then (0%Z, None) else (1%Z, Some u)
  | (r, _) => (r, None)
  end.

(** The loop of [control_readfile]; every line takes at least one byte. *)
Fixpoint readfile_loop (fuel : nat) (rest sa : bytes) : bytes :=
  match fuel with
  | 0 => sa
  | S fuel =>
    let '(line, found) := line_by c_lf rest in
    if negb found && bool_decide (line = []) then sa
    else
      let z := striptrailingwhitespace line ++ [0%Z] in
      let sa := match head z with
                | Some 0%Z | Some 35%Z (* # *) => sa
                | _ => sa ++ z
                end in
      if found : bool then readfile_loop fuel (drop (length line) rest) sa else sa
  end.

(** [flagme] is 0. *)
Definition control_readfile (f : ctlfile) : Z * bytes :=
  match f with
  | Absent => (0%Z, [])
  | Unreadable => ((-1)%Z, [])
  | Contents s => (1%Z, readfile_loop (S (length s)) s [])
  end.

(** ** What is read *)

Lemma line_by_app sep a b : sep ∉ a → line_by sep (a ++ sep :: b) = (a ++ [sep], true).
Proof.
  induction a as [|x a IH]; intros Ha; simpl; [by rewrite decide_True|].
  apply not_elem_of_cons in Ha as [? Ha]. by rewrite decide_False, IH.
Qed.
Lemma line_by_none sep a : sep ∉ a → line_by sep a = (a, false).
Proof.
  induction a as [|x a IH]; intros Ha; simpl; [done|].
  apply not_elem_of_cons in Ha as [? Ha]. by rewrite decide_False, IH.
Qed.

Lemma drop_line (sep : Z) a b : drop (length (a ++ [sep])) (a ++ sep :: b) = b.
Proof. rewrite length_app, <- drop_drop, drop_app_length. done. Qed.

Lemma strip_stable s : (∀ x, last s = Some x → whitespace x = false) → striptrailingwhitespace s = s.
Proof.
  intros H. unfold striptrailingwhitespace. destruct s as [|x s _] using rev_ind; [done|].
  rewrite reverse_snoc. simpl. rewrite H by (by rewrite last_snoc).
  by rewrite <- reverse_snoc, reverse_involutive.
Qed.
Lemma strip_ws s w : Forall (λ c, whitespace c = true) w →
  striptrailingwhitespace (s ++ w) = striptrailingwhitespace s.
Proof.
  intros Hw. unfold striptrailingwhitespace. f_equal. rewrite reverse_app.
  assert (Hr : Forall (λ c, whitespace c = true) (reverse w)) by (by apply Forall_reverse).
  induction Hr as [|x r Hx Hr IH]; simpl; [done|]. by rewrite Hx.
Qed.

(** An entry of a control file: not empty, no comment, and without trailing
    white space. *)
Record entry (t : bytes) : Prop := {
  en_ne : t ≠ [];
  en_text : (c_lf ∉ t) ∧ (0%Z ∉ t);
  en_not_comment : head t ≠ Some 35%Z;
  en_trimmed x : last t = Some x → whitespace x = false
}.

(** What may stand between entries: an empty line, or a comment. *)
Definition ignored (l : bytes) : Prop :=
  (c_lf ∉ l) ∧ (Forall (λ c, whitespace c = true) l ∨ head l = Some 35%Z).

(** A line of a control file, and the entry it holds. *)
Inductive config_line : bytes → list bytes → Prop :=
  | line_entry t w : entry t → Forall (λ c, whitespace c = true) w → c_lf ∉ w →
      config_line (t ++ w) [t]
  | line_ignored l : ignored l → config_line l [].

Lemma line_plain t : entry t → config_line t [t].
Proof.
  intros Ht. pose proof (line_entry t [] Ht ltac:(done) ltac:(set_solver)) as H.
  by rewrite app_nil_r in H.
Qed.

Lemma config_line_lf l ts : config_line l ts → c_lf ∉ l.
Proof.
  intros [t w Ht Hw Hn|l' [H _]]; [|done].
  apply not_elem_of_app. split; [apply Ht|done].
Qed.

(** What the loop adds for a line. *)
Lemma readfile_line l ts sa w :
  config_line l ts → Forall (λ c, whitespace c = true) w →
  match head (striptrailingwhitespace (l ++ w) ++ [0%Z]) with
  | Some 0%Z | Some 35%Z => sa
  | _ => sa ++ striptrailingwhitespace (l ++ w) ++ [0%Z]
  end = sa ++ mjoin (map (λ t, t ++ [0%Z]) ts).
Proof.
  intros Hl Hw. rewrite strip_ws by done. destruct Hl as [t v Ht Hv Hn|l [Hn [Hl|Hl]]].
  - rewrite strip_ws by done. rewrite strip_stable by apply (en_trimmed _ Ht). simpl.
    rewrite app_nil_r. destruct Ht as [H1 [_ H2] H3 _]. destruct t as [|c t]; [done|]. simpl in *.
    apply not_elem_of_cons in H2 as [? _].
    destruct c as [|p|p]; [done| |done].
    do 6 (try destruct p as [p|p|]); done.
  - rewrite <- (app_nil_l l), strip_ws by done. simpl. by rewrite app_nil_r.
  - destruct l as [|c l]; [done|]. injection Hl as ->. unfold striptrailingwhitespace.
    assert (∃ r, reverse (strip_back (reverse (35%Z :: l))) = 35%Z :: r) as [r ->].
    { rewrite reverse_cons. induction (reverse l) as [|x r IH]; simpl; [by exists []|].
      destruct (whitespace x); [done|]. exists (reverse (x :: r)).
      by rewrite app_comm_cons, reverse_snoc. }
    simpl. by rewrite app_nil_r.
Qed.

Lemma readfile_entries lines last entries lentries :
  Forall2 config_line lines entries → config_line last lentries →
  control_readfile (Contents (mjoin (map (λ l, l ++ [c_lf]) lines) ++ last)) =
    (1%Z, mjoin (map (λ t, t ++ [0%Z]) (mjoin entries ++ lentries))).
Proof.
  intros Hl Hlast. unfold control_readfile. f_equal.
  assert (H : ∀ fuel sa, length lines < fuel →
    readfile_loop fuel (mjoin (map (λ l, l ++ [c_lf]) lines) ++ last) sa =
    sa ++ mjoin (map (λ t, t ++ [0%Z]) (mjoin entries ++ lentries))).
  { clear -Hl Hlast. induction Hl as [|l ts lines entries Hlt _ IH]; intros [|fuel] sa Hf;
      simpl in *; try lia.
    - rewrite line_by_none by (by eapply config_line_lf).
      case_bool_decide as E; simpl.
      + subst. pose proof (readfile_line [] lentries sa [] Hlast ltac:(done)) as H. by simpl in H.
      + pose proof (readfile_line last lentries sa [] Hlast ltac:(done)) as H.
        by rewrite app_nil_r in H.
    - rewrite <- !(assoc_L app). simpl. rewrite line_by_app by (by eapply config_line_lf).
      simpl. pose proof (readfile_line l ts sa [c_lf] Hlt ltac:(by repeat constructor)) as H.
      rewrite H, drop_line.
      rewrite IH by lia. by rewrite <- (assoc_L app sa), <- join_app, <- map_app, (assoc_L app ts). }
  apply H. rewrite length_app. clear. induction lines as [|l lines IH]; simpl; [lia|].
  rewrite !length_app in *. simpl. lia.
Qed.

(** [control_readfile] reads the entries of a file, whatever comments, empty
    lines and trailing white space surround them: the buffer holds each entry
    followed by a zero byte, in order.  A last line without a line feed counts. *)
Lemma control_entries lines last entries lentries :
  Forall2 config_line lines entries → config_line last lentries →
  control_readfile (Contents (mjoin (map (λ l, l ++ [c_lf]) lines) ++ last)) =
    (1%Z, mjoin (map (λ t, t ++ [0%Z]) (mjoin entries ++ lentries))).
Proof.
  apply readfile_entries.
Qed.

Lemma control_entries_witness :
  control_readfile (Contents (lit "#x" ++ [c_lf] ++ lit "a b " ++ [c_lf] ++ [c_lf] ++ lit "c")) =
    (1%Z, lit "a b" ++ [0%Z] ++ lit "c" ++ [0%Z]).
Proof.
  assert (He : ∀ t, (bool_decide (t ≠ []) && bool_decide ((c_lf ∉ t) ∧ (0%Z ∉ t)) &&
    bool_decide (head t ≠ Some 35%Z) &&
    match last t with Some x => negb (whitespace x) | None => true end) = true → entry t).
  { intros t. rewrite !andb_true_iff, !bool_decide_eq_true. intros [[[? ?] ?] Hl].
    split; try done. intros x Hx. rewrite Hx in Hl. by apply negb_true_iff. }
  apply (control_entries [lit "#x"; lit "a b" ++ lit " "; []] (lit "c" ++ [])
           [[]; [lit "a b"]; []] [lit "c"]).
  - apply Forall2_cons; split; [|apply Forall2_cons; split; [|apply Forall2_cons; split; [|done]]].
    + apply line_ignored. split; [by apply (bool_decide_eq_true _)|by right].
    + apply line_entry; [by apply He|by repeat constructor|by apply (bool_decide_eq_true _)].
    + apply line_ignored. split; [by apply (bool_decide_eq_true _)|by left].
  - apply line_entry; [by apply He|done|by apply (bool_decide_eq_true _)].
Defined.
