(* ===== verification/QmailQueue.v ===== *)
(** * The entrance of the queue: [qmail-queue.c]

    qmail-queue reads a message from descriptor 0 and its envelope from descriptor
    1, and puts them into the queue: the message into mess, under the number of its
    inode, the envelope into intd, which a link into todo makes visible to
    todo-proc.

    [setting] is what the process finds: the environment, the control files, its
    user and its surroundings.  Signals are an input: before each system call one
    may arrive, upon which the process ends at once.  A computation ends with a
    value or with the exit code of the process.  The choice of the queue directory,
    archiving ([set_archive], off unless the control file mailarchive has rules) and
    the message queues of [mq_todo] are not modelled; memory allocation succeeds.
    Output through substdio is written at once. *)

From S2P Require Import Prelude LibQmail Filesys Control Fmtqfn SendState.

(** ** Exit codes, from [qmail.h] *)

Definition QQ_ENVELOPE_TOO_LONG : Z := 11.
Definition QQ_VIRUS_IN_MSG : Z := 33.
Definition QQ_TIMEOUT : Z := 52.
Definition QQ_WRITE_ERR : Z := 53.
Definition QQ_READ_ERR : Z := 54.
Definition QQ_CONFIG_ERR : Z := 55.
Definition QQ_CHDIR : Z := 61.
Definition QQ_MESS_FILE : Z := 62.
Definition QQ_FSYNC_ERR : Z := 64.
Definition QQ_INTD_FILE : Z := 65.
Definition QQ_LINK_TODO_INTD : Z := 66.
Definition QQ_LINK_MESS_PID : Z := 67.
Definition QQ_PID_FILE : Z := 70.
Definition QQ_QHPSI_TEMP_ERR : Z := 77.
Definition QQ_ENVELOPE_FMT_ERR : Z := 79.
Definition QQ_INTERNAL_BUG : Z := 81.
Definition QQ_REMOVE_PID_ERR : Z := 83.
Definition QQ_CUSTOM_ERR : Z := 88.
Definition QQ_FORK_ERR : Z := 121.
Definition QQ_WAITPID_SURPRISE : Z := 122.
Definition QQ_CRASHED : Z := 123.

(** The longest address of an envelope, its zero byte included. *)
Definition ADDR : nat := 1003.

(** ** The process *)

Inductive qsignal := SigAlarm | SigBug.

(** How the virus scanner ended. *)
Inductive wstat := Crashed | Exited (code : Z).

Record setting := Setting {
  env_get : bytes → option bytes;
  control : bytes → ctlfile;
  starttime : Z;
  mypid : Z;
  uid : Z;
  auto_uida : Z; auto_uids : Z;
  gethostname : option bytes  (* [None]: the call failed *);
  peername : option bytes     (* what [tcpgetremoteip] finds *);
  date822 : bytes             (* [date822fmt] of the start time *);
  scanner : wstat
}.

Record qqueue := QQ {
  qw : world;
  signals : list (option qsignal)  (* the signals before the next system calls *);
  body : list bytes                (* what the next reads of descriptor 0 return *);
  envelope : bytes                 (* what is left to read on descriptor 1 *);
  messnum : Z;
  made_mess : option nat           (* [flagmademess], with [messfd] *);
  made_intd : option nat           (* [flagmadeintd], with [intdfd] *);
  synced : gmap nat bytes          (* what [fsync] has put on the disk *);
  logged : bytes                   (* written to the descriptor of LOGHEADERFD *);
  pulled : bool                    (* the trigger *)
}.

Definition set_qw v s := QQ v (signals s) (body s) (envelope s) (messnum s) (made_mess s)
  (made_intd s) (synced s) (logged s) (pulled s).
Definition set_signals v s := QQ (qw s) v (body s) (envelope s) (messnum s) (made_mess s)
  (made_intd s) (synced s) (logged s) (pulled s).
Definition set_body v s := QQ (qw s) (signals s) v (envelope s) (messnum s) (made_mess s)
  (made_intd s) (synced s) (logged s) (pulled s).
Definition set_envelope v s := QQ (qw s) (signals s) (body s) v (messnum s) (made_mess s)
  (made_intd s) (synced s) (logged s) (pulled s).
Definition set_messnum v s := QQ (qw s) (signals s) (body s) (envelope s) v (made_mess s)
  (made_intd s) (synced s) (logged s) (pulled s).
Definition set_made_mess v s := QQ (qw s) (signals s) (body s) (envelope s) (messnum s) v
  (made_intd s) (synced s) (logged s) (pulled s).
Definition set_made_intd v s := QQ (qw s) (signals s) (body s) (envelope s) (messnum s)
  (made_mess s) v (synced s) (logged s) (pulled s).
Definition set_synced v s := QQ (qw s) (signals s) (body s) (envelope s) (messnum s)
  (made_mess s) (made_intd s) v (logged s) (pulled s).
Definition set_logged v s := QQ (qw s) (signals s) (body s) (envelope s) (messnum s)
  (made_mess s) (made_intd s) (synced s) v (pulled s).
Definition set_pulled v s := QQ (qw s) (signals s) (body s) (envelope s) (messnum s)
  (made_mess s) (made_intd s) (synced s) (logged s) v.

(** A computation of the process: its exit code, or a value. *)
Notation "'QA' A" := (ST qqueue (Z + A)) (at level 10, A at next level, only parsing) : mta_scope.
Definition set (f : qqueue → qqueue) : QA unit := modify f;; ok tt.
Definition get {A} (f : qqueue → A) : QA A := s ← getS; ok (f s).

(** A system call at which no signal arrives. *)
Definition wsys {A} (m : ST world A) : ST qqueue A :=
  λ s, let '(a, w) := m (qw s) in (a, set_qw w s).

(** [seek_trunc] to the start. *)
Definition seek_trunc (i : nat) : ST world (errno + unit) :=
  syscall (n ← read_inode i;
           _ ← modify (λ w, set_inodes (<[i := Inode [] (clock w) (i_atime n)]> (inodes w)) w);
           mret (inr tt)).

Section QmailQueue.
Context {L : LibQmail} (cfg : config) (st : setting).
Context (use_fsync use_fdatasync : bool).
Context (scan_int scan_uint : bytes → Z) (case_equal : bytes → bytes → bool).
Context (mess822_ok : bytes → bool).
Context (beyond : bytes → bytes).  (* what the buffer of a line holds behind it *)

Definition env_set (v : string) : bool := bool_decide (is_Some (env_get st (lit v))).

(** ** The end of the process *)

(** [custom_error] writes the reason to a descriptor of the caller. *)
Definition exit_now {A} (e : Z) : QA A :=
  if env_set "QMAIL_QUEUE_CUSTOM_ERROR" then
    bad ← wsys fault; mret (inl (if bad : bool then QQ_WRITE_ERR else QQ_CUSTOM_ERR))
  else mret (inl e).

Definition sigalrm {A} : QA A := exit_now QQ_TIMEOUT.
Definition sigbug {A} : QA A := exit_now QQ_INTERNAL_BUG.

(** A signal, if one arrives. *)
Definition interrupt : QA unit :=
  s ← getS;
  match signals s with
  | [] => ok tt
  | g :: r =>
    modify (set_signals r);;
    match g with None => ok tt | Some SigAlarm => sigalrm | Some SigBug => sigbug end
  end.

Definition qsys {A} (m : ST world A) : QA A := interrupt;;? r ← wsys m; ok r.

(** The files of the message. *)
Definition fnnum (dirslash : string) (flagsplit : bool) (n : Z) : bytes :=
  qfn (conf_split cfg) (auto_split cfg) (lit dirslash) n flagsplit.
Definition messfn : Z → bytes := fnnum "mess/" true.
Definition todofn : Z → bytes := fnnum "todo/" (bigtodo cfg).
Definition intdfn : Z → bytes := fnnum "intd/" (bigtodo cfg).

Definition cleanup : QA unit :=
  s ← getS;
  match made_intd s with
  | Some fd => qsys (seek_trunc fd);;? qsys (unlink (intdfn (messnum s)));;? ok tt
  | None => ok tt
  end;;?
  match made_mess s with
  | Some fd => qsys (seek_trunc fd);;? qsys (unlink (messfn (messnum s)));;? ok tt
  | None => ok tt
  end.

Definition die {A} (e : Z) (do_cleanup : bool) : QA A :=
  (if do_cleanup then cleanup else ok tt);;? exit_now e.

(** A system call whose failure is the end. *)
Definition qcall {A} (m : ST world (errno + A)) (e : Z) (do_cleanup : bool) : QA A :=
  r ←? qsys m;
  match r with inl _ => die e do_cleanup | inr a => ok a end.

Definition put (fd : nat) (d : bytes) : QA unit := qcall (append fd d) QQ_WRITE_ERR true.
Definition put_some (fd : nat) (d : bytes) : QA unit := if decide (d = []) then ok tt else put fd d.
Definition check (e : Z) : QA unit :=
  bad ←? qsys fault; if bad : bool then die e true else ok tt.

(** ** Control files *)

Definition read_control (v f : string) (flag : bool) : QA bytes :=
  let readfile f := match control_readfile (control st f) with
                    | ((-1)%Z, _) => die QQ_CONFIG_ERR false
                    | (_, s) => ok s
                    end in
  match env_get st (lit v) with
  | None => readfile (lit f)
  | Some [] => ok []
  | Some p => if flag then readfile p else ok p
  end.

(** The strings of a buffer, as the loops over extraqueue and the lists of header
    fields find them. *)
Fixpoint tokens_loop (fuel : nat) (s : bytes) : list bytes :=
  match fuel, s with
  | S fuel, _ :: _ => cstr s :: tokens_loop fuel (drop (str_len (cstr s) + 1) s)
  | _, _ => []
  end.
Definition tokens (s : bytes) : list bytes := tokens_loop (length s) s.

(** ** The Received header field *)

Definition hide_host : bool := env_set "HIDE_HOST".

Definition receivedfmt (fastqueue : bool) : bytes :=
  lit "Received: indimail-mta queue " ++ fmt_ulong (mypid st) ++
  (if hide_host then []
   else lit " by host " ++
        match env_get st (lit "HOSTNAME") with
        | Some h => h
        | None => default (lit "unknown") (gethostname st)
        end ++ [c_lf] ++ lit " ") ++
  (if decide (uid st = auto_uida st) then lit "(invoked by alias"
   else if decide (uid st = auto_uids st) then lit "(invoked for bounce"
   else lit "(invoked " ++
        match env_get st (lit "TCPREMOTEIP"), negb hide_host && negb fastqueue with
        | Some ip, _ => lit "from network" ++ (if hide_host then [] else lit " " ++ ip) ++ lit ", "
        | None, true =>
          match peername st with
          | Some ip => lit "from network " ++ ip ++ lit ", "
          | None => []
          end
        | None, false => []
        end ++ lit "by uid " ++ fmt_ulong (uid st)) ++
  lit "); " ++ date822 st.

Definition originfmt (ip : bytes) : bytes := lit "X-Originating-IP: " ++ ip ++ [c_lf].

(** [originipfield], [ip] and the conditions under which the field is written. *)
Definition origin (fastqueue : bool) : bytes :=
  let field := if fastqueue then 0%Z
               else match env_get st (lit "ORIGINIPFIELD") with
                    | Some p => wrap 32 (snd (scan_ulong p))
                    | None => 0%Z
                    end in
  match env_get st (lit "TCPREMOTEIP") with
  | Some ip =>
    if bool_decide (field ≠ 0%Z) && (env_set "RELAYCLIENT" || env_set "TCPREMOTEINFO")
    then originfmt ip else []
  | None => []
  end.

(** ** Making the file of the message *)

(** The name, without its terminating zero. *)
Definition pidfmt (seq : Z) : bytes :=
  lit "pid/" ++ fmt_ulong (mypid st) ++ lit "." ++ fmt_ulong (starttime st) ++ lit "." ++
  fmt_ulong seq.

(** The loop of [pidopen], over the sequence numbers that are left. *)
Fixpoint pid_loop (len : nat) (seqs : list Z) : QA (bytes * nat) :=
  match seqs with
  | [] => die QQ_PID_FILE false
  | seq :: seqs =>
    if decide (len < length (pidfmt seq)) then die QQ_INTERNAL_BUG false
    else
      r ←? qsys (open_excl (pidfmt seq));
      match r with
      | inr fd => ok (pidfmt seq, fd)
      | inl _ => pid_loop len seqs
      end
  end.
Definition pidopen : QA (bytes * nat) :=
  pid_loop (length (pidfmt 1)) [1; 2; 3; 4; 5; 6; 7; 8; 9]%Z.

(** From [pidopen] to [flagmademess]; the descriptor of the message. *)
Definition make_mess : QA nat :=
  p ←? pidopen;
  let '(pidfn, fd) := p in
  qcall (fstat fd) QQ_MESS_FILE false;;?
  let n := wrap 64 (Z.of_nat fd) in
  set (set_messnum n);;?
  r ←? qsys (link pidfn (messfn n));
  match r with
  | inl _ => qsys (unlink pidfn);;? die QQ_LINK_MESS_PID false
  | inr _ =>
    r ←? qsys (unlink pidfn);
    match r with
    | inl _ => qsys (unlink (messfn n));;? die QQ_REMOVE_PID_ERR false
    | inr _ => set (set_made_mess (Some fd));;? ok fd
    end
  end.

(** ** Writing the message *)

(** [substdio_copy], over what the reads return. *)
Fixpoint copy_loop (fd : nat) (l : list bytes) : QA unit :=
  match l with
  | [] => check QQ_READ_ERR
  | c :: l => check QQ_READ_ERR;;? put fd c;;? copy_loop fd l
  end.
Definition substdio_copy (fd : nat) : QA unit :=
  l ←? get body; copy_loop fd l;;? set (set_body []).

(** The header lists, and what the loop over the lines keeps.  [h_field_len] is
    not read before it is set. *)
Record header := Header {
  h_excl : bytes; h_incl : bytes; h_logh : bytes;
  h_logfd : bool;              (* [logfd > 0] *)
  h_in_header : bool;
  h_brk_excl : bool; h_brk_incl : bool; h_brk_log : bool;
  h_itoken_len : Z; h_field_len : Z;
  h_envheaders : bytes
}.

(** [case_diffb(ptr, token_len, line.s)] is 0. *)
Definition has_field (token line : bytes) : bool :=
  case_equal token (take (length token) (line ++ beyond line)).

Definition listed (s line : bytes) : bool := existsb (λ t, has_field t line) (tokens s).

(** The loop over the list of fields for the queue, from position [len] on.  It
    ends the name of a field with a zero byte in the list itself.  The list, the
    two lengths, and whether a field was found. *)
Fixpoint incl_loop (fuel : nat) (incl line : bytes) (len : nat) (itoken field : Z)
    : bytes * Z * Z * bool :=
  match fuel with
  | 0 => (incl, itoken, field, false)
  | S fuel =>
    if decide (length incl ≤ len) then (incl, itoken, field, false)
    else
      let name := cstr (drop len incl) in
      let colon := index_of c_colon name in
      let found := bool_decide (colon < length name) in
      let incl := if found then <[len + colon := 0%Z]> incl else incl in
      let field := if found then swrap 32 (scan_uint (cstr (drop (len + colon + 1) incl)))
                   else (-1)%Z in
      let token := cstr (drop len incl) in
      let itoken := Z.of_nat (str_len token) in
      if bool_decide (field = -1 ∨ itoken ≤ field)%Z && has_field token line
      then (incl, itoken, field, true)
      else incl_loop fuel incl line (len + str_len token + 1) itoken field
  end.

(** One line of the header: what is kept, and whether the line is left out,
    included for the queue, and logged. *)
Definition header_line (h : header) (line : bytes) : header * bool * bool * bool :=
  if decide (head line = Some c_space ∨ head line = Some 9%Z) then
    let include := negb (h_brk_incl h) in
    (Header (h_excl h) (h_incl h) (h_logh h) (h_logfd h) (h_in_header h)
       (h_brk_excl h) (h_brk_incl h) (h_brk_log h)
       (if include then swrap 32 (h_itoken_len h + Z.of_nat (length line)) else h_itoken_len h)
       (h_field_len h) (h_envheaders h),
     negb (h_brk_excl h), include, h_logfd h && negb (h_brk_log h))
  else
    let exclude := listed (h_excl h) line in
    let '(incl, itoken, field, include) :=
      incl_loop (length (h_incl h)) (h_incl h) line 0 (h_itoken_len h) (h_field_len h) in
    let loghead := h_logfd h && listed (h_logh h) line in
    (Header (h_excl h) incl (h_logh h) (h_logfd h) (h_in_header h)
       (negb exclude) (negb include) (if h_logfd h then negb loghead else h_brk_log h)
       itoken field (h_envheaders h),
     exclude, include, loghead).

Definition set_in_header (b : bool) (h : header) : header :=
  Header (h_excl h) (h_incl h) (h_logh h) (h_logfd h) b (h_brk_excl h) (h_brk_incl h)
    (h_brk_log h) (h_itoken_len h) (h_field_len h) (h_envheaders h).
Definition add_envheaders (l : bytes) (h : header) : header :=
  Header (h_excl h) (h_incl h) (h_logh h) (h_logfd h) (h_in_header h) (h_brk_excl h)
    (h_brk_incl h) (h_brk_log h) (h_itoken_len h) (h_field_len h) (h_envheaders h ++ l).

(** The loop over the lines of the message, each of at least one byte; the header
    fields for the queue. *)
Fixpoint line_loop (fuel : nat) (fd : nat) (rest : bytes) (h : header) : QA bytes :=
  match fuel with
  | 0 => ok (h_envheaders h)
  | S fuel =>
    check QQ_READ_ERR;;?
    let '(line, found) := line_by c_lf rest in
    if negb found && bool_decide (line = []) then ok (h_envheaders h)
    else
      let h := if h_in_header h && negb (mess822_ok line) then set_in_header false h else h in
      let rest := drop (length line) rest in
      if negb (h_in_header h) then put fd line;;? line_loop fuel fd rest h
      else
        let '(h, exclude, include, loghead) := header_line h line in
        let h := if include && bool_decide (h_field_len h = -1 ∨ h_itoken_len h ≤ h_field_len h)%Z
                 then add_envheaders line h else h in
        (if exclude : bool then ok tt else put fd line);;?
        (if loghead : bool
         then check QQ_WRITE_ERR;;? set (λ s, set_logged (logged s ++ line) s) else ok tt);;?
        if found : bool then line_loop fuel fd rest h else ok (h_envheaders h)
  end.

(** The lists of header fields. *)
Record lists := Lists { l_excl : bytes; l_incl : bytes; l_logh : bytes }.

(** The descriptor of LOGHEADERFD is open. *)
Definition logfd (l : lists) : QA bool :=
  match l_logh l, env_get st (lit "LOGHEADERFD") with
  | _ :: _, Some p => bad ←? qsys fault; ok (negb bad && bool_decide (0 < scan_int p)%Z)
  | _, _ => ok false
  end.

(** The message, with the fields [qmail-queue] adds; the header fields for the
    queue. *)
Definition write_mess (fd : nat) (fastqueue : bool) (l : lists) : QA bytes :=
  log ←? logfd l;
  put fd (receivedfmt fastqueue);;?
  put_some fd (origin fastqueue);;?
  e ←? (if bool_decide (l_excl l = [] ∧ l_incl l = [] ∧ l_logh l = []) then
          substdio_copy fd;;? ok []
        else
          b ←? get body;
          let s := mjoin b in
          e ←? line_loop (S (length s)) fd s
                 (Header (l_excl l) (l_incl l) (l_logh l) log true true true true 0 0 []);
          set (set_body []);;? ok e);
  check QQ_WRITE_ERR;;?
  (if log : bool then check QQ_WRITE_ERR else ok tt);;?
  ok e.

(** ** The virus scanner *)

Record scanned := Scanned {
  flagblackhole : bool; quarantine : bytes; qqehextra : bytes
}.

Definition env_number (v : string) (default : Z) : Z :=
  match env_get st (lit v) with Some p => swrap 32 (snd (scan_ulong p)) | None => default end.

(** [qhpsiprog]: the child runs the scanner on the file of the message. *)
Definition qhpsiprog (x : scanned) : QA scanned :=
  s ←? get (λ s, s);
  i ←? qcall (stat (messfn (messnum s))) QQ_MESS_FILE true;
  let size := wrap 32 (Z.of_nat (length (i_data i))) in
  let minsize := wrap 32 (env_number "QHPSIMINSIZE" 0) in
  let maxsize := wrap 32 (env_number "QHPSIMAXSIZE" 0) in
  if decide (minsize ≠ 0 ∧ size < minsize ∨ maxsize ≠ 0 ∧ maxsize < size)%Z then ok x
  else
    check QQ_FORK_ERR;;?
    check QQ_WAITPID_SURPRISE;;?
    match scanner st with
    | Crashed => die QQ_CRASHED true
    | Exited rc =>
      if decide (rc = env_number "QHPSIRC" 1) then
        let q := default (quarantine x) (env_get st (lit "VIRUSFORWARD")) in
        let x b := Scanned b q (lit "X-QHPSI: Virus found" ++ [c_lf]) in
        match env_number "REJECTVIRUS" 0 with
        | 0%Z => ok (x false)
        | 2%Z => ok (x true)
        | _ => die QQ_VIRUS_IN_MSG true
        end
      else if decide (rc = env_number "QHPSIRN" 0) then
        ok (Scanned (flagblackhole x) (quarantine x) (lit "X-QHPSI: clean" ++ [c_lf]))
      else die QQ_QHPSI_TEMP_ERR true
    end.

(** ** The envelope *)

(** [substdio_get] of one byte. *)
Definition getc : QA Z :=
  bad ←? qsys fault;
  if bad : bool then die QQ_READ_ERR true
  else
    e ←? get envelope;
    match e with
    | [] => die QQ_READ_ERR true
    | c :: r => set (set_envelope r);;? ok c
    end.

(** The loop over the bytes of an address, of which there may be [n] more: each
    goes to [f], until the zero byte that ends the address. *)
Fixpoint address_loop {A} (n : nat) (f : Z → A → QA A) (a : A) : QA A :=
  match n with
  | 0 => die QQ_ENVELOPE_TOO_LONG true
  | S n => ch ←? getc; a ←? f ch a; if decide (ch = 0%Z) then ok a else address_loop n f a
  end.

(** The blackhole reads up to a zero byte.  Every turn takes a byte. *)
Fixpoint drain_loop (fuel : nat) : QA unit :=
  match fuel with
  | 0 => ok tt
  | S fuel => ch ←? getc; if decide (ch = 0%Z) then ok tt else drain_loop fuel
  end.

(** The loop over the recipients; the header fields for the queue, to which a
    quarantined message adds them. *)
Fixpoint recipients_loop (fuel : nat) (fd : nat) (fastqueue quarantined : bool) (extra : bytes)
    : QA bytes :=
  match fuel with
  | 0 => ok extra
  | S fuel =>
    ch ←? getc;
    if decide (ch = 0%Z) then ok extra
    else if negb fastqueue && bool_decide (ch = 81%Z (* Q *)) then ok extra
    else if decide (ch ≠ 84%Z (* T *)) then die QQ_ENVELOPE_FMT_ERR true
    else
      extra ←? (if quarantined : bool then ok (extra ++ lit ",") else put fd [ch];;? ok extra);
      extra ←? address_loop ADDR
                 (λ ch extra,
                   if quarantined : bool
                   then ok (if decide (ch = 0%Z) then extra else extra ++ [ch])
                   else put fd [ch];;? ok extra) extra;
      recipients_loop fuel fd fastqueue quarantined extra
  end.

Fixpoint put_all (fd : nat) (l : list bytes) : QA unit :=
  match l with [] => ok tt | t :: l => put fd (lit "T" ++ t ++ [0%Z]);;? put_all fd l end.

(** The record of header fields for the delivery: those of the quarantine and the
    scanner, and those of QQEH. *)
Definition qqeh_record (qqeh extra : bytes) : bytes :=
  if bool_decide (qqeh = [] ∧ extra = []) then []
  else lit "e" ++ extra ++ qqeh ++
       (if decide (qqeh = [] ∨ last qqeh = Some c_lf) then [] else [c_lf]) ++ [0%Z].

Definition fsync (fd : nat) : QA unit :=
  check QQ_FSYNC_ERR;;?
  set (λ s, set_synced (<[fd := i_data (default (Inode [] 0 0) (inodes (qw s) !! fd))]> (synced s)) s).

(** The trigger of todo-proc; if it fails, bummer. *)
Definition triggerpull : QA unit :=
  r ←? qsys (open_write (lit "lock/trigger"));
  match r with
  | inl _ => ok tt
  | inr _ => bad ←? qsys fault; if bad : bool then ok tt else set (set_pulled true)
  end.

(** From the empty intd file [fd] to the complete envelope; whether the message is
    to be dropped. *)
Definition write_envelope (fd : nat) (fastqueue : bool) (extraqueue envheaders : bytes)
    (x : scanned) : QA bool :=
  let quarantined := negb fastqueue && negb (bool_decide (quarantine x = [])) in
  put fd (lit "u" ++ fmt_ulong (uid st) ++ [0%Z] ++ lit "p" ++ fmt_ulong (mypid st) ++ [0%Z]);;?
  ch ←? getc;
  if decide (ch ≠ 70%Z (* F *)) then die QQ_ENVELOPE_FMT_ERR true
  else
    put fd [ch];;?
    address_loop ADDR (λ ch _, put fd [ch]) tt;;?
    put_all fd (tokens extraqueue);;?
    extra ←? (if quarantined : bool
              then put fd (lit "T" ++ quarantine x ++ [0%Z]);;?
                   ok (qqehextra x ++ lit "X-Quarantine-ID: " ++ quarantine x)
              else ok (qqehextra x));
    n ←? get (λ s, S (length (envelope s)));
    if flagblackhole x && negb quarantined then drain_loop n;;? cleanup;;? ok true
    else
      extra ←? recipients_loop n fd fastqueue quarantined extra;
      put_some fd (qqeh_record (if fastqueue then [] else default [] (env_get st (lit "QQEH")))
                (if quarantined then extra ++ [c_lf] else extra));;?
      put_some fd (if decide (envheaders = []) then [] else lit "h" ++ envheaders ++ [0%Z]);;?
      check QQ_WRITE_ERR;;?
      ok false.

(** ** The program *)

(** [chdir] to the queue directory failed; signals are not caught yet. *)
Definition chdir : QA bool := bad ← wsys fault; ok bad.

(** [main], from the control files on; its exit code. *)
Definition queue_main : QA unit :=
  let fastqueue :=
    match env_get st (lit "FASTQUEUE") with
    | Some p => bool_decide (scan_int p ≠ 0%Z)
    | None => false
    end in
  let unless_fast (m : QA bytes) : QA bytes := if fastqueue then ok [] else m in
  extraqueue ←? unless_fast (read_control "EXTRAQUEUE" "extraqueue" false);
  quarantine ←? unless_fast (read_control "QUARANTINE" "quarantine" false);
  excl ←? unless_fast (read_control "REMOVEHEADERS" "removeheaders" true);
  incl ←? unless_fast (read_control "ENVHEADERS" "envheaders" true);
  logh ←? unless_fast (read_control "LOGHEADERS" "logheaders" true);
  bad ←? chdir;
  if bad : bool then die QQ_CHDIR false
  else
    messfd ←? make_mess;
    envheaders ←? write_mess messfd fastqueue (Lists excl incl logh);
    let x := Scanned false quarantine [] in
    x ←? (if negb fastqueue && env_set "QHPSI" then qhpsiprog x else ok x);
    n ←? get messnum;
    intdfd ←? qcall (open_excl (intdfn n)) QQ_INTD_FILE true;
    set (set_made_intd (Some intdfd));;?
    drop ←? write_envelope intdfd fastqueue extraqueue envheaders x;
    if drop : bool then ok tt
    else
      (if use_fsync || use_fdatasync then fsync messfd;;? fsync intdfd else ok tt);;?
      qcall (link (intdfn n) (todofn n)) QQ_LINK_TODO_INTD true;;?
      triggerpull.

Definition qmail_queue : ST qqueue Z :=
  r ← queue_main; mret (match r with inl e => e | inr _ => 0%Z end).
End QmailQueue.
