(* ===== verification/QueueSpec.v ===== *)
(** * What qmail-queue is to do

    The message and the envelope that qmail-queue writes, as functions of its input that
    follow the program, and triples for its computations that keep track of the files it
    makes.  A specification that does not follow the program, to which these functions
    come down, is [promised] of [QueueHeaders]. *)

From S2P Require Import Prelude LibQmail Filesys Control Fmtqfn SendState QmailQueue.

#[local] Arguments Nat.sub : simpl never.

Section spec.
Context {L : LibQmail} (cfg : config) (st : setting).
Context (scan_int scan_uint : bytes → Z) (case_equal : bytes → bytes → bool).
Context (mess822_ok : bytes → bool) (beyond : bytes → bytes).

#[local] Abbreviation header_line := (QmailQueue.header_line scan_uint case_equal beyond).

(** ** The specification *)

Definition fast : bool :=
  match env_get st (lit "FASTQUEUE") with Some p => bool_decide (scan_int p ≠ 0%Z) | None => false end.

(** A setting: from the control file, the environment, or the file the
    environment names; [None] when it cannot be read. *)
Definition configured (v f : string) (flag : bool) : option bytes :=
  let readfile f := match control_readfile (control st f) with
                    | ((-1)%Z, _) => None
                    | (_, s) => Some s
                    end in
  if fast then Some []
  else match env_get st (lit v) with
       | None => readfile (lit f)
       | Some [] => Some []
       | Some p => if flag then readfile p else Some p
       end.

(** The lines that are kept, and the header fields for the queue: the loop of the
    program without its files, for the triples below. *)
Fixpoint kept_lines (fuel : nat) (rest : bytes) (h : header) : bytes * bytes :=
  match fuel with
  | 0 => ([], h_envheaders h)
  | S fuel =>
    let '(line, found) := line_by c_lf rest in
    if negb found && bool_decide (line = []) then ([], h_envheaders h)
    else
      let h := if h_in_header h && negb (mess822_ok line) then set_in_header false h else h in
      let rest := drop (length line) rest in
      if negb (h_in_header h) then
        let '(t, e) := kept_lines fuel rest h in (line ++ t, e)
      else
        let '(h, exclude, include, _) := header_line h line in
        let h := if include && bool_decide (h_field_len h = -1 ∨ h_itoken_len h ≤ h_field_len h)%Z
                 then add_envheaders line h else h in
        let '(t, e) := if found : bool then kept_lines fuel rest h else ([], h_envheaders h) in
        ((if exclude : bool then [] else line) ++ t, e)
  end.

Definition message_text (l : lists) (s : bytes) : bytes * bytes :=
  if bool_decide (l_excl l = [] ∧ l_incl l = [] ∧ l_logh l = []) then (s, [])
  else kept_lines (S (length s)) s
         (Header (l_excl l) (l_incl l) [] false true true true true 0 0 []).

(** What is written to mess for the text [t]. *)
Definition message (t : bytes) : bytes := receivedfmt st fast ++ origin st fast ++ t.

(** The verdict of the scanner on a message: an exit code, or how to go on. *)
Definition scan_verdict (data quarantine : bytes) : Z + scanned :=
  let size := wrap 32 (Z.of_nat (length data)) in
  let minsize := wrap 32 (env_number st "QHPSIMINSIZE" 0) in
  let maxsize := wrap 32 (env_number st "QHPSIMAXSIZE" 0) in
  if fast || negb (env_set st "QHPSI") ||
     bool_decide (minsize ≠ 0 ∧ size < minsize ∨ maxsize ≠ 0 ∧ maxsize < size)%Z
  then inr (Scanned false quarantine [])
  else
    match scanner st with
    | Crashed => inl QQ_CRASHED
    | Exited rc =>
      if decide (rc = env_number st "QHPSIRC" 1) then
        let q := default quarantine (env_get st (lit "VIRUSFORWARD")) in
        let found := lit "X-QHPSI: Virus found" ++ [c_lf] in
        match env_number st "REJECTVIRUS" 0 with
        | 0%Z => inr (Scanned false q found)
        | 2%Z => inr (Scanned true q found)
        | _ => inl QQ_VIRUS_IN_MSG
        end
      else if decide (rc = env_number st "QHPSIRN" 0) then
        inr (Scanned false quarantine (lit "X-QHPSI: clean" ++ [c_lf]))
      else inl QQ_QHPSI_TEMP_ERR
    end.

(** An address: at most [n] bytes up to a zero byte, which it includes; and what
    follows. *)
Definition parse_address (n : nat) (s : bytes) : Z + bytes * bytes :=
  let '(l, found) := line_at (take n s) in
  if found : bool then inr (l, drop (length l) s)
  else inl (if decide (n ≤ length s) then QQ_ENVELOPE_TOO_LONG else QQ_READ_ERR).

(** The recipients, up to the end of the list. *)
Fixpoint parse_recipients (fuel : nat) (s : bytes) : Z + list bytes :=
  match fuel, s with
  | S fuel, c :: s =>
    if decide (c = 0%Z ∨ fast = false ∧ c = 81%Z (* Q *)) then inr []
    else if decide (c ≠ 84%Z (* T *)) then inl QQ_ENVELOPE_FMT_ERR
    else match parse_address ADDR s with
         | inl e => inl e
         | inr (a, s) =>
           match parse_recipients fuel s with inl e => inl e | inr l => inr (a :: l) end
         end
  | _, _ => inl QQ_READ_ERR
  end.

(** The envelope: the sender and what follows. *)
Definition parse_sender (s : bytes) : Z + bytes * bytes :=
  match s with
  | [] => inl QQ_READ_ERR
  | c :: s => if decide (c ≠ 70%Z (* F *)) then inl QQ_ENVELOPE_FMT_ERR else parse_address ADDR s
  end.

Definition quarantined (x : scanned) : bool := negb fast && negb (bool_decide (quarantine x = [])).

(** The header fields for the delivery. *)
Definition extra_fields (x : scanned) (rcpts : list bytes) : bytes :=
  qqehextra x ++
  (if quarantined x
   then lit "X-Quarantine-ID: " ++ quarantine x ++
        mjoin (map (λ a, lit "," ++ filter (λ c, c ≠ 0%Z) a) rcpts) ++ [c_lf]
   else []).

(** The file in todo. *)
Definition envelope_of (extraqueue envheaders : bytes) (x : scanned) (sender : bytes)
    (rcpts : list bytes) : bytes :=
  lit "u" ++ fmt_ulong (uid st) ++ [0%Z] ++ lit "p" ++ fmt_ulong (mypid st) ++ [0%Z] ++
  lit "F" ++ sender ++
  mjoin (map (λ t, lit "T" ++ t ++ [0%Z]) (tokens extraqueue)) ++
  (if quarantined x then lit "T" ++ quarantine x ++ [0%Z] else mjoin (map (λ a, lit "T" ++ a) rcpts)) ++
  qqeh_record (if fast then [] else default [] (env_get st (lit "QQEH"))) (extra_fields x rcpts) ++
  (if decide (envheaders = []) then [] else lit "h" ++ envheaders ++ [0%Z]).

(** What becomes of a message: an exit code, or the files in mess and todo; no
    files when it is to vanish. *)
Definition verdict_envelope (extraqueue envheaders : bytes) (x : scanned) (e : bytes)
    : Z + option bytes :=
  match parse_sender e with
  | inl c => inl c
  | inr (sender, rest) =>
    if flagblackhole x && negb (quarantined x) then
      if decide (0%Z ∈ rest) then inr None else inl QQ_READ_ERR
    else
      match parse_recipients (S (length rest)) rest with
      | inl c => inl c
      | inr rcpts => inr (Some (envelope_of extraqueue envheaders x sender rcpts))
      end
  end.

Definition verdict (s : qqueue) : Z + option (bytes * bytes) :=
  match configured "EXTRAQUEUE" "extraqueue" false, configured "QUARANTINE" "quarantine" false,
        configured "REMOVEHEADERS" "removeheaders" true, configured "ENVHEADERS" "envheaders" true,
        configured "LOGHEADERS" "logheaders" true with
  | Some extraqueue, Some quarantine, Some excl, Some incl, Some logh =>
    let '(t, envheaders) := message_text (Lists excl incl logh) (mjoin (body s)) in
    match scan_verdict (message t) quarantine with
    | inl c => inl c
    | inr x =>
      match verdict_envelope extraqueue envheaders x (envelope s) with
      | inl c => inl c
      | inr None => inr None
      | inr (Some e) => inr (Some (message t, e))
      end
    end
  | _, _, _, _, _ => inl QQ_CONFIG_ERR
  end.
End spec.

(** ** Triples *)

Section triples.
Context {L : LibQmail} (cfg : config) (st : setting).
Context (s0 : qqueue).
#[local] Abbreviation w0 := (qw s0).

(** The inodes that are made are [n0], the message, and then [S n0]. *)
Definition n0 : nat := next_ino w0.
Definition num : Z := wrap 64 (Z.of_nat n0).
Definition fm : bytes := messfn cfg num.
Definition fi : bytes := intdfn cfg num.
Definition ft : bytes := todofn cfg num.

(** No call fails, no signal arrives, and the names of the message are free. *)
Record undisturbed : Prop := {
  un_faults : faults w0 = [];
  un_signals : signals s0 = [];
  un_pid : names w0 !! pidfmt st 1 = None;
  un_mess : names w0 !! fm = None;
  un_intd : names w0 !! fi = None;
  un_todo : names w0 !! ft = None
}.

(** What holds from the start to the end. *)
Record base (s : qqueue) : Prop := {
  ba_calm : undisturbed → faults (qw s) = [] ∧ signals s = [];
  ba_next : n0 ≤ next_ino (qw s);
  ba_inodes i : i < n0 → inodes (qw s) !! i = inodes w0 !! i;
  ba_left p i : names w0 !! p = Some i → names (qw s) !! p = Some i;
  ba_made p i : names (qw s) !! p = Some i →
    names w0 !! p = Some i ∨ n0 ≤ i ∧ (p = fm ∨ p = fi ∨ ∃ q, p = pidfmt st q)
}.

(** The exit code for a reason. *)
Definition exit_code (e : Z) : Z := if env_set st "QMAIL_QUEUE_CUSTOM_ERROR" then QQ_CUSTOM_ERR else e.

(** The end of the process, before the message is in todo.  When nothing disturbs
    it, it ends for a reason in [R] and leaves nothing behind. *)
Definition gone (R : Z → Prop) (e : Z) (s : qqueue) : Prop :=
  base s ∧ e ≠ 0%Z ∧ (undisturbed → names (qw s) = names w0 ∧ ∃ c, R c ∧ e = exit_code c).

Definition triple {A} (P : qqueue → Prop) (m : QA A) (Q : A → qqueue → Prop) (R : Z → Prop) : Prop :=
  ∀ s, P s → wp m (λ r s', match r with inl e => gone R e s' | inr a => Q a s' end) s.

Lemma gone_mono (R R' : Z → Prop) e s : (∀ c, R c → R' c) → gone R e s → gone R' e s.
Proof. intros H (Hb & Hz & Hc). split_and!; [done..|]. intros Hu. destruct (Hc Hu) as (? & c & ? & ?). eauto. Qed.

Lemma t_ret {A} (P : qqueue → Prop) (a : A) (Q : A → qqueue → Prop) R :
  (∀ s, P s → Q a s) → triple P (ok a) Q R.
Proof. intros H s Hs. by apply wp_ret, H. Qed.

Lemma t_bind {A B} (P : qqueue → Prop) (m : QA A) Q (k : A → QA B) Q' R :
  triple P m Q R → (∀ a, triple (Q a) (k a) Q' R) → triple P (qbind m k) Q' R.
Proof.
  intros Hm Hk s Hs. apply wp_bind. apply (wp_mono _ _ _ _ (Hm s Hs)).
  intros [e|a] s' Hs'; [by apply wp_ret|by apply Hk].
Qed.

Lemma t_conseq {A} (P P' : qqueue → Prop) (m : QA A) (Q Q' : A → qqueue → Prop) (R R' : Z → Prop) :
  triple P' m Q' R' → (∀ s, P s → P' s) → (∀ a s, Q' a s → Q a s) → (∀ c, R' c → R c) →
  triple P m Q R.
Proof.
  intros Hm HP HQ HR s Hs. apply (wp_mono _ _ _ _ (Hm s (HP s Hs))).
  intros [e|a] s' H; [by eapply gone_mono|by apply HQ].
Qed.

Lemma t_post {A} (P : qqueue → Prop) (m : QA A) (Q Q' : A → qqueue → Prop) (R R' : Z → Prop) :
  triple P m Q' R' → (∀ a s, Q' a s → Q a s) → (∀ c, R' c → R c) → triple P m Q R.
Proof. intros Hm. by apply (t_conseq P P m). Qed.

Lemma t_last {A} (P : qqueue → Prop) (m : QA A) (Q Q' : A → qqueue → Prop) (R : Z → Prop) :
  triple P m Q' R → (∀ a s, Q' a s → Q a s) → triple P m Q R.
Proof. intros Hm HQ. by eapply t_post. Qed.

Lemma t_pre {A} (P P' : qqueue → Prop) (m : QA A) Q R :
  triple P' m Q R → (∀ s, P s → P' s) → triple P m Q R.
Proof. intros Hm HP. by eapply t_conseq. Qed.

Lemma t_ex {A B} (P : B → qqueue → Prop) (m : QA A) Q R :
  (∀ x, triple (P x) m Q R) → triple (λ s, ∃ x, P x s) m Q R.
Proof. intros H s [x Hs]. by apply (H x). Qed.

Lemma t_assume {A} (φ : Prop) (P : qqueue → Prop) (m : QA A) Q R :
  (φ → triple P m Q R) → triple (λ s, φ ∧ P s) m Q R.
Proof. intros H s [Hφ Hs]. by apply H. Qed.

Lemma t_get {A B} (P : qqueue → Prop) (f : qqueue → A) (k : A → QA B) Q R :
  (∀ a, triple (λ s, P s ∧ f s = a) (k a) Q R) → triple P (qbind (get f) k) Q R.
Proof. intros H s Hs. by apply (H (f s)). Qed.

Lemma t_getS {A} (P : qqueue → Prop) (k : qqueue → QA A) Q R :
  (∀ s, P s → triple P (k s) Q R) → triple P (getS ≫= k) Q R.
Proof. intros H s Hs. by apply wp_bind, wp_getS, (H s). Qed.

Lemma t_set (P : qqueue → Prop) f (Q : unit → qqueue → Prop) R :
  (∀ s, P s → Q tt (f s)) → triple P (set f) Q R.
Proof. intros H s Hs. by apply H. Qed.

(** ** What calls do to [base] *)

Lemma base_world s w :
  base s → (faults (qw s) = [] → faults w = []) → next_ino (qw s) ≤ next_ino w →
  (∀ i, i < n0 → inodes w !! i = inodes (qw s) !! i) →
  (∀ p i, names w0 !! p = Some i → names w !! p = names (qw s) !! p) →
  (∀ p i, names w !! p = Some i →
     names (qw s) !! p = Some i ∨ n0 ≤ i ∧ (p = fm ∨ p = fi ∨ ∃ q, p = pidfmt st q)) →
  base (set_qw w s).
Proof.
  intros [H1 H2 H3 H4 H5] Hf Hn Hi Hl Hm. split; simpl.
  - intros Hu. destruct (H1 Hu). auto.
  - lia.
  - intros i Hlt. by rewrite Hi, H3.
  - intros p i Hp. rewrite (Hl p i Hp). auto.
  - intros p i Hp. destruct (Hm p i Hp); auto.
Qed.

Lemma base_faults s f : base s → (faults (qw s) = [] → f = []) → base (set_qw (set_faults f (qw s)) s).
Proof. intros Hb Hf. apply base_world; auto. Qed.

Lemma base_write s f i n :
  base s → (faults (qw s) = [] → f = []) → n0 ≤ i →
  base (set_qw (set_inodes (<[i := n]> (inodes (qw s))) (set_faults f (qw s))) s).
Proof.
  intros Hb Hf Hi. apply base_world; simpl; auto. intros j Hj. by rewrite lookup_insert_ne by lia.
Qed.

Lemma base_unlink s f p :
  base s → (faults (qw s) = [] → f = []) → names w0 !! p = None →
  base (set_qw (set_names (delete p (names (qw s))) (set_faults f (qw s))) s).
Proof.
  intros Hb Hf Hp. apply base_world; simpl; auto.
  - intros q i Hq. rewrite lookup_delete_ne; [done|]. by intros ->; rewrite Hp in Hq.
  - intros q i [_ ?]%lookup_delete_Some. by left.
Qed.

Lemma base_link s f p i :
  base s → (faults (qw s) = [] → f = []) → names w0 !! p = None → n0 ≤ i →
  (p = fm ∨ p = fi ∨ ∃ q, p = pidfmt st q) →
  base (set_qw (set_names (<[p := i]> (names (qw s))) (set_faults f (qw s))) s).
Proof.
  intros Hb Hf Hp Hi Ha. apply base_world; simpl; auto.
  - intros q j Hq. rewrite lookup_insert_ne; [done|]. by intros ->; rewrite Hp in Hq.
  - intros q j [[-> <-]|[_ ?]]%lookup_insert_Some; auto.
Qed.

Lemma base_create s f p n :
  base s → (faults (qw s) = [] → f = []) → names w0 !! p = None →
  (p = fm ∨ p = fi ∨ ∃ q, p = pidfmt st q) →
  let i := next_ino (qw s) in
  base (set_qw (set_next (S i) (set_inodes (<[i := n]> (inodes (qw s)))
    (set_names (<[p := i]> (names (qw s))) (set_faults f (qw s))))) s).
Proof.
  intros Hb Hf Hp Ha i. pose proof (ba_next _ Hb). apply base_world; simpl; auto; unfold i.
  - intros j Hj. by rewrite lookup_insert_ne by lia.
  - intros q j Hq. rewrite lookup_insert_ne; [done|]. by intros ->; rewrite Hp in Hq.
  - intros q j [[-> <-]|[_ ?]]%lookup_insert_Some; auto.
Qed.

Lemma base_signals s r : base s → (signals s = [] → r = []) → base (set_signals r s).
Proof. intros [H1 H2 H3 H4 H5] Hr. split; simpl; try done. intros Hu. destruct (H1 Hu). auto. Qed.

(** A file other than those before, which has no name yet. *)
Lemma base_free s p : base s → names (qw s) !! p = None → names w0 !! p = None.
Proof.
  intros Hb Hp. destruct (names w0 !! p) as [i|] eqn:E; [|done].
  apply (ba_left _ Hb) in E. congruence.
Qed.

(** ** System calls *)

Lemma exit_gone {A} s c (R : Z → Prop) (Q : A → qqueue → Prop) :
  c ≠ 0%Z → base s → (undisturbed → names (qw s) = names w0 ∧ R c) →
  wp (exit_now st c) (λ r s', match r with inl e => gone R e s' | inr a => Q a s' end) s.
Proof.
  intros Hz Hb Hc. unfold exit_now, gone, exit_code.
  destruct (env_set st "QMAIL_QUEUE_CUSTOM_ERROR").
  - apply wp_bind. unfold wsys, wp. pose proof (wp_fault_only
      (λ b w, base (set_qw w s) ∧ names w = names (qw s) ∧ (faults (qw s) = [] → b = false)) (qw s)) as H.
    unfold wp in H. destruct (fault (qw s)) as [b w]. simpl in *.
    destruct H as (H1 & H2 & H3).
    { intros Hf f. split_and!; [by apply base_faults|done|done]. }
    { intros f Hf. split_and!; [by apply base_faults|done|done]. }
    split_and!; [done|by destruct b|]. intros Hu. destruct (Hc Hu) as [Hn HR]. rewrite H2. split; [done|].
    exists c. split; [done|]. by rewrite H3 by (by apply (ba_calm _ Hb)).
  - apply wp_ret. split_and!; [done..|]. intros Hu. destruct (Hc Hu). eauto.
Qed.

(** A property that a signal that is not one leaves alone. *)
Definition stable (P : qqueue → Prop) : Prop :=
  (∀ s, P s → base s) ∧ (∀ s r, (signals s = [] → r = []) → P s → P (set_signals r s)).

Lemma t_sys {A} (P : qqueue → Prop) (m : ST world A) (Q : A → qqueue → Prop) R :
  stable P → (∀ s, P s → wp m (λ a w, Q a (set_qw w s)) (qw s)) → triple P (qsys st m) Q R.
Proof.
  intros [HP HS] Hm. unfold qsys. apply (t_bind _ _ (λ _, P)).
  - intros s Hs. unfold interrupt. apply wp_bind, wp_getS.
    destruct (signals s) as [|[g|] r] eqn:E; [by apply wp_ret| |].
    + apply wp_bind, wp_modify.
      assert (Hb : base (set_signals r s)) by (apply base_signals; [by apply HP|congruence]).
      assert (Hno : undisturbed → False).
      { intros Hu. destruct (ba_calm _ (HP _ Hs) Hu). congruence. }
      destruct g; apply exit_gone; try done; intros Hu; by destruct (Hno Hu).
    + apply wp_bind, wp_modify, wp_ret. apply HS; [congruence|done].
  - intros _ s Hs. apply wp_bind. specialize (Hm s Hs). unfold wp, wsys in *.
    destruct (m (qw s)) as [a w]. simpl in *. done.
Qed.

(** ** While the message is being made

    The file in mess holds [d] and, when there is one, the file in intd [o]; [b]
    is what is left to read of the message, with what is on the disk, and [e] what
    is left of the envelope. *)

Definition with_intd (o : option bytes) (ns : gmap bytes nat) : gmap bytes nat :=
  match o with None => <[fm := n0]> ns | Some _ => <[fi := S n0]> (<[fm := n0]> ns) end.

Record going (o : option bytes) (d : bytes) (b : list bytes * gmap nat bytes) (e : bytes)
    (s : qqueue) : Prop := {
  go_base : base s;
  go_names : names (qw s) = with_intd o (names w0);
  go_free_m : names w0 !! fm = None;
  go_free_i : is_Some o → names w0 !! fi = None;
  go_next : next_ino (qw s) = match o with None => S n0 | Some _ => S (S n0) end;
  go_mess : file_data (qw s) n0 = d;
  go_intd d' : o = Some d' → file_data (qw s) (S n0) = d';
  go_body : (body s, synced s) = b;
  go_env : envelope s = e;
  go_made : made_mess s = Some n0;
  go_made_i : made_intd s = match o with None => None | Some _ => Some (S n0) end;
  go_num : messnum s = num
}.

Lemma going_stable o d b e : stable (going o d b e).
Proof.
  split; [by intros s []|]. intros s r Hr [H1 H2 H3 H4 H5 H6 H7 H8 H9 H10 H11 H12].
  split; try done. by apply base_signals.
Qed.

(** Only the faults change. *)
Lemma going_faults o d b e s f :
  going o d b e s → (faults (qw s) = [] → f = []) →
  going o d b e (set_qw (set_faults f (qw s)) s).
Proof.
  intros [H1 H2 H3 H4 H5 H6 H7 H8 H9 H10 H11 H12] Hf. split; try done. by apply base_faults.
Qed.

(** A failing call of a process that nothing disturbs. *)
Lemma going_calm o d b e s : going o d b e s → faults (qw s) ≠ [] → undisturbed → False.
Proof. intros H Hf Hu. apply Hf, (ba_calm _ (go_base _ _ _ _ _ H) Hu). Qed.

(** *** The end *)

(** The files are on their way out: the names that are left, when nothing
    disturbs. *)
Definition leaving (ns : gmap bytes nat) (s : qqueue) : Prop :=
  base s ∧ made_mess s = Some n0 ∧ messnum s = num ∧ names w0 !! fm = None ∧
  (undisturbed → names (qw s) = ns).

Lemma leaving_stable ns : stable (leaving ns).
Proof.
  split; [by intros s []|]. intros s r Hr (H1 & H2 & H3 & H4 & H5). split_and!; try done.
  by apply base_signals.
Qed.

Lemma t_trunc ns i R :
  n0 ≤ i → triple (leaving ns) (qsys st (seek_trunc i)) (λ _, leaving ns) R.
Proof.
  intros Hi. apply t_sys; [apply leaving_stable|]. intros s (H1 & H2 & H3 & H4 & H5).
  unfold seek_trunc. apply wp_syscall_only.
  - intros Hf f. split_and!; try done. by apply base_faults.
  - intros f Hf. split_and!; try done. by apply base_write.
Qed.

Lemma t_unlink ns p R :
  names w0 !! p = None → is_Some (ns !! p) →
  triple (leaving ns) (qsys st (unlink p)) (λ _, leaving (delete p ns)) R.
Proof.
  intros Hp [i Hi]. apply t_sys; [apply leaving_stable|]. intros s (H1 & H2 & H3 & H4 & H5).
  assert (Hd : undisturbed → faults (qw s) = []) by (intros Hu; apply (ba_calm _ H1 Hu)).
  unfold unlink. apply wp_syscall_only.
  - intros Hf f. split_and!; try done; [by apply base_faults|]. intros Hu. by destruct (Hf (Hd Hu)).
  - intros f Hf. unfold lookup_name. apply wp_bind, wp_bind, wp_getS, wp_ret. simpl.
    destruct (names (qw s) !! p) eqn:E.
    + split_and!; try done; [by apply base_unlink|]. intros Hu. simpl. by rewrite H5.
    + split_and!; try done; [by apply base_faults|]. intros Hu. rewrite H5 in E by done. congruence.
Qed.

(** The mess and intd files of a message have different names. *)
Lemma fm_fi : fm ≠ fi.
Proof. done. Qed.

Lemma with_intd_clear o :
  names w0 !! fm = None → (is_Some o → names w0 !! fi = None) →
  delete fm (match o with Some _ => delete fi (with_intd o (names w0)) | None => with_intd o (names w0) end)
  = names w0.
Proof.
  intros Hm Hi. destruct o as [d|]; simpl.
  - rewrite delete_insert_id; [by apply delete_insert_id|].
    rewrite lookup_insert_ne by apply fm_fi. by apply Hi.
  - by apply delete_insert_id.
Qed.

(** [cleanup], after which nothing is left when nothing disturbs. *)
Lemma t_cleanup o d b e R : triple (going o d b e) (cleanup cfg st) (λ _, leaving (names w0)) R.
Proof.
  unfold cleanup. apply t_getS. intros s Hs. rewrite (go_made _ _ _ _ _ Hs), (go_made_i _ _ _ _ _ Hs), (go_num _ _ _ _ _ Hs).
  pose proof (go_free_m _ _ _ _ _ Hs) as Hm. pose proof (go_free_i _ _ _ _ _ Hs) as Hi. clear s Hs.
  pose proof (with_intd_clear o Hm Hi) as Hc.
  apply (t_bind _ _ (λ _, leaving (match o with Some _ => delete fi (with_intd o (names w0))
                                   | None => with_intd o (names w0) end))).
  - apply (t_pre _ (leaving (with_intd o (names w0)))).
    2:{ intros s' Hs'. split_and!; try apply Hs'. intros _. apply Hs'. }
    destruct o as [d'|]; [|by apply t_ret].
    eapply t_bind; [apply t_trunc; lia|intros ?].
    eapply t_bind; [apply (t_unlink _ fi); [by apply Hi|]|intros ?; by apply t_ret].
    simpl. rewrite lookup_insert_eq. by eexists.
  - intros ?. eapply t_bind; [apply t_trunc; lia|intros ?].
    eapply t_bind; [apply (t_unlink _ fm); [done|]|intros ?; apply t_ret; intros s'; by rewrite Hc].
    destruct o; simpl.
    + rewrite lookup_delete_ne, lookup_insert_ne by (by apply not_eq_sym, fm_fi).
      rewrite lookup_insert_eq. by eexists.
    + rewrite lookup_insert_eq. by eexists.
Qed.

Lemma t_die {A} o d b e c (Q : A → qqueue → Prop) (R : Z → Prop) (P : qqueue → Prop) :
  c ≠ 0%Z → (∀ s, P s → going o d b e s) → (undisturbed → ∀ s, P s → R c) →
  triple P (die cfg st c true) Q R.
Proof.
  intros Hz HP HR s Hs. unfold die. apply wp_bind.
  apply (wp_mono _ _ _ _ (t_cleanup o d b e R s (HP s Hs))). intros [x|_] s' H.
  - by apply wp_ret.
  - destruct H as (Hb & _ & _ & _ & Hn). apply exit_gone; [done..|]. intros Hu. eauto.
Qed.

Lemma t_exit {A} o d b e c (Q : A → qqueue → Prop) (R : Z → Prop) :
  c ≠ 0%Z → R c → triple (going o d b e) (die cfg st c true) Q R.
Proof. intros Hz HR. by apply (t_die o d b e). Qed.

(** *** Calls on the way *)

(** A system call of which a failure is the end. *)
Lemma t_call {A} o d b e (m : ST world (errno + A)) c (Q : A → qqueue → Prop) R :
  c ≠ 0%Z → (∀ s, going o d b e s →
     wp m (λ r w, match r with
                  | inl _ => going o d b e (set_qw w s) ∧ (undisturbed → False)
                  | inr a => Q a (set_qw w s) end) (qw s)) →
  triple (going o d b e) (qcall cfg st m c true) Q R.
Proof.
  intros Hz H. unfold qcall.
  apply (t_bind _ _ (λ r s, match r with
                            | inl _ => going o d b e s ∧ (undisturbed → False)
                            | inr a => Q a s end)); [apply t_sys; [apply going_stable|exact H]|].
  intros [x|a]; cbv beta iota.
  - apply (t_die o d b e); [done|by intros s [? _]|]. intros Hu s [_ Hno]. by destruct (Hno Hu).
  - by apply t_ret.
Qed.

Lemma t_check o d b e c R : c ≠ 0%Z → triple (going o d b e) (check cfg st c) (λ _, going o d b e) R.
Proof.
  intros Hz. unfold check. apply (t_bind _ _ (λ bad s, going o d b e s ∧ (undisturbed → bad = false))).
  - apply t_sys; [apply going_stable|]. intros s Hs.
    apply wp_fault_only.
    + intros Hf f. split; [by apply going_faults|]. intros Hu. by destruct (going_calm _ _ _ _ _ Hs Hf).
    + intros f Hf. split; [by apply going_faults|done].
  - intros [|]; cbv beta iota; [|by apply t_ret; intros s []].
    apply (t_die o d b e); [done|by intros s []|]. intros Hu s [_ Hno]. by specialize (Hno Hu).
Qed.

(** The files after [append]. *)
Lemma going_append o d b e s i f x o' d' :
  going o d b e s → (faults (qw s) = [] → f = []) → n0 ≤ i →
  (is_Some o ↔ is_Some o') →
  d' = (if decide (i = n0) then d ++ x else d) →
  (∀ y, o = Some y → o' = Some (if decide (i = S n0) then y ++ x else y)) →
  let n := default (Inode [] 0 0) (inodes (qw s) !! i) in
  going o' d' b e (set_qw (set_inodes (<[i := Inode (i_data n ++ x) (clock (qw s)) (i_atime n)]>
    (inodes (qw s))) (set_faults f (qw s))) s).
Proof.
  intros [H1 H2 H3 H4 H5 H6 H7 H8 H9 H10 H11 H12] Hf Hi Ho -> Ho' n.
  assert (Hd : ∀ j, file_data (set_inodes (<[i := Inode (i_data n ++ x) (clock (qw s)) (i_atime n)]>
    (inodes (qw s))) (set_faults f (qw s))) j =
    if decide (i = j) then file_data (qw s) j ++ x else file_data (qw s) j).
  { intros j. rewrite file_data_insert. destruct (decide (i = j)) as [<-|]; done. }
  assert (Hoo : match o, o' with Some _, Some _ | None, None => True | _, _ => False end).
  { destruct o, o'; try done; [by destruct (proj1 Ho ltac:(by eexists))|by destruct (proj2 Ho ltac:(by eexists))]. }
  split; try done.
  - by apply base_write.
  - by destruct o, o'; try (by destruct Hoo).
  - intros Hs. by apply H4, Ho.
  - by destruct o, o'; try (by destruct Hoo).
  - etrans; [apply Hd|]. by rewrite H6.
  - intros y Hy. etrans; [apply Hd|]. destruct o as [z|]; [|naive_solver].
    rewrite (Ho' z) in Hy by done. rewrite (H7 z) by done. by injection Hy.
  - by destruct o, o'; try (by destruct Hoo).
Qed.

Lemma t_append o d b e i x o' d' R :
  n0 ≤ i → (is_Some o ↔ is_Some o') →
  d' = (if decide (i = n0) then d ++ x else d) →
  (∀ y, o = Some y → o' = Some (if decide (i = S n0) then y ++ x else y)) →
  triple (going o d b e) (put cfg st i x) (λ _, going o' d' b e) R.
Proof.
  intros Hi Ho Hd Ho'. apply t_call; [done|]. intros s Hs. unfold append. apply wp_syscall_only.
  - intros Hf f. split; [by apply going_faults|]. by eapply going_calm.
  - intros f Hf. by apply (going_append o d b e).
Qed.

(** Writing to the file in mess, or to that in intd. *)
Lemma t_put_mess d b e x R :
  triple (going None d b e) (put cfg st n0 x) (λ _, going None (d ++ x) b e) R.
Proof. apply t_append; [done|done|by rewrite decide_True|done]. Qed.
Lemma t_put_intd o d b e x R :
  triple (going (Some o) d b e) (put cfg st (S n0) x) (λ _, going (Some (o ++ x)) d b e) R.
Proof.
  apply t_append; [lia|by split; intros _; eexists|rewrite decide_False by lia; done|].
  intros y [= <-]. by rewrite decide_True.
Qed.
End triples.
