(* ===== verification/QueueSteps.v ===== *)
(** * How qmail-queue writes a message and its envelope

    The loops of qmail-queue against their specifications: the copy of the
    message, the header lists, and the envelope byte by byte. *)

From S2P Require Import Prelude LibQmail Filesys Control Fmtqfn SendState QmailQueue QueueSpec.

(** ** Parsing an address, byte by byte *)

Lemma parse_address_0 s : parse_address 0 s = inl QQ_ENVELOPE_TOO_LONG.
Proof. unfold parse_address. rewrite take_0. cbn [line_at]. by rewrite decide_True by lia. Qed.
Lemma parse_address_nil n : parse_address (S n) [] = inl QQ_READ_ERR.
Proof. done. Qed.
Lemma parse_address_cons n c s :
  parse_address (S n) (c :: s) =
  if decide (c = 0%Z) then inr ([c], s)
  else match parse_address n s with inl e => inl e | inr (a, r) => inr (c :: a, r) end.
Proof.
  unfold parse_address. cbn [take line_at]. case_decide as Hc; [done|].
  destruct (line_at (take n s)) as [l []]; [done|]. do 2 f_equal.
  destruct (decide (n ≤ length s)) as [Hn|Hn].
  - by rewrite decide_True by (simpl; lia).
  - by rewrite decide_False by (simpl; lia).
Qed.

Lemma parse_address_length n s a r : parse_address n s = inr (a, r) → length r < length s.
Proof.
  revert s a. induction n as [|n IH]; intros s a; [by rewrite parse_address_0|].
  destruct s as [|c s]; [by rewrite parse_address_nil|]. rewrite parse_address_cons.
  case_decide; [intros [= _ <-]; simpl; lia|].
  destruct (parse_address n s) as [|[a' r']] eqn:E; [done|]. intros [= _ <-].
  specialize (IH _ _ E). simpl. lia.
Qed.

Section steps.
Context {L : LibQmail} (cfg : config) (st : setting) (s0 : qqueue).
Context (scan_int : bytes → Z).

#[local] Abbreviation going := (QueueSpec.going cfg st s0).
#[local] Abbreviation triple := (QueueSpec.triple cfg st s0).
#[local] Abbreviation undisturbed := (QueueSpec.undisturbed cfg st s0).
#[local] Abbreviation n0 := (QueueSpec.n0 s0).
#[local] Abbreviation put := (QmailQueue.put cfg st).
#[local] Abbreviation getc := (QmailQueue.getc cfg st).
#[local] Abbreviation fast := (QueueSpec.fast st scan_int).

(** ** Reading the envelope *)

Lemma going_envelope o d b e r s : going o d b e s → going o d b r (set_envelope r s).
Proof. by intros [[] H2 H3 H4 H5 H6 H7 H8 H9 H10 H11 H12]. Qed.

Lemma t_getc o d b e (R : Z → Prop) :
  (e = [] → R QQ_READ_ERR) →
  triple (going o d b e) getc (λ c s, ∃ r, e = c :: r ∧ going o d b r s) R.
Proof.
  intros HR. unfold QmailQueue.getc.
  apply (t_bind _ _ _ _ _ (λ bad s, going o d b e s ∧ (undisturbed → bad = false))).
  { apply t_sys; [apply going_stable|]. intros s Hs. apply wp_fault_only.
    - intros Hf f. split; [by apply going_faults|]. intros Hu.
      by destruct (going_calm _ _ _ _ _ _ _ _ Hs Hf).
    - intros f Hf. split; [by apply going_faults|done]. }
  intros [|].
  - apply (t_die _ _ _ o d b e); [done|by intros s []|]. intros Hu s [_ H]. by specialize (H Hu).
  - apply t_get. intros [|c r].
    + apply (t_die _ _ _ o d b e); [done|by intros s [[] _]|]. intros Hu s [[Hs _] He].
      apply HR. by rewrite <- (go_env _ _ _ _ _ _ _ _ Hs).
    + intros s [[Hs _] He]. apply wp_bind, wp_bind, wp_modify, wp_ret, wp_ret. exists r.
      rewrite <- He. split; [symmetry; apply Hs|]. by eapply going_envelope.
Qed.

(** The address goes byte by byte into a state that depends on what has been
    read. *)
Lemma t_address {A} (O : bytes → option bytes) (V : bytes → A) (f : Z → A → QA A) d b R0 :
  (∀ acc ch e, triple (going (O acc) d b e) (f ch (V acc))
     (λ a s, a = V (acc ++ [ch]) ∧ going (O (acc ++ [ch])) d b e s) R0) →
  (∀ c, R0 c → False) →
  ∀ n acc e, triple (going (O acc) d b e) (address_loop cfg st n f (V acc))
    (λ a s, ∃ x r, parse_address n e = inr (x, r) ∧ a = V (acc ++ x) ∧ going (O (acc ++ x)) d b r s)
    (λ c, parse_address n e = inl c).
Proof.
  intros Hf HR0 n. induction n as [|n IH]; intros acc e; cbn [address_loop].
  - apply (t_die _ _ _ (O acc) d b e); [done..|]. intros _ s _. apply parse_address_0.
  - eapply t_bind; [apply t_getc; intros ->; apply parse_address_nil|]. intros ch s (r & -> & Hs).
    revert s Hs. change (triple (going (O acc) d b r)
      (qbind (f ch (V acc)) (λ a, if decide (ch = 0%Z) then ok a else address_loop cfg st n f a))
      (λ a s, ∃ x r', parse_address (S n) (ch :: r) = inr (x, r') ∧ a = V (acc ++ x) ∧
                      going (O (acc ++ x)) d b r' s)
      (λ c, parse_address (S n) (ch :: r) = inl c)).
    apply (t_bind _ _ _ _ _ (λ a s, a = V (acc ++ [ch]) ∧ going (O (acc ++ [ch])) d b r s)).
    { eapply t_conseq; [apply Hf|done|done|]. by intros c ?%HR0. }
    intros a s [-> Hs]. revert s Hs. rewrite parse_address_cons. case_decide.
    + apply t_ret. intros s Hs. by exists [ch], r.
    + eapply t_post; [apply IH|..].
      * intros a s (x & r' & -> & -> & Hs). exists (ch :: x), r'.
        rewrite <- !(assoc_L app) in *. done.
      * by intros c ->.
Qed.

(** *** The sender and the recipients *)

Lemma t_put_char o d b e ch R :
  triple (going (Some o) d b e) (put (S n0) [ch]) (λ _, going (Some (o ++ [ch])) d b e) R.
Proof. apply t_put_intd. Qed.

Lemma t_sender o d b e :
  triple (going (Some o) d b e) (address_loop cfg st ADDR (λ ch _, put (S n0) [ch]) tt)
    (λ _ s, ∃ x r, parse_address ADDR e = inr (x, r) ∧ going (Some (o ++ x)) d b r s)
    (λ c, parse_address ADDR e = inl c).
Proof.
  assert (Hf : ∀ (acc : bytes) ch e', triple (going (Some (o ++ acc)) d b e') (put (S n0) [ch])
    (λ a s, a = tt ∧ going (Some (o ++ acc ++ [ch])) d b e' s) (λ _, False)).
  { intros acc ch e'. eapply t_conseq; [apply (t_put_char (o ++ acc) d b e' ch (λ _, False))|done| |done].
    intros [] s Hs. split; [done|]. by rewrite (assoc_L app). }
  eapply t_conseq; [apply (t_address _ (λ _, tt) _ d b _ Hf ltac:(done) ADDR [] e)|..].
  - by rewrite app_nil_r.
  - intros [] s (x & r & ? & _ & ?). by exists x, r.
  - done.
Qed.

(** One recipient, of a message that is queued or quarantined. *)
Lemma t_recipient (q : bool) o d b e extra :
  triple (going (Some o) d b e)
    (address_loop cfg st ADDR
       (λ ch extra, if q then ok (if decide (ch = 0%Z) then extra else extra ++ [ch])
                    else put (S n0) [ch];;? ok extra) extra)
    (λ a s, ∃ x r, parse_address ADDR e = inr (x, r) ∧
       a = (if q then extra ++ filter (λ c, c ≠ 0%Z) x else extra) ∧
       going (Some (if q then o else o ++ x)) d b r s)
    (λ c, parse_address ADDR e = inl c).
Proof.
  set (O acc := Some (if q then o else o ++ acc)).
  set (V acc := if q then extra ++ filter (λ c : Z, c ≠ 0%Z) acc else extra).
  assert (Hf : ∀ acc ch e', triple (going (O acc) d b e')
    ((λ ch extra, if q then ok (if decide (ch = 0%Z) then extra else extra ++ [ch])
                  else put (S n0) [ch];;? ok extra) ch (V acc))
    (λ a s, a = V (acc ++ [ch]) ∧ going (O (acc ++ [ch])) d b e' s) (λ _, False)).
  { intros acc ch e'. unfold O, V. destruct q.
    - apply t_ret. intros s Hs. split; [|done]. rewrite filter_app, filter_cons, filter_nil.
      case_decide as Hc.
      + rewrite decide_False by naive_solver. by rewrite app_nil_r.
      + rewrite decide_True by done. by rewrite (assoc_L app).
    - eapply t_bind; [apply t_put_char|]. intros []. apply t_ret. intros s Hs.
      split; [done|]. by rewrite (assoc_L app). }
  pose proof (t_address O V _ d b _ Hf ltac:(done) ADDR [] e) as H.
  replace (V []) with extra in H by (unfold V; destruct q; by rewrite ?filter_nil, ?app_nil_r).
  replace (O []) with (Some o) in H by (unfold O; destruct q; by rewrite ?app_nil_r).
  eapply t_post; [exact H| |done].
  intros a s (x & r & ? & -> & ?). by exists x, r.
Qed.

(** The recipients of [l], as they go to the file in intd or, when the message is
    quarantined, to the header field. *)
Definition rcpt_records (q : bool) (l : list bytes) : bytes :=
  if q then [] else mjoin (map (λ a, lit "T" ++ a) l).
Definition rcpt_names (q : bool) (l : list bytes) : bytes :=
  if q then mjoin (map (λ a, lit "," ++ filter (λ c, c ≠ 0%Z) a) l) else [].

Lemma t_recipients (q : bool) d b n o e extra :
  length e < n →
  triple (going (Some o) d b e) (recipients_loop cfg st n (S n0) fast q extra)
    (λ a s, ∃ l r, parse_recipients st scan_int n e = inr l ∧ a = extra ++ rcpt_names q l ∧
       going (Some (o ++ rcpt_records q l)) d b r s)
    (λ c, parse_recipients st scan_int n e = inl c).
Proof.
  revert o e extra. induction n as [|n IH]; intros o e extra Hn; [lia|]. cbn [recipients_loop].
  eapply t_bind; [apply t_getc; by intros ->|].
  intros ch. apply t_ex. intros r. apply t_assume. intros ->. cbn [parse_recipients]. simpl in Hn.
  assert (Hend : triple (going (Some o) d b r) (ok extra)
    (λ a s, ∃ l r', inr (A := Z) [] = inr l ∧ a = extra ++ rcpt_names q l ∧
       going (Some (o ++ rcpt_records q l)) d b r' s)
    (λ c, inr (B := Z) (A := Z) 0%Z = inl c)).
  { apply t_ret. intros s Hs. exists [], r. destruct q; simpl; by rewrite !app_nil_r. }
  destruct (decide (ch = 0%Z)) as [->|H0].
  { rewrite decide_True by auto. by eapply t_post; [exact Hend|done..]. }
  destruct (negb fast && bool_decide (ch = 81%Z)) eqn:HQ.
  { apply andb_true_iff in HQ as [Hf%negb_true_iff HQ%bool_decide_eq_true].
    rewrite decide_True by auto. by eapply t_post; [exact Hend|done..]. }
  rewrite (decide_False (P := ch = 0%Z ∨ fast = false ∧ ch = 81%Z)).
  2:{ intros [?|[Hf ?]]; [done|]. rewrite Hf, bool_decide_true in HQ by done. done. }
  destruct (decide (ch ≠ 84%Z)) as [HT|HT].
  { by apply t_exit. }
  apply dec_stable in HT as ->.
  apply (t_bind _ _ _ _ _ (λ x s, x = (if q then extra ++ lit "," else extra) ∧
    going (Some (if q then o else o ++ lit "T")) d b r s)).
  { destruct q; [by apply t_ret|]. eapply t_bind; [apply t_put_char|]. intros []. by apply t_ret. }
  intros x. apply t_assume. intros ->.
  eapply t_bind; [eapply t_post; [apply t_recipient|done|by intros c ->]|].
  intros x. apply t_ex. intros a. apply t_ex. intros r'. apply t_assume. intros Ha. rewrite Ha.
  apply t_assume. intros ->. pose proof (parse_address_length _ _ _ _ Ha).
  eapply t_post; [apply IH; lia| |].
  - intros y s (l & r'' & -> & -> & Hs). exists (a :: l), r''. split_and!; [done|..].
    + destruct q; simpl; by rewrite <- ?(assoc_L app).
    + destruct q; simpl in *; by rewrite <- ?(assoc_L app) in Hs.
  - by intros c ->.
Qed.

(** The extra recipients. *)
Lemma t_put_all o d b e l R :
  triple (going (Some o) d b e) (put_all cfg st (S n0) l)
    (λ _, going (Some (o ++ mjoin (map (λ t, lit "T" ++ t ++ [0%Z]) l))) d b e) R.
Proof.
  revert o. induction l as [|t l IH]; intros o; cbn [put_all].
  - apply t_ret. intros s Hs. by rewrite app_nil_r.
  - eapply t_bind; [apply t_put_intd|]. intros []. eapply t_post; [apply IH| |done].
    intros [] s Hs. simpl in *. by rewrite <- (assoc_L app) in Hs.
Qed.

Lemma t_put_some o d b e x R :
  triple (going (Some o) d b e) (put_some cfg st (S n0) x) (λ _, going (Some (o ++ x)) d b e) R.
Proof.
  unfold put_some. case_decide as Hx; [|apply t_put_intd].
  apply t_ret. intros s Hs. by rewrite Hx, app_nil_r.
Qed.

(** What a message that is to vanish leaves unread. *)
Lemma t_drain o d b n e :
  length e < n →
  triple (going (Some o) d b e) (drain_loop cfg st n) (λ _ s, 0%Z ∈ e ∧ ∃ r, going (Some o) d b r s)
    (λ c, (0%Z ∉ e) ∧ c = QQ_READ_ERR).
Proof.
  revert e. induction n as [|n IH]; intros e Hn; [lia|]. cbn [drain_loop].
  eapply t_bind; [apply t_getc; intros ->; split; [set_solver|done]|].
  intros ch. apply t_ex. intros r. apply t_assume. intros ->. simpl in Hn. case_decide as Hc.
  - apply t_ret. intros s Hs. subst. split; [set_solver|eauto].
  - eapply t_post; [apply IH; lia|..].
    + intros _ s [? ?]. split; [set_solver|done].
    + intros c [? ->]. split; [set_solver|done].
Qed.

(** *** The whole envelope *)

Lemma envelope_tail qqeh extra envheaders o d b e R :
  triple (going (Some o) d b e)
    (put_some cfg st (S n0) (qqeh_record qqeh extra);;?
     put_some cfg st (S n0) (if decide (envheaders = []) then [] else lit "h" ++ envheaders ++ [0%Z]);;?
     check cfg st QQ_WRITE_ERR;;?
     ok false)
    (λ x s, x = false ∧ going (Some (o ++ qqeh_record qqeh extra ++
       (if decide (envheaders = []) then [] else lit "h" ++ envheaders ++ [0%Z]))) d b e s) R.
Proof.
  eapply t_bind; [apply t_put_some|]. intros []. eapply t_bind; [apply t_put_some|]. intros [].
  eapply t_bind; [by apply t_check|]. intros []. apply t_ret. intros s Hs. split; [done|].
  by rewrite (assoc_L app).
Qed.

Lemma t_envelope d b e extraqueue envheaders x :
  triple (going (Some []) d b e) (write_envelope cfg st (S n0) fast extraqueue envheaders x)
    (λ drop s, ∃ r, match verdict_envelope st scan_int extraqueue envheaders x e with
       | inl _ => False
       | inr None => drop = true ∧ leaving cfg st s0 (names (qw s0)) s
       | inr (Some o) => drop = false ∧ going (Some o) d b r s
       end)
    (λ c, verdict_envelope st scan_int extraqueue envheaders x e = inl c).
Proof.
  unfold write_envelope, verdict_envelope.
  eapply t_bind; [apply t_put_intd|]. intros []. cbn [app].
  eapply t_bind; [apply t_getc; by intros ->|]. intros ch. apply t_ex. intros r.
  apply t_assume. intros ->. cbn [parse_sender].
  destruct (decide (ch ≠ 70%Z)) as [HF|HF]; [by apply t_exit|].
  apply dec_stable in HF as ->.
  eapply t_bind; [apply t_put_intd|]. intros [].
  eapply t_bind; [eapply t_post; [apply t_sender|done|by intros c ->]|].
  intros []. apply t_ex. intros sender. apply t_ex. intros rest. apply t_assume. intros ->.
  eapply t_bind; [apply t_put_all|]. intros [].
  fold (quarantined st scan_int x). set (q := quarantined st scan_int x).
  set (o := (_ ++ mjoin _)).
  apply (t_bind _ _ _ _ _ (λ y s, y = (if q then qqehextra x ++ lit "X-Quarantine-ID: " ++ quarantine x
                                    else qqehextra x) ∧
    going (Some (if q then o ++ lit "T" ++ quarantine x ++ [0%Z] else o)) d b rest s)).
  { destruct q; [|by apply t_ret]. eapply t_bind; [apply t_put_intd|]. intros []. by apply t_ret. }
  intros y. apply t_assume. intros ->. apply t_get. intros n.
  apply (t_pre _ _ _ _ (λ s, n = S (length rest) ∧
    going (Some (if q then o ++ lit "T" ++ quarantine x ++ [0%Z] else o)) d b rest s)).
  2:{ intros s [Hs <-]. split; [by rewrite (go_env _ _ _ _ _ _ _ _ Hs)|done]. }
  apply t_assume. intros ->.
  destruct (flagblackhole x && negb q).
  - eapply t_bind; [eapply t_post; [apply t_drain; lia|done|]|].
    { intros c [? ->]. by rewrite decide_False. }
    intros []. apply t_assume. intros H0. apply t_ex. intros r2. rewrite decide_True by done.
    eapply t_bind; [apply t_cleanup|]. intros []. apply t_ret. intros s Hs. by exists [].
  - eapply t_bind; [eapply t_post; [apply t_recipients; lia|done|by intros c ->]|].
    intros y. apply t_ex. intros l. apply t_ex. intros r2. apply t_assume. intros ->.
    apply t_assume. intros ->. eapply t_last; [apply envelope_tail|].
    intros z s [-> Hs]. exists r2. split; [done|].
    match type of Hs with QueueSpec.going _ _ _ (Some ?A) _ _ _ _ =>
      enough (envelope_of st scan_int extraqueue envheaders x sender l = A) as -> by exact Hs
    end. clear Hs. unfold o, envelope_of, extra_fields, rcpt_records, rcpt_names.
    fold q. clearbody q. change (lit "F") with [70%Z].
    destruct q; repeat (rewrite <- ?(assoc_L app), ?app_nil_r; cbn [app]); done.
Qed.
End steps.
