(* ===== verification/QueueTheorems.v ===== *)
(** * What qmail-queue promises

    The rest of the steps of qmail-queue, its program as a whole, and what follows
    for the messages it accepts and refuses. *)

From S2P Require Import Prelude LibQmail Filesys Control Fmtqfn SendState QmailQueue QueueSpec.
From S2P Require Import QueueSteps.

Section QueueTheorems.
Context {L : LibQmail} (cfg : config) (st : setting) (s0 : qqueue).
Context (scan_int scan_uint : bytes → Z) (case_equal : bytes → bytes → bool).
Context (mess822_ok : bytes → bool) (beyond : bytes → bytes).

#[local] Abbreviation going := (QueueSpec.going cfg st s0).
#[local] Abbreviation base := (QueueSpec.base cfg st s0).
#[local] Abbreviation triple := (QueueSpec.triple cfg st s0).
#[local] Abbreviation stable := (QueueSpec.stable cfg st s0).
#[local] Abbreviation undisturbed := (QueueSpec.undisturbed cfg st s0).
#[local] Abbreviation n0 := (QueueSpec.n0 s0).
#[local] Abbreviation num := (QueueSpec.num s0).
#[local] Abbreviation fm := (QueueSpec.fm cfg s0).
#[local] Abbreviation fi := (QueueSpec.fi cfg s0).
#[local] Abbreviation ft := (QueueSpec.ft cfg s0).
#[local] Abbreviation w0 := (qw s0).
#[local] Abbreviation put := (QmailQueue.put cfg st).
#[local] Abbreviation fast := (QueueSpec.fast st scan_int).

(** ** The message *)

Lemma t_copy d b e l R :
  triple (going None d b e) (copy_loop cfg st n0 l) (λ _, going None (d ++ mjoin l) b e) R.
Proof.
  revert d. induction l as [|c l IH]; intros d; cbn [copy_loop].
  - eapply t_last; [by apply t_check|]. intros ? s Hs. by rewrite app_nil_r.
  - eapply t_bind; [by apply t_check|]. intros ?. eapply t_bind; [apply t_put_mess|]. intros ?.
    eapply t_last; [apply IH|]. intros ? s Hs. simpl in *. by rewrite <- (assoc_L app) in Hs.
Qed.

Lemma going_body o d b b' y e s : going o d (b, y) e s → going o d (b', y) e (set_body b' s).
Proof.
  intros [[] H2 H3 H4 H5 H6 H7 H8 H9 H10 H11 H12]. split; try done.
  simpl. by injection H8 as _ ->.
Qed.
Lemma going_logged o d b e l s : going o d b e s → going o d b e (set_logged l s).
Proof. by intros [[] H2 H3 H4 H5 H6 H7 H8 H9 H10 H11 H12]. Qed.

(** The header without what is only for the log. *)
Definition unlog (h : header) : header :=
  Header (h_excl h) (h_incl h) [] false (h_in_header h) (h_brk_excl h) (h_brk_incl h) true
    (h_itoken_len h) (h_field_len h) (h_envheaders h).

#[local] Abbreviation header_line := (QmailQueue.header_line scan_uint case_equal beyond).
#[local] Abbreviation kept_lines := (QueueSpec.kept_lines scan_uint case_equal mess822_ok beyond).

Lemma header_line_unlog h line :
  header_line (unlog h) line = let '(h', x, i, _) := header_line h line in (unlog h', x, i, false).
Proof.
  unfold QmailQueue.header_line, unlog. simpl. case_decide; [done|].
  destruct (incl_loop _ _ _ _ _ _ _ _ _) as [[[incl itoken] field] include].
  done.
Qed.

Lemma t_lines fuel d b e rest h R :
  triple (going None d b e)
    (line_loop cfg st scan_uint case_equal mess822_ok beyond fuel n0 rest h)
    (λ x s, x = (kept_lines fuel rest (unlog h)).2 ∧
            going None (d ++ (kept_lines fuel rest (unlog h)).1) b e s) R.
Proof.
  revert d rest h. induction fuel as [|fuel IH]; intros d rest h; cbn [line_loop QueueSpec.kept_lines].
  { apply t_ret. intros s Hs. by rewrite app_nil_r. }
  eapply t_bind; [by apply t_check|]. intros ?. destruct (line_by c_lf rest) as [line found].
  destruct (negb found && _); [apply t_ret; intros s Hs; by rewrite app_nil_r|].
  change (h_in_header (unlog h)) with (h_in_header h).
  set (h1 := if h_in_header h && negb (mess822_ok line) then set_in_header false h else h).
  replace (if h_in_header h && negb (mess822_ok line) then set_in_header false (unlog h) else unlog h)
    with (unlog h1) by (unfold h1; by destruct (_ && _)).
  clearbody h1. change (h_in_header (unlog h1)) with (h_in_header h1).
  destruct (negb (h_in_header h1)).
  { eapply t_bind; [apply t_put_mess|]. intros ?. eapply t_last; [apply IH|].
    destruct (kept_lines fuel _ (unlog h1)) as [t ev]. simpl. intros ? s [-> Hs].
    by rewrite <- (assoc_L app) in Hs. }
  rewrite header_line_unlog. destruct (header_line h1 line) as [[[h2 ex] inc] lg].
  change (h_field_len (unlog h2)) with (h_field_len h2).
  change (h_itoken_len (unlog h2)) with (h_itoken_len h2).
  destruct (inc && _); [set (h3 := add_envheaders line h2)|set (h3 := h2)].
  1: change (add_envheaders line (unlog h2)) with (unlog h3).
  2: change (unlog h2) with (unlog h3).
  all: clearbody h3; eapply (t_bind _ _ _ _ _ (λ _, going None (d ++ if ex then [] else line) b e));
    [destruct ex; [apply t_ret; intros s Hs; by rewrite app_nil_r|apply t_put_mess]|intros ?].
  all: eapply (t_bind _ _ _ _ _ (λ _, going None (d ++ if ex then [] else line) b e));
    [destruct lg; [|by apply t_ret]; eapply t_bind; [by apply t_check|intros ?];
     apply t_set; intros s; apply going_logged|intros ?].
  all: destruct found; [eapply t_last; [apply IH|]|apply t_ret].
  all: try (destruct (kept_lines fuel _ (unlog h3)) as [t ev]; simpl; intros ? s [-> Hs];
            by rewrite <- (assoc_L app) in Hs).
  all: intros s Hs; simpl; by rewrite app_nil_r.
Qed.

#[local] Abbreviation message_text := (QueueSpec.message_text scan_uint case_equal mess822_ok beyond).
#[local] Abbreviation message := (QueueSpec.message st scan_int).

Lemma t_put_some_mess d b e x R :
  triple (going None d b e) (put_some cfg st n0 x) (λ _, going None (d ++ x) b e) R.
Proof.
  unfold put_some. case_decide as Hx; [|apply t_put_mess].
  apply t_ret. intros s Hs. by rewrite Hx, app_nil_r.
Qed.

Lemma t_message b y e l R :
  triple (going None [] (b, y) e)
    (write_mess cfg st scan_int scan_uint case_equal mess822_ok beyond n0 fast l)
    (λ x s, x = (message_text l (mjoin b)).2 ∧
            going None (message (message_text l (mjoin b)).1) ([], y) e s) R.
Proof.
  unfold write_mess.
  apply (t_bind _ _ _ _ _ (λ _, going None [] (b, y) e)).
  { unfold logfd. destruct (l_logh l), (env_get st (lit "LOGHEADERFD")); try by apply t_ret.
    apply (t_bind _ _ _ _ _ (λ _, going None [] (b, y) e)); [|intros bad; by apply t_ret].
    apply t_sys; [apply going_stable|]. intros s Hs.
    apply wp_fault_only; intros; by apply going_faults. }
  intros log. eapply t_bind; [apply t_put_mess|]. intros ?.
  eapply t_bind; [apply t_put_some_mess|]. intros ?. cbn [app].
  set (P := receivedfmt st fast ++ origin st fast).
  apply (t_bind _ _ _ _ _ (λ x s, x = (message_text l (mjoin b)).2 ∧
    going None (P ++ (message_text l (mjoin b)).1) ([], y) e s)).
  - unfold QueueSpec.message_text. destruct (bool_decide _).
    + unfold substdio_copy.
      apply (t_bind _ _ _ _ _ (λ _, going None (P ++ mjoin b) ([], y) e)); [|intros ?; by apply t_ret].
      apply t_get. intros b'. apply (t_pre _ _ _ _ (λ s, b' = b ∧ going None P (b, y) e s)).
      2:{ intros s [Hs <-]. split; [|done]. by injection (go_body _ _ _ _ _ _ _ _ Hs). }
      apply t_assume. intros ->. eapply t_bind; [apply t_copy|]. intros ?.
      apply t_set. intros s Hs. by eapply going_body.
    + apply t_get. intros b'. apply (t_pre _ _ _ _ (λ s, b' = b ∧ going None P (b, y) e s)).
      2:{ intros s [Hs <-]. split; [|done]. by injection (go_body _ _ _ _ _ _ _ _ Hs). }
      apply t_assume. intros ->. eapply t_bind; [apply t_lines|]. intros x.
      apply t_assume. intros ->.
      match goal with |- QueueSpec.triple _ _ _ (going None ?d _ _) _ _ _ =>
        apply (t_bind _ _ _ _ _ (λ _, going None d ([], y) e)) end; [|intros ?; by apply t_ret].
      apply t_set. intros s Hs. by eapply going_body.
  - intros x. apply t_assume. intros ->. eapply t_bind; [by apply t_check|]. intros ?.
    apply (t_bind _ _ _ _ _ (λ _, going None (P ++ (message_text l (mjoin b)).1) ([], y) e)).
    { destruct log; [by apply t_check|by apply t_ret]. }
    intros ?. apply t_ret. intros s Hs. split; [done|].
    unfold QueueSpec.message. by rewrite (assoc_L app).
Qed.

(** ** The scanner *)

#[local] Abbreviation scan_verdict := (QueueSpec.scan_verdict st scan_int).

Lemma t_stat d b e c (R : Z → Prop) :
  c ≠ 0%Z →
  triple (going None d b e) (qcall cfg st (stat fm) c true)
    (λ i s, i_data i = d ∧ going None d b e s) R.
Proof.
  intros Hc. apply t_call; [done|]. intros s Hs. unfold stat. apply wp_syscall_only.
  - intros Hf f. split; [by apply going_faults|]. by eapply going_calm.
  - intros f Hf. unfold lookup_name. apply wp_bind, wp_bind, wp_getS, wp_ret. simpl.
    rewrite (go_names _ _ _ _ _ _ _ _ Hs). simpl. rewrite lookup_insert_eq.
    apply wp_bind. unfold read_inode. apply wp_bind, wp_getS, wp_ret, wp_ret.
    split; [apply Hs|by apply going_faults].
Qed.

Lemma t_scan d b e q :
  triple (going None d b e)
    (if negb fast && env_set st "QHPSI" then qhpsiprog cfg st (Scanned false q []) else ok (Scanned false q []))
    (λ x s, scan_verdict d q = inr x ∧ going None d b e s) (λ c, scan_verdict d q = inl c).
Proof.
  unfold QueueSpec.scan_verdict. destruct fast; simpl; [by apply t_ret|].
  destruct (env_set st "QHPSI"); simpl; [|by apply t_ret].
  unfold qhpsiprog. apply t_get. intros x.
  apply (t_pre _ _ _ _ (λ s, messnum x = num ∧ going None d b e s)).
  2:{ intros s [Hs <-]. split; [apply Hs|done]. }
  apply t_assume. intros ->. eapply t_bind; [by apply t_stat|]. intros i. apply t_assume. intros ->.
  cbv zeta. case_decide as Hsize.
  { rewrite bool_decide_true by done. by apply t_ret. }
  rewrite bool_decide_false by done.
  eapply t_bind; [by apply t_check|]. intros ?. eapply t_bind; [by apply t_check|]. intros ?.
  destruct (scanner st) as [|rc]; [by apply t_exit|].
  case_decide.
  - simpl. destruct (env_number st "REJECTVIRUS" 0) as [|p|p]; [by apply t_ret| |by apply t_exit].
    destruct p as [p|p|]; try by apply t_exit. destruct p; try by apply t_exit. by apply t_ret.
  - case_decide; [by apply t_ret|by apply t_exit].
Qed.

(** ** Making the file of the message *)

(** Up to the first file, and with the file under its name in pid. *)
Record start (y : gmap nat bytes) (s : qqueue) : Prop := {
  sa_base : base s;
  sa_names : names (qw s) = names w0;
  sa_next : next_ino (qw s) = n0;
  sa_made : made_mess s = None ∧ made_intd s = None;
  sa_input : body s = body s0 ∧ envelope s = envelope s0 ∧ synced s = y
}.
Record with_pid (p : bytes) (y : gmap nat bytes) (s : qqueue) : Prop := {
  wp_base : base s;
  wp_names : names (qw s) = <[p := n0]> (names w0);
  wp_free : names w0 !! p = None;
  wp_next : next_ino (qw s) = S n0;
  wp_data : file_data (qw s) n0 = [];
  wp_made : made_mess s = None ∧ made_intd s = None;
  wp_input : body s = body s0 ∧ envelope s = envelope s0 ∧ synced s = y
}.

Lemma start_stable y : stable (start y).
Proof. split; [by intros s []|]. intros s r Hr []. split; try done. by apply base_signals. Qed.
Lemma with_pid_stable p y : stable (with_pid p y).
Proof. split; [by intros s []|]. intros s r Hr []. split; try done. by apply base_signals. Qed.
Lemma start_faults y s f :
  start y s → (faults (qw s) = [] → f = []) → start y (set_qw (set_faults f (qw s)) s).
Proof. intros [] Hf. split; try done. by apply base_faults. Qed.
Lemma with_pid_faults p y s f :
  with_pid p y s → (faults (qw s) = [] → f = []) → with_pid p y (set_qw (set_faults f (qw s)) s).
Proof. intros [] Hf. split; try done. by apply base_faults. Qed.

Lemma t_die_early {A} (P : qqueue → Prop) c (Q : A → qqueue → Prop) (R : Z → Prop) :
  c ≠ 0%Z → (∀ s, P s → base s ∧ (undisturbed → names (qw s) = names w0 ∧ R c)) →
  triple P (die cfg st c false) Q R.
Proof.
  intros Hz HP s Hs. unfold die. apply wp_bind, wp_ret. destruct (HP s Hs). by apply exit_gone.
Qed.

Lemma t_pid y seqs R :
  (undisturbed → ∃ r, seqs = 1%Z :: r) →
  triple (start y) (pid_loop cfg st (length (pidfmt st 1)) seqs)
    (λ x s, x.2 = n0 ∧ (∃ q, x.1 = pidfmt st q) ∧ with_pid x.1 y s) R.
Proof.
  induction seqs as [|q seqs IH]; intros Hu; cbn [pid_loop].
  { apply t_die_early; [done|]. intros s Hs. split; [apply Hs|]. intros U. by destruct (Hu U). }
  case_decide as Hlen.
  { apply t_die_early; [done|]. intros s Hs. split; [apply Hs|]. intros U.
    destruct (Hu U) as [r [= -> ->]]. lia. }
  apply (t_bind _ _ _ _ _ (λ x s, match x with
    | inl _ => start y s ∧ (undisturbed → False)
    | inr i => i = n0 ∧ with_pid (pidfmt st q) y s end)).
  - apply t_sys; [apply start_stable|]. intros s Hs. unfold open_excl. apply wp_syscall_only.
    { intros Hf f. split; [by apply start_faults|]. intros U.
      by destruct (Hf (proj1 (ba_calm _ _ _ _ (sa_base _ _ Hs) U))). }
    intros f Hf. unfold lookup_name. apply wp_bind, wp_bind, wp_getS, wp_ret. simpl.
    destruct (names (qw s) !! pidfmt st q) as [i|] eqn:E.
    { apply wp_ret. split; [by apply start_faults|]. intros U. destruct (Hu U) as [r [= -> _]].
      rewrite (sa_names _ _ Hs), (un_pid _ _ _ U) in E. done. }
    destruct Hs as [H1 H2 H3 H4 H5]. split; [done|].
    assert (Hfree : names w0 !! pidfmt st q = None) by (by rewrite <- H2).
    split; simpl; try done.
    + apply base_create; eauto.
    + by rewrite H2, H3.
    + by rewrite H3.
    + unfold file_data. simpl. by rewrite H3, lookup_insert_eq.
  - intros [x|i]; cbv beta iota.
    + apply (t_pre _ _ _ _ (λ s, (undisturbed → False) ∧ start y s)); [|naive_solver].
      apply t_assume. intros Hno. apply IH. intros U. by destruct (Hno U).
    + apply t_ret. intros s [-> Hs]. split_and!; [done|by eexists|done].
Qed.

Lemma pid_fm q : pidfmt st q ≠ fm.
Proof. done. Qed.

(** Between the two names of the file of the message. *)
Definition doomed (s : qqueue) : Prop := base s ∧ (undisturbed → False).
Lemma doomed_stable : stable doomed.
Proof. split; [by intros s []|]. intros s r Hr []. split; [by apply base_signals|done]. Qed.

Lemma t_doomed_unlink p R :
  names w0 !! p = None → triple doomed (qsys st (unlink p)) (λ _, doomed) R.
Proof.
  intros Hp. apply t_sys; [apply doomed_stable|]. intros s [Hb Hu]. unfold unlink. apply wp_syscall_only.
  - intros Hf f. split; [by apply base_faults|done].
  - intros f Hf. unfold lookup_name. apply wp_bind, wp_bind, wp_getS, wp_ret. simpl.
    destruct (names (qw s) !! p); (split; [|done]); [by apply base_unlink|by apply base_faults].
Qed.

Lemma t_doomed {A} c (Q : A → qqueue → Prop) R : c ≠ 0%Z → triple doomed (die cfg st c false) Q R.
Proof. intros Hc. apply t_die_early; [done|]. intros s [Hb Hu]. split; [done|]. intros U. by destruct (Hu U). Qed.

(** The file has both names. *)
Record linked (p : bytes) (y : gmap nat bytes) (s : qqueue) : Prop := {
  ln_base : base s;
  ln_names : names (qw s) = <[fm := n0]> (<[p := n0]> (names w0));
  ln_free : names w0 !! p = None;
  ln_free_m : names w0 !! fm = None;
  ln_next : next_ino (qw s) = S n0;
  ln_data : file_data (qw s) n0 = [];
  ln_made : made_mess s = None ∧ made_intd s = None;
  ln_num : messnum s = num;
  ln_input : body s = body s0 ∧ envelope s = envelope s0 ∧ synced s = y
}.
Lemma linked_stable p y : stable (linked p y).
Proof. split; [by intros s []|]. intros s r Hr []. split; try done. by apply base_signals. Qed.

Lemma t_link_mess q y R :
  triple (λ s, messnum s = num ∧ with_pid (pidfmt st q) y s) (qsys st (link (pidfmt st q) fm))
    (λ r s, match r with
            | inl _ => names w0 !! pidfmt st q = None ∧ doomed s
            | inr _ => linked (pidfmt st q) y s end) R.
Proof.
  apply t_sys.
  { split; [by intros s [_ []]|]. intros s r Hr [? ?]. split; [done|]. by apply with_pid_stable. }
  intros s [Hn Hs]. pose proof Hs as [H1 H2 H3 H4 H5 H6 H7].
  assert (Hcalm : undisturbed → faults (qw s) = []) by (intros U; apply (ba_calm _ _ _ _ H1 U)).
  unfold link. apply wp_syscall_only.
  { intros Hf f. split; [done|]. split; [by apply base_faults|]. intros U. by destruct (Hf (Hcalm U)). }
  intros f Hf. unfold lookup_name. apply wp_bind, wp_bind, wp_getS, wp_ret. simpl.
  rewrite H2, lookup_insert_eq. apply wp_bind, wp_bind, wp_getS, wp_ret. simpl. rewrite H2.
  rewrite lookup_insert_ne by apply pid_fm.
  destruct (names w0 !! fm) as [i|] eqn:E; apply wp_ret.
  - split; [done|]. split; [by apply base_faults|]. intros U. by rewrite (un_mess _ _ _ U) in E.
  - split; simpl; try done; [|by rewrite H2].
    apply base_link; auto.
Qed.

Lemma t_make_mess y R :
  triple (start y) (make_mess cfg st)
    (λ i s, i = n0 ∧ going None [] (body s0, y) (envelope s0) s) R.
Proof.
  unfold make_mess. eapply t_bind; [apply t_pid; eauto|].
  intros [p i]. simpl. apply t_assume. intros ->. apply t_assume. intros [q ->].
  apply (t_bind _ _ _ _ _ (λ _, with_pid (pidfmt st q) y)).
  { unfold qcall. apply (t_bind _ _ _ _ _ (λ r s, match r with
      | inl _ => doomed s | inr _ => with_pid (pidfmt st q) y s end)).
    - apply t_sys; [apply with_pid_stable|]. intros s Hs. unfold fstat. apply wp_syscall_only.
      + intros Hf f. split; [by apply base_faults; [apply Hs|]|]. intros U.
        by destruct (Hf (proj1 (ba_calm _ _ _ _ (wp_base _ _ _ Hs) U))).
      + intros f Hf. by apply with_pid_faults.
    - intros [e|i]; [by apply t_doomed|by apply t_ret]. }
  intros ?. apply (t_bind _ _ _ _ _ (λ _ s, messnum s = num ∧ with_pid (pidfmt st q) y s)).
  { apply t_set. intros s [[] H2 H3 H4 H5 H6 H7]. split; [done|]. by split. }
  intros ?. eapply t_bind; [apply t_link_mess|]. intros [x|x]; cbv beta iota.
  { apply t_assume. intros Hfree. eapply t_bind; [by apply t_doomed_unlink|]. intros ?. by apply t_doomed. }
  apply (t_bind _ _ _ _ _ (λ r s, match r with
    | inl _ => names w0 !! fm = None ∧ doomed s
    | inr _ => ∀ s', s' = set_made_mess (Some n0) s → going None [] (body s0, y) (envelope s0) s' end)).
  - apply t_sys; [apply linked_stable|]. intros s Hs.
    pose proof Hs as [H1 H2 H3 H4 H5 H6 [H7 H7'] H8 (H9 & H10 & H11)].
    unfold unlink. apply wp_syscall_only.
    { intros Hf f. split; [done|]. split; [by apply base_faults|]. intros U.
      by destruct (Hf (proj1 (ba_calm _ _ _ _ H1 U))). }
    intros f Hf. unfold lookup_name. apply wp_bind, wp_bind, wp_getS, wp_ret. simpl.
    rewrite H2, lookup_insert_ne, lookup_insert_eq by (by apply not_eq_sym, pid_fm).
    apply wp_bind, wp_modify, wp_ret. intros s' ->.
    assert (Hd : delete (pidfmt st q) (<[fm:=n0]> (<[pidfmt st q:=n0]> (names w0))) = <[fm:=n0]> (names w0)).
    { rewrite insert_insert_ne by (by apply not_eq_sym, pid_fm). apply delete_insert_id.
      rewrite lookup_insert_ne; [done|]. by apply not_eq_sym, pid_fm. }
    destruct (base_unlink _ _ _ s f (pidfmt st q) H1 Hf H3) as [B1 B2 B3 B4 B5]. simpl in *.
    rewrite H2, Hd in *.
    split; simpl; try done; by rewrite H9, H11.
  - intros [x'|x']; cbv beta iota.
    + apply t_assume. intros Hm. eapply t_bind; [by apply t_doomed_unlink|]. intros ?. by apply t_doomed.
    + eapply (t_bind _ _ _ _ _ (λ _, going None [] (body s0, y) (envelope s0)));
        [|intros ?; by apply t_ret].
      apply t_set. intros s Hs. by apply Hs.
Qed.

(** ** The program *)

Context (use_fsync use_fdatasync : bool).

#[local] Abbreviation configured := (QueueSpec.configured st scan_int).
#[local] Abbreviation verdict := (QueueSpec.verdict st scan_int scan_uint case_equal mess822_ok beyond).
#[local] Abbreviation queue_main :=
  (QmailQueue.queue_main cfg st use_fsync use_fdatasync scan_int scan_uint case_equal mess822_ok beyond).

Lemma t_control y v f flag :
  triple (start y) (if fast then ok [] else read_control cfg st v f flag)
    (λ x s, configured v f flag = Some x ∧ start y s)
    (λ c, configured v f flag = None ∧ c = QQ_CONFIG_ERR).
Proof.
  unfold QueueSpec.configured, read_control. destruct fast; [by apply t_ret|].
  assert (Hread : ∀ f : bytes, triple (start y)
    (match control_readfile (control st f) with ((-1)%Z, _) => die cfg st QQ_CONFIG_ERR false | (_, s) => ok s end)
    (λ x s, (match control_readfile (control st f) with ((-1)%Z, _) => None | (_, s) => Some s end) = Some x ∧
            start y s)
    (λ c, (match control_readfile (control st f) with ((-1)%Z, _) => None | (_, s) => Some s end) = None ∧
          c = QQ_CONFIG_ERR)).
  { intros g. destruct (control st g); simpl; try by apply t_ret.
    apply t_die_early; [done|]. intros s Hs. split; [apply Hs|]. intros _. by split; [apply Hs|]. }
  destruct (env_get st (lit v)) as [[|c p]|]; [by apply t_ret| |apply Hread].
  destruct flag; [apply Hread|by apply t_ret].
Qed.

Lemma t_intd d b e R :
  triple (going None d b e) (qcall cfg st (open_excl fi) QQ_INTD_FILE true)
    (λ i s, i = S n0 ∧ going (Some []) d b e (set_made_intd (Some i) s)) R.
Proof.
  apply t_call; [done|]. intros s Hs. unfold open_excl. apply wp_syscall_only.
  { intros Hf f. split; [by apply going_faults|]. by eapply going_calm. }
  intros f Hf. unfold lookup_name. apply wp_bind, wp_bind, wp_getS, wp_ret. simpl.
  destruct (names (qw s) !! fi) as [i|] eqn:E.
  { apply wp_ret. split; [by apply going_faults|]. intros U.
    rewrite (go_names _ _ _ _ _ _ _ _ Hs) in E. simpl in E.
    rewrite lookup_insert_ne, (un_intd _ _ _ U) in E by apply fm_fi. done. }
  destruct Hs as [H1 H2 H3 H4 H5 H6 H7 H8 H9 H10 H11 H12]. unfold wp. simpl. rewrite H5.
  split; [done|]. pose proof (base_free _ _ _ _ _ H1 E) as Hfree.
  destruct (base_create _ _ _ s f fi (Inode [] (clock (qw s)) (clock (qw s))) H1 Hf Hfree
    ltac:(by right; left)) as [B1 B2 B3 B4 B5]. rewrite H5 in *.
  split; simpl; try done.
  - by rewrite H2.
  - unfold file_data. simpl. rewrite lookup_insert_ne by lia. exact H6.
  - intros d' [= <-]. unfold file_data. simpl. by rewrite lookup_insert_eq.
Qed.

Lemma t_fsync o d b y e i R :
  triple (going (Some o) d (b, y) e) (fsync cfg st i)
    (λ _ s, ∃ x, going (Some o) d (b, <[i := x]> y) e s ∧ x = file_data (qw s) i) R.
Proof.
  unfold fsync. eapply t_bind; [by apply t_check|]. intros ?. apply t_set. intros s Hs.
  exists (file_data (qw s) i). split; [|done].
  destruct Hs as [[] H2 H3 H4 H5 H6 H7 H8 H9 H10 H11 H12]. split; try done.
  injection H8 as E1 E2. simpl. by rewrite E1, E2.
Qed.

(** The message is in the queue. *)
Record queued (d o : bytes) (s : qqueue) : Prop := {
  qd_names : names (qw s) = <[ft := S n0]> (<[fi := S n0]> (<[fm := n0]> (names w0)));
  qd_free : names w0 !! fm = None ∧ names w0 !! fi = None ∧ names w0 !! ft = None;
  qd_mess : file_data (qw s) n0 = d;
  qd_envelope : file_data (qw s) (S n0) = o;
  qd_inodes i : i < n0 → inodes (qw s) !! i = inodes w0 !! i;
  qd_synced : use_fsync || use_fdatasync = true →
    synced s !! n0 = Some d ∧ synced s !! S n0 = Some o;
  qd_calm : undisturbed → faults (qw s) = [] ∧ signals s = [];
  qd_next : next_ino (qw s) = S (S n0)
}.

Lemma t_sync o d b y e R :
  triple (going (Some o) d (b, y) e)
    (if use_fsync || use_fdatasync then fsync cfg st n0;;? fsync cfg st (S n0) else ok tt)
    (λ _ s, ∃ y, going (Some o) d (b, y) e s ∧
      (use_fsync || use_fdatasync = true → y !! n0 = Some d ∧ y !! S n0 = Some o)) R.
Proof.
  destruct (use_fsync || use_fdatasync) eqn:E; [|apply t_ret; intros s Hs; by exists y].
  eapply t_bind; [apply t_fsync|]. intros ?. apply t_ex. intros x.
  apply (t_pre _ _ _ _ (λ s, x = d ∧ going (Some o) d (b, <[n0:=x]> y) e s)).
  { apply t_assume. intros ->. eapply t_last; [apply t_fsync|]. intros ? s (z & Hs & ->).
    exists (<[S n0 := file_data (qw s) (S n0)]> (<[n0:=d]> y)). split; [done|]. intros _.
    rewrite lookup_insert_eq, lookup_insert_ne, lookup_insert_eq by lia.
    split; [done|]. by rewrite (go_intd _ _ _ _ _ _ _ _ Hs o). }
  intros s [Hs ->]. split; [apply Hs|done].
Qed.

(** *** Once the message is in todo *)

Definition trigger : bytes := lit "lock/trigger".

(** Nothing takes the message back; when nothing disturbs, no signal ends the
    process, and the trigger, if there is one, is pulled. *)
Definition late {A} (P : A → qqueue → Prop) (r : Z + A) (s : qqueue) : Prop :=
  match r with inl e => e ≠ 0%Z ∧ (undisturbed → False) | inr a => P a s end.

Lemma queued_world d o s w :
  queued d o s → files w = files (qw s) → (faults (qw s) = [] → faults w = []) →
  queued d o (set_qw w s).
Proof.
  intros [H1 H2 H3 H4 H5 H6 H7 H8] [= E1 E2 E3] Hf. unfold file_data in *.
  split; simpl; unfold file_data; rewrite ?E1, ?E2, ?E3; try done. intros U. destruct (H7 U). auto.
Qed.
Lemma queued_signals d o s r :
  queued d o s → (signals s = [] → r = []) → queued d o (set_signals r s).
Proof. intros [H1 H2 H3 H4 H5 H6 H7 H8] Hr. split; try done. intros U. destruct (H7 U). simpl. auto. Qed.

Lemma late_exit {A} d o c s (P : A → qqueue → Prop) :
  c ≠ 0%Z → queued d o s → (undisturbed → False) →
  wp (exit_now st c) (λ r s', queued d o s' ∧ late P r s') s.
Proof.
  intros Hc Hs Hu. unfold exit_now. destruct (env_set _ _); [|by apply wp_ret].
  apply wp_bind. unfold wp, wsys. pose proof (wp_fault_only (λ _ w, files w = files (qw s) ∧
    (faults (qw s) = [] → faults w = [])) (qw s)) as H. unfold wp in H.
  destruct (fault (qw s)) as [b w]. simpl in *. destruct H as [H1 H2]; [done..|].
  split; [by apply queued_world|]. split; [by destruct b|done].
Qed.

Lemma late_sys {A} d o (m : ST world A) s (P : A → qqueue → Prop) :
  queued d o s →
  (∀ s, queued d o s → wp m (λ a w, files w = files (qw s) ∧ (faults (qw s) = [] → faults w = []) ∧
     P a (set_qw w s)) (qw s)) →
  wp (qsys st m) (λ r s', queued d o s' ∧ late P r s') s.
Proof.
  intros Hs Hm. unfold qsys. apply wp_bind.
  assert (Hi : wp (interrupt st) (λ r s', queued d o s' ∧ late (λ _ _, True) r s') s).
  { unfold interrupt. apply wp_bind, wp_getS. destruct (signals s) as [|[g|] r] eqn:E; [by apply wp_ret| |].
    - apply wp_bind, wp_modify.
      assert (Hno : undisturbed → False) by (intros U; destruct (qd_calm _ _ _ Hs U); congruence).
      assert (Hq : queued d o (set_signals r s)) by (apply queued_signals; [done|congruence]).
      by destruct g; apply late_exit.
    - apply wp_bind, wp_modify, wp_ret. split; [|done]. apply queued_signals; [done|congruence]. }
  apply (wp_mono _ _ _ _ Hi). intros [e|u] s' [Hq Hl]; [by apply wp_ret|].
  apply wp_bind. specialize (Hm s' Hq). unfold wp, wsys in *. destruct (m (qw s')) as [a w]. simpl in *.
  destruct Hm as (H1 & H2 & H3). split; [by apply queued_world|done].
Qed.

Lemma late_trigger d o s :
  queued d o s →
  wp (triggerpull st) (λ r s', queued d o s' ∧
    late (λ _ s', undisturbed → is_Some (names w0 !! trigger) → pulled s' = true) r s') s.
Proof.
  intros Hs. unfold triggerpull. apply wp_bind. eapply wp_mono.
  { apply (late_sys d o (open_write (lit "lock/trigger")) s
      (λ r _, undisturbed → is_Some (names w0 !! trigger) → ∃ i, r = inr i) Hs).
    intros s1 Hs1. unfold open_write. apply wp_syscall_only.
    - intros Hf f. split_and!; [done..|]. intros U. by destruct (Hf (proj1 (qd_calm _ _ _ Hs1 U))).
    - intros f Hf. unfold lookup_name. apply wp_bind, wp_getS, wp_ret. split_and!; [done..|].
      intros _ [i Hi]. exists i. simpl. rewrite (qd_names _ _ _ Hs1).
      change (lit "lock/trigger") with trigger. rewrite !lookup_insert_ne by done. by rewrite Hi. }
  intros [e|[x|i]] s1 [Hq Hl]; [by apply wp_ret|..].
  { apply wp_ret. split; [done|]. intros U Ht. by destruct (Hl U Ht). }
  apply wp_bind. eapply wp_mono.
  { apply (late_sys d o fault s1 (λ b _, undisturbed → b = false) Hq).
    intros s2 Hs2. apply wp_fault_only; [|done].
    intros Hf f. split_and!; [done..|]. intros U. by destruct (Hf (proj1 (qd_calm _ _ _ Hs2 U))). }
  intros [e|b] s2 [Hq2 Hl2]; [by apply wp_ret|]. destruct b.
  - apply wp_ret. split; [done|]. intros U. by specialize (Hl2 U).
  - apply wp_bind, wp_modify, wp_ret. split; [|done]. by destruct Hq2.
Qed.

(** *** The link, and all of it *)

Lemma publish o d b y e s (R : Z → Prop) :
  going (Some o) d (b, y) e s →
  (use_fsync || use_fdatasync = true → y !! n0 = Some d ∧ y !! S n0 = Some o) →
  wp (qcall cfg st (link fi ft) QQ_LINK_TODO_INTD true;;? triggerpull st)
    (λ r s', match r with inl e => gone cfg st s0 R e s' | inr _ => False end ∨
             queued d o s' ∧
             late (λ _ s', undisturbed → is_Some (names w0 !! trigger) → pulled s' = true) r s') s.
Proof.
  intros Hs Hy. apply wp_bind. eapply wp_mono.
  { apply (t_call cfg st s0 (Some o) d (b, y) e (link fi ft) QQ_LINK_TODO_INTD (λ _, queued d o) R);
      [done| |exact Hs]. clear s Hs. intros s Hs. unfold link. apply wp_syscall_only.
    { intros Hf f. split; [by apply going_faults|]. by eapply going_calm. }
    intros f Hf. unfold lookup_name. apply wp_bind, wp_bind, wp_getS, wp_ret. simpl.
    rewrite (go_names _ _ _ _ _ _ _ _ Hs). simpl. rewrite lookup_insert_eq.
    apply wp_bind, wp_bind, wp_getS, wp_ret. simpl. rewrite (go_names _ _ _ _ _ _ _ _ Hs). simpl.
    rewrite !lookup_insert_ne by done. destruct (names w0 !! ft) as [i|] eqn:E; apply wp_ret.
    { split; [by apply going_faults|]. intros U. by rewrite (un_todo _ _ _ U) in E. }
    destruct Hs as [[B1 B2 B3 B4 B5] H2 H3 H4 H5 H6 H7 H8 H9 H10 H11 H12].
    injection H8 as H8 H8'. split; simpl; try done.
    - by rewrite H2.
    - split_and!; [done|by apply H4; eexists|done].
    - by apply (H7 o).
    - by rewrite H8'.
    - intros U. destruct (B1 U). auto. }
  intros [e'|u] s' Hs'; [by apply wp_ret; left|].
  eapply wp_mono; [by apply late_trigger|]. intros r s2 H2. by right.
Qed.

(** How the program ends: it is gone for the reason of the verdict, or the message
    is in the queue, or it is to vanish. *)
Definition ending (r : Z + unit) (s : qqueue) : Prop :=
  match r with inl e => gone cfg st s0 (λ c, verdict s0 = inl c) e s | inr _ => False end ∨
  (∃ d o, verdict s0 = inr (Some (d, o)) ∧ queued d o s ∧
     late (λ _ s, undisturbed → is_Some (names w0 !! trigger) → pulled s = true) r s) ∨
  (verdict s0 = inr None ∧ r = inr tt ∧ leaving cfg st s0 (names w0) s).

(** A step before the end. *)
Lemma main_step {A} (P : qqueue → Prop) (m : QA A) Q (R : Z → Prop) (k : A → QA unit) s :
  P s → triple P m Q R → (∀ c, R c → verdict s0 = inl c) →
  (∀ a s, Q a s → wp (k a) ending s) → wp (qbind m k) ending s.
Proof.
  intros Hs Hm HR Hk. apply wp_bind. apply (wp_mono _ _ _ _ (Hm s Hs)).
  intros [e|a] s' H; [|by apply Hk]. apply wp_ret. left. by eapply gone_mono.
Qed.

Lemma t_chdir y R :
  triple (start y) chdir (λ b s, (undisturbed → b = false) ∧ start y s) R.
Proof.
  intros s Hs. unfold chdir. apply wp_bind. unfold wp, wsys.
  pose proof (wp_fault_only (λ b w, (undisturbed → b = false) ∧ start y (set_qw w s)) (qw s)) as H.
  unfold wp in H. destruct (fault (qw s)) as [bad w]. apply H.
  - intros Hf f. split; [|by apply start_faults]. intros U.
    by destruct (Hf (proj1 (ba_calm _ _ _ _ (sa_base _ _ Hs) U))).
  - intros f Hf. split; [done|by apply start_faults].
Qed.

Lemma main_ending s : start (synced s0) s → wp queue_main ending s.
Proof.
  intros Hs. unfold QmailQueue.queue_main. fold (QueueSpec.fast st scan_int).
  assert (Hnone : ∀ c, (configured "EXTRAQUEUE" "extraqueue" false = None ∨
    configured "QUARANTINE" "quarantine" false = None ∨
    configured "REMOVEHEADERS" "removeheaders" true = None ∨
    configured "ENVHEADERS" "envheaders" true = None ∨
    configured "LOGHEADERS" "logheaders" true = None) ∧ c = QQ_CONFIG_ERR → verdict s0 = inl c).
  { intros c [H ->]. unfold QueueSpec.verdict. by repeat case_match; naive_solver. }
  eapply main_step; [exact Hs|apply t_control|naive_solver|]. clear s Hs.
  intros extraqueue s [E1 Hs]. eapply main_step; [exact Hs|apply t_control|naive_solver|]. clear s Hs.
  intros quarantine s [E2 Hs]. eapply main_step; [exact Hs|apply t_control|naive_solver|]. clear s Hs.
  intros excl s [E3 Hs]. eapply main_step; [exact Hs|apply t_control|naive_solver|]. clear s Hs.
  intros incl s [E4 Hs]. eapply main_step; [exact Hs|apply t_control|naive_solver|]. clear s Hs Hnone.
  intros logh s [E5 Hs].
  eapply (main_step _ _ _ (λ _, False)); [exact Hs|apply t_chdir|done|]. clear s Hs.
  intros bad s [Hbad Hs]. destruct bad.
  { assert (Hd : triple (start (synced s0)) (die (A := unit) cfg st QQ_CHDIR false) (λ _ _, False)
      (λ c, verdict s0 = inl c)).
    { apply t_die_early; [done|]. intros s' Hs'. split; [apply Hs'|]. intros U. by specialize (Hbad U). }
    apply (wp_mono _ _ _ _ (Hd s Hs)). intros [e|u] s' H; [by left|done]. }
  eapply (main_step _ _ _ (λ _, False)); [exact Hs|apply t_make_mess|done|]. clear s Hs Hbad.
  intros i s [-> Hs].
  eapply (main_step _ _ _ (λ _, False)); [exact Hs|apply t_message|done|]. clear s Hs.
  intros envheaders s [E6 Hs].
  set (l := Lists excl incl logh) in *.
  eapply main_step; [exact Hs|apply t_scan| |]; clear s Hs.
  { intros c Hc. unfold QueueSpec.verdict. rewrite E1, E2, E3, E4, E5. fold l.
    destruct (message_text l _) as [t ev]. simpl in *. by rewrite Hc. }
  intros x s [E7 Hs].
  set (t := (message_text l (mjoin (body s0))).1) in *.
  assert (HV : verdict s0 = match verdict_envelope st scan_int extraqueue envheaders x (envelope s0) with
    | inl c => inl c | inr None => inr None | inr (Some e) => inr (Some (message t, e)) end).
  { unfold QueueSpec.verdict. rewrite E1, E2, E3, E4, E5. fold l.
    unfold t in *. destruct (message_text l _) as [t' ev]. simpl in *. by rewrite E7, E6. }
  clear E1 E2 E3 E4 E5 E6 E7. revert HV Hs. generalize (message t). clear t l. intros d HV Hs.
  apply wp_bind, wp_bind, wp_getS, wp_ret. rewrite (go_num _ _ _ _ _ _ _ _ Hs).
  eapply (main_step _ _ _ (λ _, False)); [exact Hs|apply t_intd|done|]. clear s Hs.
  intros i s [-> Hs]. apply wp_bind, wp_bind, wp_modify, wp_ret.
  eapply main_step; [exact Hs|apply t_envelope| |]; clear s Hs.
  { intros c Hc. by rewrite HV, Hc. }
  intros drop s [r Hs]. destruct (verdict_envelope _ _ _ _ _ _) as [|[o|]]; [done|..];
    destruct Hs as [-> Hs].
  - eapply (main_step _ _ _ (λ _, False)); [exact Hs|apply t_sync|done|]. clear s Hs.
    intros ? s (y & Hs & Hy).
    apply (wp_mono _ _ _ _ (publish _ _ _ _ _ _ (λ c, verdict s0 = inl c) Hs Hy)).
    intros r' s' [H|[Hq Hl]]; [by left|right; left; by exists d, o].
  - apply wp_ret. right. right. done.
Qed.

(** ** What the program promises *)

#[local] Abbreviation qmail_queue :=
  (QmailQueue.qmail_queue cfg st use_fsync use_fdatasync scan_int scan_uint case_equal mess822_ok beyond).

(** The process has made no file yet. *)
Definition fresh : Prop := made_mess s0 = None ∧ made_intd s0 = None.

(** What was in the queue stays: every name keeps its file, every file its
    contents. *)
Definition nothing_harmed (s : qqueue) : Prop :=
  (∀ p i, names w0 !! p = Some i → names (qw s) !! p = Some i) ∧
  (∀ i, i < next_ino w0 → inodes (qw s) !! i = inodes w0 !! i).

Lemma fresh_start : fresh → start (synced s0) s0.
Proof. intros [? ?]. split; try done. split; try done; [by intros []|auto]. Qed.

Lemma gone_harmless R e s : gone cfg st s0 R e s →
  nothing_harmed s ∧ names (qw s) !! ft = names w0 !! ft ∧ e ≠ 0%Z.
Proof.
  intros ([_ _ H1 H2 H3] & Hz & _). split; [by split|split; [|done]].
  destruct (names w0 !! ft) as [i|] eqn:E; [auto|].
  destruct (names (qw s) !! ft) as [i|] eqn:E'; [|done].
  destruct (H3 _ _ E') as [?|(_ & [?|[?|[q ?]]])]; congruence || done.
Qed.

Lemma queued_harmless d o s : queued d o s → nothing_harmed s.
Proof.
  intros [H1 (F1 & F2 & F3) _ _ H _ _ _]. split; [|done]. intros p i Hp. rewrite H1.
  rewrite !lookup_insert_ne; [done|intros <-; congruence..].
Qed.

(** The exit code 0. *)
Lemma exit_zero : fresh → val qmail_queue s0 = 0%Z →
  verdict s0 = inr None ∨ ∃ d o, verdict s0 = inr (Some (d, o)) ∧ queued d o (run qmail_queue s0).
Proof.
  intros Hf%fresh_start%main_ending. unfold wp, val, run, QmailQueue.qmail_queue, mbind, ST_bind in *.
  destruct (queue_main s0) as [r s]. simpl in *. destruct Hf as [H|[(d & o & Hv & Hq & Hl)|(Hv & -> & H)]].
  - destruct r as [e|]; [|done]. by destruct (gone_harmless _ _ _ H) as (? & ? & ?).
  - intros _. right. by exists d, o.
  - by left.
Qed.

(** C21. qmail-queue puts whole messages into the queue, and harms none.  Whatever
    calls fail and whenever a signal ends the process, the files of other messages
    are as before, and either todo has no new entry, or the message is in the
    queue: the file in mess is the Received field, the origin and the text, that in
    todo the envelope of the specification, and with [use_fsync] or
    [use_fdatasync] both are on the disk.  The exit code 0 means that the message
    is in the queue, unless it was to vanish. *)
Theorem message_accepted :
  fresh →
  let '(r, s) := qmail_queue s0 in
  nothing_harmed s ∧
  (names (qw s) !! ft = names w0 !! ft ∨
   ∃ d o, verdict s0 = inr (Some (d, o)) ∧ queued d o s) ∧
  (r = 0%Z → verdict s0 = inr None ∨ ∃ d o, verdict s0 = inr (Some (d, o)) ∧ queued d o s).
Proof.
  intros Hf%fresh_start%main_ending. unfold wp, QmailQueue.qmail_queue, mbind, ST_bind in *.
  destruct (queue_main s0) as [r s]. simpl in *. destruct Hf as [H|[(d & o & Hv & Hq & Hl)|(Hv & -> & H)]].
  - destruct r as [e|]; [|done]. destruct (gone_harmless _ _ _ H) as (? & ? & ?). split_and!; [done|by left|done].
  - split; [by eapply queued_harmless|]. split; [right; by exists d, o|]. right. by exists d, o.
  - destruct H as ([_ _ H1 H2 H3] & _). split; [by split|]. split; [left|by left].
    destruct (names w0 !! ft) as [i|] eqn:E; [auto|].
    destruct (names (qw s) !! ft) as [i|] eqn:E'; [|done].
    destruct (H3 _ _ E') as [?|(_ & [?|[?|[q ?]]])]; congruence || done.
Qed.

Lemma verdict_run :
  fresh → undisturbed →
  let '(r, s) := qmail_queue s0 in
  match verdict s0 with
  | inl c => r = exit_code st c ∧ names (qw s) = names w0
  | inr None => r = 0%Z ∧ names (qw s) = names w0
  | inr (Some (d, o)) =>
    r = 0%Z ∧ queued d o s ∧ (is_Some (names w0 !! trigger) → pulled s = true)
  end.
Proof.
  intros Hf%fresh_start%main_ending U. unfold wp, QmailQueue.qmail_queue, mbind, ST_bind in *.
  destruct (queue_main s0) as [r s]. simpl in *. destruct Hf as [H|[(d & o & -> & Hq & Hl)|(-> & -> & H)]].
  - destruct r as [e|]; [|done]. destruct H as (_ & _ & H). destruct (H U) as (Hn & c & -> & ->). done.
  - destruct r as [e|u]; simpl in Hl; [by destruct Hl as [_ Hno]; destruct (Hno U)|]. auto.
  - split; [done|]. by apply H.
Qed.

Lemma main_accepts d o :
  fresh → undisturbed → verdict s0 = inr (Some (d, o)) → queued d o (run qmail_queue s0).
Proof.
  intros Hf Hu Hv. pose proof (verdict_run Hf Hu) as H. rewrite Hv in H.
  unfold run. destruct (qmail_queue s0). apply H.
Qed.
End QueueTheorems.
