(* ===== verification/QueueHeaders.v ===== *)
(** * What the manual promises of qmail-queue

    A message as a header of fields and a body, and from that a specification of the
    files that qmail-queue makes which shares none of its loops: the fields that are
    dropped, passed on and logged, the Received field, the recipients and the record for
    the delivery.  The loops of [QmailQueue] and the verdict of [QueueSpec] come to the
    same. *)

From S2P Require Import Prelude LibQmail Filesys Control Fmtqfn SendState QmailQueue QueueSpec.
From S2P Require Import QueueSteps QueueTheorems.

#[local] Arguments Nat.sub : simpl never.

(** ** Texts *)

(** The strings of a list, each before a zero byte; the last may have none. *)
Fixpoint pieces (s : bytes) : list bytes :=
  match s with
  | [] => []
  | c :: r => if decide (c = 0%Z) then [] :: pieces r
              else match pieces r with p :: ps => (c :: p) :: ps | [] => [[c]] end
  end.

(** The lines of a text, each with its line feed; the last may have none. *)
Fixpoint text_lines (s : bytes) : list bytes :=
  match s with
  | [] => []
  | c :: r => if decide (c = c_lf) then [c_lf] :: text_lines r
              else match text_lines r with l :: ls => (c :: l) :: ls | [] => [[c]] end
  end.

(** A line that continues a field. *)
Definition lwsp (l : bytes) : bool := bool_decide (head l = Some c_space ∨ head l = Some 9%Z).

(** The fields: each line with the lines after it that continue it. *)
Fixpoint fields_of (ls : list bytes) : list (list bytes) :=
  match ls with
  | [] => []
  | l :: ls =>
    match fields_of ls with
    | (m :: g) :: gs => if lwsp m then (l :: m :: g) :: gs else [l] :: (m :: g) :: gs
    | gs => [l] :: gs
    end
  end.
Definition text_of (fs : list (list bytes)) : bytes := mjoin (map mjoin fs).

Section texts.
Implicit Types (s l : bytes) (ls : list bytes).

Lemma text_lines_nil s : text_lines s = [] → s = [].
Proof. destruct s as [|c s]; [done|]. simpl. case_decide; [done|]. by destruct (text_lines s). Qed.

(** One line, as the program reads it. *)
Lemma text_lines_step s : s ≠ [] →
  let '(l, found) := line_by c_lf s in
  text_lines s = l :: text_lines (drop (length l) s) ∧ l ≠ [] ∧ s = l ++ drop (length l) s ∧
  (found = false → drop (length l) s = []).
Proof.
  induction s as [|c s IH]; [done|]. intros _. simpl. case_decide as Hc.
  { subst. simpl. by rewrite drop_0. }
  destruct (decide (s = [])) as [->|Hs]; [done|]. specialize (IH Hs).
  destruct (line_by c_lf s) as [l m]. destruct IH as (-> & _ & E & Hm). simpl. rewrite <- E. done.
Qed.
Lemma line_by_empty s l : line_by c_lf s = (l, false) → l = [] → s = [].
Proof.
  destruct s as [|c s]; [done|]. simpl. case_decide; [done|]. destruct (line_by c_lf s). by intros [= <- _].
Qed.
Lemma mjoin_text_lines s : mjoin (text_lines s) = s.
Proof.
  induction s as [|c s IH]; [done|]. simpl. case_decide as Hc; [by subst; simpl; rewrite IH|].
  destruct (text_lines s) as [|l ls] eqn:E; simpl in *; [by rewrite (text_lines_nil s)|]. by rewrite IH.
Qed.
Lemma fields_join ls : concat (fields_of ls) = ls.
Proof.
  induction ls as [|l ls IH]; [done|]. simpl. destruct (fields_of ls) as [|[|m g] gs]; simpl in *.
  - by rewrite <- IH.
  - by rewrite <- IH.
  - destruct (lwsp m); simpl; by rewrite <- IH.
Qed.
End texts.

Fixpoint leading (p : bytes → bool) (ls : list bytes) : list bytes :=
  match ls with l :: r => if p l then l :: leading p r else [] | [] => [] end.
Fixpoint following (p : bytes → bool) (ls : list bytes) : list bytes :=
  match ls with l :: r => if p l then following p r else ls | [] => [] end.

(** The lines that a loop picks which decides at the first line of a field; [cur] is
    what it has decided on the lines before. *)
Fixpoint sieve (b : bool) (p : bytes → bool) (cur : bool) (ls : list bytes) : list bytes :=
  match ls with
  | [] => []
  | l :: ls =>
    let cur := if lwsp l then cur else p l in
    (if decide (cur = b) then [l] else []) ++ sieve b p cur ls
  end.
(** A field is listed if its first line is. *)
Definition field_is (p : bytes → bool) (cur : bool) (f : list bytes) : bool :=
  match f with l :: _ => if lwsp l then cur else p l | [] => false end.

Lemma fields_tail ls : match fields_of ls with
  | f :: gs => f ≠ [] ∧ Forall (λ g, ∃ l r, g = l :: r ∧ lwsp l = false) gs
  | [] => True end.
Proof.
  induction ls as [|l ls IH]; [done|]. simpl. destruct (fields_of ls) as [|[|m g] gs]; [done|by destruct IH|].
  destruct (lwsp m) eqn:E; (split; [done|]); [apply IH|]. constructor; [by exists m, g|apply IH].
Qed.

Lemma sieve_fields b p ls : ∀ cur,
  sieve b p cur ls = concat (filter (λ f, field_is p cur f = b) (fields_of ls)).
Proof.
  induction ls as [|l ls IH]; intros cur; [done|]. cbn [sieve fields_of]. rewrite IH.
  pose proof (fields_tail ls) as Ht. set (cur' := if lwsp l then cur else p l).
  assert (Hc : ∀ r, field_is p cur (l :: r) = cur') by done.
  destruct (fields_of ls) as [|[|m g] gs]; [|by destruct Ht|].
  { rewrite filter_cons, Hc. by destruct (decide (cur' = b)). }
  destruct Ht as [_ Hgs].
  assert (Hg : filter (λ f, field_is p cur' f = b) gs = filter (λ f, field_is p cur f = b) gs).
  { apply filter_iff_ext. eapply Forall_impl; [exact Hgs|]. intros f (x & r & -> & Hx). simpl. by rewrite Hx. }
  destruct (lwsp m) eqn:Em; rewrite !filter_cons, Hc, Hg.
  - assert (field_is p cur' (m :: g) = cur') as -> by (simpl; by rewrite Em). by destruct (decide (cur' = b)).
  - assert (field_is p cur' (m :: g) = p m ∧ field_is p cur (m :: g) = p m) as [-> ->] by (simpl; by rewrite Em).
    destruct (decide (cur' = b)), (decide (p m = b)); done.
Qed.
Lemma sieve_join b p ls : mjoin (sieve b p false ls) = text_of (filter (λ f, field_is p false f = b) (fields_of ls)).
Proof.
  rewrite sieve_fields. unfold text_of. induction (filter _ _) as [|f fs IH]; [done|]. simpl.
  by rewrite join_app, IH.
Qed.

Section headers.
Context {L : LibQmail} {LL : LibQmailLaws L}.
Context (scan_uint : bytes → Z) (case_equal : bytes → bytes → bool).
Context (mess822_ok : bytes → bool) (beyond : bytes → bytes).

#[local] Abbreviation has_field := (QmailQueue.has_field case_equal beyond).
#[local] Abbreviation listed := (QmailQueue.listed case_equal beyond).
#[local] Abbreviation incl_loop := (QmailQueue.incl_loop scan_uint case_equal beyond).
#[local] Abbreviation header_line := (QmailQueue.header_line scan_uint case_equal beyond).
#[local] Abbreviation kept_lines := (QueueSpec.kept_lines scan_uint case_equal mess822_ok beyond).
#[local] Abbreviation message_text := (QueueSpec.message_text scan_uint case_equal mess822_ok beyond).

(** ** The header and its fields *)

(** The fields of the header of a text, and the lines behind it. *)
Definition header_fields (s : bytes) : list (list bytes) := fields_of (leading mess822_ok (text_lines s)).
Definition body_lines (s : bytes) : list bytes := following mess822_ok (text_lines s).

(** A line starts with an entry of a list, whatever the case of its letters; a field is
    listed when its first line does.  A line that continues nothing is in no list. *)
Definition starts_with_entry (entries l : bytes) : bool := existsb (λ t, has_field t l) (pieces entries).
Definition field_listed (entries : bytes) : list bytes → bool := field_is (starts_with_entry entries) false.

(** The text without the fields listed in removeheaders, and the fields listed in
    another list. *)
Definition without_fields (excl s : bytes) : bytes :=
  text_of (filter (λ f, field_listed excl f = false) (header_fields s)) ++ mjoin (body_lines s).
Definition fields_in (incl s : bytes) : bytes :=
  text_of (filter (λ f, field_listed incl f = true) (header_fields s)).

Lemma pieces_cons c s : pieces (c :: s) = cstr (c :: s) :: pieces (drop (length (cstr (c :: s)) + 1) (c :: s)).
Proof.
  revert c. induction s as [|d s IH]; intros c; simpl; (case_decide; [by rewrite ?drop_0|]); [done|].
  specialize (IH d). simpl in IH. rewrite IH. simpl. done.
Qed.
Lemma tokens_pieces s : tokens s = pieces s.
Proof.
  unfold tokens. enough (∀ n s, length s ≤ n → tokens_loop n s = pieces s) by auto.
  clear s. induction n as [|n IH]; intros s Hn; [by destruct s; [|simpl in Hn; lia]|].
  destruct s as [|c s]; [done|]. rewrite pieces_cons. cbn [tokens_loop]. rewrite str_len_ok.
  f_equal. apply IH. rewrite length_drop. simpl in *. lia.
Qed.
Lemma listed_entry s l : listed s l = starts_with_entry s l.
Proof. unfold listed, starts_with_entry. by rewrite tokens_pieces. Qed.

(** Without colons there are no lengths in the list of envheaders, and it stays as it
    is. *)
Lemma incl_loop_plain fuel incl line len it fl :
  c_colon ∉ incl →
  let '(incl', _, fl', found) := incl_loop fuel incl line len it fl in
  incl' = incl ∧ found = existsb (λ t, has_field t line) (tokens_loop fuel (drop len incl)) ∧
  (found = true → fl' = (-1)%Z).
Proof.
  intros Hc. revert len it fl. induction fuel as [|fuel IH]; intros len it fl; cbn [QmailQueue.incl_loop].
  { done. }
  case_decide as Hlen.
  { rewrite drop_ge by done. by destruct fuel. }
  assert (Hn : c_colon ∉ cstr (drop len incl)).
  { intros H. apply Hc. rewrite <- (take_drop len incl). apply elem_of_app. right. revert H.
    generalize (drop len incl) as s. intros s. induction s as [|c s IHs]; simpl; [set_solver|].
    case_decide; set_solver. }
  cbv zeta. rewrite (index_of_none _ _ Hn).
  rewrite (bool_decide_false (length _ < length _)) by lia.
  rewrite bool_decide_true by auto. rewrite andb_true_l.
  destruct (drop len incl) as [|c s] eqn:E.
  { apply (f_equal length) in E. rewrite length_drop in E. simpl in E. lia. }
  cbn [tokens_loop existsb]. destruct (has_field (cstr (c :: s)) line); [done|].
  specialize (IH (len + str_len (cstr (c :: s)) + 1) (Z.of_nat (str_len (cstr (c :: s)))) (-1)%Z).
  rewrite <- Nat.add_assoc, <- drop_drop, E in IH. by rewrite <- Nat.add_assoc.
Qed.

Section lists.
Context (excl incl logh : bytes) (log : bool).
Hypothesis no_colon : c_colon ∉ incl.

(** The entries of the lists; nothing is logged without a descriptor. *)
#[local] Abbreviation dropped := (starts_with_entry excl).
#[local] Abbreviation passed := (starts_with_entry incl).
Definition noted (l : bytes) : bool := log && starts_with_entry logh l.

(** In the header, where the program has decided [ex], [inc] and [lg] on the lines
    before. *)
Record within (h : header) (ex inc lg : bool) : Prop := {
  wi_lists : h_excl h = excl ∧ h_incl h = incl ∧ h_logh h = logh ∧ h_logfd h = log;
  wi_header : h_in_header h = true;
  wi_excl : h_brk_excl h = negb ex;
  wi_incl : h_brk_incl h = negb inc;
  wi_log : h_brk_log h = negb lg ∧ (log = false → lg = false);
  wi_len : inc = true → h_field_len h = (-1)%Z
}.

(** The next line: the first of a field, or one that goes the way of the line before. *)
Lemma header_line_step h ex inc lg l : within h ex inc lg →
  let ex' := if lwsp l then ex else dropped l in
  let inc' := if lwsp l then inc else passed l in
  let lg' := if lwsp l then lg else noted l in
  ∃ h', header_line h l = (h', ex', inc', lg') ∧ within h' ex' inc' lg' ∧ h_envheaders h' = h_envheaders h.
Proof.
  intros [(E1 & E2 & E3 & E4) H1 H2 H3 [H4 Hlg] H5]. unfold QmailQueue.header_line, lwsp.
  case_bool_decide as Hl.
  - rewrite decide_True by done. eexists. split.
    { rewrite H2, H3, E4, H4, !negb_involutive. assert (log && lg = lg) as -> by (destruct log; [done|by rewrite Hlg]).
      reflexivity. }
    by split; [split|].
  - rewrite decide_False by done. rewrite E1, E2, E3, E4.
    pose proof (incl_loop_plain (length incl) incl l 0 (h_itoken_len h) (h_field_len h) no_colon) as H.
    destruct (incl_loop _ _ _ _ _ _) as [[[incl' it] fl] found]. destruct H as (-> & Hf & Hfl).
    rewrite drop_0 in Hf. fold (tokens incl) in Hf. fold (listed incl l) in Hf.
    rewrite !listed_entry in *. subst found. eexists. split; [reflexivity|]. split; [|done].
    split; simpl; try done. unfold noted. destruct log; [done|]. split; [|done]. rewrite H4. by rewrite Hlg.
Qed.

(** What is written of the lines, passed on, and logged. *)
Definition written (ex : bool) (ls : list bytes) : bytes :=
  mjoin (sieve false dropped ex (leading mess822_ok ls)) ++ mjoin (following mess822_ok ls).
Definition handed (inc : bool) (ls : list bytes) : bytes := mjoin (sieve true passed inc (leading mess822_ok ls)).
Definition recorded (lg : bool) (ls : list bytes) : bytes := mjoin (sieve true noted lg (leading mess822_ok ls)).

Lemma kept_body fuel s h :
  length s < fuel → h_in_header h = false → kept_lines fuel s h = (s, h_envheaders h).
Proof.
  revert s. induction fuel as [|fuel IH]; intros s Hf Hh; [lia|]. cbn [QueueSpec.kept_lines].
  destruct (decide (s = [])) as [->|Hs]; [done|]. pose proof (text_lines_step s Hs) as H.
  destruct (line_by c_lf s) as [l m]. destruct H as (_ & Hl & E & _).
  rewrite bool_decide_false, andb_false_r, Hh by done. cbn [negb andb]. rewrite Hh. cbn [negb].
  rewrite (IH (drop (length l) s)); [by rewrite <- E| |done].
  apply (f_equal length) in E. rewrite length_app in E. destruct l; [done|]. simpl in *. lia.
Qed.

(** The line joins the fields to pass on. *)
Lemma add_step h ex inc lg l : within h ex inc lg →
  let h' := if inc && bool_decide (h_field_len h = -1 ∨ h_itoken_len h ≤ h_field_len h)%Z
            then add_envheaders l h else h in
  within h' ex inc lg ∧ h_envheaders h' = h_envheaders h ++ (if inc then l else []).
Proof.
  intros Hw. destruct inc; simpl; [|by rewrite app_nil_r].
  rewrite bool_decide_true by (left; by apply (wi_len _ _ _ _ Hw)). split; [|done].
  destruct Hw as [W1 W2 W3 W4 W5 W6]. by split.
Qed.

Lemma kept_text fuel s h ex inc lg : length s < fuel → within h ex inc lg →
  kept_lines fuel s h = (written ex (text_lines s), h_envheaders h ++ handed inc (text_lines s)).
Proof.
  unfold written, handed. revert s h ex inc lg. induction fuel as [|fuel IH]; intros s h ex inc lg Hf Hw; [lia|].
  destruct (decide (s = [])) as [->|Hs]; [simpl; by rewrite app_nil_r|]. cbn [QueueSpec.kept_lines].
  pose proof (text_lines_step s Hs) as H. destruct (line_by c_lf s) as [l m].
  destruct H as (-> & Hl & E & Hm). rewrite (bool_decide_false (l = [])), andb_false_r by done.
  rewrite (wi_header _ _ _ _ Hw). cbn [leading following]. destruct (mess822_ok l); cbn [negb andb].
  2:{ cbn [h_in_header set_in_header negb]. rewrite kept_body.
      - simpl. rewrite app_nil_r, mjoin_text_lines. done.
      - apply (f_equal length) in E. rewrite length_app in E. destruct l; [done|]. simpl in *. lia.
      - done. }
  rewrite (wi_header _ _ _ _ Hw). cbn [negb].
  destruct (header_line_step h ex inc lg l Hw) as (h' & -> & Hw' & Henv). set (lg'' := if lwsp l then lg else _) in *.
  cbv zeta.
  set (ex' := if lwsp l then ex else _) in *. set (inc' := if lwsp l then inc else _) in *.
  cbn [sieve]. fold ex' inc'.
  destruct (add_step h' ex' inc' lg'' l Hw') as [Hw2 Henv2]. rewrite Henv in Henv2.
  set (h2 := if inc' && _ then _ else h') in *. clearbody h2.
  assert (Hmore : kept_lines fuel (drop (length l) s) h2 =
    (written ex' (text_lines (drop (length l) s)), h_envheaders h2 ++ handed inc' (text_lines (drop (length l) s)))).
  { eapply IH; [|done]. apply (f_equal length) in E. rewrite length_app in E. destruct l; [done|]. simpl in *. lia. }
  unfold written, handed in Hmore. destruct m.
  - rewrite Hmore, Henv2. destruct ex', inc'; simpl; by rewrite <- ?(assoc_L app).
  - rewrite Hm, Henv2 by done. destruct ex', inc'; simpl; by rewrite ?app_nil_r.
Qed.

(** ** The loop over the lines *)

Context (cfg : config) (st : setting).
#[local] Abbreviation line_loop := (QmailQueue.line_loop cfg st scan_uint case_equal mess822_ok beyond).

(** No call fails and no signal arrives from here on. *)
Definition calm (s : qqueue) : Prop := faults (qw s) = [] ∧ signals s = [].

Lemma check_calm e s : calm s → check cfg st e s = (inr tt, s).
Proof. intros [Hf Hs]. destruct s as [[] ? ? ? ? ? ? ? ? ?]. simpl in *. by subst. Qed.

(** The state after text has been written to a file and logged. *)
Definition after (fd : nat) (d lg : bytes) (s s' : qqueue) : Prop :=
  calm s' ∧ names (qw s') = names (qw s) ∧ file_data (qw s') fd = file_data (qw s) fd ++ d ∧
  (∀ i, i ≠ fd → file_data (qw s') i = file_data (qw s) i) ∧ logged s' = logged s ++ lg ∧
  body s' = body s ∧ envelope s' = envelope s.
Lemma after_nil fd s : calm s → after fd [] [] s s.
Proof. intros. unfold after. by rewrite !app_nil_r. Qed.
Lemma after_app fd d lg d' lg' s s1 s2 :
  after fd d lg s s1 → after fd d' lg' s1 s2 → after fd (d ++ d') (lg ++ lg') s s2.
Proof.
  intros (? & N & D & O & G & B & E) (? & N' & D' & O' & G' & B' & E'). unfold after.
  rewrite N', N, D', D, G', G, B', B, E', E, !(assoc_L app). split_and!; try done.
  intros i Hi. by rewrite O', O.
Qed.

Lemma put_calm fd d s : calm s → ∃ s', put cfg st fd d s = (inr tt, s') ∧ after fd d [] s s'.
Proof.
  intros [Hf Hs]. destruct s as [w sg ? ? ? ? ? ? ? ?]. simpl in *. subst sg.
  eexists. split.
  - unfold put, qcall, qsys, interrupt, append, syscall, fault, wsys, qbind, mbind, ST_bind, getS. simpl.
    rewrite Hf. reflexivity.
  - unfold after, calm. simpl. rewrite app_nil_r. split_and!; try done.
    + unfold file_data. simpl. by rewrite lookup_insert_eq.
    + intros i Hi. unfold file_data. simpl. by rewrite lookup_insert_ne.
Qed.

Lemma bind_eq {A B} (m : QA A) (k : A → QA B) s a s' : m s = (inr a, s') → qbind m k s = k a s'.
Proof. intros E. unfold qbind, mbind, ST_bind. by rewrite E. Qed.

Lemma body_loop fuel fd s h q : length s < fuel → h_in_header h = false → calm q →
  ∃ q', line_loop fuel fd s h q = (inr (h_envheaders h), q') ∧ after fd s [] q q'.
Proof.
  revert s q. induction fuel as [|fuel IH]; intros s q Hf Hh Hq; [lia|]. cbn [QmailQueue.line_loop].
  rewrite (bind_eq _ _ _ _ _ (check_calm _ q Hq)).
  destruct (decide (s = [])) as [->|Hs]; [eexists; split; [done|by apply after_nil]|].
  pose proof (text_lines_step s Hs) as H. destruct (line_by c_lf s) as [l m]. destruct H as (_ & Hl & E & _).
  rewrite bool_decide_false, andb_false_r, Hh by done. cbn [negb andb]. rewrite Hh. cbn [negb].
  destruct (put_calm fd l q Hq) as (q1 & Hp & Ha). rewrite (bind_eq _ _ _ _ _ Hp).
  destruct (IH (drop (length l) s) q1) as (q2 & H2 & Ha2); [|done|apply Ha|].
  { apply (f_equal length) in E. rewrite length_app in E. destruct l; [done|]. simpl in *. lia. }
  exists q2. split; [done|]. pose proof (after_app fd l [] _ [] q q1 q2 Ha Ha2) as Hx. by rewrite <- E in Hx.
Qed.

(** The line is written unless it is dropped, and logged if it is to be. *)
Lemma line_done fd l (ex lg : bool) q : calm q → ∃ q1 q2,
  (if ex then ok tt else put cfg st fd l) q = (inr tt, q1) ∧
  (if lg then check cfg st QQ_WRITE_ERR;;? set (λ s, set_logged (logged s ++ l) s) else ok tt) q1 = (inr tt, q2) ∧
  after fd (if ex then [] else l) (if lg then l else []) q q2.
Proof.
  intros Hq. assert (∃ q1, (if ex then ok tt else put cfg st fd l) q = (inr tt, q1) ∧ after fd (if ex then [] else l) [] q q1)
    as (q1 & H1 & Ha).
  { destruct ex; [exists q; split; [done|by apply after_nil]|by apply put_calm]. }
  assert (Hq1 : calm q1) by apply Ha. exists q1. destruct lg.
  - eexists. split; [done|]. rewrite (bind_eq _ _ _ _ _ (check_calm _ q1 Hq1)). split; [reflexivity|].
    destruct Ha as (? & ? & ? & ? & HL & ? & ?). unfold after. simpl. rewrite app_nil_r in HL. rewrite <- HL. by split_and!.
  - by exists q1.
Qed.

Lemma text_loop fuel fd s h ex inc lg q : length s < fuel → within h ex inc lg → calm q →
  ∃ q', line_loop fuel fd s h q = (inr (h_envheaders h ++ handed inc (text_lines s)), q') ∧
    after fd (written ex (text_lines s)) (recorded lg (text_lines s)) q q'.
Proof.
  unfold written, handed, recorded. revert s h ex inc lg q.
  induction fuel as [|fuel IH]; intros s h ex inc lg q Hf Hw Hq; [lia|]. cbn [QmailQueue.line_loop].
  rewrite (bind_eq _ _ _ _ _ (check_calm _ q Hq)).
  destruct (decide (s = [])) as [->|Hs]; [exists q; simpl; rewrite app_nil_r; split; [done|by apply after_nil]|].
  pose proof (text_lines_step s Hs) as H. destruct (line_by c_lf s) as [l m].
  destruct H as (-> & Hl & E & Hm). rewrite (bool_decide_false (l = [])), andb_false_r by done.
  rewrite (wi_header _ _ _ _ Hw). cbn [leading following].
  assert (Hlen : length (drop (length l) s) < fuel).
  { apply (f_equal length) in E. rewrite length_app in E. destruct l; [done|]. simpl in *. lia. }
  destruct (mess822_ok l); cbn [negb andb].
  2:{ cbn [h_in_header set_in_header negb].
      destruct (put_calm fd l q Hq) as (q1 & Hp & Ha). rewrite (bind_eq _ _ _ _ _ Hp).
      destruct (body_loop fuel fd (drop (length l) s) (set_in_header false h) q1) as (q2 & H2 & Ha2); [done|done|apply Ha|].
      exists q2. split; [simpl; by rewrite app_nil_r|].
      change (mjoin (l :: ?ls)) with (l ++ mjoin ls). rewrite mjoin_text_lines. apply (after_app fd l [] _ [] q q1 q2 Ha Ha2). }
  rewrite (wi_header _ _ _ _ Hw). cbn [negb].
  destruct (header_line_step h ex inc lg l Hw) as (h' & -> & Hw' & Henv).
  cbn [sieve]. set (ex' := if lwsp l then ex else _) in *. set (inc' := if lwsp l then inc else _) in *.
  set (lg' := if lwsp l then lg else _) in *.
  destruct (add_step h' ex' inc' lg' l Hw') as [Hw2 Henv2]. rewrite Henv in Henv2.
  set (h2 := if inc' && _ then _ else h') in *. clearbody h2.
  destruct (line_done fd l ex' lg' q Hq) as (q1 & q2 & H1 & H2 & Ha).
  rewrite (bind_eq _ _ _ _ _ H1), (bind_eq _ _ _ _ _ H2).
  destruct (IH (drop (length l) s) h2 ex' inc' lg' q2 Hlen Hw2) as (q3 & H3 & Ha3); [apply Ha|].
  unfold handed, written, recorded in *. destruct m.
  - exists q3. rewrite H3, Henv2. split; [by destruct inc'; simpl; rewrite <- ?(assoc_L app)|].
    pose proof (after_app fd _ _ _ _ q q2 q3 Ha Ha3) as Hx.
    destruct ex', lg'; simpl in Hx |- *; rewrite <- ?(assoc_L app); exact Hx.
  - exists q2. rewrite Hm, Henv2 by done. split; [by destruct inc'; simpl; rewrite ?app_nil_r|].
    destruct ex', lg'; simpl; by rewrite ?app_nil_r.
Qed.
End lists.

(** The text that the verdict is about, and the header fields for the queue. *)
Lemma text_of_all ls : text_of (fields_of ls) = mjoin ls.
Proof. unfold text_of. rewrite <- (fields_join ls) at 2. induction (fields_of ls); [done|]. simpl. by rewrite IHl, join_app. Qed.
Lemma leading_following p ls : leading p ls ++ following p ls = ls.
Proof. induction ls as [|l ls IH]; [done|]. simpl. destruct (p l); [simpl; by rewrite IH|done]. Qed.
Lemma field_listed_nil f : field_listed [] f = false.
Proof. destruct f as [|l f]; [done|]. unfold field_listed. simpl. by destruct (lwsp l). Qed.

Lemma fields_in_nil s : fields_in [] s = [].
Proof.
  unfold fields_in. rewrite filter_none; [done|]. apply Forall_true. intros f. by rewrite field_listed_nil.
Qed.
Lemma without_fields_nil s : without_fields [] s = s.
Proof.
  unfold without_fields. rewrite filter_all by (apply Forall_true; apply field_listed_nil).
  unfold header_fields. rewrite text_of_all, <- join_app. unfold body_lines.
  by rewrite leading_following, mjoin_text_lines.
Qed.

Lemma in_order_of_lists excl incl logh log : within excl incl logh log
  (Header excl incl logh log true true true true 0 0 []) false false false.
Proof. by split. Qed.

Lemma message_text_fields excl incl logh s : c_colon ∉ incl →
  message_text (Lists excl incl logh) s = (without_fields excl s, fields_in incl s).
Proof.
  intros Hc. unfold QueueSpec.message_text. cbn [l_excl l_incl l_logh]. case_bool_decide as H.
  - destruct H as (-> & -> & _). by rewrite without_fields_nil, fields_in_nil.
  - rewrite (kept_text excl incl [] false Hc _ _ _ false false false) by (lia || apply in_order_of_lists).
    unfold written, handed, without_fields, fields_in, field_listed, header_fields, body_lines.
    by rewrite !sieve_join.
Qed.

(** C23. The control files removeheaders, envheaders and logheaders mean header fields.
    The header of a message is its first lines that look like one, and a field is a line
    with the lines after it that start with white space.  When no call fails, the loop
    of qmail-queue over the lines writes the fields whose first line does not start with
    an entry of removeheaders, in order, and then the body as it is; it returns exactly
    the fields with an entry of envheaders, to be passed on to the delivery, and logs,
    when the descriptor is open, exactly those with an entry of logheaders.  No other
    file is changed.  No entry of envheaders may have a colon, with a length behind it:
    such lengths do not limit what they should ([length_limits_misread]). *)
Theorem fields_filtered cfg st excl incl logh log fd s q : c_colon ∉ incl → calm q →
  let '(r, q') := QmailQueue.line_loop cfg st scan_uint case_equal mess822_ok beyond (S (length s)) fd s
    (Header excl incl logh log true true true true 0 0 []) q in
  r = inr (fields_in incl s) ∧
  file_data (qw q') fd = file_data (qw q) fd ++ without_fields excl s ∧
  logged q' = logged q ++ (if log then fields_in logh s else []) ∧
  names (qw q') = names (qw q) ∧ (∀ i, i ≠ fd → file_data (qw q') i = file_data (qw q) i).
Proof.
  intros Hc Hq.
  destruct (text_loop excl incl logh log Hc cfg st (S (length s)) fd s _ false false false q
    ltac:(lia) (in_order_of_lists excl incl logh log) Hq) as (q' & -> & _ & Hn & Hd & Ho & Hl & _ & _).
  unfold written, handed, recorded in *. rewrite !sieve_join in *.
  split_and!; [done|done| |done|done]. rewrite Hl. f_equal. unfold fields_in, field_listed.
  destruct log; [done|]. rewrite filter_none; [done|]. apply Forall_true. intros [|l f]; [done|]. simpl.
  by destruct (lwsp l).
Qed.
End headers.

(** ** What becomes of a message *)

Section promise.
Context {L : LibQmail} {LL : LibQmailLaws L} (st : setting).
Context (scan_int scan_uint : bytes → Z) (case_equal : bytes → bytes → bool).
Context (mess822_ok : bytes → bool) (beyond : bytes → bytes).

#[local] Abbreviation fast := (QueueSpec.fast st scan_int).
#[local] Abbreviation configured := (QueueSpec.configured st scan_int).
#[local] Abbreviation quarantined := (QueueSpec.quarantined st scan_int).
#[local] Abbreviation parse_recipients := (QueueSpec.parse_recipients st scan_int).
#[local] Abbreviation verdict := (QueueSpec.verdict st scan_int scan_uint case_equal mess822_ok beyond).
#[local] Abbreviation without_fields := (without_fields case_equal mess822_ok beyond).
#[local] Abbreviation fields_in := (fields_in case_equal mess822_ok beyond).

(** *** The fields in front *)

Definition hidden : bool := env_set st "HIDE_HOST".
Definition host_name : bytes :=
  match env_get st (lit "HOSTNAME"), gethostname st with
  | Some h, _ | None, Some h => h
  | None, None => lit "unknown"
  end.
(** The client in the network, if there is one. *)
Definition network_client : option bytes :=
  match env_get st (lit "TCPREMOTEIP") with
  | Some ip => Some ip
  | None => if hidden || fast then None else peername st
  end.
Definition invoker : bytes :=
  if decide (uid st = auto_uida st) then lit "by alias"
  else if decide (uid st = auto_uids st) then lit "for bounce"
  else match network_client with
       | Some ip => lit "from network" ++ (if hidden then [] else lit " " ++ ip) ++ lit ", "
       | None => []
       end ++ lit "by uid " ++ fmt_ulong (uid st).
Definition received_field : bytes :=
  lit "Received: indimail-mta queue " ++ fmt_ulong (mypid st) ++
  (if hidden then [] else lit " by host " ++ host_name ++ [c_lf] ++ lit " ") ++
  lit "(invoked " ++ invoker ++ lit "); " ++ date822 st.

(** Every relayed message gets the address of its client. *)
Definition relayed : bool := env_set st "RELAYCLIENT" || env_set st "TCPREMOTEINFO".
Definition origin_field : bytes :=
  match env_get st (lit "ORIGINIPFIELD"), env_get st (lit "TCPREMOTEIP") with
  | Some n, Some ip =>
    if decide (wrap 32 (snd (scan_ulong n)) = 0%Z ∨ relayed = false ∨ fast = true) then []
    else lit "X-Originating-IP: " ++ ip ++ [c_lf]
  | _, _ => []
  end.

(** *** The scanner *)

Inductive scan := Unscanned | Clean | Infected.
(** Messages below QHPSIMINSIZE or above QHPSIMAXSIZE are not scanned; no limit is 0. *)
Definition scan_result (size : Z) : Z + scan :=
  let least := wrap 32 (env_number st "QHPSIMINSIZE" 0) in
  let most := wrap 32 (env_number st "QHPSIMAXSIZE" 0) in
  if decide (fast = true ∨ env_set st "QHPSI" = false ∨ (size < least)%Z ∨ (most ≠ 0 ∧ most < size)%Z)
  then inr Unscanned
  else match scanner st with
       | Crashed => inl QQ_CRASHED
       | Exited rc =>
         if decide (rc = env_number st "QHPSIRC" 1) then inr Infected
         else if decide (rc = env_number st "QHPSIRN" 0) then inr Clean
         else inl QQ_QHPSI_TEMP_ERR
       end.
(** An infected message is taken when REJECTVIRUS is 0, vanishes when it is 2, and is
    refused otherwise; VIRUSFORWARD is where it goes instead. *)
Definition treatment (quarantine d : bytes) : Z + scanned :=
  match scan_result (wrap 32 (Z.of_nat (length d))) with
  | inl c => inl c
  | inr Unscanned => inr (Scanned false quarantine [])
  | inr Clean => inr (Scanned false quarantine (lit "X-QHPSI: clean" ++ [c_lf]))
  | inr Infected =>
    let r := env_number st "REJECTVIRUS" 0 in
    if decide (r = 0 ∨ r = 2)%Z
    then inr (Scanned (bool_decide (r = 2%Z)) (default quarantine (env_get st (lit "VIRUSFORWARD")))
                (lit "X-QHPSI: Virus found" ++ [c_lf]))
    else inl QQ_VIRUS_IN_MSG
  end.

(** *** The envelope *)

(** The recipients of extraqueue, and those of the envelope or the quarantine. *)
Definition recipient_records (extraqueue : bytes) (x : scanned) (rcpts : list bytes) : list bytes :=
  map (λ t, lit "T" ++ t ++ [0%Z]) (pieces extraqueue) ++
  (if quarantined x then [lit "T" ++ quarantine x ++ [0%Z]] else map (λ a, lit "T" ++ a) rcpts).

(** Text that ends with a line feed, if there is any. *)
Definition whole_lines (t : bytes) : bytes :=
  match last t with Some c => if decide (c = c_lf) then t else t ++ [c_lf] | None => [] end.
(** The fields for the delivery: what the scanner said, who was to get a message in
    quarantine, and QQEH. *)
Definition quarantine_field (x : scanned) (rcpts : list bytes) : bytes :=
  if quarantined x
  then lit "X-Quarantine-ID: " ++
       quarantine x ++ mjoin (map (λ a, lit "," ++ filter (λ c, c ≠ 0%Z) a) rcpts) ++ [c_lf]
  else [].
Definition delivery_fields (x : scanned) (rcpts : list bytes) : bytes :=
  (qqehextra x ++ quarantine_field x rcpts) ++
  whole_lines (if fast then [] else default [] (env_get st (lit "QQEH"))).
Definition record_of (kind : string) (t : bytes) : list bytes :=
  if decide (t = []) then [] else [lit kind ++ t ++ [0%Z]].
Definition header_records (x : scanned) (rcpts : list bytes) (passed : bytes) : list bytes :=
  record_of "e" (delivery_fields x rcpts) ++ record_of "h" passed.
Definition promised_envelope (extraqueue : bytes) (x : scanned) (sender : bytes) (rcpts : list bytes)
    (passed : bytes) : bytes :=
  mjoin ([lit "u" ++ fmt_ulong (uid st) ++ [0%Z]; lit "p" ++ fmt_ulong (mypid st) ++ [0%Z]; lit "F" ++ sender] ++
    recipient_records extraqueue x rcpts ++ header_records x rcpts passed).

(** *** The message *)

(** What the control files and the environment set. *)
Record rules := Rules { r_extraqueue : bytes; r_quarantine : bytes; r_remove : bytes; r_pass : bytes; r_log : bytes }.
Definition configuration : option rules :=
  match configured "EXTRAQUEUE" "extraqueue" false, configured "QUARANTINE" "quarantine" false,
        configured "REMOVEHEADERS" "removeheaders" true, configured "ENVHEADERS" "envheaders" true,
        configured "LOGHEADERS" "logheaders" true with
  | Some e, Some q, Some r, Some p, Some l => Some (Rules e q r p l)
  | _, _, _, _, _ => None
  end.
Definition promised_message (r : rules) (text : bytes) : bytes :=
  received_field ++ origin_field ++ without_fields (r_remove r) text.

(** An exit code, or the files in mess and todo, or nothing when the message vanishes. *)
Definition promised (text envelope : bytes) : Z + option (bytes * bytes) :=
  match configuration with
  | None => inl QQ_CONFIG_ERR
  | Some r =>
    let d := promised_message r text in
    match treatment (r_quarantine r) d, parse_sender envelope with
    | inl c, _ | inr _, inl c => inl c
    | inr x, inr (sender, rest) =>
      if flagblackhole x && negb (quarantined x)
      then if decide (0%Z ∈ rest) then inr None else inl QQ_READ_ERR
      else match parse_recipients (S (length rest)) rest with
           | inl c => inl c
           | inr rcpts =>
             inr (Some (d, promised_envelope (r_extraqueue r) x sender rcpts (fields_in (r_pass r) text)))
           end
    end
  end.

(** *** The program comes to the same *)

Lemma received_same : receivedfmt st fast = received_field.
Proof.
  unfold receivedfmt, received_field, host_name, hidden, hide_host.
  assert (∀ a b c d e : bytes, a = e ++ b → a ++ c ++ d = e ++ b ++ c ++ d) as Happ by (intros; subst; by rewrite <- (assoc_L app)).
  f_equal. f_equal. f_equal.
  apply (Happ _ _ _ _ (lit "(invoked ")). unfold invoker, network_client, hidden.
  destruct (decide (uid st = auto_uida st)); [done|]. destruct (decide (uid st = auto_uids st)); [done|].
  f_equal.
  destruct (env_get st (lit "TCPREMOTEIP")), (env_set st "HIDE_HOST"), fast, (peername st); reflexivity.
Qed.
Lemma origin_same : origin st fast = origin_field.
Proof.
  unfold origin, origin_field, relayed, originfmt.
  destruct (env_get st (lit "TCPREMOTEIP")) as [ip|]; [|by destruct (env_get st (lit "ORIGINIPFIELD"))].
  destruct fast.
  { rewrite bool_decide_false by (intros Hz; by apply Hz). destruct (env_get st (lit "ORIGINIPFIELD")) as [n|]; [|done].
    by rewrite decide_True by auto. }
  destruct (env_get st (lit "ORIGINIPFIELD")) as [n|]; [|done]. set (v := wrap 32 _).
  destruct (_ || _); [|rewrite andb_false_r, decide_True by auto; done].
  rewrite andb_true_r. case_bool_decide as Hv.
  - rewrite decide_False; [done|]. intros [?|[?|?]]; congruence.
  - rewrite decide_True; [done|]. left. destruct (decide (v = 0%Z)); [done|by destruct Hv].
Qed.
Lemma treatment_same q d : scan_verdict st scan_int d q = treatment q d.
Proof.
  unfold scan_verdict, treatment, scan_result. set (size := wrap 32 (Z.of_nat (length d))).
  set (least := wrap 32 (env_number st "QHPSIMINSIZE" 0)). set (most := wrap 32 (env_number st "QHPSIMAXSIZE" 0)).
  assert (0 ≤ size)%Z as Hs by (by apply Z.mod_pos_bound). clearbody size least most.
  destruct fast; [by rewrite decide_True by auto|]. destruct (env_set st "QHPSI"); [|by rewrite decide_True by auto].
  cbn [negb orb]. case_bool_decide as Hb; [rewrite decide_True by (right; right; lia)|rewrite decide_False by (intros [?|[?|?]]; [done..|lia])]; [done|].
  destruct (scanner st) as [|rc]; [done|]. case_decide; [|by case_decide].
  set (r := env_number st "REJECTVIRUS" 0). clearbody r.
  destruct r as [|[p|[p|p|]|]|p]; done.
Qed.
Lemma qqeh_record_same q e : qqeh_record q e = mjoin (record_of "e" (e ++ whole_lines q)).
Proof.
  unfold qqeh_record, record_of, whole_lines. destruct q as [|c q _] using rev_ind.
  { cbn [last]. rewrite app_nil_r. destruct (decide (e = [])) as [->|He]; [by rewrite bool_decide_true|].
    rewrite bool_decide_false by naive_solver. cbn [mjoin list_join]. by rewrite !app_nil_r. }
  assert (Hq : ∀ a : bytes, a ++ q ++ [c] ≠ []) by (intros a; by destruct a, q).
  rewrite bool_decide_false, last_snoc by (intros [Hn _]; by apply (Hq [])).
  destruct (decide (c = c_lf)) as [->|Hc].
  - rewrite (decide_True (P := _ ∨ _)), decide_False by auto.
    cbn [mjoin list_join]. by rewrite app_nil_r, <- !(assoc_L app).
  - rewrite (decide_False (P := _ ∨ _)) by (intros [Hn|Hn]; [by apply (Hq [])|congruence]).
    rewrite decide_False by (rewrite (assoc_L app); by destruct (e ++ q ++ [c])).
    cbn [mjoin list_join]. by rewrite app_nil_r, <- !(assoc_L app).
Qed.

Lemma envelope_same extraqueue x sender rcpts passed :
  envelope_of st scan_int extraqueue passed x sender rcpts = promised_envelope extraqueue x sender rcpts passed.
Proof.
  unfold promised_envelope, header_records, recipient_records, delivery_fields.
  rewrite !join_app, <- qqeh_record_same, <- tokens_pieces.
  change (qqehextra x ++ quarantine_field x rcpts) with (extra_fields st scan_int x rcpts).
  cbn [mjoin list_join]. rewrite app_nil_r, <- !(assoc_L app). unfold envelope_of. do 7 f_equal.
  do 2 f_equal.
  f_equal; [destruct (quarantined x); [|done]; cbn [mjoin list_join]; by rewrite app_nil_r|].
  f_equal. unfold record_of. destruct (decide (passed = [])); [done|].
  cbn [mjoin list_join]. by rewrite app_nil_r.
Qed.

(** The verdict of [QueueSpec] follows the program more closely. *)
Lemma promised_verdict s : (∀ r, configuration = Some r → c_colon ∉ r_pass r) →
  promised (mjoin (body s)) (envelope s) = verdict s.
Proof.
  unfold promised, QueueSpec.verdict, configuration. intros Hc.
  destruct (configured "EXTRAQUEUE" "extraqueue" false) as [e|]; [|done].
  destruct (configured "QUARANTINE" "quarantine" false) as [q|]; [|done].
  destruct (configured "REMOVEHEADERS" "removeheaders" true) as [rm|]; [|done].
  destruct (configured "ENVHEADERS" "envheaders" true) as [p|]; [|done].
  destruct (configured "LOGHEADERS" "logheaders" true) as [l|]; [|done].
  rewrite (message_text_fields _ _ _ _ rm p l) by (by apply (Hc _ eq_refl)). cbn [r_quarantine r_extraqueue r_pass].
  unfold promised_message, message. cbn [r_remove]. rewrite treatment_same, received_same, origin_same.
  destruct (treatment _ _) as [|x]; [done|]. unfold verdict_envelope.
  destruct (parse_sender (envelope s)) as [|[sender rest]]; [done|].
  destruct (flagblackhole x && _); [by case_decide|].
  destruct (parse_recipients _ rest) as [|rcpts]; [done|]. by rewrite envelope_same.
Qed.

End promise.
