(* ===== verification/QueueTodo.v ===== *)
(** * From qmail-queue to todo-proc

    The envelope that qmail-queue leaves in todo, as the records that todo-proc
    reads, and the way of an accepted message through both. *)

From S2P Require Import Prelude LibQmail Prioq Filesys Records Control Fmtqfn SendState.
From S2P Require Import TodoProc TodoSplit TodoTheorems QmailQueue QueueSpec QueueTheorems QueueHeaders.

(** ** Records *)

Definition terminated (l : bytes) : Prop := ∃ x, l = x ++ [0%Z] ∧ (0%Z ∉ x).

Lemma terminated_cons c l : c ≠ 0%Z → terminated l → terminated (c :: l).
Proof. intros Hc (x & -> & Hx). exists (c :: x). split; [done|]. set_solver. Qed.
Lemma terminated_app a l : 0%Z ∉ a → terminated l → terminated (a ++ l).
Proof. intros Ha (x & -> & Hx). exists (a ++ x). split; [by rewrite (assoc_L app)|]. set_solver. Qed.
Lemma terminated_zero : terminated [0%Z].
Proof. exists []. split; [done|]. set_solver. Qed.

Lemma line_at_zero x r : 0%Z ∉ x → line_at (x ++ 0%Z :: r) = (x ++ [0%Z], true).
Proof.
  induction x as [|c x IH]; intros Hx; simpl; [done|].
  rewrite decide_False, IH by set_solver. done.
Qed.

Lemma records_app l r : terminated l → records (l ++ r) = l :: records r.
Proof.
  intros (x & -> & Hx). rewrite records_line, <- (assoc_L app). simpl.
  rewrite line_at_zero by done. f_equal. f_equal.
  rewrite length_app. simpl. rewrite <- drop_drop, drop_app_length. done.
Qed.

Lemma records_mjoin ls r : Forall terminated ls → records (mjoin ls ++ r) = ls ++ records r.
Proof.
  induction 1 as [|l ls Hl Hls IH]; simpl; [done|]. rewrite <- (assoc_L app), records_app by done.
  by rewrite IH.
Qed.

Lemma line_at_terminated s l : line_at s = (l, true) → terminated l.
Proof.
  revert l. induction s as [|c s IH]; intros l; simpl; [done|].
  case_decide as Hc; [intros [= <-]; subst; apply terminated_zero|].
  destruct (line_at s) as [l' m]. intros [= <- ->]. apply terminated_cons; [done|]. by apply IH.
Qed.

Lemma parse_address_terminated n s a r : parse_address n s = inr (a, r) → terminated a.
Proof.
  unfold parse_address. destruct (line_at (take n s)) as [l []] eqn:E; [|done].
  intros [= <- _]. by eapply line_at_terminated.
Qed.

Section envelope.
Context {L : LibQmail} {LL : LibQmailLaws L} (cfg : config) (st : setting).
Context (scan_int : bytes → Z).

Lemma parse_recipients_terminated fuel s rs :
  parse_recipients st scan_int fuel s = inr rs → Forall terminated rs.
Proof.
  revert s rs. induction fuel as [|fuel IH]; intros s rs; simpl; [done|].
  destruct s as [|c s]; [done|]. case_decide; [intros [= <-]; constructor|]. case_decide; [done|].
  destruct (parse_address ADDR s) as [|[a r]] eqn:E; [done|].
  destruct (parse_recipients st scan_int fuel r) eqn:E'; [done|]. intros [= <-].
  constructor; [by eapply parse_address_terminated|by eapply IH].
Qed.

Lemma tokens_no_zero s : Forall (λ t, 0%Z ∉ t) (tokens s).
Proof.
  unfold tokens. generalize (length s) as n. intros n. revert s.
  induction n as [|n IH]; intros [|c s]; simpl; try constructor; [|apply IH].
  apply (cstr_no_zero (c :: s)).
Qed.

(** The numbers of a process fit, and no text of the environment or of the
    configuration that goes into a record of header fields holds a zero byte. *)
Record plain (x : scanned) (envheaders : bytes) : Prop := {
  pl_uid : ulong (uid st);
  pl_pid : ulong (mypid st);
  pl_quarantine : 0%Z ∉ quarantine x;
  pl_extra : 0%Z ∉ qqehextra x;
  pl_qqeh : 0%Z ∉ default [] (env_get st (lit "QQEH"));
  pl_envheaders : 0%Z ∉ envheaders
}.

Definition qqeh : bytes := if fast st scan_int then [] else default [] (env_get st (lit "QQEH")).

(** The records of the envelope. *)
Definition envelope_records (extraqueue envheaders : bytes) (x : scanned) (sender : bytes)
    (rcpts : list bytes) : list bytes :=
  [lit "u" ++ fmt_ulong (uid st) ++ [0%Z]; lit "p" ++ fmt_ulong (mypid st) ++ [0%Z]; lit "F" ++ sender] ++
  map (λ t, lit "T" ++ t ++ [0%Z]) (tokens extraqueue) ++
  (if quarantined st scan_int x then [lit "T" ++ quarantine x ++ [0%Z]] else map (λ a, lit "T" ++ a) rcpts) ++
  (if bool_decide (qqeh = [] ∧ extra_fields st scan_int x rcpts = []) then []
   else [qqeh_record qqeh (extra_fields st scan_int x rcpts)]) ++
  (if decide (envheaders = []) then [] else [lit "h" ++ envheaders ++ [0%Z]]).

Lemma extra_no_zero x envheaders rcpts : plain x envheaders → 0%Z ∉ extra_fields st scan_int x rcpts.
Proof.
  intros [_ _ H1 H2 _ _]. unfold extra_fields. apply not_elem_of_app. split; [done|].
  destruct (quarantined st scan_int x); [|set_solver].
  rewrite !not_elem_of_app. split_and!; [by apply (bool_decide_eq_true _)|done| |set_solver].
  induction rcpts as [|a rcpts IH]; simpl; [set_solver|].
  apply not_elem_of_cons. split; [done|]. apply not_elem_of_app. split; [|done].
  intros [? _]%list_elem_of_filter. done.
Qed.

Lemma records_all ls : Forall terminated ls → records (mjoin ls) = ls.
Proof. intros H. pose proof (records_mjoin ls [] H) as E. rewrite !app_nil_r in E. exact E. Qed.

Lemma envelope_join extraqueue envheaders x sender rcpts :
  mjoin (envelope_records extraqueue envheaders x sender rcpts) =
  envelope_of st scan_int extraqueue envheaders x sender rcpts.
Proof.
  unfold envelope_of, envelope_records. fold qqeh. rewrite !join_app. cbn [mjoin list_join].
  rewrite app_nil_r, <- !(assoc_L app). repeat f_equal.
  - destruct (quarantined st scan_int x); [apply app_nil_r|done].
  - unfold qqeh_record. case_bool_decide; [done|apply app_nil_r].
  - case_decide; [done|apply app_nil_r].
Qed.

Lemma terminated_lit c a : c ≠ 0%Z → 0%Z ∉ a → terminated (c :: a ++ [0%Z]).
Proof. intros Hc Ha. apply terminated_cons; [done|]. apply terminated_app; [done|apply terminated_zero]. Qed.

Lemma envelope_terminated extraqueue envheaders x sender rcpts :
  plain x envheaders → terminated sender → Forall terminated rcpts →
  Forall terminated (envelope_records extraqueue envheaders x sender rcpts).
Proof.
  intros Hp Hs Hr. pose proof (extra_no_zero x envheaders rcpts Hp) as Hx.
  destruct Hp as [H1 H2 H3 H4 H5 H6]. unfold envelope_records. repeat apply Forall_app_2.
  - repeat constructor; [by apply terminated_lit, fmt_no_zero..|by apply terminated_cons].
  - apply Forall_map. eapply Forall_impl; [apply tokens_no_zero|]. intros t Ht. by apply terminated_lit.
  - destruct (quarantined st scan_int x).
    + repeat constructor. by apply terminated_lit.
    + apply Forall_map. eapply Forall_impl; [exact Hr|]. intros a Ha. by apply terminated_cons.
  - unfold qqeh_record. case_bool_decide; [constructor|]. repeat constructor.
    assert (Hq : 0%Z ∉ qqeh) by (unfold qqeh; destruct (fast st scan_int); [set_solver|done]).
    apply terminated_cons; [done|]. repeat apply terminated_app; try done; [|apply terminated_zero].
    case_decide; set_solver.
  - case_decide; repeat constructor. by apply terminated_lit.
Qed.

Lemma envelope_known extraqueue envheaders x sender e rest n rcpts :
  plain x envheaders → parse_sender e = inr (sender, rest) →
  parse_recipients st scan_int n rest = inr rcpts →
  let o := envelope_of st scan_int extraqueue envheaders x sender rcpts in
  records o = envelope_records extraqueue envheaders x sender rcpts ∧
  Forall (λ l, known_record l = true) (records o).
Proof.
  intros Hp Hs Hr o.
  assert (Ht : terminated sender).
  { unfold parse_sender in Hs. destruct e as [|c e]; [done|]. case_decide; [done|].
    by eapply parse_address_terminated. }
  assert (E : records o = envelope_records extraqueue envheaders x sender rcpts).
  { unfold o. rewrite <- envelope_join. apply records_all.
    by apply envelope_terminated; [..|eapply parse_recipients_terminated]. }
  split; [done|]. rewrite E. unfold envelope_records. repeat apply Forall_app_2.
  - by repeat constructor.
  - apply Forall_map, Forall_true. done.
  - destruct (quarantined st scan_int x); [by repeat constructor|]. apply Forall_map, Forall_true. done.
  - unfold qqeh_record. case_bool_decide; [constructor|by repeat constructor].
  - case_decide; by repeat constructor.
Qed.

(** todo-proc reads from an envelope the records that qmail-queue meant, and
    knows all of them: the user and the process, the sender, the extra recipients,
    the recipients or the address of the quarantine, and the header fields for the
    delivery. *)
Theorem envelope_read extraqueue envheaders x sender e rest n rcpts :
  plain x envheaders → parse_sender e = inr (sender, rest) →
  parse_recipients st scan_int n rest = inr rcpts →
  let o := envelope_of st scan_int extraqueue envheaders x sender rcpts in
  records o = envelope_records extraqueue envheaders x sender rcpts ∧
  Forall (λ l, known_record l = true) (records o).
Proof. apply envelope_known. Qed.

(** A quarantine that is set by its control file stops every message: the
    address keeps the zero byte that ends it in the buffer of the control file, so
    that the envelope has a record without a type, which todo-proc refuses.  (Set
    by the environment variable QUARANTINE, the address has no zero byte.) *)
Theorem quarantine_file_stuck extraqueue envheaders flag extra q sender rest e n rcpts :
  ulong (uid st) → ulong (mypid st) →
  fast st scan_int = false → env_get st (lit "QUARANTINE") = None →
  control st (lit "quarantine") = Contents (q ++ [c_lf]) → entry q →
  parse_sender e = inr (sender, rest) → parse_recipients st scan_int n rest = inr rcpts →
  ∃ quar, configured st scan_int "QUARANTINE" "quarantine" false = Some quar ∧
    ¬ Forall (λ l, known_record l = true)
        (records (envelope_of st scan_int extraqueue envheaders (Scanned flag quar extra) sender rcpts)).
Proof.
  intros Hu Hpid Hf He Hc Hq Hs Hr. exists (q ++ [0%Z]).
  split.
  { assert (Hread : control_readfile (Contents (q ++ [c_lf])) = (1%Z, q ++ [0%Z])).
    { pose proof (readfile_entries [q] [] [[q]] []) as H.
      cbn [map mjoin list_join app] in H. rewrite !app_nil_r in H. apply H.
      - repeat constructor. by apply line_plain.
      - apply line_ignored. split; [set_solver|by left]. }
    unfold configured. by rewrite Hf, He, Hc, Hread. }
  assert (Ht : terminated sender).
  { unfold parse_sender in Hs. destruct e as [|c e]; [done|]. case_decide; [done|].
    by eapply parse_address_terminated. }
  assert (Hz : 0%Z ∉ q) by apply Hq.
  assert (Hqu : quarantined st scan_int (Scanned flag (q ++ [0%Z]) extra) = true).
  { unfold quarantined. rewrite Hf. simpl. rewrite bool_decide_false; [done|]. by destruct q. }
  unfold envelope_of. rewrite Hqu. simpl quarantine.
  set (ls := [lit "u" ++ fmt_ulong (uid st) ++ [0%Z]; lit "p" ++ fmt_ulong (mypid st) ++ [0%Z];
              lit "F" ++ sender] ++ map (λ t, lit "T" ++ t ++ [0%Z]) (tokens extraqueue) ++
             [lit "T" ++ q ++ [0%Z]]).
  match goal with |- context [records ?o] => assert (∃ r, o = mjoin ls ++ [0%Z] ++ r) as [r ->] end.
  { eexists. unfold ls. rewrite !join_app. cbn [mjoin list_join]. rewrite <- !(assoc_L app). cbn [app].
    rewrite <- ?(assoc_L app). reflexivity. }
  rewrite records_mjoin, records_app; [|apply terminated_zero|].
  - rewrite Forall_app, Forall_cons. intros (_ & H & _). done.
  - unfold ls. repeat apply Forall_app_2.
    + repeat constructor; [by apply terminated_lit, fmt_no_zero..|by apply terminated_cons].
    + apply Forall_map. eapply Forall_impl; [apply tokens_no_zero|]. intros t Ht'. by apply terminated_lit.
    + repeat constructor. by apply terminated_lit.
Qed.
End envelope.

(** ** The way through both *)

Section both.
Context {L : LibQmail} {LL : LibQmailLaws L} (cfg : config) (st : setting).
Context (scan_int scan_uint : bytes → Z) (case_equal : bytes → bytes → bool).
Context (mess822_ok : bytes → bool) (beyond : bytes → bytes).
Context (use_fsync use_fdatasync : bool) (s0 : qqueue).
Context (argv0 queuedesc : bytes) (error_str : errno → bytes) (todo_chunk_size : Z).

#[local] Abbreviation configured := (QueueSpec.configured st scan_int).
#[local] Abbreviation verdict := (QueueSpec.verdict st scan_int scan_uint case_equal mess822_ok beyond).
#[local] Abbreviation kept_lines := (QueueSpec.kept_lines scan_uint case_equal mess822_ok beyond).
#[local] Abbreviation message_text := (QueueSpec.message_text scan_uint case_equal mess822_ok beyond).
#[local] Abbreviation num := (QueueSpec.num s0).

(** No zero byte gets into a record: the numbers fit, the environment consists of C
    strings, the address of the quarantine has no zero byte, and the message has
    none. *)
Record clean_setting : Prop := {
  cs_uid : ulong (uid st);
  cs_pid : ulong (mypid st);
  cs_env v p : env_get st v = Some p → 0%Z ∉ p;
  cs_quarantine q : configured "QUARANTINE" "quarantine" false = Some q → 0%Z ∉ q;
  cs_body : 0%Z ∉ mjoin (body s0)
}.

Lemma line_by_zero s : 0%Z ∉ s → 0%Z ∉ (line_by c_lf s).1.
Proof.
  induction s as [|c s IH]; simpl; [done|]. intros [? ?]%not_elem_of_cons.
  case_decide; [set_solver|]. destruct (line_by _ s). simpl in *. set_solver.
Qed.

Lemma header_line_env h line h' x i g :
  header_line scan_uint case_equal beyond h line = (h', x, i, g) → h_envheaders h' = h_envheaders h.
Proof.
  unfold header_line. case_decide; [by intros [= <- _ _ _]|].
  destruct (incl_loop _ _ _ _ _ _ _ _ _) as [[[? ?] ?] ?]. by intros [= <- _ _ _].
Qed.

Lemma kept_no_zero fuel rest h :
  0%Z ∉ rest → 0%Z ∉ h_envheaders h → 0%Z ∉ (kept_lines fuel rest h).2.
Proof.
  revert rest h. induction fuel as [|fuel IH]; intros rest h Hr Hh; cbn [QueueSpec.kept_lines]; [done|].
  pose proof (line_by_zero rest Hr) as Hl. destruct (line_by c_lf rest) as [line found]. simpl in Hl.
  destruct (negb found && _); [done|].
  set (h1 := if h_in_header h && _ then _ else h).
  assert (Hh1 : 0%Z ∉ h_envheaders h1) by (unfold h1; by destruct (_ && _)). clearbody h1.
  assert (Hd : 0%Z ∉ drop (length line) rest).
  { intros H. apply Hr. rewrite <- (take_drop (length line) rest). apply elem_of_app. by right. }
  destruct (negb (h_in_header h1)).
  { specialize (IH _ h1 Hd Hh1). by destruct (kept_lines fuel _ h1). }
  destruct (header_line _ _ _ h1 line) as [[[h2 ex] inc] g] eqn:E.
  apply header_line_env in E. set (h3 := if inc && _ then _ else h2).
  assert (Hh3 : 0%Z ∉ h_envheaders h3).
  { unfold h3. destruct (inc && _); simpl; rewrite E; [|done]. by apply not_elem_of_app. }
  clearbody h3. destruct found; [|done]. specialize (IH _ h3 Hd Hh3). by destruct (kept_lines fuel _ h3).
Qed.

(** What a verdict in favour of the message comes from. *)
Lemma verdict_inv d o :
  clean_setting → verdict s0 = inr (Some (d, o)) →
  ∃ r t envheaders x sender rest rcpts,
    configuration st scan_int = Some r ∧
    message_text (Lists (r_remove r) (r_pass r) (r_log r)) (mjoin (body s0)) = (t, envheaders) ∧
    d = message st scan_int t ∧ scan_verdict st scan_int d (r_quarantine r) = inr x ∧
    plain st x envheaders ∧ parse_sender (envelope s0) = inr (sender, rest) ∧
    parse_recipients st scan_int (S (length rest)) rest = inr rcpts ∧
    o = envelope_of st scan_int (r_extraqueue r) envheaders x sender rcpts.
Proof.
  intros [H1 H2 H3 H4 H5] HV. unfold QueueSpec.verdict in HV.
  unfold configuration.
  destruct (configured "EXTRAQUEUE" "extraqueue" false) as [extraqueue|]; [|done].
  destruct (configured "QUARANTINE" "quarantine" false) as [quar|]; [|done].
  specialize (H4 quar eq_refl).
  destruct (configured "REMOVEHEADERS" "removeheaders" true) as [excl|]; [|done].
  destruct (configured "ENVHEADERS" "envheaders" true) as [incl|]; [|done].
  destruct (configured "LOGHEADERS" "logheaders" true) as [logh|]; [|done].
  destruct (message_text _ _) as [t envheaders] eqn:Et.
  assert (Henv : 0%Z ∉ envheaders).
  { unfold QueueSpec.message_text in Et. destruct (bool_decide _); [injection Et as _ <-; set_solver|].
    pose proof (kept_no_zero (S (length (mjoin (body s0)))) (mjoin (body s0))
      (Header excl incl [] false true true true true 0 0 []) H5 ltac:(set_solver)) as H.
    cbn [l_excl l_incl] in Et. rewrite Et in H. done. }
  destruct (scan_verdict st scan_int _ quar) as [|x] eqn:Ex; [done|].
  assert (Hx : plain st x envheaders).
  { assert (Hqq : 0%Z ∉ default [] (env_get st (lit "QQEH"))).
    { destruct (env_get st (lit "QQEH")) eqn:E; simpl; [by eapply H3|set_solver]. }
    assert (Hvf : 0%Z ∉ default quar (env_get st (lit "VIRUSFORWARD"))).
    { destruct (env_get st (lit "VIRUSFORWARD")) eqn:E; simpl; [by eapply H3|done]. }
    assert (Hlit : (0%Z ∉ lit "X-QHPSI: Virus found" ++ [c_lf]) ∧ 0%Z ∉ lit "X-QHPSI: clean" ++ [c_lf])
      by by apply (bool_decide_eq_true _).
    unfold QueueSpec.scan_verdict in Ex. repeat case_match; simplify_eq; split; simpl; try done; try apply Hlit; set_solver. }
  destruct (verdict_envelope _ _ _ _ _ _) as [|[e|]] eqn:Ee; simplify_eq.
  unfold verdict_envelope in Ee. destruct (parse_sender (envelope s0)) as [|[sender rest]]; [done|].
  destruct (flagblackhole x && _); [by case_decide|].
  destruct (parse_recipients _ _ _ rest) as [|rcpts] eqn:Er; [done|]. simplify_eq.
  by exists (Rules extraqueue quar excl incl logh), t, envheaders, x, sender, rest, rcpts.
Qed.

#[local] Abbreviation qmail_queue :=
  (QmailQueue.qmail_queue cfg st use_fsync use_fdatasync scan_int scan_uint case_equal mess822_ok beyond).
#[local] Abbreviation todo_do :=
  (TodoProc.todo_do cfg argv0 queuedesc error_str scan_int todo_chunk_size).

(** The records of the recipients, and those of the header fields. *)
Definition recipient_lines (extraqueue : bytes) (x : scanned) (rcpts : list bytes) : list bytes :=
  map (λ t, lit "T" ++ t ++ [0%Z]) (tokens extraqueue) ++
  (if quarantined st scan_int x then [lit "T" ++ quarantine x ++ [0%Z]] else map (λ a, lit "T" ++ a) rcpts).
Definition header_lines (envheaders : bytes) (x : scanned) (rcpts : list bytes) : list bytes :=
  let qqeh := qqeh st scan_int in
  (if bool_decide (qqeh = [] ∧ extra_fields st scan_int x rcpts = []) then []
   else [qqeh_record qqeh (extra_fields st scan_int x rcpts)]) ++
  (if decide (envheaders = []) then [] else [lit "h" ++ envheaders ++ [0%Z]]).

Lemma recipient_lines_kind extraqueue x rcpts :
  Forall (λ l, recipient_record l = true ∧ info_record l = false) (recipient_lines extraqueue x rcpts).
Proof.
  unfold recipient_lines. apply Forall_app_2; [apply Forall_map, Forall_true; done|].
  destruct (quarantined _ _ x); [by repeat constructor|]. by apply Forall_map, Forall_true.
Qed.
Lemma header_lines_kind envheaders x rcpts :
  Forall (λ l, recipient_record l = false ∧ info_record l = true) (header_lines envheaders x rcpts).
Proof.
  unfold header_lines, qqeh_record. apply Forall_app_2; [case_bool_decide|case_decide];
    by repeat constructor.
Qed.

Lemma records_split extraqueue envheaders x sender rcpts (s : tproc) :
  let rs := envelope_records st scan_int extraqueue envheaders x sender rcpts in
  info_of rs = lit "F" ++ sender ++ mjoin (header_lines envheaders x rcpts) ∧
  ∀ c, recips s c rs = filter (λ l, channel_of s l = c) (recipient_lines extraqueue x rcpts).
Proof.
  pose proof (recipient_lines_kind extraqueue x rcpts) as Hr.
  pose proof (header_lines_kind envheaders x rcpts) as Hh.
  assert (E : envelope_records st scan_int extraqueue envheaders x sender rcpts =
    [lit "u" ++ fmt_ulong (uid st) ++ [0%Z]; lit "p" ++ fmt_ulong (mypid st) ++ [0%Z]; lit "F" ++ sender] ++
    recipient_lines extraqueue x rcpts ++ header_lines envheaders x rcpts).
  { unfold envelope_records, recipient_lines, header_lines. by rewrite <- !(assoc_L app). }
  cbv zeta. rewrite E. split.
  - unfold info_of. rewrite !filter_app, (filter_none _ (recipient_lines _ _ _)), (filter_all _ (header_lines _ _ _)).
    + simpl. reflexivity.
    + eapply Forall_impl; [exact Hh|naive_solver].
    + eapply Forall_impl; [exact Hr|]. intros l [_ ->]. done.
  - intros c. unfold recips. rewrite !filter_app, (filter_none _ (header_lines _ _ _)).
    + simpl. rewrite app_nil_r. clear -Hr. induction Hr as [|l ls [Hl _] _ IH]; [done|].
      rewrite !filter_cons, IH, Hl. case_decide; case_decide; naive_solver.
    + eapply Forall_impl; [exact Hh|]. intros l [-> _]. naive_solver.
Qed.

(** It is todo-proc's turn for the message, and it may go on. *)
Record turn (s : tproc) (name : option bytes) (q : list (Z * Z * option bytes)) : Prop := {
  tn_split : match name with Some p => scan_int p = scan_int (drop 5 (fnmake_todo cfg num)) | None => True end;
  tn_clean : head (from_clean s) = Some c_plus;
  tn_attached : flagdetached s = false;
  tn_running : flagexittodo s = false;
  tn_time : (todo_interval s ≤ 0 ∨ nexttodorun s ≤ recent s)%Z;
  tn_dir : flagtododir s = true;
  tn_next : todosubdir s = ((1%Z, num), name) :: q
}.

(** The files todo-proc makes for a message: info holds the sender and the header
    fields, each channel file the rewritten recipients of its channel. *)
Definition split_files (s : tproc) (sender : bytes) (rcpts headers : list bytes) (w : world) : Prop :=
  (∃ i, names w !! fnmake_info cfg num = Some i ∧ file_data w i = lit "F" ++ sender ++ mjoin headers) ∧
  ∀ c, let l := filter (λ l, channel_of s l = c) rcpts in
    match names w !! fnmake_chanaddr cfg num c with
    | Some i => file_data w i = mjoin (map (λ l, (rewrite s (cstr (tail l))).1) l)
    | None => l = []
    end.

Lemma queued_inodes_ok d o s :
  inodes_ok (qw s0) → queued cfg st s0 use_fsync use_fdatasync d o s → inodes_ok (qw s).
Proof.
  intros Hok Hq p i.
  rewrite (qd_names _ _ _ _ _ _ _ _ Hq), (qd_next _ _ _ _ _ _ _ _ Hq), !lookup_insert_Some.
  unfold QueueSpec.n0. intros [[_ <-]|[_ [[_ <-]|[_ [[_ <-]|[_ Hp]]]]]]; [lia..|].
  specialize (Hok p i Hp). lia.
Qed.

(** The records are those of the specification. *)
Lemma recipient_lines_promised e x rcpts : recipient_lines e x rcpts = recipient_records st scan_int e x rcpts.
Proof. unfold recipient_lines, recipient_records. by rewrite tokens_pieces. Qed.
Lemma header_lines_promised passed x rcpts :
  mjoin (header_lines passed x rcpts) = mjoin (header_records st scan_int x rcpts passed).
Proof.
  unfold header_lines, header_records, delivery_fields. rewrite !join_app, <- qqeh_record_same.
  change (qqehextra x ++ quarantine_field st scan_int x rcpts) with (extra_fields st scan_int x rcpts).
  change (if QueueSpec.fast st scan_int then [] else default [] (env_get st (lit "QQEH"))) with (qqeh st scan_int).
  unfold qqeh_record, record_of. case_bool_decide; cbn [mjoin list_join]; by rewrite ?app_nil_r.
Qed.

(** C24. A message that qmail-queue accepts leaves todo.  When nothing disturbs
    qmail-queue, what it promises is to accept the message, and it is the turn of the
    message and qmail-clean agrees, then [todo_do] finds in todo the sender of the
    envelope, its recipients with those of extraqueue, or the quarantine instead, as the
    control files and the scanner say, and the header fields for the delivery, with those
    of the message that envheaders lists; it splits them into the files info, local and
    remote, has qmail-clean remove the envelope and tells qmail-send.  No record has a
    zero byte in it ([clean_setting]), and no entry of envheaders has a colon. *)
Theorem accepted_then_published d o s trigger name q :
  (∀ r, configuration st scan_int = Some r → c_colon ∉ r_pass r) →
  fresh s0 → undisturbed cfg st s0 → inodes_ok (qw s0) → clean_setting →
  promised st scan_int case_equal mess822_ok beyond (mjoin (body s0)) (envelope s0) = inr (Some (d, o)) →
  tw s = qw (run qmail_queue s0) → turn s name q →
  ∃ r x sender rest rcpts,
    configuration st scan_int = Some r ∧
    d = promised_message st scan_int case_equal mess822_ok beyond r (mjoin (body s0)) ∧
    treatment st scan_int (r_quarantine r) d = inr x ∧
    parse_sender (envelope s0) = inr (sender, rest) ∧
    parse_recipients st scan_int (S (length rest)) rest = inr rcpts ∧
    let s' := run (todo_do trigger) s in
    split_files s sender (recipient_records st scan_int (r_extraqueue r) x rcpts)
      (header_records st scan_int x rcpts (fields_in case_equal mess822_ok beyond (r_pass r) (mjoin (body s0)))) (tw s') ∧
    to_clean s' = to_clean s ++ [fnmake_todo cfg num ++ [0%Z]] ∧ announced cfg num s'.
Proof.
  intros Hcolon Hf Hu Hok Hcl HV Htw [T1 T2 T3 T4 T5 T6 T7].
  rewrite (promised_verdict st scan_int scan_uint case_equal mess822_ok beyond s0 Hcolon) in HV.
  destruct (verdict_inv d o Hcl HV) as (r0 & t & envheaders & x & sender & rest & rcpts & Hcf & Ht & Hd & Hx & Hp & Hs & Hr & ->).
  specialize (Hcolon _ Hcf). destruct r0 as [extraqueue quar rm ps lg]. cbn [r_pass r_remove r_log r_quarantine r_extraqueue] in *.
  rewrite message_text_fields in Ht by done. injection Ht as <- <-. rewrite treatment_same in Hx.
  exists (Rules extraqueue quar rm ps lg), x, sender, rest, rcpts. split; [done|].
  split; [rewrite Hd; unfold message, promised_message; by rewrite received_same, origin_same|].
  split; [done|]. split; [done|]. split; [done|]. cbn [r_extraqueue r_pass].
  set (envheaders := fields_in _ _ _ _ _) in *.
  pose proof (main_accepts cfg st s0 scan_int scan_uint case_equal mess822_ok beyond use_fsync use_fdatasync
    d _ Hf Hu HV) as Hq.
  set (s1 := run qmail_queue s0) in *. set (o := envelope_of _ _ _ _ _ _ _) in *.
  destruct (envelope_known st scan_int extraqueue envheaders x sender _ _ _ _ Hp Hs Hr) as [Erec Hknown].
  fold o in Erec, Hknown.
  assert (Hfd : names (tw s) !! fnmake_todo cfg num = Some (S (n0 s0))).
  { rewrite Htw, (qd_names _ _ _ _ _ _ _ _ Hq). apply lookup_insert_eq. }
  assert (Hdata : file_data (tw s) (S (n0 s0)) = o) by (rewrite Htw; apply Hq).
  pose proof (todo_do_publishes cfg argv0 queuedesc error_str scan_int todo_chunk_size s trigger num name q) as H.
  unfold run. destruct (todo_do trigger s) as [r s'].
  destruct H as (Hun & [Hto (fd & Hfd' & _ & Hpub)] & _ & Hann); try done.
  - rewrite Htw. by eapply queued_inodes_ok.
  - split; try done.
    + rewrite Htw. by apply (qd_calm _ _ _ _ _ _ _ _ Hq).
    + rewrite Htw, (qd_names _ _ _ _ _ _ _ _ Hq). rewrite !lookup_insert_ne by done.
      rewrite lookup_insert_eq. by eexists.
    + intros fd E. rewrite Hfd in E. injection E as <-. by rewrite Hdata.
  - destruct (Hun _ _ Hfd) as [E1 E2]; [intros; by apply todo_not_info|intros; by apply todo_not_chan|].
    rewrite Hfd' in E1. injection E1 as ->. rewrite E2, Hdata in Hpub. simpl. split; [|done].
    destruct (records_split extraqueue envheaders x sender rcpts s) as [Ei Ec].
    destruct Hpub as [(i & Hi & Hid) Hc]. split.
    + exists i. split; [done|]. by rewrite Hid, Erec, <- header_lines_promised.
    + intros c. specialize (Hc c). unfold chan_of in Hc. rewrite Erec, Ec, recipient_lines_promised in Hc.
      by destruct (names (tw s') !! fnmake_chanaddr cfg num c).
Qed.
End both.
