(* ===== verification/QueueRun.v ===== *)
(** * A message on its way into the queue

    One run of qmail-queue, and of todo-proc after it, at which the theorems of
    both are applied. *)

From S2P Require Import Prelude LibQmail Prioq Filesys Records Control Fmtqfn SendState.
From S2P Require Import TodoProc TodoSplit TodoTheorems QmailQueue QueueSpec QueueHeaders.
From S2P Require Import QueueTheorems QueueTodo.

Module QueueRun.
#[local] Existing Instance reference_libqmail.
#[local] Existing Instance reference_laws.

Definition cfg : config := TodoRun.cfg.
Definition scan_int : bytes → Z := TodoRun.scan_int.

(** removeheaders lists Bcc, envheaders lists List-Id. *)
Definition control_file (f : bytes) : ctlfile :=
  if decide (f = lit "removeheaders") then Contents (lit "Bcc:" ++ [c_lf])
  else if decide (f = lit "envheaders") then Contents (lit "List-Id" ++ [c_lf])
  else Absent.
Definition st : setting :=
  Setting (λ v, if decide (v = lit "HOSTNAME") then Some (lit "mx.example.org") else None)
    control_file 1000 77 501 7 8 None None (lit "1 Jan 2024 00:00:00 -0000" ++ [c_lf]) (Exited 0).

Definition mess822_ok (l : bytes) : bool := bool_decide (c_colon ∈ l).
Definition case_equal (a b : bytes) : bool := bool_decide (a = b).
Definition beyond (l : bytes) : bytes := [].

Definition line (s : string) : bytes := lit s ++ [c_lf].
Definition fields : list (list bytes) :=
  [[line "Subject: hi"]; [line "Bcc: eve@example.net,"; line " mallory:example.net"]; [line "List-Id: x"]].
Definition text : bytes := [c_lf] ++ line "Hello" ++ lit "world".
Definition s0 : qqueue :=
  QQ (World {[ lit "lock/trigger" := 0 ]} {[ 0 := Inode [] 10 10 ]} 5 [] 1000 [])
    [] [text_of fields; text]
    (TodoRun.z "Fjoe@example.org" ++ TodoRun.z "Tbob@example.org" ++ TodoRun.z "Tann@virt.org" ++ [0%Z])
    0 None None ∅ [] false.

Definition queue : ST qqueue Z :=
  qmail_queue cfg st true false scan_int scan_int case_equal mess822_ok beyond.
Definition mess : bytes :=
  lit "Received: indimail-mta queue 77 by host mx.example.org" ++ [c_lf] ++
  lit " (invoked by uid 501); 1 Jan 2024 00:00:00 -0000" ++ [c_lf] ++
  line "Subject: hi" ++ line "List-Id: x" ++ text.
Definition todo : bytes :=
  TodoRun.z "u501" ++ TodoRun.z "p77" ++ TodoRun.z "Fjoe@example.org" ++ TodoRun.z "Tbob@example.org" ++
  TodoRun.z "Tann@virt.org" ++ lit "h" ++ line "List-Id: x" ++ [0%Z].

Lemma s0_verdict :
  verdict st scan_int scan_int case_equal mess822_ok beyond s0 = inr (Some (mess, todo)).
Proof. by vm_compute. Qed.
Lemma s0_promised :
  promised st scan_int case_equal mess822_ok beyond (mjoin (body s0)) (envelope s0) = inr (Some (mess, todo)).
Proof. by vm_compute. Qed.
Lemma st_no_colon r : configuration st scan_int = Some r → c_colon ∉ r_pass r.
Proof. intros E. vm_compute in E. injection E as <-. by apply (bool_decide_eq_true _). Qed.
Lemma s0_undisturbed : undisturbed cfg st s0.
Proof. split; by vm_compute. Qed.
Lemma s0_clean : clean_setting st scan_int s0.
Proof.
  split; try by vm_compute.
  - intros v p. unfold st. simpl. case_decide; [intros [= <-]|done]. by apply (bool_decide_eq_true _).
  - intros q. vm_compute. intros [= <-]. set_solver.
  - by apply (bool_decide_eq_true _).
Qed.
Lemma s0_inodes : inodes_ok (qw s0).
Proof. intros p i. simpl. rewrite lookup_singleton_Some. intros [_ <-]. lia. Qed.

(** todo-proc finds the message. *)
Definition t0 : tproc :=
  TProc (qw (run queue s0)) 1000 [] 0 0 true false false false true 1000 (-1) 1 0 (lit "example.org")
    (λ _, false) (λ d, bool_decide (d = lit "example.org"))
    (λ d, if decide (d = lit "virt.org") then Some (lit "v") else None)
    [] [] [((1%Z, 5%Z), Some (lit "5"))] [] [c_plus] [].
Definition step (s : tproc) : Z * tproc :=
  TodoProc.todo_do cfg (lit "todo-proc") (lit "queue1") (λ _, lit "error") scan_int 10 false s.
End QueueRun.

Lemma message_accepted_witness :
  val QueueRun.queue QueueRun.s0 = 0%Z ∧
  ∃ d o, @queued reference_libqmail QueueRun.cfg QueueRun.st QueueRun.s0 true false d o
           (run QueueRun.queue QueueRun.s0).
Proof.
  assert (Hr : val QueueRun.queue QueueRun.s0 = 0%Z) by by vm_compute.
  split; [exact Hr|].
  pose proof (@message_accepted reference_libqmail QueueRun.cfg QueueRun.st QueueRun.s0
    QueueRun.scan_int QueueRun.scan_int QueueRun.case_equal QueueRun.mess822_ok QueueRun.beyond true false
    (conj eq_refl eq_refl)) as H.
  unfold val, run, QueueRun.queue in *. destruct (qmail_queue _ _ _ _ _ _ _ _ _ _) as [r s].
  destruct H as (_ & _ & H). destruct (H Hr) as [E|(d & o & _ & Hq)].
  - exfalso. rewrite QueueRun.s0_verdict in E. discriminate E.
  - exists d, o. exact Hq.
Defined.


(** Bcc is dropped with the line that continues it, List-Id is passed on, and Subject is
    logged; what looks like a field in the body stays. *)
Definition filtered_text : bytes := text_of QueueRun.fields ++ QueueRun.text ++ QueueRun.line "Bcc: me".
Lemma fields_filtered_witness :
  let '(r, q) := @QmailQueue.line_loop reference_libqmail QueueRun.cfg QueueRun.st QueueRun.scan_int QueueRun.case_equal
    QueueRun.mess822_ok QueueRun.beyond (S (length filtered_text)) 7 filtered_text
    (Header (TodoRun.z "Bcc:") (TodoRun.z "List-Id") (TodoRun.z "Subject") true true true true true 0 0 []) QueueRun.s0 in
  r = inr (QueueRun.line "List-Id: x") ∧
  file_data (qw q) 7 = QueueRun.line "Subject: hi" ++ QueueRun.line "List-Id: x" ++ QueueRun.text ++ QueueRun.line "Bcc: me" ∧
  logged q = QueueRun.line "Subject: hi".
Proof.
  pose proof (@fields_filtered reference_libqmail reference_laws QueueRun.scan_int QueueRun.case_equal
    QueueRun.mess822_ok QueueRun.beyond QueueRun.cfg QueueRun.st (TodoRun.z "Bcc:") (TodoRun.z "List-Id")
    (TodoRun.z "Subject") true 7 filtered_text QueueRun.s0) as H.
  specialize (H ltac:(by apply (bool_decide_eq_true _)) (conj eq_refl eq_refl)).
  destruct (QmailQueue.line_loop _ _ _ _ _ _ _ _ _ _ _) as [r q]. destruct H as (-> & -> & -> & _).
  split_and!; by vm_compute.
Defined.

Lemma envelope_read_witness :
  records QueueRun.todo = [TodoRun.z "u501"; TodoRun.z "p77"; TodoRun.z "Fjoe@example.org";
    TodoRun.z "Tbob@example.org"; TodoRun.z "Tann@virt.org"; lit "h" ++ QueueRun.line "List-Id: x" ++ [0%Z]].
Proof.
  assert (Hp : plain QueueRun.st (Scanned false [] []) (QueueRun.line "List-Id: x")).
  { split; try (by vm_compute); by apply (bool_decide_eq_true _). }
  destruct (@envelope_read reference_libqmail reference_laws QueueRun.st QueueRun.scan_int []
    (QueueRun.line "List-Id: x") (Scanned false [] []) (TodoRun.z "joe@example.org") (envelope QueueRun.s0)
    (TodoRun.z "Tbob@example.org" ++ TodoRun.z "Tann@virt.org" ++ [0%Z]) 40
    [TodoRun.z "bob@example.org"; TodoRun.z "ann@virt.org"] Hp) as [H _]; [by vm_compute..|].
  etrans; [exact H|]. by vm_compute.
Defined.

Lemma accepted_then_published_witness :
  to_clean (run QueueRun.step QueueRun.t0) = [lit "todo/5/5" ++ [0%Z]] ∧
  @announced reference_libqmail QueueRun.cfg 5 (run QueueRun.step QueueRun.t0).
Proof.
  destruct (@accepted_then_published reference_libqmail reference_laws QueueRun.cfg QueueRun.st
    QueueRun.scan_int QueueRun.scan_int QueueRun.case_equal QueueRun.mess822_ok QueueRun.beyond true false
    QueueRun.s0 (lit "todo-proc") (lit "queue1") (λ _, lit "error") 10 QueueRun.mess QueueRun.todo
    QueueRun.t0 false (Some (lit "5")) [] QueueRun.st_no_colon (conj eq_refl eq_refl) QueueRun.s0_undisturbed
    QueueRun.s0_inodes QueueRun.s0_clean QueueRun.s0_promised eq_refl)
    as (rl & x & sender & rest & rcpts & _ & _ & _ & _ & _ & _ & H & Ha).
  { split; try by vm_compute. by left. }
  split; [etrans; [exact H|by vm_compute]|exact Ha].
Defined.

(** A quarantine set by its control file. *)
Definition quarantine_setting : setting :=
  Setting (λ _, None) (λ f, if decide (f = lit "quarantine") then Contents (lit "q@example.org" ++ [c_lf]) else Absent)
    1000 77 501 7 8 None None [] (Exited 0).

Lemma quarantine_file_stuck_witness :
  ∃ quar, configured quarantine_setting QueueRun.scan_int "QUARANTINE" "quarantine" false = Some quar ∧
    ¬ Forall (λ l, known_record l = true)
        (records (@envelope_of reference_libqmail quarantine_setting QueueRun.scan_int [] []
          (Scanned false quar []) (TodoRun.z "joe@example.org") [TodoRun.z "bob@example.org"])).
Proof.
  apply (@quarantine_file_stuck reference_libqmail reference_laws quarantine_setting QueueRun.scan_int
    [] [] false [] (lit "q@example.org") (TodoRun.z "joe@example.org") (TodoRun.z "Tbob@example.org" ++ [0%Z])
    (TodoRun.z "Fjoe@example.org" ++ TodoRun.z "Tbob@example.org" ++ [0%Z]) 40).
  - by vm_compute.
  - by vm_compute.
  - by vm_compute.
  - by vm_compute.
  - by vm_compute.
  - split; [done| |done|].
    + by apply (bool_decide_eq_true _).
    + intros c [= <-]. by vm_compute.
  - by vm_compute.
  - by vm_compute.
Defined.

(** A scanner that finds a virus, with VIRUSFORWARD set: the message goes to that
    address, with the field of the scanner and the recipients it was for; and one that
    crashes. *)
Definition scanned_setting (w : wstat) : setting :=
  Setting (λ v, if decide (v = lit "QHPSI") then Some (lit "clamdscan")
                else if decide (v = lit "VIRUSFORWARD") then Some (lit "q@example.org") else None)
    QueueRun.control_file 1000 77 501 7 8 None None (lit "1 Jan 2024 00:00:00 -0000" ++ [c_lf]) w.
Definition scanned_run (w : wstat) : Z * qqueue :=
  @qmail_queue reference_libqmail QueueRun.cfg (scanned_setting w) true false QueueRun.scan_int QueueRun.scan_int
    QueueRun.case_equal QueueRun.mess822_ok QueueRun.beyond QueueRun.s0.
Example infected_run :
  let '(r, s) := scanned_run (Exited 1) in
  r = 0%Z ∧ file_data (qw s) 6 =
    TodoRun.z "u501" ++ TodoRun.z "p77" ++ TodoRun.z "Fjoe@example.org" ++ TodoRun.z "Tq@example.org" ++
    lit "e" ++ QueueRun.line "X-QHPSI: Virus found" ++
    QueueRun.line "X-Quarantine-ID: q@example.org,bob@example.org,ann@virt.org" ++ [0%Z] ++
    lit "h" ++ QueueRun.line "List-Id: x" ++ [0%Z].
Proof. by vm_compute. Qed.
Example scanner_crash_run :
  let '(r, s) := scanned_run Crashed in r = 123%Z ∧ map_to_list (names (qw s)) = [(lit "lock/trigger", 0)].
Proof. by vm_compute. Qed.

(** The length that may follow a name in envheaders is not a limit on the field:
    it is compared with the length of the name, and only on the first line of the
    header. *)
Lemma length_limits_misread :
  let kept incl s := (@message_text reference_libqmail QueueRun.scan_int QueueRun.case_equal
    QueueRun.mess822_ok QueueRun.beyond (Lists [] (TodoRun.z incl) []) s).2 in
  kept "Subject:9" (QueueRun.line "Subject: a long subject") = QueueRun.line "Subject: a long subject" ∧
  kept "Subject:3" (QueueRun.line "Subject: x") = [] ∧
  kept "Subject:3" (QueueRun.line "To: bob" ++ QueueRun.line "Subject: a long subject") =
    QueueRun.line "Subject: a long subject".
Proof. by vm_compute. Qed.
