(* ===== verification/Qmail.v ===== *)
(** * Talking to qmail-queue: [qmail.c]

    A program that submits a message runs qmail-queue with a pipe for the message, a
    pipe for the envelope, and one on which qmail-queue may explain a refusal.  Once
    something failed, nothing more is written.

    How the child ends is an input of [qmail_close]; that it is the end that
    [QmailQueue] computes from what was written is said where the two are put
    together.  Output through substdio is written at once. *)

From S2P Require Import Prelude QmailQueue.

(** [struct qmail]: [to_mess] and [to_env] are what was written to the two pipes,
    [on_env] tells which one [ss] writes to; [pipes] lists which of the next writes
    fail. *)
Record qmail := Qmail {
  flagerr : bool;
  to_mess : bytes;
  to_env : bytes;
  on_env : bool;
  pipes : list bool
}.
Definition qmail_start (p : list bool) : qmail := Qmail false [] [] false p.

Definition qmail_fail (q : qmail) : qmail := Qmail true (to_mess q) (to_env q) (on_env q) (pipes q).

Definition qmail_put (s : bytes) (q : qmail) : qmail :=
  if flagerr q then q
  else
    match pipes q with
    | true :: p => Qmail true (to_mess q) (to_env q) (on_env q) p
    | p =>
      if on_env q then Qmail false (to_mess q) (to_env q ++ s) true (tail p)
      else Qmail false (to_mess q ++ s) (to_env q) false (tail p)
    end.

(** The end of the message; the sender. *)
Definition qmail_from (s : bytes) (q : qmail) : qmail :=
  let q := match pipes q with
           | true :: p => Qmail true (to_mess q) (to_env q) true p
           | p => Qmail (flagerr q) (to_mess q) (to_env q) true (tail p)
           end in
  qmail_put [0%Z] (qmail_put s (qmail_put (lit "F") q)).

Definition qmail_to (s : bytes) (q : qmail) : qmail :=
  qmail_put [0%Z] (qmail_put s (qmail_put (lit "T") q)).

(** ** The result *)

(** How the child ended, and what came on the third pipe, if there is one. *)
Record child := Child { waited : bool; how : wstat; custom : option bytes }.

Definition perm_error (x : Z) : bool := bool_decide (x = 115 ∨ 11 ≤ x ≤ 40)%Z.

Definition close_texts : list (Z * string) := [
  (115, "Dqq envelope address too long (#5.1.3)");
  (11, "Dqq envelope address too long (#5.1.3)");
  (31, "Dqq mail server permanently rejected message (#5.3.0)");
  (32, "Dqq spam or junk mail threshold exceeded (#5.7.1)");
  (33, "Dqq message contains virus (#5.7.1)");
  (34, "Dqq message contains banned attachment (#5.7.1)");
  (35, "Dqq private key file does not exist (#5.3.5)");
  (50, "Zqq unable to get privilege to run virus scanner (#4.3.0)");
  (51, "Zqq out of memory (#4.3.0)");
  (52, "Zqq timeout (#4.3.0)");
  (41, "Zqq trouble duplicating file descriptors (#4.3.0)");
  (53, "Zqq write error or disk full (#4.3.0)");
  (54, "Zqq read error (#4.3.0)");
  (55, "Zqq unable to read configuration (#4.3.0)");
  (56, "Zqq trouble making network connection (#4.3.0)");
  (57, "Zqq unable to open shared object/plugin (#4.3.0)");
  (58, "Zqq unable to resolve symbol in shared object/plugin (#4.3.0)");
  (59, "Zqq unable to close shared object/plugin (#4.3.0)");
  (60, "Zqq trouble creating pipes/sockets (#4.3.0)");
  (61, "Zqq trouble in home directory (#4.3.0)");
  (62, "Zqq unable to access mess file (#4.3.0)");
  (63, "Zqq trouble doing cd to root directory (#4.3.0)");
  (64, "Zqq trouble syncing message to disk (#4.3.0)");
  (65, "Zqq trouble creating files in intd. (#4.3.0)");
  (66, "Zqq trouble linking todofn to intdfn (#4.3.0)");
  (67, "Zqq trouble linking messfn to pidfn (#4.3.0)");
  (68, "Zqq trouble creating temporary files (#4.3.0)");
  (69, "Zqq trouble syncing dir to disk (#4.3.0)");
  (70, "Zqq trouble with pid file (#4.3.0)");
  (71, "Zqq mail server temporarily rejected message (#4.3.0)");
  (72, "Zqq connection to mail server timed out (#4.4.1)");
  (73, "Zqq connection to mail server rejected (#4.4.1)");
  (74, "Zqq communication with mail server failed (#4.4.2)");
  (75, "Zqq unable to exec (#4.3.0)");
  (76, "Zqq temporary problem with SPAM filter (#4.3.0)");
  (77, "Zqq unable to run QHPSI scanner (#4.3.0)");
  (78, "Zqq trouble getting uids/gids (#4.3.0)");
  (79, "Zqq envelope format error (#4.3.0)");
  (80, "Zqq trouble removing intdfn");
  (91, "Zqq internal bug (#4.3.0)");
  (81, "Zqq internal bug (#4.3.0)");
  (87, "Zqq mail system incorrectly configured. (#4.3.5)");
  (82, "Zqq unable to exec qq (#4.3.0)");
  (120, "Zqq unable to exec qq (#4.3.0)");
  (121, "Zqq unable to fork (#4.3.0)");
  (122, "Zqq waitpid surprise (#4.3.0)");
  (123, "Zqq crashed (#4.3.0)")
]%Z.

Fixpoint assoc (k : Z) (l : list (Z * string)) : option string :=
  match l with
  | [] => None
  | (k', v) :: l => if decide (k' = k) then Some v else assoc k l
  end.

(** The string that [qmail_close] returns; it is empty when the message is in the
    queue. *)
Definition qmail_close (c : child) (q : qmail) : bytes :=
  let q := qmail_put [0%Z] q in
  let err := match pipes q with
             | true :: _ => true
             | _ => flagerr q
             end in
  if negb (waited c) then lit "Zqq waitpid surprise (#4.3.0)"
  else
    match how c with
    | Crashed => lit "Zqq crashed (#4.3.0)"
    | Exited e =>
      if decide (e = 0%Z) then if err then lit "Zqq read error (#4.3.0)" else []
      else if decide (e = QQ_CUSTOM_ERR) then
        match custom c with
        | Some s => if decide (2 < length (take 1023 s)) then cstr (take 1023 s)
                    else lit "Zqq temporary problem (#4.3.0)"
        | None => lit "Zqq temporary problem (#4.3.0)"
        end
      else
        match assoc e close_texts with
        | Some t => lit t
        | None => if perm_error e then lit "Dqq permanent problem (#5.3.0)"
                  else lit "Zqq temporary problem (#4.3.0)"
        end
    end.

(** ** What was written *)

(** Only an orderly end has the result of success. *)
Lemma close_accepted c q : qmail_close c q = [] →
  waited c = true ∧ (how c = Exited 0 ∨ ∃ s, custom c = Some s ∧ how c = Exited QQ_CUSTOM_ERR ∧ cstr (take 1023 s) = []) ∧
  (how c = Exited 0 → flagerr (qmail_put [0%Z] q) = false).
Proof.
  unfold qmail_close. destruct (waited c); [|done]. destruct (how c) as [|e]; [done|]. simpl.
  destruct (decide (e = 0%Z)) as [->|He].
  - intros H. split; [done|]. split; [by left|]. intros _.
    destruct (pipes (qmail_put [0%Z] q)) as [|[] p]; [|done|]; by destruct (flagerr (qmail_put _ q)).
  - destruct (decide (e = QQ_CUSTOM_ERR)) as [->|Hc].
    + destruct (custom c) as [s|]; [|done]. case_decide; [|done]. intros Hs.
      split; [done|]. split; [right; by exists s|done].
    + intros H. exfalso. revert H. unfold assoc, close_texts.
      repeat case_decide; try done. by destruct (perm_error e).
Qed.
