(* ===== verification/Rcpthosts.v ===== *)
(** * Domains that mail is accepted for: [rcpthosts.c]

    The control file rcpthosts, as the constmap made of it, and the database
    morercpthosts.cdb, as the function that looks a key up. *)

From S2P Require Import Prelude LibQmail.

Record rcpthosts_conf := RcpthostsConf {
  flagrh : Z;                    (* what [control_readfile] of rcpthosts returned *)
  maprh : bytes → bool;          (* the constmap of rcpthosts *)
  fdmrh : option (bytes → Z)     (* [cdb_seek] in morercpthosts.cdb *)
}.

(** A loop over the host and the domains it is in. *)
Fixpoint suffix_search {A} (look : bytes → option A) (first : bool) (b : bytes) : option A :=
  match b with
  | [] => None
  | c :: r =>
    match (if first || bool_decide (c = c_dot) then look b else None) with
    | Some x => Some x
    | None => suffix_search look false r
    end
  end.

Definition rcpthosts {L : LibQmail} (case_lower : bytes → bytes) (rh : rcpthosts_conf)
    (nolocal : bool) (buf : bytes) : Z :=
  if decide (flagrh rh ≠ 1)%Z then if nolocal then 0 else 1
  else
    let at_sign := byte_rchr buf c_at in
    if negb nolocal && bool_decide (length buf ≤ at_sign) then 1
    else
      let b := case_lower (drop (if decide (length buf ≤ at_sign) then 0 else at_sign + 1)%nat buf) in
      match suffix_search (λ b, if maprh rh b then Some tt else None) true b with
      | Some _ => 1
      | None =>
        match fdmrh rh with
        | Some seek => default 0 (suffix_search (λ b, let r := seek b in if decide (r = 0) then None else Some r) true b)
        | None => 0
        end
      end%Z.
