(* ===== verification/Qmtpd.v ===== *)
(** * The QMTP server: [qmail-qmtpd.c]

    One connection may bring several messages, each a netstring, with the sender and
    the recipients as netstrings behind it; every recipient gets an answer.  A
    computation gives a value or ends the process; at the end of what the client
    sends the process ends with 0.

    The control files, the environment and the result of qmail-queue are inputs.
    Output through substdio is written at once, memory allocation succeeds, and the
    alarm of an hour does not go off. *)

From S2P Require Import Prelude LibQmail Rcpthosts Qmail.

Record qmtpd_conf := QmtpdConf {
  databytes : Z;                 (* an [unsigned int] *)
  received : bytes;              (* the field that [received] writes *)
  relayclient : option bytes;
  hosts : rcpthosts_conf;
  when : Z; qp : Z               (* the time and the process number in the answer *)
}.

Record qmtpd := Qmtpd {
  client : bytes;
  replies : bytes;
  qq : qmail;
  failure : bytes;
  bytestooverflow : Z
}.
Definition set_client v s := Qmtpd v (replies s) (qq s) (failure s) (bytestooverflow s).
Definition set_replies v s := Qmtpd (client s) v (qq s) (failure s) (bytestooverflow s).
Definition set_qq v s := Qmtpd (client s) (replies s) v (failure s) (bytestooverflow s).
Definition set_failure v s := Qmtpd (client s) (replies s) (qq s) v (bytestooverflow s).
Definition set_bytestooverflow v s := Qmtpd (client s) (replies s) (qq s) (failure s) v.

Notation "'QD' A" := (ST qmtpd (Z + A)) (at level 10, A at next level, only parsing) : mta_scope.
Definition change (f : qmtpd → qmtpd) : QD unit := modify f;; ok tt.
Definition badproto {A} : QD A := mret (inl 100%Z).
Definition resources {A} : QD A := mret (inl 111%Z).

(** ** Reading *)

(** [substdio_get] of one byte. *)
Definition getch : QD Z :=
  s ← getS;
  match client s with
  | [] => mret (inl 0%Z)
  | ch :: r => change (set_client r);;? ok ch
  end.

(** A digit of a length; the second test of the code never applies. *)
Definition digit (len ch : Z) : QD Z :=
  if decide (ch < 48 ∨ 57 < ch)%Z then badproto
  else
    let len := wrap 64 (10 * len + (ch - 48)) in
    if decide (200000000 < len)%Z then resources else ok len.

Fixpoint getlen_loop (fuel : nat) (len : Z) : QD Z :=
  match fuel with
  | 0 => ok len
  | S fuel =>
    ch ←? getch;
    if decide (ch = c_colon) then ok len else len ←? digit len ch; getlen_loop fuel len
  end.
Definition getlen : QD Z := s ← getS; getlen_loop (S (length (client s))) 0.

Definition getcomma : QD unit := ch ←? getch; if decide (ch ≠ 44%Z) then badproto else ok tt.

(** [len] bytes, for the message, into the buffer, or past. *)
Fixpoint getn (len : nat) : QD bytes :=
  match len with
  | 0 => ok []
  | S len => ch ←? getch; r ←? getn len; ok (ch :: r)
  end.

(** ** The message *)

Definition fail : QD unit := change (λ s, set_qq (qmail_fail (qq s)) s).

(** A byte of the message where bytes are counted. *)
Definition put (ch : Z) : QD unit :=
  s ← getS;
  (if decide (bytestooverflow s = 0%Z) then ok tt
   else
     change (set_bytestooverflow (bytestooverflow s - 1)%Z);;?
     if decide (bytestooverflow s - 1 = 0)%Z then fail else ok tt);;?
  change (λ s, set_qq (qmail_put [ch] (qq s)) s).

(** Lines that end with a carriage return and a line feed.  [ch] is the byte read
    last, with which the inner loop is entered. *)
Fixpoint dos_loop (fuel : nat) (len : Z) (ch : option Z) : QD unit :=
  match fuel with
  | 0 => ok tt
  | S fuel =>
    match ch with
    | None => if decide (0 < len)%Z then c ←? getch; dos_loop fuel (len - 1) (Some c) else ok tt
    | Some ch =>
      if decide (ch = c_cr ∧ 0 < len)%Z then
        c ←? getch;
        if decide (c = c_lf) then put c;;? dos_loop fuel (len - 1) None
        else put c_cr;;? dos_loop fuel (len - 1) (Some c)
      else put ch;;? dos_loop fuel len None
    end
  end.

Fixpoint unix_loop (len : nat) : QD unit :=
  match len with
  | 0 => ok tt
  | S len => ch ←? getch; change (λ s, set_qq (qmail_put [ch] (qq s)) s);;? unix_loop len
  end.

Section Qmtpd.
Context {L : LibQmail} (cf : qmtpd_conf) (case_lower : bytes → bytes).

Definition message (flagdos : bool) (len : Z) : QD unit :=
  if flagdos then dos_loop (S (S (Z.to_nat (2 * len)))) len None
  else
    (if decide (databytes cf ≠ 0 ∧ databytes cf < len)%Z then change (set_bytestooverflow 0);;? fail else ok tt);;?
    unix_loop (Z.to_nat len).

(** The sender; whether it is acceptable. *)
Definition sender : QD bool :=
  len ←? getlen;
  buf ←? getn (Z.to_nat len);
  let long := bool_decide (1000 ≤ len)%Z in
  getcomma;;?
  change (λ s, set_qq (qmail_from (if long then [] else cstr buf) (qq s)) s);;?
  let flagsenderok := negb long && negb (bool_decide (0%Z ∈ buf)) in
  (if flagsenderok then ok tt else fail);;?
  ok flagsenderok.

(** ** The recipients *)

(** The length of a recipient, of which [biglen] bytes are left with those that
    follow. *)
Fixpoint rcpt_len (fuel : nat) (biglen len : Z) : QD (Z * Z) :=
  match fuel with
  | 0 => ok (biglen, len)
  | S fuel =>
    if decide (biglen = 0)%Z then badproto
    else
      ch ←? getch;
      if decide (ch = c_colon) then ok (biglen - 1, len)%Z
      else len ←? digit len ch; rcpt_len fuel (biglen - 1) len
  end.

(** What is noted for a recipient: nothing, or the reason to refuse it. *)
Definition rcpt_verdict (buf : bytes) : QD Z :=
  let n := if bool_decide (0%Z ∈ buf) then 78%Z (* N *) else 0%Z in
  match relayclient cf with
  | Some _ => ok n
  | None =>
    let r := rcpthosts case_lower (hosts cf) false buf in
    if decide (r = -1)%Z then resources else if decide (r = 0)%Z then ok 68%Z (* D *) else ok n
  end.

Fixpoint rcpt_loop (fuel : nat) (biglen : Z) (flagbother : bool) : QD bool :=
  match fuel with
  | 0 => ok flagbother
  | S fuel =>
    if decide (biglen = 0)%Z then ok flagbother
    else
      p ←? rcpt_len (S (Z.to_nat biglen)) biglen 0;
      let '(biglen, len) := p in
      if decide (biglen ≤ len)%Z then badproto
      else
        buf ←? getn (Z.to_nat len);
        let relay := default [] (relayclient cf) in
        f ←? (if decide (1000 ≤ len + Z.of_nat (length relay))%Z then ok 76%Z (* L *) else rcpt_verdict buf);
        change (λ s, set_failure (failure s ++ [f]) s);;?
        (if decide (f = 0)%Z then change (λ s, set_qq (qmail_to (cstr (buf ++ relay)) (qq s)) s) else ok tt);;?
        getcomma;;?
        rcpt_loop fuel (biglen - (len + 1)) (flagbother || bool_decide (f = 0)%Z)
  end.

(** ** The answers *)

(** [pipes] are those of [qmail_open], [None] when it fails; [end_of] is how
    qmail-queue ends on what was written to it. *)
Definition result (flagsenderok : bool) (over : bool) (closed : bytes) : bytes :=
  let r := if over then lit "Dsorry, that message size exceeds my databytes limit (#5.3.4)"
           else if flagsenderok then closed else lit "Dunacceptable sender (#5.1.7)" in
  if decide (r = []) then lit "Kok " ++ fmt_ulong (when cf) ++ lit " qp " ++ fmt_ulong (qp cf) else r.

Definition answer_to (r : bytes) (f : Z) : bytes :=
  match f with
  | 0%Z => fmt_ulong (Z.of_nat (length r)) ++ [c_colon] ++ r ++ lit ","
  | 68%Z => lit "66:Dsorry, that domain isn't in my list of allowed rcpthosts (#5.7.1),"
  | _ => lit "46:Dsorry, I can't handle that recipient (#5.1.3),"
  end.

(** A turn of the loop of [main]. *)
Definition one_message (pipes : option (list bool)) (end_of : bytes → bytes → child) : QD unit :=
  change (set_failure []);;?
  len ←? getlen;
  if decide (len = 0)%Z then badproto
  else
    (if decide (databytes cf = 0)%Z then ok tt else change (set_bytestooverflow (wrap 32 (databytes cf + 1))));;?
    match pipes with
    | None => resources
    | Some p =>
      change (set_qq (qmail_start p));;?
      ch ←? getch;
      (if decide (ch ≠ c_lf ∧ ch ≠ c_cr) then badproto
       else
         change (λ s, set_qq (qmail_put (received cf) (qq s)) s);;?
         message (bool_decide (ch = c_cr)) (len - 1));;?
      getcomma;;?
      flagsenderok ←? sender;
      biglen ←? getlen;
      flagbother ←? rcpt_loop (S (Z.to_nat biglen)) biglen false;
      getcomma;;?
      (if flagbother : bool then ok tt else fail);;?
      s ← getS;
      let q := qmail_put [0%Z] (qq s) in
      let r := result flagsenderok (bool_decide (databytes cf ≠ 0 ∧ bytestooverflow s = 0)%Z)
                 (qmail_close (end_of (to_mess q) (to_env q)) (qq s)) in
      change (λ s, set_replies (replies s ++ mjoin (map (answer_to r) (failure s))) s)
    end.

(** The loop of [main]; the pipes and the results of qmail-queue for each message. *)
Fixpoint serve (fuel : nat) (pipes : nat → option (list bool)) (end_of : nat → bytes → bytes → child) (n : nat) : QD unit :=
  match fuel with
  | 0 => ok tt
  | S fuel => one_message (pipes n) (end_of n);;? serve fuel pipes end_of (S n)
  end.
End Qmtpd.
