(* ===== verification/Smtpd.v ===== *)
(** * Receiving a message: [smtpd.c]

    The DATA command: the reader of the dot-encoded message with its counters for
    header fields, and how it hands the message to qmail-queue; and the parser of
    addresses.

    [client] is what the client still sends; when nothing is left the connection is
    gone.  A computation of the process gives a value or its exit code.  The scanners
    for signatures and bodies ([sigsok], [bodyok]), greylisting, plugins, filters of
    the environment and TLS are not in use; log lines are not kept, memory allocation
    succeeds. *)

From S2P Require Import Prelude LibQmail QmailQueue Qmail.

(** What the process was set up with. *)
Record smtpd_conf := SmtpdConf {
  convertbarelf : bool;
  databytes : Z;
  maxhops : Z;
  received : bytes;       (* the Received field that [received] writes *)
  qp : Z;                 (* the process number of qmail-queue *)
  liphost : option bytes;  (* [liphostok] and [liphost] *)
  read_fails : bool        (* how the connection ends: with an error of read, or at the end of file *)
}.

Record smtpd := Smtpd {
  client : bytes;
  replies : bytes  (* what was sent to the client *);
  seenmail : bool;
  mailfrom : bytes  (* without its terminating zero *);
  rcptto : bytes;
  rcptcount : Z;
  flagsize : bool;
  BytesToOverflow : Z;
  msg_size : Z;
  dsn : bool;
  qqt : qmail
}.

Definition set_client v s := Smtpd v (replies s) (seenmail s) (mailfrom s) (rcptto s)
  (rcptcount s) (flagsize s) (BytesToOverflow s) (msg_size s) (dsn s) (qqt s).
Definition set_replies v s := Smtpd (client s) v (seenmail s) (mailfrom s) (rcptto s)
  (rcptcount s) (flagsize s) (BytesToOverflow s) (msg_size s) (dsn s) (qqt s).
Definition set_seenmail v s := Smtpd (client s) (replies s) v (mailfrom s) (rcptto s)
  (rcptcount s) (flagsize s) (BytesToOverflow s) (msg_size s) (dsn s) (qqt s).
Definition set_BytesToOverflow v s := Smtpd (client s) (replies s) (seenmail s) (mailfrom s)
  (rcptto s) (rcptcount s) (flagsize s) v (msg_size s) (dsn s) (qqt s).
Definition set_msg_size v s := Smtpd (client s) (replies s) (seenmail s) (mailfrom s) (rcptto s)
  (rcptcount s) (flagsize s) (BytesToOverflow s) v (dsn s) (qqt s).
Definition set_dsn v s := Smtpd (client s) (replies s) (seenmail s) (mailfrom s) (rcptto s)
  (rcptcount s) (flagsize s) (BytesToOverflow s) (msg_size s) v (qqt s).
Definition set_qqt v s := Smtpd (client s) (replies s) (seenmail s) (mailfrom s) (rcptto s)
  (rcptcount s) (flagsize s) (BytesToOverflow s) (msg_size s) (dsn s) v.

Notation "'SD' A" := (ST smtpd (Z + A)) (at level 10, A at next level, only parsing) : mta_scope.
Definition change (f : smtpd → smtpd) : SD unit := modify f;; ok tt.

(** [out] of a line, and [flush]. *)
Definition crlf : bytes := [c_cr; c_lf].
Definition out (t : bytes) : SD unit := change (λ s, set_replies (replies s ++ t) s).
Definition say (t : string) : SD unit := out (lit t ++ crlf).

(** ** Counting header fields

    [pos] is the place in the line, the flags tell whether the line may still be a
    Return-Receipt, Received, blank or Delivered one. *)
Record hdr := Hdr {
  pos : nat; flaginheader : bool;
  maybew : bool; maybex : bool; maybey : bool; maybez : bool;
  hops : Z; h_dsn : bool
}.
Definition hdr_start : hdr := Hdr 0 true true true true true 0 false.

(** [ch != "received"[pos] && ch != "RECEIVED"[pos]] *)
Definition unlike (word : string) (p : nat) (ch : Z) : bool :=
  let w := lit word in
  negb (bool_decide (w !! p = Some ch)) &&
  negb (bool_decide (map (λ c, if decide (97 ≤ c ≤ 122)%Z then (c - 32)%Z else c) w !! p = Some ch)).

Definition header_char (h : hdr) (ch : Z) : hdr :=
  if negb (flaginheader h) then h
  else
    let p := pos h in
    let late := bool_decide (8 < p < 14) in
    let w := maybew h && negb (late && unlike "return-receipt" p ch) in
    let d := h_dsn h || (late && w && bool_decide (p = 13)) in
    let early := bool_decide (p < 9) in
    let z := maybez h && negb (early && unlike "delivered" p ch) in
    let n := if early && z && bool_decide (p = 8) then (hops h + 1)%Z else hops h in
    let x := maybex h && negb (bool_decide (p < 8) && unlike "received" p ch) in
    let n := if x && bool_decide (p = 7) then (n + 1)%Z else n in
    let y := maybey h && negb (bool_decide (p < 2) && negb (bool_decide (crlf !! p = Some ch))) in
    let fih := negb (y && bool_decide (p = 1)) in
    if decide (ch = c_lf) then Hdr 0 fih true true true true n d
    else Hdr (if decide (p < 14) then S p else p) fih w x y z n d.

(** ** The message *)

(** [put], of one byte. *)
Definition put (ch : Z) : SD unit :=
  s ← getS;
  (if decide (BytesToOverflow s = 0%Z) then skip
   else
     modify (set_BytesToOverflow (BytesToOverflow s - 1)%Z);;
     when (bool_decide (BytesToOverflow s - 1 = 0)%Z) (modify (λ s, set_qqt (qmail_fail (qqt s)) s)));;
  change (λ s, set_qqt (qmail_put [ch] (qqt s)) (set_msg_size (wrap 64 (msg_size s + 1)) s)).

Definition straynewline {A} : SD A :=
  say "451 Sorry, I received Bare LF. (#4.6.0)";;? mret (inl 1%Z).

Section Smtpd.
Context {L : LibQmail} (conf : smtpd_conf).

(** The next byte.  At the end of file [saferead] ends the process.  With [convertbarelf] a line feed without a carriage return is
    left for the next time, and a carriage return given for it. *)
Definition next_char (seencr : bool) : SD (option (Z * bool)) :=
  s ← getS;
  match client s with
  | [] => if read_fails conf then ok None else mret (inl 1%Z)
  | ch :: rest =>
    if convertbarelf conf then
      if bool_decide (ch = c_lf) && negb seencr then ok (Some (c_cr, true))
      else change (set_client rest);;? ok (Some (ch, bool_decide (ch = c_cr)))
    else change (set_client rest);;? ok (Some (ch, false))
  end.

(** The loop of [blast]: the states are 0 in a line, 1 after a line, 2 after a dot
    that starts a line, 3 after such a dot and a carriage return, 4 after a carriage
    return.  The result is what [blast] returns, and the header flags. *)
Fixpoint blast_loop (fuel : nat) (state : nat) (seencr : bool) (h : hdr) : SD (Z * hdr) :=
  match fuel with
  | 0 => ok (1%Z, h)
  | S fuel =>
    c ←? next_char seencr;
    match c with
    | None => ok (1%Z, h)
    | Some (ch, seencr) =>
      let h := header_char h ch in
      let continue (state : nat) := blast_loop fuel state seencr h in
      let put_ch (state : nat) := put ch;;? continue state in
      let cr := bool_decide (ch = c_cr) in
      let lf := bool_decide (ch = c_lf) in
      match state with
      | 0 =>
        if lf then straynewline else if cr then continue 4 else put_ch 0
      | 1 =>
        if lf then straynewline
        else if decide (ch = c_dot) then continue 2
        else if cr then continue 4 else put_ch 0
      | 2 =>
        if lf then straynewline else if cr then continue 3 else put_ch 0
      | 3 =>
        if lf then ok (0%Z, h)
        else put c_dot;;? put c_cr;;? if cr then continue 4 else put_ch 0
      | _ =>
        if lf then put_ch 1
        else if cr then put_ch 4 else put c_cr;;? put_ch 0
      end
    end
  end.

(** What it returns, and [*hops]. *)
Definition blast : SD (Z * Z) :=
  change (set_msg_size 0%Z);;?
  s ← getS;
  r ←? blast_loop (2 * length (client s) + 1) 1 false hdr_start;
  change (set_dsn (h_dsn (snd r)));;?
  ok (fst r, hops (snd r)).

Definition acceptmessage (when : Z) : SD unit :=
  out (lit "250 ok " ++ fmt_ulong when ++ lit " qp " ++ fmt_ulong (qp conf) ++ crlf).

(** The reply to what [qmail_close] says, when it is not the empty string. *)
Definition refusal (t : bytes) : bytes :=
  let j := str_rchr t c_lf in
  if decide (j + 1 < length t) then
    let l := drop (j + 1) t in
    (match l with
     | 68%Z (* D *) :: l' => lit "554 " ++ l'
     | 90%Z (* Z *) :: l' => lit "451 " ++ l'
     | _ => lit "451 " ++ l
     end) ++ crlf ++ take j t ++ crlf
  else
    let t := take j t in
    (if decide (head t = Some 68%Z) then lit "554 " else lit "451 ") ++ tail t ++ crlf.

(** [opened] tells whether [qmail_open] succeeds, [end_of] how the child ends that
    was given a message and an envelope, and [when] the time then. *)
Definition smtp_data (arg : bytes) (opened : option (list bool)) (end_of : bytes → bytes → child)
    (when : Z) : SD unit :=
  s ← getS;
  if negb (bool_decide (arg = [])) then say "501 invalid parameter syntax (#5.3.2)"
  else if negb (seenmail s) then say "503 MAIL first (#5.5.1)"
  else if decide (rcptto s = [] ∨ rcptcount s = 0%Z) then say "503 RCPT first (#5.5.1)"
  else
    change (set_seenmail false);;?
    if flagsize s : bool then
      say "552 sorry, that message size exceeds my databytes limit (#5.3.4)"
    else
      (if decide (0 < databytes conf)%Z then change (set_BytesToOverflow (wrap 64 (databytes conf + 1)))
       else ok tt);;?
      match opened with
      | None => say "451 Sorry, I got a temporary queue failure (#4.3.0)"
      | Some pipes =>
        change (set_qqt (qmail_start pipes));;?
        say "354 go ahead";;?
        change (λ s, set_qqt (qmail_put (received conf) (qqt s)) s);;?
        r ←? blast;
        let '(failed, hops) := r in
        let hops := if decide (failed = 0%Z) then (if decide (maxhops conf ≤ hops)%Z then 1 else 0)%Z
                    else hops in
        (if decide (failed = 0%Z ∧ hops = 0%Z) then ok tt
         else change (λ s, set_qqt (qmail_fail (qqt s)) s));;?
        change (λ s, set_qqt (qmail_put (rcptto s) (qmail_from (mailfrom s) (qqt s))) s);;?
        s ← getS;
        let q := qqt s in
        let done := qmail_put [0%Z] q in
        let qqx := qmail_close (end_of (to_mess done) (to_env done)) q in
        if decide (qqx = []) then acceptmessage when
        else if decide (hops ≠ 0%Z) then say "554 too many hops, this message is looping (#5.4.6)"
        else if decide (0 < databytes conf ∧ BytesToOverflow s = 0)%Z then
          say "552 sorry, that message size exceeds my databytes limit (#5.3.4)"
        else out (refusal qqx)
      end.

(** ** Addresses, with [ip.c] and [ipme.c] *)

(** The numbers of [ip4_scan], and the length. *)
Fixpoint ip4_numbers (n : nat) (s : bytes) : option (list Z * nat) :=
  let '(i, u) := scan_ulong s in
  if decide (i = 0) then None
  else if decide (255 < u)%Z then None
  else
    match n with
    | 0 => Some ([u], i)
    | S n =>
      match drop i s with
      | c :: s =>
        if decide (c = c_dot) then
          match ip4_numbers n s with
          | Some (us, len) => Some (u :: us, i + 1 + len)
          | None => None
          end
        else None
      | [] => None
      end
    end.
Definition ip4_scan (s : bytes) : option (list Z * nat) := ip4_numbers 3 s.
Definition ip4_scanbracket (s : bytes) : option (list Z * nat) :=
  match s with
  | c :: s' =>
    if decide (c = c_lbrack) then
      match ip4_scan s' with
      | Some (ip, len) => if decide (s' !! len = Some c_rbrack) then Some (ip, len + 2) else None
      | None => None
      end
    else None
  | [] => None
  end.

Context (ipme : list (list Z)).  (* the addresses of this host *)
Definition ipme_is (ip : list Z) : bool := bool_decide (ip ∈ ipme).

(** The loop that strips quotes. *)
Fixpoint unquote (terminator : Z) (s : bytes) (flagesc flagquoted : bool) : bytes :=
  match s with
  | [] => []
  | ch :: s =>
    if flagesc then ch :: unquote terminator s false flagquoted
    else if negb flagquoted && bool_decide (ch = terminator) then []
    else if decide (ch = c_backslash) then unquote terminator s true flagquoted
    else if decide (ch = c_dquote) then unquote terminator s false (negb flagquoted)
    else ch :: unquote terminator s flagesc flagquoted
  end.

Fixpoint skip_to_colon (s : bytes) : bytes :=
  match s with
  | [] => []
  | c :: s => if decide (c = c_colon) then s else skip_to_colon s
  end.

Fixpoint skip_spaces (s : bytes) : bytes :=
  match s with
  | c :: r => if decide (c = c_space) then skip_spaces r else s
  | [] => []
  end.

(** An address of this host by its number gets the name of the host. *)
Definition localize (a : bytes) : bytes :=
  match liphost conf with
  | None => a
  | Some name =>
    let i := byte_rchr (a ++ [0%Z]) c_at in
    if decide (i < length a + 1) then
      match ip4_scanbracket (drop (i + 1) a) with
      | Some (ip, len) =>
        if bool_decide (drop (i + 1 + len) a = []) && ipme_is ip then take (i + 1) a ++ name else a
      | None => a
      end
    else a
  end.

(** The address, which is left in [addr] without its zero byte; [None] when the
    command is refused. *)
Definition addrparse (arg : bytes) : option bytes :=
  let i := str_chr arg c_lt in
  let from (terminator : Z) (arg : bytes) :=
    let arg := if decide (head arg = Some c_at) then skip_to_colon arg else arg in
    let addr := localize (unquote terminator arg false false) in
    if decide (900 < length addr + 1) then None else Some addr in
  if decide (i < length arg) then from c_gt (drop (i + 1) arg)
  else
    let arg := drop (str_chr arg c_colon) arg in
    let arg := if decide (head arg = Some c_colon) then tail arg else arg in
    if decide (arg = []) then None else from c_space (skip_spaces arg).
End Smtpd.
