(* ===== verification/SmtpdSession.v ===== *)
(** * An SMTP session: [smtpd.c]

    The state of the session, the banner, HELO and EHLO, and the small commands;
    [SmtpdEnvelope] has MAIL, RCPT, DATA and the loop over the commands.

    What other parts of the program and other hosts say to a command is one value of
    [lookups]: the results of [address_match], of the DNS, of SPF, of plugins, of
    [srsreverse] and of the databases, and what becomes of qmail-queue; it may be
    another one for every command.  [commands] of libqmail is the class [Commands].
    A computation gives a value or the exit code of the process.

    The library for virtual domains is not loaded ([hasvirtual] is 0), BATV,
    envrules, domainqueue and TLS are not in use, AUTH, ETRN, ATRN and STARTTLS are
    parameters of the loop; sleeping, the log, [tr_success], and [proto], which goes into the
    Received field, are left out. *)

From S2P Require Import Prelude LibQmail Control Rcpthosts Qmail Smtpd.

(** What [address_match] is asked for. *)
Inductive table :=
  | Badhelo | Blackholedsender | Badmailfrom | Spamignore | Relaymailfrom | Chksenderdomains
  | Authdomains | Goodrcptto | Badrcptto | Chkrcptdomains | Blackholedrcpt.
Inductive dns := DnsOk | DnsHard | DnsSoft | DnsMem.
Inductive spf := SpfOk | SpfNone | SpfUnknown | SpfNeutral | SpfSoftfail | SpfFail | SpfError | SpfNomem.

Record session_conf := SessionConf {
  data : smtpd_conf;
  environ0 : gmap string bytes;  (* the environment at the start *)
  badip : bool; badhost : bool;  (* these checks are done, and find the client *)
  remoteip : bytes; remotehost : bytes; localip : bytes; localhost : bytes;
  greeting : list bytes;         (* its lines *)
  greet_extra : bytes;           (* behind the first line of the banner, if that is wanted *)
  revision : bytes;
  childargs : bool;              (* [hostname] and [childargs] are set *)
  auth_lines : bytes;            (* of the reply to EHLO *)
  port : Z; smtp_port : Z;
  servercert : bool;             (* there is a file with a certificate *)
  nodnscheck : bool; nodnschecks : option (bytes → bool);  (* the constmap of nodnscheck *)
  dohelocheck : bool;
  no_vrfy : bool; no_help : bool;
  spfbehavior : Z;
  maxrcptcount : Z;
  acclistok : bool;
  srs_domain : bytes;
  maplocals : bytes → bool;
  hosts : rcpthosts_conf
}.

Record lookups := Lookups {
  address_match : table → bool → bytes → Z;  (* the flag: there is such a control file *)
  dns_mxip : bytes → dns;
  tablematch : bytes → Z;
  mail_plugin : list (option bytes);  (* the message of each that refuses *)
  rcpt_plugin : list (option bytes);
  passwd : ctlfile;                   (* /etc/passwd *)
  recipients : bytes → Z;
  mail_acl : bytes → bytes → Z;
  spfcheck : spf; spfbarfmsg : bytes; spfinfo : bytes;
  srsreverse : bytes → Z * bytes;
  received_field : bytes; queue_pid : Z; opened : option (list bool);
  queue_end : gmap string bytes → bytes → bytes → child; now : Z
}.

(** Functions of libqmail on letters and numbers. *)
Class CaseLib := {
  case_lower : bytes → bytes;
  case_equal : bytes → bytes → bool;
  case_starts : bytes → bytes → bool;  (* the first starts with the second *)
  scan_int : bytes → Z
}.
Definition lower (c : Z) : Z := if decide (65 ≤ c ≤ 90)%Z then (c + 32)%Z else c.
Class CaseLaws (K : CaseLib) : Prop := {
  case_lower_ok s : case_lower s = map lower s;
  case_equal_ok s t : case_equal s t = true ↔ map lower s = map lower t;
  case_starts_ok s t : case_starts s t = true ↔ map lower (take (length t) s) = map lower t
}.

(** The next command: the word, its argument, and what comes behind the line.  A line
    ends with a line feed, which a carriage return may precede; a space ends the word,
    and more of them do not count. *)
Class Commands := next_command : bytes → option (bytes * bytes * bytes).

Record session := Session {
  sm : smtpd;  (* what the DATA command works on *)
  environ : gmap string bytes;  (* the environment *)
  seenhelo : bool;
  helohost : bytes;  (* without the @ in front *)
  fakehelo : bool;  (* [fakehelo] points into [helohost] *)
  addr : bytes;  (* without its terminating zero *)
  relayclient : option bytes;
  user : bytes;  (* what [mailfrom_auth] made of its text *)
  remoteinfo : option bytes;
  info_is_user : bool;  (* [remoteinfo] points into [user] *)
  mfparms : bytes;  (* what the memory of [mfparms] holds *)
  smtputf8 : bool;
  smtputf8_enable : bool;
  chkdomok : bool;
  chksndrok : bool;
  chkrcptok : bool;
  rcpt_errcount : Z;
  max_rcpt_errcount : Z;
  barelf : bool;  (* [convertbarelf] *)
  authd : bool  (* set by AUTH *)
}.

Definition set_sm v s := Session v (environ s) (seenhelo s) (helohost s) (fakehelo s) (addr s)
  (relayclient s) (user s) (remoteinfo s) (info_is_user s) (mfparms s) (smtputf8 s)
  (smtputf8_enable s) (chkdomok s) (chksndrok s) (chkrcptok s) (rcpt_errcount s)
  (max_rcpt_errcount s) (barelf s) (authd s).
Definition set_environ v s := Session (sm s) v (seenhelo s) (helohost s) (fakehelo s) (addr s)
  (relayclient s) (user s) (remoteinfo s) (info_is_user s) (mfparms s) (smtputf8 s)
  (smtputf8_enable s) (chkdomok s) (chksndrok s) (chkrcptok s) (rcpt_errcount s)
  (max_rcpt_errcount s) (barelf s) (authd s).
Definition set_seenhelo v s := Session (sm s) (environ s) v (helohost s) (fakehelo s) (addr s)
  (relayclient s) (user s) (remoteinfo s) (info_is_user s) (mfparms s) (smtputf8 s)
  (smtputf8_enable s) (chkdomok s) (chksndrok s) (chkrcptok s) (rcpt_errcount s)
  (max_rcpt_errcount s) (barelf s) (authd s).
Definition set_helohost v s := Session (sm s) (environ s) (seenhelo s) v (fakehelo s) (addr s)
  (relayclient s) (user s) (remoteinfo s) (info_is_user s) (mfparms s) (smtputf8 s)
  (smtputf8_enable s) (chkdomok s) (chksndrok s) (chkrcptok s) (rcpt_errcount s)
  (max_rcpt_errcount s) (barelf s) (authd s).
Definition set_fakehelo v s := Session (sm s) (environ s) (seenhelo s) (helohost s) v (addr s)
  (relayclient s) (user s) (remoteinfo s) (info_is_user s) (mfparms s) (smtputf8 s)
  (smtputf8_enable s) (chkdomok s) (chksndrok s) (chkrcptok s) (rcpt_errcount s)
  (max_rcpt_errcount s) (barelf s) (authd s).
Definition set_addr v s := Session (sm s) (environ s) (seenhelo s) (helohost s) (fakehelo s) v
  (relayclient s) (user s) (remoteinfo s) (info_is_user s) (mfparms s) (smtputf8 s)
  (smtputf8_enable s) (chkdomok s) (chksndrok s) (chkrcptok s) (rcpt_errcount s)
  (max_rcpt_errcount s) (barelf s) (authd s).
Definition set_relayclient v s := Session (sm s) (environ s) (seenhelo s) (helohost s)
  (fakehelo s) (addr s) v (user s) (remoteinfo s) (info_is_user s) (mfparms s) (smtputf8 s)
  (smtputf8_enable s) (chkdomok s) (chksndrok s) (chkrcptok s) (rcpt_errcount s)
  (max_rcpt_errcount s) (barelf s) (authd s).
Definition set_user v s := Session (sm s) (environ s) (seenhelo s) (helohost s) (fakehelo s)
  (addr s) (relayclient s) v (remoteinfo s) (info_is_user s) (mfparms s) (smtputf8 s)
  (smtputf8_enable s) (chkdomok s) (chksndrok s) (chkrcptok s) (rcpt_errcount s)
  (max_rcpt_errcount s) (barelf s) (authd s).
Definition set_remoteinfo v s := Session (sm s) (environ s) (seenhelo s) (helohost s) (fakehelo s)
  (addr s) (relayclient s) (user s) v (info_is_user s) (mfparms s) (smtputf8 s)
  (smtputf8_enable s) (chkdomok s) (chksndrok s) (chkrcptok s) (rcpt_errcount s)
  (max_rcpt_errcount s) (barelf s) (authd s).
Definition set_info_is_user v s := Session (sm s) (environ s) (seenhelo s) (helohost s)
  (fakehelo s) (addr s) (relayclient s) (user s) (remoteinfo s) v (mfparms s) (smtputf8 s)
  (smtputf8_enable s) (chkdomok s) (chksndrok s) (chkrcptok s) (rcpt_errcount s)
  (max_rcpt_errcount s) (barelf s) (authd s).
Definition set_mfparms v s := Session (sm s) (environ s) (seenhelo s) (helohost s) (fakehelo s)
  (addr s) (relayclient s) (user s) (remoteinfo s) (info_is_user s) v (smtputf8 s)
  (smtputf8_enable s) (chkdomok s) (chksndrok s) (chkrcptok s) (rcpt_errcount s)
  (max_rcpt_errcount s) (barelf s) (authd s).
Definition set_smtputf8 v s := Session (sm s) (environ s) (seenhelo s) (helohost s) (fakehelo s)
  (addr s) (relayclient s) (user s) (remoteinfo s) (info_is_user s) (mfparms s) v
  (smtputf8_enable s) (chkdomok s) (chksndrok s) (chkrcptok s) (rcpt_errcount s)
  (max_rcpt_errcount s) (barelf s) (authd s).
Definition set_smtputf8_enable v s := Session (sm s) (environ s) (seenhelo s) (helohost s)
  (fakehelo s) (addr s) (relayclient s) (user s) (remoteinfo s) (info_is_user s) (mfparms s)
  (smtputf8 s) v (chkdomok s) (chksndrok s) (chkrcptok s) (rcpt_errcount s) (max_rcpt_errcount s)
  (barelf s) (authd s).
Definition set_chkdomok v s := Session (sm s) (environ s) (seenhelo s) (helohost s) (fakehelo s)
  (addr s) (relayclient s) (user s) (remoteinfo s) (info_is_user s) (mfparms s) (smtputf8 s)
  (smtputf8_enable s) v (chksndrok s) (chkrcptok s) (rcpt_errcount s) (max_rcpt_errcount s)
  (barelf s) (authd s).
Definition set_chksndrok v s := Session (sm s) (environ s) (seenhelo s) (helohost s) (fakehelo s)
  (addr s) (relayclient s) (user s) (remoteinfo s) (info_is_user s) (mfparms s) (smtputf8 s)
  (smtputf8_enable s) (chkdomok s) v (chkrcptok s) (rcpt_errcount s) (max_rcpt_errcount s)
  (barelf s) (authd s).
Definition set_chkrcptok v s := Session (sm s) (environ s) (seenhelo s) (helohost s) (fakehelo s)
  (addr s) (relayclient s) (user s) (remoteinfo s) (info_is_user s) (mfparms s) (smtputf8 s)
  (smtputf8_enable s) (chkdomok s) (chksndrok s) v (rcpt_errcount s) (max_rcpt_errcount s)
  (barelf s) (authd s).
Definition set_rcpt_errcount v s := Session (sm s) (environ s) (seenhelo s) (helohost s)
  (fakehelo s) (addr s) (relayclient s) (user s) (remoteinfo s) (info_is_user s) (mfparms s)
  (smtputf8 s) (smtputf8_enable s) (chkdomok s) (chksndrok s) (chkrcptok s) v
  (max_rcpt_errcount s) (barelf s) (authd s).
Definition set_max_rcpt_errcount v s := Session (sm s) (environ s) (seenhelo s) (helohost s)
  (fakehelo s) (addr s) (relayclient s) (user s) (remoteinfo s) (info_is_user s) (mfparms s)
  (smtputf8 s) (smtputf8_enable s) (chkdomok s) (chksndrok s) (chkrcptok s) (rcpt_errcount s) v
  (barelf s) (authd s).
Definition set_barelf v s := Session (sm s) (environ s) (seenhelo s) (helohost s) (fakehelo s)
  (addr s) (relayclient s) (user s) (remoteinfo s) (info_is_user s) (mfparms s) (smtputf8 s)
  (smtputf8_enable s) (chkdomok s) (chksndrok s) (chkrcptok s) (rcpt_errcount s)
  (max_rcpt_errcount s) v (authd s).


Notation "'SS' A" := (ST session (Z + A)) (at level 10, A at next level, only parsing) : mta_scope.
Definition upd (f : session → session) : SS unit := modify f;; ok tt.
Definition see {A} (f : session → A) : SS A := s ← getS; ok (f s).
Definition on_sm {A} (m : SD A) : SS A :=
  λ s, let '(r, x) := m (sm s) in (r, set_sm x s).

(** [out], and [flush]. *)
Definition sout (t : bytes) : SS unit := on_sm (Smtpd.out t).
Definition ssay (t : string) : SS unit := sout (lit t ++ crlf).
Definition exit {A} (code : Z) : SS A := mret (inl code).
(** A signal ends the process. *)
Definition crash {A} : SS A := exit (-1).

(** A handler is done in parts, each of which tells whether to go on. *)
Definition go_on : SS bool := ok true.
Definition return_ : SS bool := ok false.
Definition refuse (t : bytes) : SS bool := sout (t ++ crlf);;? return_.
Definition refuse_with (t : string) : SS bool := refuse (lit t).
Notation "m ;;& k" := (qbind m (λ b, if b : bool then k else return_))
  (at level 100, k at level 200, right associativity) : mta_scope.

Definition env_get (k : string) : SS (option bytes) := see (λ s, environ s !! k).
Definition env_is_set (k : string) : SS bool := x ←? env_get k; ok (bool_decide (is_Some x)).
Definition env_put2 (k : string) (v : bytes) : SS unit := upd (λ s, set_environ (<[k := v]> (environ s)) s).
Definition env_unset (k : string) : SS unit := upd (λ s, set_environ (delete k (environ s)) s).

Definition die_nomem {A} : SS A := ssay "451 Sorry, I ran out of memory (#4.3.0)";;? exit 1.
Definition die_control {A} : SS A := ssay "451 Sorry, I'm unable to read controls (#4.3.0)";;? exit 1.
Definition err_addressmatch : SS bool := refuse_with "451 Sorry, there is a local system failure (#4.3.0)".

(** The switch on the result of [address_match]. *)
Definition matching (r : Z) (found not_found : SS bool) : SS bool :=
  if decide (r = 1)%Z then found
  else if decide (r = 0)%Z then not_found
  else if decide (r = -1)%Z then die_nomem
  else err_addressmatch.

Section session.
Context {L : LibQmail} {K : CaseLib} (cf : session_conf).

(** [remoteinfo] as a string. *)
Definition remote_info (s : session) : option bytes :=
  if info_is_user s then Some (cstr (user s ++ [0%Z])) else remoteinfo s.

Definition addrallowed (rcpt : bytes) : SS bool :=
  let r := rcpthosts case_lower (hosts cf) false rcpt in
  if decide (r = -1)%Z then die_control else ok (negb (bool_decide (r = 0)%Z)).

(** ** Greetings *)

(** Whether the process serves the client, and if not, why. *)
Definition setup_state : Z :=
  let is_set k := bool_decide (is_Some (environ0 cf !! k)) in
  if is_set "SHUTDOWN"%string then 1
  else if badip cf then 6
  else if badhost cf then 5
  else if is_set "OPENRELAY"%string then 2
  else if is_set "TCPPARANOID"%string then 3
  else if is_set "REQPTR"%string && bool_decide (remotehost cf = lit "unknown") then 4
  else 0.

(** The reply to a command then. *)
Definition refused_at_start (env : gmap string bytes) : option bytes :=
  match setup_state with
  | 1%Z => Some (lit "503 bad sequence of commands (#5.3.2)")
  | 2%Z => Some (lit "553 No mail accepted from an open relay (" ++ remoteip cf ++
                 lit "); check your server configs (#5.7.1)")
  | 3%Z => Some (lit "553 sorry, your IP address (" ++ remoteip cf ++
                 lit ") PTR (reverse DNS) record points to wrong hostname" ++
                 (match env !! "TCPPARANOID" with
                  | Some (c :: p) => lit " [" ++ (c :: p) ++ lit "]"
                  | _ => []
                  end) ++ lit " (#5.7.1)")
  | 4%Z => Some (lit "553 " ++
                 match env !! "REQPTR" with
                 | Some (c :: p) => (c :: p) ++ lit ": from " ++ remoteip cf ++ lit ": (#5.7.1)"
                 | _ => lit " Sorry, no PTR (reverse DNS) record for (" ++ remoteip cf ++ lit ") (#5.7.1)"
                 end)
  | 5%Z => Some (lit "553 sorry, your host (" ++ remotehost cf ++ lit ") has been denied (#5.7.1)")
  | 6%Z => Some (lit "421 sorry, your IP (" ++ remoteip cf ++ lit ") is temporarily denied (#4.7.1)")
  | _ => None
  end.
Definition setup_ok : SS bool :=
  env ←? see environ;
  match refused_at_start env with Some t => refuse t | None => go_on end.

(** [smtp_respond]: the last line is not ended. *)
Fixpoint respond (code extra : bytes) (lines : list bytes) : bytes :=
  match lines with
  | [] => code ++ extra
  | [l] => code ++ l ++ extra
  | l :: r => take 3 code ++ lit "-" ++ l ++ extra ++ crlf ++ respond code [] r
  end.
Definition response (code : bytes) : bytes :=
  respond code (if decide (take 3 code = lit "220") then greet_extra cf else []) (greeting cf).
Definition smtp_respond (code : string) : SS unit := sout (response (lit code)).

(** What the client sees first. *)
Definition digit (c : option Z) : bool := match c with Some c => bool_decide (48 ≤ c ≤ 57)%Z | None => false end.
Definition banner : bytes :=
  (match setup_state with
   | 1%Z =>
     match environ0 cf !! "SHUTDOWN"%string with
     | Some (c :: p) =>
       if digit (Some c) && digit (p !! 0) && digit (p !! 1)
       then response (take 4 (c :: p)) ++ drop 3 (c :: p) else response (lit "421 ")
     | _ => response (lit "421 ") ++ lit " SMTP service unavailable (#4.3.2)"
     end
   | 6%Z => response (lit "421 ") ++ lit " sorry, your IP (" ++ remoteip cf ++ lit ") is temporarily denied (#4.7.1)"
   | 5%Z => response (lit "553 ") ++ lit " sorry, your host (" ++ remotehost cf ++ lit ") has been denied (#5.7.1)"
   | 2%Z => response (lit "553 ") ++ lit " No mail accepted from an open relay (" ++ remoteip cf ++
            lit "); check your server configs (#5.7.1)"
   | 3%Z => response (lit "553 ") ++ lit " sorry, your IP address (" ++ remoteip cf ++
            lit ") PTR (reverse DNS) record points to wrong hostname" ++
            (match environ0 cf !! "TCPPARANOID"%string with Some (c :: p) => lit " " ++ (c :: p) | _ => [] end) ++
            lit " (#5.7.1)"
   | 4%Z => response (lit "553 ") ++
            match environ0 cf !! "REQPTR"%string with
            | Some (c :: p) => lit " " ++ (c :: p) ++ lit ": from " ++ remoteip cf ++ lit ": (#5.7.1)"
            | _ => lit " Sorry, no PTR (reverse DNS) record for (" ++ remoteip cf ++ lit ") (#5.7.1)"
            end
   | _ => response (lit "220 ")
   end) ++ crlf.

Definition dns_answer (hard : string) (d : dns) : SS bool :=
  match d with
  | DnsHard => refuse_with hard
  | DnsSoft => refuse_with "451 Sorry, there is a DNS temporary failure (#4.4.3)"
  | DnsMem => die_nomem
  | DnsOk => go_on
  end.

Definition dnscheck (w : lookups) (address : bytes) : dns :=
  let j := byte_rchr address c_at in
  if decide (address = lit "#@[]" ∨ address = []) then DnsOk
  else if (match nodnschecks cf with
           | Some map => map address || (bool_decide (j + 1 < length address) && map (drop j address))
           | None => false
           end) then DnsOk
  else if decide (j + 1 < length address) then dns_mxip w (drop (j + 1) address)
  else DnsHard.

Definition dohelo (w : lookups) (arg : bytes) : SS unit :=
  upd (set_seenhelo false);;? upd (set_helohost arg);;?
  relay ←? see relayclient;
  fqdn ←? env_is_set "ENFORCE_FQDN_HELO";
  (if decide (relay = None ∧ fqdn = true ∧ c_dot ∉ arg)
   then ssay "451 unable to accept non-FQDN HELO (#4.3.0)";;? exit 1 else ok tt);;?
  ((if dohelocheck cf then
      (if negb (case_equal (localip cf) (remoteip cf)) &&
          (case_equal (localhost cf) arg || negb (case_equal (localip cf) arg))
       then ssay "451 invalid HELO greeting for local (#4.3.0)" else ok tt);;?
      matching (address_match w Badhelo true (c_at :: arg))
        (refuse_with "553 sorry, your HELO/EHLO greeting is in my badhelo list (#5.7.1)") go_on
    else go_on);;&
   let fake := negb (case_equal (remotehost cf) arg) in
   upd (set_fakehelo fake);;?
   (if fake && dohelocheck cf && negb (nodnscheck cf)
    then dns_answer "553 sorry, helo domain must exist (#5.1.8)" (dnscheck w (c_at :: arg)) else go_on);;&
   upd (set_seenhelo true);;? go_on);;?
  ok tt.

Definition helo_name (arg : bytes) : bytes := if decide (arg = []) then remotehost cf else arg.
Definition unnamed (arg : bytes) : bytes := if decide (arg = []) then lit " [" ++ remoteip cf ++ lit "]" else [].

Definition smtp_helo (w : lookups) (arg : bytes) : SS bool :=
  on_sm (change (set_seenmail false));;?
  setup_ok;;&
  smtp_respond "250 ";;? sout (unnamed arg ++ crlf);;?
  dohelo w (helo_name arg);;? go_on.

(** The lines of the reply to EHLO from the second on. *)
Definition ehlo_lines (starttls utf8 : bool) : bytes :=
  (if childargs cf then auth_lines cf ++ (if decide (smtp_port cf = 366)%Z then lit "250-ATRN" ++ crlf else []) else []) ++
  lit "250-PIPELINING" ++ crlf ++ lit "250-8BITMIME" ++ crlf ++
  (if decide (0 < databytes (data cf))%Z then lit "250-SIZE " ++ fmt_ulong (databytes (data cf)) ++ crlf else []) ++
  (if decide (smtp_port cf ≠ 587)%Z then lit "250-ETRN" ++ crlf else []) ++
  (if starttls && servercert cf then lit "250-STARTTLS" ++ crlf else []) ++
  (if utf8 then lit "250-SMTPUTF8" ++ crlf else []) ++
  lit "250 HELP" ++ crlf.

Definition smtp_ehlo (w : lookups) (arg : bytes) : SS bool :=
  on_sm (change (set_seenmail false));;?
  setup_ok;;&
  sout (lit "250-" ++ default [] (head (greeting cf)) ++ unnamed arg ++ crlf);;?
  starttls ←? env_is_set "STARTTLS";
  utf8 ←? env_is_set "SMTPUTF8";
  (if utf8 then upd (set_smtputf8_enable true) else ok tt);;?
  sout (ehlo_lines starttls utf8);;?
  dohelo w (helo_name arg);;? go_on.

(** ** Small commands *)

Definition no_argument (arg : bytes) : SS bool :=
  if decide (arg = []) then go_on else refuse_with "501 invalid parameter syntax (#5.3.2)".

Definition smtp_rset (arg : bytes) : SS bool :=
  no_argument arg;;&
  on_sm (change (λ s, Smtpd (client s) (replies s) false [] [] (rcptcount s) (flagsize s)
           (BytesToOverflow s) (msg_size s) (dsn s) (qqt s)));;?
  upd (set_addr []);;? refuse_with "250 flushed".

Definition smtp_noop (arg : bytes) : SS bool := no_argument arg;;& setup_ok;;& refuse_with "250 ok".

(** [cmd_name] is the word of the command. *)
Definition err_unimpl (word arg : bytes) : SS bool :=
  refuse
    (if case_equal arg (lit "unimplemented") then lit "502 command " ++ word ++ lit " not implemented (#5.5.1)"
     else if case_equal arg (lit "help") then lit "502 disabled by the lord in her infinite wisdom (#5.5.1)"
     else lit "502 command " ++ word ++ (if decide (arg = []) then [] else lit " " ++ arg) ++
          lit " not recognized (#5.5.2)").

Definition smtp_vrfy (word arg : bytes) : SS bool :=
  if no_vrfy cf then err_unimpl word (lit "unimplimented")
  else setup_ok;;&
    refuse_with "252 Cannot VRFY user, but will accept message and attempt delivery (#2.7.0)".

(** Without virtual domains port 366 offers what others do, and ATRN. *)
Definition commands_offered : bytes :=
  lit "214 HELO EHLO RSET NOOP MAIL RCPT DATA " ++
  (if childargs cf then if decide (smtp_port cf = 366)%Z then lit "AUTH ATRN " else lit "AUTH " else []) ++
  (if no_vrfy cf then [] else lit "VRFY ") ++
  (if decide (smtp_port cf = 587)%Z then [] else lit "ETRN ") ++ lit "HELP QUIT" ++ crlf.
Definition smtp_help (word : bytes) : SS bool :=
  if no_help cf then err_unimpl word (lit "help")
  else
    (if decide (revision cf = []) then ok tt
     else sout (lit "214-This is IndiMail SMTP Version " ++ take (index_of c_space (revision cf)) (revision cf)));;?
    sout (crlf ++ lit "214-https://github.com/indimail/indimail-mta" ++ crlf ++
          lit "214-This server supports the following commands:" ++ crlf ++ commands_offered);;?
    go_on.

Definition smtp_quit : SS bool := smtp_respond "221 ";;? ssay " closing connection";;? exit 0.
End session.
