(* ===== verification/SmtpdEnvelope.v ===== *)
(** * The commands of an SMTP session: [smtpd.c]

    MAIL with its parameters and the checks of the sender, RCPT with those of the
    recipient, DATA, the table of commands and the loop that reads them. *)

From S2P Require Import Prelude LibQmail Control Rcpthosts Qmail Smtpd SmtpdSession.

Section session.
Context {L : LibQmail} {K : CaseLib} {C : Commands} (cf : session_conf).
Context (ipme : list (list Z)).
Context (beyond : bytes).  (* what memory holds that was not written *)
Context (smtp_auth smtp_etrn smtp_atrn smtp_tls : bytes → SS unit).

Section command.
Context (w : lookups).

(** ** MAIL: its parameters *)

Definition mailfrom_size (arg : bytes) : SS bool :=
  let r := snd (scan_ulong arg) in
  on_sm (change (set_msg_size r));;?
  ok (bool_decide (0 < databytes (data cf) ∧ databytes (data cf) < r)%Z).

(** The loop over the value of AUTH. *)
Fixpoint auth_text (l : bytes) : bytes :=
  match l with
  | [] => []
  | c :: r =>
    if decide (c = c_plus) then
      match r with
      | a :: b :: r' =>
        if case_starts l (lit "+3D") then lit "=" ++ auth_text r'
        else if case_starts l (lit "+2B") then c_plus :: auth_text r'
        else auth_text r
      | _ => auth_text r
      end
    else c :: auth_text r
  end.

(** With a negative length the loop does not come to an end within the memory. *)
Definition mailfrom_auth (arg : bytes) (len : Z) : SS unit :=
  auth ←? see authd;
  if auth : bool then ok tt
  else
    (if case_starts arg (lit "<>") then upd (set_user (lit "unknown"))
     else if decide (len < 0)%Z then crash
     else upd (set_user (auth_text (take (Z.to_nat len) arg))));;?
    s ← getS;
    match remote_info s with
    | Some _ => ok tt
    | None =>
      upd (set_info_is_user true);;?
      env_unset "TCPREMOTEINFO";;?
      env_put2 "TCPREMOTEINFO" (cstr (user s ++ [0%Z]));;? env_put2 "AUTHINFO" (cstr (user s ++ [0%Z]))
    end.

(** A byte of [mfparms] is set; what was behind it stays in memory. *)
Definition mf_put (i : nat) (c : Z) : SS unit :=
  upd (λ s, set_mfparms (take i (mfparms s) ++ c :: drop (S i) (mfparms s)) s).

(** [len] bytes of [mfparms] are in use.  At the end of a word it is compared with
    the parameters as it is in memory, where no zero byte ends it; memory that was
    never allocated cannot be read. *)
Fixpoint mailfrom_words (arg : bytes) (len : nat) : SS unit :=
  match arg with
  | [] => ok tt
  | c :: arg =>
    if decide (c = c_space ∨ c = 0%Z) then
      m ←? see mfparms;
      if decide (m = []) then crash
      else
        utf8 ←? see smtputf8_enable;
        if utf8 && case_starts (m ++ beyond) (lit "SMTPUTF8") then
          upd (set_smtputf8 true);;? mailfrom_words arg 0
        else if case_starts (m ++ beyond) (lit "SIZE=") then
          mf_put len 0;;?
          m ←? see mfparms;
          big ←? mailfrom_size (cstr (drop 5 (m ++ beyond)));
          if big : bool then
            on_sm (change (λ s, Smtpd (client s) (replies s) (seenmail s) (mailfrom s) (rcptto s)
              (rcptcount s) true (BytesToOverflow s) (msg_size s) (dsn s) (qqt s)))
          else mailfrom_words arg 0
        else if case_starts (m ++ beyond) (lit "AUTH=") then
          mf_put len 0;;?
          m ←? see mfparms;
          mailfrom_auth (drop 5 (m ++ beyond)) (Z.of_nat len - 5);;? mailfrom_words arg 0
        else mailfrom_words arg 0
    else mf_put len c;;? mailfrom_words arg (S len)
  end.
Definition mailfrom_parms (arg : bytes) : SS unit :=
  let i := byte_chr arg c_gt in
  if decide (4 < i < length arg) then mailfrom_words (tail (arg ++ [0%Z])) 0 else ok tt.

(** ** MAIL: the sender *)

Definition err_nogateway (masquerade : bool) : SS unit :=
  s ← getS;
  sout ((if masquerade then lit "553 sorry, this MTA does not accept masquerading/forging"
         else lit "553 sorry, that domain isn't allowed to be relayed thru this MTA without authentication") ++
        (if authd s then lit ", auth <" ++ default [] (remote_info s) ++ lit ">" else []) ++
        lit " #5.7.1" ++ crlf).

(** A pass of the loop over the names that a user may send as: [flag].  Without
    virtual domains [domain_compare] complains of domains that differ. *)
Definition domain_compare (dom1 dom2 : bytes) : SS bool :=
  if decide (dom1 = dom2) then ok false else err_nogateway true;;? ok true.
Definition masquerades (box dom1 allowed : bytes) (flag : bool) : SS bool :=
  let at2 := str_rchr allowed c_at in
  if decide (at2 < length allowed) then
    d ←? domain_compare dom1 (drop (at2 + 1) allowed);
    ok (flag || negb (bool_decide (box = take at2 allowed)) || d)
  else
    dom2 ←? env_get "DEFAULT_DOMAIN";
    d ←? (match dom2 with Some dom2 => domain_compare dom1 dom2 | None => ok false end);
    ok (flag || negb (bool_decide (box = allowed)) || d).

(** The name is refused at the end of the loop, and then MAIL goes on. *)
Definition check_masquerade (x : option bytes) : SS bool :=
  s ← getS;
  let from := mailfrom (sm s) in
  let info := default [] (remote_info s) in
  let at1 := str_rchr from c_at in
  if decide (at1 < length from) then
    let dom1 := drop (at1 + 1) from in
    let box := take at1 from in
    allowed ←? addrallowed cf from;
    if negb allowed then err_nogateway true;;? return_
    else
      flag ←? (match x with
               | Some (c :: p) =>
                 flag ←? masquerades box dom1 (c :: p) false;
                 if flag : bool then masquerades box dom1 info true else ok false
               | _ => masquerades box dom1 info false
               end);
      (if flag : bool then err_nogateway true else ok tt);;? go_on
  else if decide (match x with Some (c :: p) => (c :: p) | _ => from end = info) then go_on
  else err_nogateway true;;? return_.

(** 0 if a line of /etc/passwd starts with the [len] bytes. *)
Fixpoint passwd_lines (fuel : nat) (file rcpt : bytes) : bool :=
  match fuel with
  | 0 => false
  | S fuel =>
    let '(line, more) := line_by c_lf file in
    let i := index_of c_colon line in
    (bool_decide (i < length line) && bool_decide (take (length rcpt) (take i line ++ [0%Z]) = rcpt)) ||
    (more && passwd_lines fuel (drop (length line) file) rcpt)
  end.
Definition check_user_pwd (rcpt : bytes) : SS bool :=
  match passwd w with
  | Contents file => ok (negb (passwd_lines (S (length file)) file rcpt))
  | Absent => ssay "451 Sorry, I'm unable to read passwd database (#4.3.0)";;? exit 1
  | Unreadable => ssay "451 Sorry, I got read error (#4.4.2)";;? exit 1
  end.

(** Without the library for virtual domains. *)
Definition check_sender (in_rcpt1 in_rcpt2 : bool) : SS bool :=
  s ← getS;
  if negb (in_rcpt1 || in_rcpt2) then go_on
  else
    let t_addr := if in_rcpt1 then addr s else default [] (remote_info s) in
    matching (address_match w Chksenderdomains (chksndrok s) t_addr) (upd (set_chksndrok false);;? go_on) go_on;;&
    ok_ ←? see chksndrok;
    if ok_ : bool then go_on
    else
      let a := byte_rchr t_addr c_at in
      if decide (a < length t_addr → maplocals cf (drop (a + 1) t_addr) = true) then
        missing ←? check_user_pwd (take a t_addr);
        if missing : bool then refuse_with "553 authorization failure (#5.7.1)"
        else
          s ← getS;
          if decide (relayclient s = None ∧ authd s = false)
          then refuse_with "530 authentication required (#5.7.1)"
          else
            x ←? env_get "MASQUERADE";
            if authd s && negb (bool_decide (x = Some [])) then check_masquerade x else go_on
      else refuse_with "553 authorization failure (#5.7.1)".

(** [err_spf]: the lines of the explanation, each from its start. *)
Fixpoint spf_lines (fuel i : nat) : bytes :=
  match fuel with
  | 0 => []
  | S fuel =>
    let msg := spfbarfmsg w ++ (if decide (1 < length (spfbarfmsg w)) then [0%Z] else []) in
    if decide (i < length msg) then
      let j := byte_chr (drop i msg) c_lf + i in
      if decide (j < length msg) then lit "550-" ++ cstr (take j msg) ++ crlf ++ spf_lines fuel (j + 1)
      else
        lit "550 " ++
        (if decide (spfinfo w = []) then []
         else
           let k := str_chr (spfinfo w) c_colon in
           (if decide (k < length (spfinfo w)) then lit "(" ++ drop (k + 2) (spfinfo w) else spfinfo w) ++ lit " ") ++
        (if decide (1 < length msg) then lit "[" ++ cstr msg ++ lit "] " else []) ++ lit "#(5.7.1)" ++ crlf
    else []
  end.
Definition err_spf : SS bool := sout (spf_lines (length (spfbarfmsg w) + 2) 0);;? return_.

(** The cases of the switch go on to the next one when they do not break. *)
Definition spf_threshold (r : spf) : option Z :=
  match r with
  | SpfNone | SpfUnknown => Some 6%Z
  | SpfNeutral => Some 5%Z
  | SpfSoftfail => Some 4%Z
  | SpfFail => Some 3%Z
  | _ => None
  end.
Definition spf_name (r : spf) : option string :=
  match r with
  | SpfOk => Some "pass" | SpfNone => Some "none" | SpfUnknown => Some "unknown" | SpfNeutral => Some "neutral"
  | SpfSoftfail => Some "softfail" | SpfFail => Some "fail" | SpfError => Some "error" | SpfNomem => None
  end%string.
Definition check_spf : SS bool :=
  relay ←? see relayclient;
  if decide (spfbehavior cf ≠ 0%Z ∧ relay = None) then
    (match spf_name (spfcheck w) with Some t => env_put2 "SPFRESULT" (lit t) | None => ok tt end);;?
    match spfcheck w with
    | SpfNomem => die_nomem
    | SpfError => if decide (spfbehavior cf < 2)%Z then go_on else refuse_with "451 SPF lookup failure (#4.3.0)"
    | r => match spf_threshold r with
           | Some t => if decide (spfbehavior cf < t)%Z then go_on else err_spf
           | None => go_on
           end
    end
  else env_unset "SPFRESULT";;? go_on.

Definition ask_plugins (l : list (option bytes)) : SS bool :=
  match filter (λ m, is_Some m) l with
  | Some t :: _ => sout t;;? return_
  | _ => go_on
  end.

(** ** MAIL *)

Definition addr_parse (arg : bytes) : SS bool :=
  match addrparse (data cf) ipme arg with
  | Some a => upd (set_addr a);;? go_on
  | None => refuse_with "555 syntax error in address (#5.1.3)"
  end.

(** Up to the parameters. *)
Definition mail_begin (arg : bytes) : SS bool :=
  upd (set_environ (environ0 cf));;?
  setup_ok cf;;&
  (helo ←? see seenhelo;
   if helo : bool then go_on else refuse_with "503 Polite people say hello first (#5.5.4)");;&
  addr_parse arg;;&
  (a ←? see addr;
   let r := tablematch w (drop (str_rchr a c_at) a) in
   if decide (r = 0)%Z then refuse_with "553 sorry, your host has been denied (#5.7.1)"
   else if decide (r = -1)%Z then die_control
   else if decide (r = -2)%Z then die_nomem
   else go_on);;&
  on_sm (change (λ s, Smtpd (client s) (replies s) (seenmail s) (mailfrom s) (rcptto s) (rcptcount s)
    false (BytesToOverflow s) (msg_size s) (dsn s) (qqt s)));;?
  mailfrom_parms arg;;? go_on.

(** The checks before the sender is taken. *)
Definition mail_sender : SS bool :=
  (required ←? env_is_set "REQUIREAUTH";
   auth ←? see authd;
   if required && negb auth then refuse_with "530 authentication required (#5.7.1)" else go_on);;&
  a ←? see addr;
  matching (address_match w Blackholedsender true a) (env_put2 "NULLQUEUE" (lit "1");;? go_on) go_on;;&
  matching (address_match w Badmailfrom true a)
    (refuse_with "553 sorry, your envelope sender has been denied (#5.7.1)") go_on;;&
  (if nodnscheck cf then go_on else dns_answer "553 Bad sender's system address (#5.1.8)" (dnscheck cf w a));;&
  (bouncemail ←? env_get "BOUNCEMAIL";
   match bouncemail with
   | Some reason => sout (lit "553 " ++ reason ++ lit " (#5.7.1)" ++ crlf);;? exit 1
   | None => go_on
   end);;&
  spamfilter ←? env_is_set "SPAMFILTER";
  if spamfilter : bool then matching (address_match w Spamignore true a) (env_unset "SPAMFILTER";;? go_on) go_on
  else go_on.

(** The sender is taken. *)
Definition mail_take : SS unit :=
  a ←? see addr;
  on_sm (change (λ s, Smtpd (client s) (replies s) (seenmail s) a [] 0 (flagsize s) (BytesToOverflow s)
    (msg_size s) (dsn s) (qqt s)));;?
  x ←? env_get "MAX_RCPT_ERRCOUNT";
  upd (set_max_rcpt_errcount (match x with Some x => scan_int x | None => (-1)%Z end));;?
  upd (set_rcpt_errcount 0%Z).

(** The checks after that. *)
Definition mail_late : SS bool :=
  a ←? see addr;
  (relay ←? see relayclient;
   if decide (relay = None) then
     matching (address_match w Relaymailfrom true a) (upd (set_relayclient (Some []));;? go_on) go_on
   else go_on);;&
  in_rcpt1 ←? addrallowed cf a;
  cug ←? env_is_set "CUGMAIL";
  (if cug && negb in_rcpt1 then refuse_with "553 sorry, this MTA is a closed user group system (#5.7.1)"
   else go_on);;&
  s ← getS;
  in_rcpt2 ←? (if authd s then addrallowed cf (default [] (remote_info s)) else ok false);
  (checksender ←? env_is_set "CHECKSENDER";
   if checksender : bool then check_sender in_rcpt1 in_rcpt2 else go_on);;&
  check_spf;;&
  (chk ←? see chkdomok;
   if chk : bool then
     matching (address_match w Authdomains true a) go_on (upd (set_chkdomok false);;? go_on)
   else go_on);;&
  ask_plugins (mail_plugin w);;&
  (tls ←? env_is_set "FORCE_TLS";
   if tls : bool then refuse_with "530 must issue STARTTLS first (#5.7.0)" else go_on).

Definition mail_accept : SS bool :=
  b ←? env_is_set "ALLOW_BARELF";
  upd (set_barelf b);;? on_sm (change (set_seenmail true));;? refuse_with "250 ok".

Definition smtp_mail (arg : bytes) : SS bool :=
  mail_begin arg;;& mail_sender;;& mail_take;;? mail_late;;& mail_accept.

(** ** RCPT *)

(** Relay probes: an at sign, a percent sign or an exclamation mark in front of the
    last at sign, from the end of the address. *)
Fixpoint before_at (l : bytes) : option bytes :=
  match l with
  | [] => None
  | c :: l => if decide (c = c_at) then Some l else before_at l
  end.
Definition addrrelay (a : bytes) : bool :=
  existsb (λ c, bool_decide (c = c_at ∨ c = 37%Z ∨ c = 33%Z)) (default (rev a) (before_at (rev a))).

(** When the address cannot be rewritten it says so, and goes on. *)
Definition undo_srs : SS bool :=
  a ←? see addr;
  let i := byte_rchr a c_at in
  if decide (srs_domain cf ≠ [] ∧ (case_starts a (lit "SRS0=") || case_starts a (lit "SRS1=")) = true ∧
             i + 2 < length a ∧ drop (i + 1) a = srs_domain cf) then
    match srsreverse w a with
    | ((-3)%Z, _) => ssay "451 failed to decode srs address (#4.3.0)";;? go_on
    | ((-2)%Z, _) => die_nomem
    | ((-1)%Z, _) => die_control
    | (0%Z, _) => ssay "451 unable to decode SRS address (#4.3.5)";;? go_on
    | (1%Z, a) => upd (set_addr a);;? go_on
    | _ => go_on
    end
  else go_on.

Definition rcpt_begin (arg : bytes) : SS bool :=
  setup_ok cf;;&
  (m ←? see (λ s, seenmail (sm s));
   if m : bool then go_on else refuse_with "503 MAIL first (#5.5.1)");;&
  addr_parse arg;;&
  (cug ←? env_is_set "CUGMAIL";
   if cug : bool then
     a ←? see addr; allowed ←? addrallowed cf a;
     if allowed : bool then go_on
     else refuse_with "553 sorry, this MTA is a closed user group system (#5.7.1)"
   else go_on);;&
  undo_srs.

(** Whether it is one of the good ones; a list of them overrules the others. *)
Definition is_good (k : bool → SS bool) : SS bool :=
  a ←? see addr;
  matching (address_match w Goodrcptto true a) (k true) (k false).

Definition rcpt_refused (good : bool) : SS bool :=
  s ← getS;
  let a := addr s in
  (if good then go_on
   else matching (address_match w Badrcptto true a)
          (refuse_with "553 sorry, your envelope recipient has been denied (#5.7.1)") go_on);;&
  (if acclistok cf then
     let r := mail_acl w (mailfrom (sm s)) a in
     if decide (r = 1)%Z then refuse_with "553 sorry, sites access list denies transaction (#5.7.1)"
     else if decide (r = 0)%Z then go_on
     else refuse_with "451 Sorry, there is a local system failure (#4.3.0)"
   else go_on).

(** Who may send to this address; whether it is in rcpthosts. *)
Definition rcpt_relay (k : bool → SS bool) : SS bool :=
  s ← getS;
  all ←? env_is_set "AUTH_ALL";
  allowed ←? (if chkdomok s || all then ok false else addrallowed cf (addr s));
  match relayclient s with
  | Some suffix => upd (set_addr (addr s ++ suffix));;? k allowed
  | None => if allowed : bool then k true else err_nogateway false;;? return_
  end.

Definition recipients_ext (rcpt : bytes) : SS Z :=
  match recipients w rcpt with
  | (-1)%Z => die_control
  | (-2)%Z => die_nomem
  | 10%Z => ok 0%Z
  | (-3)%Z | 111%Z => ssay "451 unable to check recipients (#4.3.2)";;? exit 1
  | r => ok r
  end.

(** Whether the address of a local domain exists. *)
Definition rcpt_exists (good allowed : bool) : SS bool :=
  check ←? env_is_set "CHECKRECIPIENT";
  if allowed && check then
    s ← getS;
    matching (address_match w Chkrcptdomains (chkrcptok s) (addr s)) (upd (set_chkrcptok false);;? go_on) go_on;;&
    skip_ ←? see chkrcptok;
    if skip_ || good then go_on
    else
      r ←? recipients_ext (addr s);
      if decide (r = 0)%Z then
        upd (λ s, set_rcpt_errcount (wrap 32 (rcpt_errcount s + 1)) s);;?
        refuse (lit "550 sorry, " ++ mailfrom (sm s) ++ lit " mailbox <" ++ addr s ++
                lit "> is absent on this domain (#5.1.1)")
      else go_on
  else go_on.

Definition rcpt_limits (good : bool) : SS bool :=
  s ← getS;
  (if decide (max_rcpt_errcount s ≠ (-1)%Z ∧ (wrap 32 (max_rcpt_errcount s) ≤ rcpt_errcount s)%Z)
   then refuse_with "421 too many invalid addresses, goodbye (#4.7.1)" else go_on);;&
  (if good then go_on
   else matching (address_match w Blackholedrcpt true (addr s)) (env_put2 "NULLQUEUE" (lit "1");;? go_on) go_on);;&
  ask_plugins (rcpt_plugin w);;&
  (if decide (0 < maxrcptcount cf ∧ maxrcptcount cf < wrap 32 (rcptcount (sm s) + 1))%Z
   then refuse_with "557 sorry, too many recipients (#5.7.1)" else go_on);;&
  (if decide (mailfrom (sm s) = [] ∧ (1 < wrap 32 (rcptcount (sm s) + 1))%Z)
   then refuse_with "553 sorry, bounce messages should have a single envelope recipient (#5.7.1)" else go_on).

Definition rcpt_accept : SS bool :=
  a ←? see addr;
  on_sm (change (λ s, Smtpd (client s) (replies s) (seenmail s) (mailfrom s)
    (rcptto s ++ lit "T" ++ a ++ [0%Z]) (wrap 32 (rcptcount s + 1)) (flagsize s) (BytesToOverflow s)
    (msg_size s) (dsn s) (qqt s)));;?
  refuse_with "250 ok".

Definition smtp_rcpt (arg : bytes) : SS bool :=
  rcpt_begin arg;;&
  (a ←? see addr; if addrrelay a then refuse_with "550 we don't relay (#5.7.1)" else go_on);;&
  is_good (λ good,
    rcpt_refused good;;&
    rcpt_relay (λ allowed,
      rcpt_exists good allowed;;& rcpt_limits good;;& rcpt_accept)).

(** ** DATA, and the table *)

Definition data_conf (s : session) : smtpd_conf :=
  SmtpdConf (barelf s) (databytes (data cf)) (maxhops (data cf)) (received_field w) (queue_pid w)
    (liphost (data cf)) (read_fails (data cf)).
Definition smtp_data_command (arg : bytes) : SS bool :=
  s ← getS;
  on_sm (smtp_data (data_conf s) arg (opened w) (queue_end w (environ s)) (now w));;? go_on.

(** [smtpcommands], [odmrcommands] and [submcommands]. *)
Definition handler : Type := bytes → bytes → SS bool.
Definition other (f : bytes → SS unit) : handler := λ _ arg, f arg;;? go_on.
Definition mail_commands : list (string * handler) := [
  ("rcpt", λ _, smtp_rcpt); ("mail", λ _, smtp_mail); ("data", λ _, smtp_data_command)]%string.
Definition greet_commands : list (string * handler) := [
  ("auth", other smtp_auth); ("quit", λ _ _, smtp_quit cf); ("helo", λ _, smtp_helo cf w); ("ehlo", λ _, smtp_ehlo cf w)]%string.
Definition small_commands : list (string * handler) := [
  ("rset", λ _, smtp_rset); ("help", λ word _, smtp_help cf word); ("noop", λ _, smtp_noop cf); ("vrfy", smtp_vrfy cf)]%string.
Definition relay_commands : list (string * handler) := [
  ("etrn", other smtp_etrn); ("atrn", other smtp_atrn)]%string.
Definition tls_commands : list (string * handler) := [("starttls", other smtp_tls)]%string.
Definition cmdptr : list (string * handler) :=
  if decide (smtp_port cf = 366%Z ∧ port cf = 366%Z) then
    greet_commands ++ [("help", λ word _, smtp_help cf word)]%string ++ relay_commands
  else if decide (smtp_port cf = 587%Z) then mail_commands ++ greet_commands ++ small_commands ++ tls_commands
  else mail_commands ++ greet_commands ++ small_commands ++ relay_commands ++ tls_commands.

Definition dispatch (word arg : bytes) : SS bool :=
  match filter (λ c, case_equal (lit c.1) word = true) cmdptr with
  | (_, f) :: _ => f word arg
  | [] => err_unimpl word arg
  end.
End command.

(** The loop of [commands] over what the client sends; [ws] is what is said to each
    command. *)
Fixpoint commands (fuel : nat) (ws : nat → lookups) (n : nat) : SS unit :=
  match fuel with
  | 0 => ok tt
  | S fuel =>
    c ←? see (λ s, next_command (client (sm s)));
    match c with
    | None =>
      (if read_fails (data cf) then ssay "451 sorry, unable to read from client (#5.5.2)" else ok tt);;? exit 1
    | Some (word, arg, rest) =>
      on_sm (change (set_client rest));;? dispatch (ws n) word arg;;? commands fuel ws (S n)
    end
  end.
End session.
