(* ===== verification/SessionPhases.v ===== *)
(** * What the parts of a handler leave alone

    Most of MAIL and RCPT is checks: a part either goes on without a word, or it
    refuses the command with one reply, and in both cases the transaction is as
    before.  [phase] states this of a part, and how parts go together. *)

From S2P Require Import Prelude LibQmail Filesys Control Rcpthosts Qmail Smtpd SmtpdSession SmtpdEnvelope.

#[local] Arguments lit : simpl never.

(** A reply that refuses: its code starts with 4 or 5. *)
Definition refusal (t : bytes) : Prop := head t = Some 52%Z ∨ head t = Some 53%Z.

Record tame (cf : session_conf) (w : lookups) : Prop := {
  tm_mail t : Some t ∈ mail_plugin w → refusal t;
  tm_rcpt t : Some t ∈ rcpt_plugin w → refusal t;
  tm_spf : spfbarfmsg w ≠ []
}.

Lemma wp_on_sm {A} (m : SD A) (Q : Z + A → session → Prop) s :
  wp m (λ r x, Q r (set_sm x s)) (sm s) → wp (on_sm m) Q s.
Proof. unfold wp, on_sm. by destruct (m (sm s)). Qed.

Section phases.
Context (lent : Prop).  (* a sender is listed in relaymailfrom *)

(** What a check leaves alone. *)
Record same (s s' : session) : Prop := {
  sa_client : client (sm s') = client (sm s);
  sa_seenmail : seenmail (sm s') = seenmail (sm s);
  sa_mailfrom : mailfrom (sm s') = mailfrom (sm s);
  sa_rcptto : rcptto (sm s') = rcptto (sm s);
  sa_rcptcount : rcptcount (sm s') = rcptcount (sm s);
  sa_over : BytesToOverflow (sm s') = BytesToOverflow (sm s);
  sa_authd : authd s' = authd s;
  sa_relay : relayclient s' = relayclient s ∨ (lent ∧ relayclient s = None ∧ relayclient s' = Some [])
}.
Definition silent_to (s s' : session) : Prop := same s s' ∧ replies (sm s') = replies (sm s).
Definition refused_to (s s' : session) : Prop :=
  same s s' ∧ ∃ t, refusal t ∧ replies (sm s') = replies (sm s) ++ t.

Lemma same_refl s : same s s.
Proof. split; auto. Qed.
Lemma same_trans s1 s2 s3 : same s1 s2 → same s2 s3 → same s1 s3.
Proof.
  intros [] []. split; try congruence.
  destruct sa_relay0 as [H|(? & H & H')], sa_relay1 as [H2|(? & H2 & H2')];
    rewrite ?H, ?H' in *; try (by left; congruence); right; split_and!; congruence.
Qed.
Lemma silent_refl s : silent_to s s.
Proof. split; [apply same_refl|done]. Qed.
Lemma silent_trans s1 s2 s3 : silent_to s1 s2 → silent_to s2 s3 → silent_to s1 s3.
Proof. intros [] []. split; [by eapply same_trans|congruence]. Qed.
Lemma refused_trans s1 s2 s3 : silent_to s1 s2 → refused_to s2 s3 → refused_to s1 s3.
Proof.
  intros [? E] [? (t & Ht & E')]. split; [by eapply same_trans|]. exists t. split; [done|congruence].
Qed.

(** A computation that says nothing, where nobody is logged in. *)
Definition silent {A} (m : SS A) : Prop := ∀ s, authd s = false →
  wp m (λ r s', match r with inl _ => True | inr _ => silent_to s s' ∧ addr s' = addr s end) s.

(** A part of a handler; [R] tells what becomes of [addr]. *)
Definition phase (R : bytes → bytes → Prop) (m : SS bool) : Prop := ∀ s, authd s = false →
  wp m (λ r s', match r with
                | inl _ => True
                | inr true => silent_to s s' ∧ R (addr s) (addr s')
                | inr false => refused_to s s'
                end) s.
#[local] Abbreviation check := (phase eq).

(** ** Silent computations *)

Lemma silent_ok {A} (a : A) : silent (ok a).
Proof. intros s _. apply wp_ok. split; [apply silent_refl|done]. Qed.
Lemma silent_exit {A} c : silent (exit (A := A) c).
Proof. done. Qed.
Lemma silent_see {A} (f : session → A) : silent (see f).
Proof. intros s _. split; [apply silent_refl|done]. Qed.
Lemma smtp_silent_bind {A B} (m : SS A) (k : A → SS B) : silent m → (∀ a, silent (k a)) → silent (qbind m k).
Proof.
  intros Hm Hk s Hs. apply wp_qbind. eapply wp_mono; [by apply Hm|]. intros [e|a] s1; [done|].
  intros [Hq Ha]. eapply wp_mono; [apply Hk; by rewrite (sa_authd _ _ (proj1 Hq))|].
  intros [e|b] s2; [done|]. intros [Hq' Ha']. split; [by eapply silent_trans|congruence].
Qed.
Lemma smtp_silent_getS {A} (k : session → SS A) : (∀ s, authd s = false → silent (k s)) → silent (s ← getS; k s).
Proof. intros Hk s Hs. apply wp_bind, wp_getS. by apply Hk. Qed.
Lemma silent_upd f : (∀ s, silent_to s (f s) ∧ addr (f s) = addr s) → silent (upd f).
Proof. intros Hf s _. apply Hf. Qed.
Lemma silent_dies {A} t c : silent (ssay t;;? exit (A := A) c).
Proof. done. Qed.
Lemma silent_nomem {A} : silent (die_nomem (A := A)).
Proof. done. Qed.
Lemma silent_crash {A} : silent (crash (A := A)).
Proof. done. Qed.
Lemma silent_control {A} : silent (die_control (A := A)).
Proof. done. Qed.
Lemma silent_case {A} (b : bool) (m m' : SS A) : silent m → silent m' → silent (if b then m else m').
Proof. by destruct b. Qed.
Lemma silent_decide {A} P `{!Decision P} (m m' : SS A) :
  (P → silent m) → (¬ P → silent m') → silent (if decide P then m else m').
Proof. intros. case_decide; auto. Qed.
Lemma silent_option {A B} (x : option B) (m : B → SS A) (m' : SS A) : (∀ b, silent (m b)) → silent m' →
  silent (match x with Some b => m b | None => m' end).
Proof. by destruct x. Qed.

(** What [same] does not speak of. *)
Lemma silent_fields {s s'} : sm s' = sm s → authd s' = authd s → relayclient s' = relayclient s → silent_to s s'.
Proof. intros H1 H2 H3. split; [split; rewrite ?H1; auto|by rewrite H1]. Qed.

Lemma silent_var f : (∀ s, sm (f s) = sm s ∧ authd (f s) = authd s ∧ relayclient (f s) = relayclient s ∧
    addr (f s) = addr s) → silent (upd f).
Proof. intros Hf. apply silent_upd. intros s. destruct (Hf s) as (?&?&?&?). split; [by apply silent_fields|done]. Qed.
Lemma silent_env_get k : silent (env_get k).
Proof. apply silent_see. Qed.
Lemma silent_env_is_set k : silent (env_is_set k).
Proof. apply smtp_silent_bind; [apply silent_env_get|intros; apply silent_ok]. Qed.
Lemma silent_env_put k v : silent (env_put2 k v).
Proof. by apply silent_var. Qed.
Lemma silent_env_unset k : silent (env_unset k).
Proof. by apply silent_var. Qed.
Lemma silent_on_sm f : (∀ x, client (f x) = client x ∧ seenmail (f x) = seenmail x ∧ mailfrom (f x) = mailfrom x ∧
    rcptto (f x) = rcptto x ∧ rcptcount (f x) = rcptcount x ∧ BytesToOverflow (f x) = BytesToOverflow x ∧
    replies (f x) = replies x) → silent (on_sm (change f)).
Proof.
  intros Hf s _. destruct (Hf (sm s)) as (?&?&?&?&?&?&?).
  split; [|done]. split; [split; auto|done].
Qed.

(** ** Parts *)

Lemma phase_go : check go_on.
Proof. intros s _. split; [apply silent_refl|done]. Qed.
Lemma phase_dies R t c : phase R (ssay t;;? exit c).
Proof. done. Qed.
Lemma phase_nomem R : phase R die_nomem.
Proof. done. Qed.
Lemma phase_control R : phase R die_control.
Proof. done. Qed.
Lemma phase_refuse R t : refusal (t ++ crlf) → phase R (refuse t).
Proof.
  intros Ht s _. split; [split; auto|]. exists (t ++ crlf). done.
Qed.
Lemma phase_says R t : refusal t → phase R (sout t;;? return_).
Proof. intros Ht s _. split; [split; auto|]. by exists t. Qed.
Lemma phase_refuse_with R t : refusal (lit t ++ crlf) → phase R (refuse_with t).
Proof. apply phase_refuse. Qed.
Lemma phase_mono R R' m : phase R m → (∀ a b, R a b → R' a b) → phase R' m.
Proof.
  intros Hm HR s Hs. eapply wp_mono; [by apply Hm|]. intros [e|[]] s'; [done| |done]. intros [? ?]. auto.
Qed.
Lemma phase_and R R' m m' : phase R m → phase R' m' → phase (λ a c, ∃ b, R a b ∧ R' b c) (m;;& m').
Proof.
  intros Hm Hm' s Hs. apply wp_qbind. eapply wp_mono; [by apply Hm|]. intros [e|[]] s1; [done| |done].
  intros [Hq HR]. eapply wp_mono; [apply Hm'; by rewrite (sa_authd _ _ (proj1 Hq))|].
  intros [e|[]] s2; [done| |].
  - intros [Hq' HR']. split; [by eapply silent_trans|by eexists].
  - intros Hr. by eapply refused_trans.
Qed.
Lemma phase_then R m m' : check m → phase R m' → phase R (m;;& m').
Proof. intros Hm Hm'. eapply phase_mono; [by apply phase_and|]. by intros a c (? & -> & ?). Qed.
Lemma phase_bind {A} R (m : SS A) (k : A → SS bool) : silent m → (∀ a, phase R (k a)) → phase R (qbind m k).
Proof.
  intros Hm Hk s Hs. apply wp_qbind. eapply wp_mono; [by apply Hm|]. intros [e|a] s1; [done|].
  intros [Hq Ha]. eapply wp_mono; [apply Hk; by rewrite (sa_authd _ _ (proj1 Hq))|].
  rewrite Ha. intros [e|[]] s2; [done| |].
  - intros [Hq' HR]. split; [by eapply silent_trans|done].
  - intros Hr. by eapply refused_trans.
Qed.
Lemma phase_getS R (k : session → SS bool) : (∀ s, authd s = false → phase R (k s)) → phase R (s ← getS; k s).
Proof. intros Hk s Hs. apply wp_bind, wp_getS. by apply Hk. Qed.
Lemma phase_case R (b : bool) m m' : phase R m → phase R m' → phase R (if b then m else m').
Proof. by destruct b. Qed.
Lemma phase_decide R P `{!Decision P} m m' : phase R m → phase R m' → phase R (if decide P then m else m').
Proof. by case_decide. Qed.
Lemma phase_addressmatch R : phase R err_addressmatch.
Proof. apply phase_refuse_with. by left. Qed.
Lemma phase_matching R r m m' : phase R m → phase R m' → phase R (matching r m m').
Proof.
  intros H1 H2. unfold matching. repeat apply phase_decide; try done. apply phase_addressmatch.
Qed.
Lemma phase_plugins l : (∀ t, Some t ∈ l → refusal t) → check (ask_plugins l).
Proof.
  intros Hl. unfold ask_plugins. destruct (filter _ l) as [|[t|] r] eqn:E; try apply phase_go.
  apply phase_says, Hl. assert (Some t ∈ filter (λ m : option bytes, is_Some m) l) as H by (rewrite E; left).
  by apply list_elem_of_filter in H as [_ H].
Qed.
End phases.

Create HintDb smtp.
#[export] Hint Resolve silent_ok silent_exit silent_see silent_dies silent_nomem silent_control silent_crash silent_env_get silent_env_is_set silent_env_put
  silent_env_unset : smtp.
#[export] Hint Resolve phase_go phase_dies phase_nomem phase_control phase_addressmatch : smtp.

(** A literal that refuses. *)
Ltac refusal := first [left; reflexivity | right; reflexivity].

(** Taking a part to pieces. *)
Ltac part :=
  lazymatch goal with
  | |- phase _ _ (refuse_with _) => apply phase_refuse_with; refusal
  | |- phase _ _ (matching _ _ _) => apply phase_matching
  | |- phase _ _ (qbind ?m (λ b, if b then ?k else return_)) => apply phase_then
  | |- phase _ _ (qbind (ssay _) (λ _, exit _)) => apply phase_dies
  | |- phase _ _ (qbind _ _) => apply phase_bind; [auto with smtp|intros ?]
  | |- phase _ _ (mbind _ getS) => apply phase_getS; intros ? ?
  | |- phase _ _ (if decide _ then _ else _) => apply phase_decide
  | |- phase _ _ (if _ then _ else _) => apply phase_case
  | |- phase _ _ (match ?x with Some _ => _ | None => _ end) => destruct x
  | |- phase _ _ _ => solve [auto with smtp]
  end.
Ltac parts := repeat part.

(** ** The checks of MAIL and RCPT

    Every part of the two handlers that is a check keeps the transaction, and what
    it sends is one refusal. *)

Section checks.
Context {L : LibQmail} {K : CaseLib} {C : Commands} (cf : session_conf).
Context (ipme : list (list Z)) (beyond : bytes).
Context (lent : Prop).
#[local] Abbreviation check := (phase lent eq).
#[local] Abbreviation silent := (silent lent).

Lemma refused_at_start_refuses env t : refused_at_start cf env = Some t → refusal (t ++ crlf).
Proof. unfold refused_at_start. intros H. repeat case_match; simplify_eq; refusal. Qed.
Lemma check_setup_ok : check (setup_ok cf).
Proof.
  unfold setup_ok. apply phase_bind; [auto with smtp|]. intros env.
  destruct (refused_at_start cf env) as [t|] eqn:E; [|apply phase_go].
  eapply phase_refuse, refused_at_start_refuses, E.
Qed.
Lemma silent_addrallowed a : silent (addrallowed cf a).
Proof. unfold addrallowed. apply silent_decide; auto with smtp. Qed.
Hint Resolve check_setup_ok silent_addrallowed : smtp.

Lemma phase_addr_parse arg : phase lent (λ _ b, addrparse (data cf) ipme arg = Some b) (addr_parse cf ipme arg).
Proof.
  unfold addr_parse. destruct (addrparse (data cf) ipme arg) as [a|]; [|apply phase_refuse_with; refusal].
  intros s _. split; [|done]. by apply silent_fields.
Qed.

Section command.
Context (w : lookups) (Hw : tame cf w).
Context (Hlent : ∀ a, address_match w Relaymailfrom true a = 1%Z → lent).

(** ** The parameters of MAIL *)

Lemma silent_mailfrom_auth arg len : silent (mailfrom_auth arg len).
Proof.
  unfold mailfrom_auth. apply smtp_silent_bind; [auto with smtp|]. intros []; [auto with smtp|].
  apply smtp_silent_bind; [apply silent_case; [by apply silent_var|apply silent_decide; [auto with smtp|by intros; apply silent_var]]|].
  intros _. apply smtp_silent_getS. intros s _. apply silent_option; [auto with smtp|].
  apply smtp_silent_bind; [by apply silent_var|]. intros _.
  apply smtp_silent_bind; [auto with smtp|]. intros _. apply smtp_silent_bind; [auto with smtp|]. intros _. auto with smtp.
Qed.
Lemma silent_mf_put i c : silent (mf_put i c).
Proof. by apply silent_var. Qed.
Lemma silent_mailfrom_size arg : silent (mailfrom_size cf arg).
Proof.
  unfold mailfrom_size. apply smtp_silent_bind; [by apply silent_on_sm|]. intros _. auto with smtp.
Qed.
Hint Resolve silent_mailfrom_auth silent_mf_put silent_mailfrom_size : smtp.

Lemma silent_mailfrom_words arg len : silent (mailfrom_words cf beyond arg len).
Proof.
  revert len. induction arg as [|c arg IH]; intros len; simpl; [auto with smtp|].
  apply silent_decide; intros _; [|apply smtp_silent_bind; auto with smtp].
  apply smtp_silent_bind; [auto with smtp|]. intros m. apply silent_decide; intros _; [auto with smtp|].
  apply smtp_silent_bind; [auto with smtp|]. intros utf8. repeat apply silent_case; auto.
  - apply smtp_silent_bind; [|auto]. by apply silent_var.
  - apply smtp_silent_bind; [auto with smtp|]. intros _. apply smtp_silent_bind; [auto with smtp|]. intros m'.
    apply smtp_silent_bind; [auto with smtp|]. intros []; [by apply silent_on_sm|auto].
  - apply smtp_silent_bind; [auto with smtp|]. intros _. apply smtp_silent_bind; [auto with smtp|]. intros m'.
    apply smtp_silent_bind; auto with smtp.
Qed.
Lemma silent_mailfrom_parms arg : silent (mailfrom_parms cf beyond arg).
Proof. unfold mailfrom_parms. apply silent_decide; intros _; [apply silent_mailfrom_words|auto with smtp]. Qed.
Hint Resolve silent_mailfrom_parms : smtp.

(** ** The checks of MAIL *)

Lemma phase_mail_begin arg :
  phase lent (λ _ b, addrparse (data cf) ipme arg = Some b) (mail_begin cf ipme beyond w arg).
Proof.
  unfold mail_begin. apply phase_bind; [by apply silent_var|]. intros _.
  apply phase_then; [auto with smtp|]. apply phase_then; [parts|].
  eapply phase_mono; [apply phase_and; [apply phase_addr_parse|]|].
  - apply phase_then; [parts|]. apply phase_bind; [by apply silent_on_sm|]. intros _. parts.
  - by intros a c (b & H & <-).
Qed.

Lemma phase_dns t d : refusal (lit t ++ crlf) → check (dns_answer t d).
Proof. intros Ht. unfold dns_answer. case_match; auto with smtp; [by apply phase_refuse_with|parts]. Qed.

Lemma check_mail_sender : check (mail_sender cf w).
Proof.
  unfold mail_sender. apply phase_then; [parts|]. apply phase_bind; [auto with smtp|]. intros a.
  apply phase_then; [parts|]. apply phase_then; [parts|]. apply phase_then.
  { apply phase_case; [apply phase_go|]. apply phase_dns. refusal. }
  apply phase_then; [|parts]. apply phase_bind; [auto with smtp|]. intros []; [done|apply phase_go].
Qed.

Lemma silent_check_user_pwd a : silent (check_user_pwd w a).
Proof. unfold check_user_pwd. case_match; auto with smtp. Qed.
Hint Resolve silent_check_user_pwd : smtp.

Lemma check_check_sender b b' : check (check_sender cf w b b').
Proof.
  unfold check_sender. apply phase_getS. intros s Hs. apply phase_case; [apply phase_go|].
  apply phase_then.
  { apply phase_matching; [|apply phase_go]. apply phase_bind; [by apply silent_var|intros _; parts]. }
  apply phase_bind; [auto with smtp|]. intros []; [apply phase_go|]. apply phase_decide; [|parts].
  apply phase_bind; [auto with smtp|]. intros []; [parts|].
  apply phase_getS. intros x Hx. apply phase_decide; [parts|]. apply phase_bind; [auto with smtp|].
  intros y. rewrite Hx. apply phase_go.
Qed.

Lemma spf_lines_refuse : refusal (spf_lines w (length (spfbarfmsg w) + 2) 0).
Proof.
  rewrite Nat.add_comm. cbn [plus spf_lines]. rewrite decide_True.
  - case_decide; refusal.
  - pose proof (tm_spf _ _ Hw). rewrite length_app. destruct (spfbarfmsg w); [done|simpl; lia].
Qed.
Lemma check_check_spf : check (check_spf cf w).
Proof.
  unfold check_spf. apply phase_bind; [auto with smtp|]. intros relay. apply phase_decide.
  2: { apply phase_bind; [auto with smtp|]. intros _. apply phase_go. }
  apply phase_bind; [case_match; auto with smtp|]. intros _.
  assert (check (err_spf w)) as He by (apply phase_says, spf_lines_refuse).
  destruct (spfcheck w); simpl; try apply phase_decide; try apply phase_go; try exact He; parts.
Qed.

Lemma check_mail_late : check (mail_late cf w).
Proof.
  unfold mail_late. apply phase_bind; [auto with smtp|]. intros a. apply phase_then.
  { destruct (decide (address_match w Relaymailfrom true a = 1%Z)) as [Hm|Hm].
    - intros s Hs. apply wp_qbind, wp_bind, wp_getS, wp_ok. unfold matching. rewrite (decide_True (P := _ = 1%Z)) by done.
      case_decide as Hr; [|by apply (phase_go lent)]. split; [|done]. split; [split; eauto|done].
    - apply phase_bind; [auto with smtp|]. intros relay. apply phase_decide; [|apply phase_go].
      unfold matching. rewrite decide_False by done. parts. }
  apply phase_bind; [auto with smtp|]. intros in_rcpt1. apply phase_bind; [auto with smtp|]. intros cug.
  apply phase_then; [parts|]. apply phase_getS. intros s Hs. rewrite Hs.
  apply phase_bind; [auto with smtp|]. intros in_rcpt2. apply phase_then.
  { apply phase_bind; [auto with smtp|]. intros []; [apply check_check_sender|apply phase_go]. }
  apply phase_then; [apply check_check_spf|]. apply phase_then.
  { apply phase_bind; [auto with smtp|]. intros []; [|apply phase_go]. apply phase_matching; [apply phase_go|].
    apply phase_bind; [by apply silent_var|intros _; parts]. }
  apply phase_then; [apply phase_plugins, (tm_mail _ _ Hw)|]. parts.
Qed.
End command.
End checks.
