(* ===== verification/SessionEnvelope.v ===== *)
(** * What MAIL and RCPT do to the transaction

    A command that is refused leaves the transaction as it was; one that is accepted
    does what the reply says, and only when the checks allow it. *)

From S2P Require Import Prelude LibQmail Filesys Control Rcpthosts Qmail Smtpd SmtpdSession SmtpdEnvelope.
From S2P Require Import SessionPhases.

#[local] Arguments lit : simpl never.

Definition ok250 : bytes := lit "250 ok" ++ crlf.

Section part.
Context (lent : Prop).
#[local] Abbreviation silent_to := (silent_to lent).
#[local] Abbreviation refused_to := (refused_to lent).

(** Doing a part that is a check. *)
Lemma wp_phase R m k (Q : Z + bool → session → Prop) s0 s : phase lent R m → silent_to s0 s → authd s = false →
  (∀ s1, silent_to s0 s1 → authd s1 = false → R (addr s) (addr s1) → wp k Q s1) →
  (∀ s1, refused_to s0 s1 → Q (inr false) s1) → (∀ e s1, Q (inl e) s1) →
  wp (m;;& k) Q s.
Proof.
  intros Hm H0 Ha Hk Hr He. apply wp_qbind. eapply wp_mono; [by apply Hm|]. intros [e|[]] s1; [by auto| |].
  - intros [Hs HR]. apply Hk; [by eapply silent_trans|by rewrite (sa_authd _ _ _ (proj1 Hs))|done].
  - intros H1. apply Hr. by eapply refused_trans.
Qed.

(** The commands that are refused, or end the process. *)
Definition refused_or (s : session) (P : session → Prop) (r : Z + bool) (s' : session) : Prop :=
  match r with inl _ => True | inr _ => refused_to s s' ∨ P s' end.

Lemma wp_see {A} (f : session → A) (Q : Z + A → session → Prop) s : Q (inr (f s)) s → wp (see f) Q s.
Proof. done. Qed.
Lemma wp_env_is_set k (Q : Z + bool → session → Prop) s :
  Q (inr (bool_decide (is_Some (environ s !! k)))) s → wp (env_is_set k) Q s.
Proof. done. Qed.
End part.

(** ** MAIL *)

Section mail.
Context {L : LibQmail} {K : CaseLib} {C : Commands} (cf : session_conf).
Context (ipme : list (list Z)) (beyond : bytes).
Context (lent : Prop) (w : lookups) (Hw : tame cf w).
Context (Hlent : ∀ a, address_match w Relaymailfrom true a = 1%Z → lent).
#[local] Abbreviation parse := (addrparse (data cf) ipme).
#[local] Abbreviation silent_to := (silent_to lent).
#[local] Abbreviation refused_to := (refused_to lent).

(** The sender is taken before the last checks: when one of these refuses, the new
    sender is there without recipients, and [seenmail] is what it was. *)
Record mail_refused_late (arg : bytes) (s s' : session) : Prop := {
  ml_sender : parse arg = Some (mailfrom (sm s'));
  ml_rcptto : rcptto (sm s') = [];
  ml_rcptcount : rcptcount (sm s') = 0%Z;
  ml_seenmail : seenmail (sm s') = seenmail (sm s);
  ml_client : client (sm s') = client (sm s);
  ml_over : BytesToOverflow (sm s') = BytesToOverflow (sm s);
  ml_authd : authd s' = authd s;
  ml_relay : relayclient s' = relayclient s ∨ (lent ∧ relayclient s = None ∧ relayclient s' = Some []);
  ml_reply : ∃ t, refusal t ∧ replies (sm s') = replies (sm s) ++ t
}.
Record mail_accepted (arg : bytes) (s s' : session) : Prop := {
  ma_sender : parse arg = Some (mailfrom (sm s'));
  ma_rcptto : rcptto (sm s') = [];
  ma_rcptcount : rcptcount (sm s') = 0%Z;
  ma_seenmail : seenmail (sm s') = true;
  ma_client : client (sm s') = client (sm s);
  ma_over : BytesToOverflow (sm s') = BytesToOverflow (sm s);
  ma_authd : authd s' = authd s;
  ma_relay : relayclient s' = relayclient s ∨ (lent ∧ relayclient s = None ∧ relayclient s' = Some []);
  ma_reply : replies (sm s') = replies (sm s) ++ ok250
}.

Lemma wp_mail_accept s : wp mail_accept (λ r s', match r with inl _ => False | inr _ =>
    mailfrom (sm s') = mailfrom (sm s) ∧ rcptto (sm s') = rcptto (sm s) ∧ rcptcount (sm s') = rcptcount (sm s) ∧
    seenmail (sm s') = true ∧ client (sm s') = client (sm s) ∧ BytesToOverflow (sm s') = BytesToOverflow (sm s) ∧
    authd s' = authd s ∧ relayclient s' = relayclient s ∧ replies (sm s') = replies (sm s) ++ lit "250 ok" ++ crlf end) s.
Proof. done. Qed.

Lemma wp_smtp_mail arg s : authd s = false →
  wp (smtp_mail cf ipme beyond w arg)
    (refused_or lent s (λ s', mail_refused_late arg s s' ∨ mail_accepted arg s s')) s.
Proof.
  intros Ha. unfold smtp_mail.
  eapply (wp_phase _ _ _ _ _ s); [by apply phase_mail_begin|apply silent_refl|done| |by left|done].
  intros s1 H1 Ha1 Hp.
  eapply (wp_phase _ _ _ _ _ s); [by apply check_mail_sender|done|done| |by left|done].
  intros s2 H2 Ha2 Hp2. rewrite Hp2 in Hp.
  assert (Htake : wp mail_take (λ r s3, match r with inl _ => True | inr _ =>
    mailfrom (sm s3) = addr s2 ∧ rcptto (sm s3) = [] ∧ rcptcount (sm s3) = 0%Z ∧ seenmail (sm s3) = seenmail (sm s2) ∧
    client (sm s3) = client (sm s2) ∧ BytesToOverflow (sm s3) = BytesToOverflow (sm s2) ∧ authd s3 = authd s2 ∧
    relayclient s3 = relayclient s2 ∧ replies (sm s3) = replies (sm s2) end) s2).
  { done. }
  destruct H2 as [[? ? ? ? ? ? ? Hr2] Hrep].
  apply wp_qbind. eapply wp_mono; [exact Htake|]. clear Htake. intros [e|[]] s3; [done|].
  intros (E1 & E2 & E3 & E4 & E5 & E6 & E7 & E8 & E9).
  assert (Hrel : ∀ x, relayclient x = relayclient s3 ∨ (lent ∧ relayclient s3 = None ∧ relayclient x = Some []) →
    relayclient x = relayclient s ∨ (lent ∧ relayclient s = None ∧ relayclient x = Some [])).
  { intros x. rewrite E8. destruct Hr2 as [-> |(? & H & H')]; [done|]. rewrite H'. intros [Hx|(_ & Hx & _)]; [|done].
    right. by rewrite Hx. }
  eapply (wp_phase _ _ _ _ _ s3); [by apply check_mail_late|apply silent_refl|congruence| | |done].
  - intros s4 [[? ? ? ? ? ? ? Hr4] Hrep4] Ha4 _.
    eapply wp_mono; [apply wp_mail_accept|]. intros [e|b] s5; [done|]. intros (F1 & F2 & F3 & F4 & F5 & F6 & F7 & F8 & F9).
    right. right. split; try congruence; [apply Hrel; congruence|].
    rewrite F9. unfold ok250. congruence.
  - intros s4 [[? ? ? ? ? ? ? Hr4] (t & Ht & Hrep4)]. right. left. split; try congruence; [by apply Hrel|].
    exists t. split; [done|congruence].
Qed.
End mail.

(** ** RCPT *)

Section rcpt.
Context {L : LibQmail} {K : CaseLib} {C : Commands} (cf : session_conf).
Context (ipme : list (list Z)) (w : lookups) (Hw : tame cf w) (Hsrs : srs_domain cf = []).
#[local] Abbreviation parse := (addrparse (data cf) ipme).
#[local] Abbreviation check := (phase False eq).
#[local] Abbreviation silent_to := (silent_to False).
#[local] Abbreviation refused_to := (refused_to False).

Lemma same_relay s s' : same False s s' → relayclient s' = relayclient s.
Proof. intros H. by destruct (sa_relay _ _ _ H) as [|[]]. Qed.

Lemma check_undo_srs : check (undo_srs cf w).
Proof.
  unfold undo_srs. apply phase_bind; [auto with smtp|]. intros a. rewrite decide_False; [apply phase_go|].
  by rewrite Hsrs; intros [[] _].
Qed.
Lemma phase_rcpt_begin arg :
  phase False (λ _ b, parse arg = Some b) (rcpt_begin cf ipme w arg).
Proof.
  unfold rcpt_begin. apply phase_then; [apply check_setup_ok|]. apply phase_then; [parts|].
  eapply phase_mono; [apply phase_and; [apply phase_addr_parse|]|].
  - apply phase_then; [|apply check_undo_srs]. apply phase_bind; [auto with smtp|]. intros []; [|apply phase_go].
    apply phase_bind; [auto with smtp|]. intros a. apply phase_bind; [apply silent_addrallowed|]. intros allowed. parts.
  - by intros a c (b & H & <-).
Qed.
Lemma check_rcpt_refused good : check (rcpt_refused cf w good).
Proof. unfold rcpt_refused. apply phase_getS. intros s _. apply phase_then; parts. Qed.

Lemma silent_recipients_ext a : silent False (recipients_ext w a).
Proof. unfold recipients_ext. repeat case_match; auto with smtp. Qed.
Lemma check_rcpt_exists good allowed : check (rcpt_exists w good allowed).
Proof.
  unfold rcpt_exists. apply phase_bind; [auto with smtp|]. intros checked. apply phase_case; [|apply phase_go].
  apply phase_getS. intros s _. apply phase_then.
  { apply phase_matching; [|apply phase_go]. apply phase_bind; [by apply silent_var|intros _; apply phase_go]. }
  apply phase_bind; [auto with smtp|]. intros skip_. apply phase_case; [apply phase_go|].
  apply phase_bind; [apply silent_recipients_ext|]. intros r. apply phase_decide; [|apply phase_go].
  apply phase_bind; [by apply silent_var|]. intros _. apply phase_refuse. refusal.
Qed.

(** What the limits allow. *)
Definition within_limits (s : session) : Prop :=
  ((0 < maxrcptcount cf)%Z → (wrap 32 (rcptcount (sm s) + 1) ≤ maxrcptcount cf)%Z) ∧
  (mailfrom (sm s) = [] → (wrap 32 (rcptcount (sm s) + 1) ≤ 1)%Z).

Record rcpt_accepted (arg : bytes) (s s' : session) : Prop := {
  ra_began : seenmail (sm s) = true;
  ra_address : ∃ a, parse arg = Some a ∧ addrrelay a = false ∧
    (relayclient s = None → rcpthosts case_lower (hosts cf) false a ≠ 0%Z) ∧
    rcptto (sm s') = rcptto (sm s) ++ lit "T" ++ (a ++ default [] (relayclient s)) ++ [0%Z];
  ra_limits : within_limits s;
  ra_rcptcount : rcptcount (sm s') = wrap 32 (rcptcount (sm s) + 1);
  ra_mailfrom : mailfrom (sm s') = mailfrom (sm s);
  ra_seenmail : seenmail (sm s') = true;
  ra_client : client (sm s') = client (sm s);
  ra_over : BytesToOverflow (sm s') = BytesToOverflow (sm s);
  ra_authd : authd s' = authd s;
  ra_relay : relayclient s' = relayclient s;
  ra_reply : replies (sm s') = replies (sm s) ++ ok250
}.

Lemma wp_rcpt_limits good k (Q : Z + bool → session → Prop) s0 s : silent_to s0 s → authd s = false →
  (∀ s1, silent_to s0 s1 → authd s1 = false → addr s1 = addr s → within_limits s → wp k Q s1) →
  (∀ s1, refused_to s0 s1 → Q (inr false) s1) → (∀ e s1, Q (inl e) s1) →
  wp (rcpt_limits cf w good;;& k) Q s.
Proof.
  intros H0 Ha Hk Hr He. unfold rcpt_limits. apply wp_qbind, wp_bind, wp_getS.
  set (Q' := λ (r : Z + bool) (s' : session), match r with inl e => Q (inl e) s' | inr b => wp (if b then k else return_) Q s' end).
  assert (Hr' : ∀ s1, refused_to s0 s1 → Q' (inr false) s1) by (intros s1 H1; by apply Hr).
  eapply (wp_phase False eq _ _ Q'); [parts|exact H0|done| |done|done]. intros s1 H1 Ha1 Ea1.
  eapply (wp_phase False eq _ _ Q'); [parts; apply phase_bind; auto with smtp|exact H1|done| |done|done]. intros s2 H2 Ha2 Ea2.
  eapply (wp_phase False eq _ _ Q'); [apply phase_plugins, (tm_rcpt _ _ Hw)|exact H2|done| |done|done]. intros s3 H3 Ha3 Ea3.
  destruct (decide (0 < maxrcptcount cf ∧ maxrcptcount cf < wrap 32 (rcptcount (sm s) + 1))%Z) as [|Hmax].
  { apply Hr'. eapply refused_trans; [exact H3|]. split; [split; auto|]. eexists. split; [|done]. refusal. }
  apply wp_qbind, wp_ok.
  destruct (decide (mailfrom (sm s) = [] ∧ (1 < wrap 32 (rcptcount (sm s) + 1))%Z)) as [|Hb].
  { apply Hr'. eapply refused_trans; [exact H3|]. split; [split; auto|]. eexists. split; [|done]. refusal. }
  apply wp_ok. unfold Q'. apply Hk; [done|done|congruence|]. split; [lia|]. intros Hm.
  destruct (decide (1 < wrap 32 (rcptcount (sm s) + 1))%Z); [tauto|lia].
Qed.

Lemma wp_rcpt_accept s : wp rcpt_accept (λ r s', match r with inl _ => False | inr _ =>
    mailfrom (sm s') = mailfrom (sm s) ∧ rcptto (sm s') = rcptto (sm s) ++ lit "T" ++ addr s ++ [0%Z] ∧
    rcptcount (sm s') = wrap 32 (rcptcount (sm s) + 1) ∧
    seenmail (sm s') = seenmail (sm s) ∧ client (sm s') = client (sm s) ∧ BytesToOverflow (sm s') = BytesToOverflow (sm s) ∧
    authd s' = authd s ∧ relayclient s' = relayclient s ∧ replies (sm s') = replies (sm s) ++ lit "250 ok" ++ crlf end) s.
Proof. done. Qed.

Lemma wp_rcpt_begin arg s : authd s = false → wp (rcpt_begin cf ipme w arg)
  (λ r s', match r with
           | inl _ => True
           | inr true => seenmail (sm s) = true ∧ silent_to s s' ∧ parse arg = Some (addr s')
           | inr false => refused_to s s'
           end) s.
Proof.
  intros Ha. pose proof (phase_rcpt_begin arg s Ha) as H. unfold wp in *.
  destruct (rcpt_begin cf ipme w arg s) as [[e|[]] s'] eqn:E; simpl in *; try done. split; [|done].
  destruct (seenmail (sm s)) eqn:Em; [done|]. exfalso.
  cut (wp (rcpt_begin cf ipme w arg) (λ r _, r ≠ inr true) s); [unfold wp; by rewrite E|].
  unfold rcpt_begin. eapply (wp_phase False eq _ _ _ s); [apply check_setup_ok|apply silent_refl|done| |done|done].
  intros s1 [[] _] _ _. apply wp_qbind, wp_qbind, wp_see.
  by replace (seenmail (sm s1)) with false by congruence.
Qed.

Lemma wp_smtp_rcpt arg s : authd s = false →
  wp (smtp_rcpt cf ipme w arg) (refused_or False s (rcpt_accepted arg s)) s.
Proof.
  intros Ha. unfold smtp_rcpt. apply wp_qbind. eapply wp_mono; [by apply wp_rcpt_begin|].
  intros [e|[]] s1; [done| |by left]. intros (Hm & H1 & Hp).
  assert (Ha1 : authd s1 = false) by (by rewrite (sa_authd _ _ _ (proj1 H1))).
  apply wp_qbind. destruct (addrrelay (addr s1)) eqn:Er.
  { apply wp_qbind, wp_see. rewrite Er. left. eapply refused_trans; [exact H1|].
    split; [split; auto|]. eexists. split; [|done]. refusal. }
  apply wp_qbind, wp_see. rewrite Er. apply wp_ok.
  unfold is_good. apply wp_qbind, wp_see.
  assert (Hrest : ∀ good, wp (rcpt_refused cf w good;;& rcpt_relay cf (λ allowed,
      rcpt_exists w good allowed;;& rcpt_limits cf w good;;& rcpt_accept)) (refused_or False s (rcpt_accepted arg s)) s1).
  2: { unfold matching. repeat case_decide; [by apply Hrest..|done|].
       left. eapply refused_trans; [exact H1|]. split; [split; auto|]. eexists. split; [|done]. refusal. }
  intros good. eapply (wp_phase False eq _ _ _ s); [apply check_rcpt_refused|exact H1|done| |by left|done].
  intros s2 H2 Ha2 Ea2. unfold rcpt_relay. apply wp_bind, wp_getS.
  apply wp_qbind, wp_env_is_set. set (all := bool_decide _). apply wp_qbind.
  eapply (wp_mono _ (λ r s3, match r with inl _ => True | inr b => s3 = s2 ∧
    (b = true → rcpthosts case_lower (hosts cf) false (addr s2) ≠ 0%Z) end)).
  { destruct (chkdomok s2 || all); [by apply wp_ok|]. unfold addrallowed. case_decide; [done|]. apply wp_ok.
    split; [done|]. intros Hb Hz. by rewrite bool_decide_true in Hb. }
  intros [e|allowed] s3; [done|]. intros [-> Hall].
  (* the end, once it is known who may send *)
  assert (Hend : ∀ s4 b a, silent_to s s4 → authd s4 = false → addr s4 = a ++ default [] (relayclient s) →
    a = addr s1 → (relayclient s = None → rcpthosts case_lower (hosts cf) false a ≠ 0%Z) →
    wp (rcpt_exists w good b;;& rcpt_limits cf w good;;& rcpt_accept) (refused_or False s (rcpt_accepted arg s)) s4).
  { intros s4 b a H4 Ha4 Ea4 -> Hok.
    eapply (wp_phase False eq _ _ _ s); [apply check_rcpt_exists|exact H4|done| |by left|done]. intros s5 H5 Ha5 Ea5.
    eapply (wp_rcpt_limits good _ _ s); [exact H5|done| |by left|done]. intros s6 H6 Ha6 Ea6 Hlim.
    eapply wp_mono; [apply wp_rcpt_accept|]. intros [e|b'] s7; [done|].
    intros (F1 & F2 & F3 & F4 & F5 & F6 & F7 & F8 & F9). right.
    pose proof (same_relay _ _ (proj1 H6)) as Hr6.
    destruct H5 as [[] _], H6 as [[] Hrep6]. split; try congruence.
    - exists (addr s1). split_and!; [done|done|done|]. rewrite F2, Ea6, <- Ea5, Ea4. congruence.
    - unfold within_limits in *. congruence.
    - by rewrite F9, Hrep6. }
  pose proof (same_relay _ _ (proj1 H2)) as Hr2. rewrite Hr2. destruct (relayclient s) as [suffix|] eqn:Er2.
  - apply wp_qbind. apply (Hend _ _ (addr s1)); simpl; try done.
    + eapply silent_trans; [exact H2|]. by apply silent_fields.
    + by rewrite Ea2.
  - destruct allowed.
    + apply (Hend _ _ (addr s1)); try done; [by rewrite app_nil_r|]. rewrite Ea2. auto.
    + left. eapply refused_trans; [exact H2|]. split; [split; auto|]. eexists. split; [|done]. refusal.
Qed.
End rcpt.
