(* ===== verification/SessionDialogue.v ===== *)
(** * A dialogue with an SMTP client

    Sessions as sequences of commands with their replies; what each command does to
    the transaction; and that the loop of the program runs through such a dialogue. *)

From S2P Require Import Prelude LibQmail Filesys Control Rcpthosts Qmail Smtpd SmtpdSession SmtpdEnvelope.
From S2P Require Import SessionPhases SessionEnvelope.

#[local] Arguments lit : simpl never.

(** ** DATA, whatever the client sends *)

(** A computation of DATA that says more, and leaves [seenmail] and a limit that is
    not set alone. *)
Definition grown (s s' : smtpd) : Prop :=
  (seenmail s' = seenmail s ∧ mailfrom s' = mailfrom s ∧ rcptto s' = rcptto s) ∧ (∃ t, replies s' = replies s ++ t) ∧
  (BytesToOverflow s = 0%Z → BytesToOverflow s' = 0%Z).
Definition grows {A} (m : SD A) : Prop := ∀ s,
  wp m (λ r s', match r with inl _ => True | inr _ => grown s s' end) s.

Lemma grown_refl s : grown s s.
Proof. split; [done|split; [exists []; by rewrite app_nil_r|done]]. Qed.
Lemma grown_trans s1 s2 s3 : grown s1 s2 → grown s2 s3 → grown s1 s3.
Proof.
  intros ((? & ? & ?) & [t Ht] & ?) ((? & ? & ?) & [t' Ht'] & ?). split; [split_and!; congruence|split; [|auto]].
  exists (t ++ t'). by rewrite Ht', Ht, (assoc_L app).
Qed.
Lemma grows_ok {A} (a : A) : grows (ok a).
Proof. intros s. apply grown_refl. Qed.
Lemma grows_bind {A B} (m : SD A) (k : A → SD B) : grows m → (∀ a, grows (k a)) → grows (qbind m k).
Proof.
  intros Hm Hk s. apply wp_qbind. eapply wp_mono; [apply Hm|]. intros [e|a] s1; [done|]. intros H1.
  eapply wp_mono; [apply Hk|]. intros [e|b] s2; [done|]. intros H2. by eapply grown_trans.
Qed.
Lemma grows_getS {A} (k : smtpd → SD A) : (∀ s, grows (k s)) → grows (s ← getS; k s).
Proof. intros Hk s. apply wp_bind, wp_getS. apply Hk. Qed.
Lemma grows_change f : (∀ s, grown s (f s)) → grows (change f).
Proof. intros Hf s. apply Hf. Qed.
Lemma grows_say t : grows (Smtpd.say t).
Proof. intros s. split; [done|split; [by eexists|done]]. Qed.
Lemma grows_out t : grows (Smtpd.out t).
Proof. intros s. split; [done|split; [by eexists|done]]. Qed.
Lemma grows_case {A} (b : bool) (m m' : SD A) : grows m → grows m' → grows (if b then m else m').
Proof. by destruct b. Qed.
Lemma grows_decide {A} P `{!Decision P} (m m' : SD A) : grows m → grows m' → grows (if decide P then m else m').
Proof. by case_decide. Qed.

(** What does not touch replies, [seenmail] or the limit. *)
Lemma grown_quiet s s' : seenmail s' = seenmail s → mailfrom s' = mailfrom s → rcptto s' = rcptto s →
  replies s' = replies s → BytesToOverflow s' = BytesToOverflow s → grown s s'.
Proof. intros H1 H2 H3 H4 H5. split; [done|split; [exists []; by rewrite app_nil_r|congruence]]. Qed.

Lemma grows_put ch : grows (Smtpd.put ch).
Proof.
  intros s. unfold Smtpd.put. apply wp_bind, wp_getS. destruct (decide (BytesToOverflow s = 0%Z)) as [E|E].
  - by apply grown_quiet.
  - unfold wp. simpl. destruct (bool_decide _); (split; [done|split; [exists []; by rewrite app_nil_r|done]]).
Qed.

Section data.
Context {L : LibQmail} (conf : smtpd_conf).

Lemma grows_next_char b : grows (next_char conf b).
Proof.
  apply grows_getS. intros s. destruct (client s) as [|ch r].
  - apply grows_case; [apply grows_ok|]. by intros s'.
  - assert (∀ b : bool, grows (change (set_client r);;? ok (Some (ch, b)))) as Hc.
    { intros b'. apply grows_bind; [|intros; apply grows_ok]. apply grows_change. intros x. by apply grown_quiet. }
    repeat apply grows_case; try apply Hc. apply grows_ok.
Qed.
Lemma grows_blast_loop fuel state b h : grows (blast_loop conf fuel state b h).
Proof.
  revert state b h. induction fuel as [|fuel IH]; intros state b h; [apply grows_ok|]. cbn [blast_loop].
  apply grows_bind; [apply grows_next_char|]. intros [[ch b']|]; [|apply grows_ok]. cbv zeta.
  assert (∀ st, grows (Smtpd.put ch;;? blast_loop conf fuel st b' (header_char h ch))) as Hp.
  { intros st. apply grows_bind; [apply grows_put|auto]. }
  assert (∀ {A}, grows (straynewline (A := A))) as Hs by (by intros A s).
  repeat case_match; try apply grows_case; try apply grows_case; try apply grows_decide; auto;
    try apply grows_ok; try apply grows_case;
    repeat (first [apply grows_bind; [apply grows_put|intros _] | apply grows_case | apply Hp | apply IH]).
Qed.
Lemma grows_blast : grows (blast conf).
Proof.
  apply grows_bind; [apply grows_change; intros s; by apply grown_quiet|]. intros _. apply grows_getS. intros s.
  apply grows_bind; [apply grows_blast_loop|]. intros r. apply grows_bind; [|intros; apply grows_ok].
  apply grows_change. intros x. by apply grown_quiet.
Qed.

(** Replies after which the transaction goes on. *)
Definition early (t : bytes) : bool := bool_decide (take 3 t ∈ [lit "501"; lit "502"; lit "503"]).

(** What a DATA command comes to: it is refused early, or it ends the transaction. *)
Definition data_outcome (s s' : smtpd) : Prop :=
  (∃ t, early t = true ∧ s' = set_replies (replies s ++ t) s) ∨
  ((seenmail s' = false ∧ mailfrom s' = mailfrom s ∧ rcptto s' = rcptto s) ∧
   (∃ t, early t = false ∧ replies s' = replies s ++ t) ∧
   ((databytes conf ≤ 0)%Z → BytesToOverflow s = 0%Z → BytesToOverflow s' = 0%Z)).

Lemma wp_data_outcome arg opened end_of when s :
  wp (smtp_data conf arg opened end_of when)
    (λ r s', match r with inl _ => True | inr _ => data_outcome s s' end) s.
Proof.
  unfold smtp_data. apply wp_bind, wp_getS.
  destruct (negb (bool_decide (arg = []))). { left. eexists. by split; [|reflexivity]. }
  destruct (negb (seenmail s)). { left. eexists. by split; [|reflexivity]. }
  destruct (decide (rcptto s = [] ∨ rcptcount s = 0%Z)). { left. eexists. by split; [|reflexivity]. }
  apply wp_qbind. unfold change at 1. apply wp_bind, wp_modify, wp_ok.
  destruct (flagsize s). { right. split; [done|]. split; [by eexists; split; [|reflexivity]|done]. }
  apply wp_qbind. eapply (wp_mono _ (λ r s1, r = inr tt ∧ (seenmail s1 = false ∧ mailfrom s1 = mailfrom s ∧ rcptto s1 = rcptto s) ∧ replies s1 = replies s ∧
    ((databytes conf ≤ 0)%Z → BytesToOverflow s = 0%Z → BytesToOverflow s1 = 0%Z))).
  { case_decide; [split; [done|]; split; [done|]; split; [done|lia]|done]. }
  intros ? s1 (-> & H1 & H2 & H3).
  destruct opened as [pipes|].
  2: { right. split; [done|]. split; [rewrite <- H2; by eexists; split; [|reflexivity]|done]. }
  apply wp_qbind. unfold change at 1. apply wp_bind, wp_modify, wp_ok. set (s2 := set_qqt _ s1).
  apply wp_qbind. eapply (wp_mono _ (λ r s3, r = inr tt ∧ s3 = set_replies (replies s2 ++ lit "354 go ahead" ++ crlf) s2)).
  { done. }
  intros ? s3 [-> E3]. 
  match goal with |- wp ?m _ _ => assert (grows m) as Hg end.
  { apply grows_bind; [apply grows_change; intros x; by apply grown_quiet|]. intros _.
    apply grows_bind; [apply grows_blast|]. intros [failed hops]. cbv zeta. apply grows_bind.
    { apply grows_decide; [apply grows_ok|]. apply grows_change. intros x. by apply grown_quiet. }
    intros _. apply grows_bind; [apply grows_change; intros x; by apply grown_quiet|]. intros _.
    apply grows_getS. intros x. cbv zeta.
    repeat apply grows_decide; [apply grows_out|apply grows_say..|apply grows_out]. }
  eapply wp_mono; [apply Hg|]. intros [e|[]] s4; [done|]. intros ((G1 & G1' & G1'') & [t G2] & G3). right. subst s3. split; [|split].
  - rewrite G1, G1', G1''. done.
  - exists (lit "354 go ahead" ++ crlf ++ t). split; [reflexivity|]. rewrite G2. simpl. rewrite H2.
    by rewrite <- !(assoc_L app).
  - intros. apply G3. simpl. auto.
Qed.
End data.

(** ** The other commands *)

(** A computation that says something and leaves the transaction alone. *)
Definition talks {A} (m : SS A) : Prop := ∀ s, authd s = false →
  wp m (λ r s', match r with inl _ => True | inr _ =>
    same False s s' ∧ ∃ t, replies (sm s') = replies (sm s) ++ t end) s.

Lemma talks_silent {A} (m : SS A) : silent False m → talks m.
Proof.
  intros Hm s Hs. eapply wp_mono; [by apply Hm|]. intros [e|a] s'; [done|]. intros [[? ->] _]. split; [done|].
  exists []. by rewrite app_nil_r.
Qed.
Lemma talks_phase R m : phase False R m → talks m.
Proof.
  intros Hm s Hs. eapply wp_mono; [by apply Hm|]. intros [e|[]] s'; [done| |].
  - intros [[? ->] _]. split; [done|]. exists []. by rewrite app_nil_r.
  - intros (? & t & _ & ?). eauto.
Qed.
Lemma talks_bind {A B} (m : SS A) (k : A → SS B) : talks m → (∀ a, talks (k a)) → talks (qbind m k).
Proof.
  intros Hm Hk s Hs. apply wp_qbind. eapply wp_mono; [by apply Hm|]. intros [e|a] s1; [done|].
  intros [H1 [t1 E1]]. eapply wp_mono; [apply Hk; by rewrite (sa_authd _ _ _ H1)|]. intros [e|b] s2; [done|].
  intros [H2 [t2 E2]]. split; [by eapply same_trans|]. exists (t1 ++ t2). by rewrite E2, E1, (assoc_L app).
Qed.
Lemma talks_case {A} (b : bool) (m m' : SS A) : talks m → talks m' → talks (if b then m else m').
Proof. by destruct b. Qed.
Lemma talks_decide {A} P `{!Decision P} (m m' : SS A) : talks m → talks m' → talks (if decide P then m else m').
Proof. by case_decide. Qed.
Lemma talks_out t : talks (sout t).
Proof. intros s _. split; [by split; auto|by eexists]. Qed.
Lemma talks_ok {A} (a : A) : talks (ok a).
Proof. apply talks_silent, silent_ok. Qed.
Lemma talks_refuse t : talks (refuse t).
Proof. apply talks_bind; [apply talks_out|intros; apply talks_ok]. Qed.
Lemma talks_go : talks go_on.
Proof. apply talks_ok. Qed.
Lemma talks_return : talks return_.
Proof. apply talks_ok. Qed.
#[export] Hint Resolve talks_out talks_ok talks_refuse talks_go talks_return : smtp.

Section others.
Context {L : LibQmail} {K : CaseLib} {C : Commands} (cf : session_conf) (w : lookups).

Lemma talks_dohelo arg : talks (dohelo cf w arg).
Proof.
  unfold dohelo. apply talks_bind; [by apply talks_silent, silent_var|]. intros _.
  apply talks_bind; [by apply talks_silent, silent_var|]. intros _.
  apply talks_bind; [apply talks_silent; auto with smtp|]. intros relay.
  apply talks_bind; [apply talks_silent; auto with smtp|]. intros fqdn.
  apply talks_bind; [apply talks_decide; auto with smtp; done|]. intros _.
  apply talks_bind; [|auto with smtp]. apply talks_bind.
  - apply talks_case; [|auto with smtp]. apply talks_bind; [apply talks_case; auto with smtp; apply talks_out|].
    intros _. eapply (talks_phase eq), phase_matching; parts.
  - intros []; [|auto with smtp]. apply talks_bind; [by apply talks_silent, silent_var|]. intros _.
    apply talks_bind.
    { apply talks_case; [|auto with smtp]. eapply (talks_phase eq), phase_dns. refusal. }
    intros []; [|auto with smtp]. apply talks_bind; [by apply talks_silent, silent_var|]. auto with smtp.
Qed.

(** HELO and EHLO end the transaction, whatever they say. *)
Lemma wp_unseen (k : SS bool) s : authd s = false → talks k →
  wp (on_sm (change (set_seenmail false));;? k) (λ r s', match r with inl _ => True | inr _ =>
    seenmail (sm s') = false ∧ same False (set_sm (set_seenmail false (sm s)) s) s' ∧
    ∃ t, replies (sm s') = replies (sm s) ++ t end) s.
Proof.
  intros Ha Hk. apply wp_qbind.
  eapply (wp_mono _ (λ r s1, r = inr tt ∧ s1 = set_sm (set_seenmail false (sm s)) s)); [done|].
  intros ? s1 [-> ->]. eapply wp_mono; [by apply Hk|]. intros [e|b] s'; [done|]. intros [H Ht]. split; [|done].
  by rewrite (sa_seenmail _ _ _ H).
Qed.
Lemma talks_smtp_helo arg :
  talks (setup_ok cf;;& smtp_respond cf "250 ";;? sout (unnamed cf arg ++ crlf);;? dohelo cf w (helo_name cf arg);;? go_on).
Proof.
  apply talks_bind; [eapply talks_phase, check_setup_ok|]. intros []; [|auto with smtp].
  apply talks_bind; [apply talks_out|]. intros _. apply talks_bind; [auto with smtp|]. intros _.
  apply talks_bind; [apply talks_dohelo|]. intros _. apply talks_ok.
Qed.
Lemma talks_smtp_ehlo arg : talks
  (setup_ok cf;;&
   sout (lit "250-" ++ default [] (head (greeting cf)) ++ unnamed cf arg ++ crlf);;?
   starttls ←? env_is_set "STARTTLS";
   utf8 ←? env_is_set "SMTPUTF8";
   (if utf8 then upd (set_smtputf8_enable true) else ok tt);;?
   sout (ehlo_lines cf starttls utf8);;?
   dohelo cf w (helo_name cf arg);;? go_on).
Proof.
  apply talks_bind; [eapply talks_phase, check_setup_ok|]. intros []; [|auto with smtp].
  apply talks_bind; [auto with smtp|]. intros _. apply talks_bind; [apply talks_silent; auto with smtp|]. intros starttls.
  apply talks_bind; [apply talks_silent; auto with smtp|]. intros utf8.
  apply talks_bind; [apply talks_case; auto with smtp; by apply talks_silent, silent_var|]. intros _.
  apply talks_bind; [auto with smtp|]. intros _. apply talks_bind; [apply talks_dohelo|]. intros _. apply talks_ok.
Qed.

Lemma talks_no_argument arg : talks (no_argument arg).
Proof. unfold no_argument. apply talks_decide; auto with smtp. apply talks_refuse. Qed.
Lemma talks_noop arg : talks (smtp_noop cf arg).
Proof.
  apply talks_bind; [apply talks_no_argument|]. intros []; [|auto with smtp].
  apply talks_bind; [eapply talks_phase, check_setup_ok|]. intros []; [apply talks_refuse|auto with smtp].
Qed.
Lemma talks_vrfy word arg : talks (smtp_vrfy cf word arg).
Proof.
  unfold smtp_vrfy. apply talks_case; [apply talks_refuse|].
  apply talks_bind; [eapply talks_phase, check_setup_ok|]. intros []; [apply talks_refuse|auto with smtp].
Qed.
Lemma talks_help word : talks (smtp_help cf word).
Proof.
  unfold smtp_help. apply talks_case; [apply talks_refuse|].
  apply talks_bind; [apply talks_decide; auto with smtp|]. intros _. apply talks_bind; auto with smtp.
Qed.
End others.
