(* ===== verification/SessionTheorems.v ===== *)
(** * What an SMTP session comes to

    The transaction a client has in mind, computed from its commands and the first
    replies to them, is the one that smtpd keeps, and what is queued; and nobody
    relays who may not. *)

From S2P Require Import Prelude LibQmail Filesys Control Rcpthosts Qmail Smtpd SmtpdSession SmtpdEnvelope.
From S2P Require Import SessionPhases SessionEnvelope SessionDialogue.

#[local] Arguments lit : simpl never.

(** ** The client's view *)

Record exchange := Exchange { ex_word : bytes; ex_arg : bytes; ex_reply : bytes }.
Definition word_is (name : string) (word : bytes) : bool := bool_decide (map lower word = lit name).
(** The commands that are not modelled. *)
Definition external (word : bytes) : bool :=
  word_is "auth" word || word_is "etrn" word || word_is "atrn" word || word_is "starttls" word.

Section session.
Context {L : LibQmail} {K : CaseLib} {KL : CaseLaws K} {C : Commands} (cf : session_conf).
Context (ipme : list (list Z)) (beyond : bytes) (smtp_auth smtp_etrn smtp_atrn smtp_tls : bytes → SS unit).
Context (lent : Prop).  (* a sender is listed in relaymailfrom *)

Definition address (arg : bytes) : bytes := default [] (addrparse (data cf) ipme arg).
#[local] Abbreviation transaction := (option (bytes * list bytes)).

(** A transaction begins with a MAIL that is accepted, and ends with HELO, EHLO, RSET
    or the DATA that asks for the message. *)
Definition next (t : transaction) (x : exchange) : transaction :=
  let '(Exchange word arg reply) := x in
  if word_is "helo" word || word_is "ehlo" word then None
  else if word_is "rset" word then if decide (reply = lit "250 flushed" ++ crlf) then None else t
  else if word_is "mail" word then if decide (reply = ok250) then Some (address arg, []) else t
  else if word_is "rcpt" word then
    if decide (reply = ok250) then
      match t with Some (from, rs) => Some (from, rs ++ [address arg]) | None => None end
    else t
  else if word_is "data" word then if early reply then t else None
  else t.
Definition transaction_of (log : list exchange) : transaction := foldl next None log.

(** The client gives MAIL only when there is no transaction. *)
Fixpoint orderly (t : transaction) (log : list exchange) : Prop :=
  match log with
  | [] => True
  | x :: log => (word_is "mail" (ex_word x) = true → t = None) ∧ orderly (next t x) log
  end.

(** What the theorems ask of the answers to a command. *)
Record usable (w : lookups) : Prop := {
  us_tame : tame cf w;
  us_relay a : address_match w Relaymailfrom true a = 1%Z → lent
}.
#[local] Abbreviation dispatch := (dispatch cf ipme beyond smtp_auth smtp_etrn smtp_atrn smtp_tls).
(** The commands that a session went through, each with what was sent in reply. *)
Inductive dialogue : session → list exchange → session → Prop :=
  | dialogue_nil s : dialogue s [] s
  | dialogue_step s w word arg rest b s1 reply log s2 :
    next_command (client (sm s)) = Some (word, arg, rest) → usable w → external word = false →
    dispatch w word arg (set_sm (set_client rest (sm s)) s) = (inr b, s1) →
    replies (sm s1) = replies (sm s) ++ reply →
    dialogue s1 log s2 → dialogue s (Exchange word arg reply :: log) s2.

(** ** The effect of a command *)

Definition relay_kept (s s1 : session) : Prop :=
  authd s1 = authd s ∧
  (relayclient s1 = relayclient s ∨ (lent ∧ relayclient s = None ∧ relayclient s1 = Some [])).
Definition limit_kept (s s1 : session) : Prop :=
  (databytes (data cf) ≤ 0)%Z → BytesToOverflow (sm s) = 0%Z → BytesToOverflow (sm s1) = 0%Z.

Inductive effect (x : exchange) (s s1 : session) : Prop :=
  | Kept : same lent s s1 → (∀ t, next t x = t) → effect x s s1
  | Ended : seenmail (sm s1) = false →
      (rcptto (sm s1) = [] ∨ mailfrom (sm s1) = mailfrom (sm s) ∧ rcptto (sm s1) = rcptto (sm s)) →
      relay_kept s s1 → limit_kept s s1 → (∀ t, next t x = None) → effect x s s1
  | SenderLost : word_is "mail" (ex_word x) = true → mail_refused_late cf ipme lent (ex_arg x) s s1 →
      (∀ t, next t x = t) → effect x s s1
  | SenderTaken : mail_accepted cf ipme lent (ex_arg x) s s1 →
      (∀ t, next t x = Some (address (ex_arg x), [])) → effect x s s1
  | RecipientTaken : rcpt_accepted cf ipme (ex_arg x) s s1 →
      (∀ from rs, next (Some (from, rs)) x = Some (from, rs ++ [address (ex_arg x)])) → effect x s s1.

(** A handler does what [effect] says. *)
Definition effective (word arg : bytes) (f : SS bool) : Prop := ∀ s, authd s = false →
  wp f (λ r s1, match r with inl _ => True | inr _ =>
    ∃ reply, replies (sm s1) = replies (sm s) ++ reply ∧ effect (Exchange word arg reply) s s1 end) s.

Lemma word_of name word : word_is name word = true → map lower word = lit name.
Proof. apply bool_decide_eq_true_1. Qed.
(** Which of the words it is. *)
Ltac this_word H := unfold next, word_is; rewrite (word_of _ _ H); cbn -[lit].

Lemma same_any s s1 : same False s s1 → same lent s s1.
Proof. intros H. destruct (sa_relay _ _ _ H) as [Hr|[[] _]]. split; try apply H. by left. Qed.

Lemma refusal_not_ok t : refusal t → t ≠ ok250.
Proof. by intros [H|H] ->. Qed.

Lemma effective_talks word arg f : talks f →
  (∀ t reply, next t (Exchange word arg reply) = t) → effective word arg f.
Proof.
  intros Hf Hn s Ha. eapply wp_mono; [by apply Hf|]. intros [e|b] s1; [done|]. intros [Hs [t E]].
  exists t. split; [done|]. apply Kept; [by apply same_any|done].
Qed.

Lemma effective_mail word arg w : word_is "mail" word = true → usable w →
  effective word arg (smtp_mail cf ipme beyond w arg).
Proof.
  intros Hword [Ht Hl] s Ha. eapply wp_mono; [by apply (wp_smtp_mail cf ipme beyond lent w)|].
  assert (Hn : ∀ t reply, next t (Exchange word arg reply) = if decide (reply = ok250) then Some (address arg, []) else t).
  { intros t reply. by this_word Hword. }
  intros [e|b] s1; [done|]. intros [[Hs (t & Href & E)]|[Hs|Hs]].
  - exists t. split; [done|]. apply Kept; [done|]. intros u. rewrite Hn, decide_False; [done|by apply refusal_not_ok].
  - destruct (ml_reply _ _ _ _ _ _ Hs) as (t & Href & E). exists t. split; [done|]. apply SenderLost; [done|done|].
    intros u. rewrite Hn, decide_False; [done|by apply refusal_not_ok].
  - exists ok250. split; [apply (ma_reply _ _ _ _ _ _ Hs)|]. apply SenderTaken; [done|]. intros u. by rewrite Hn, decide_True.
Qed.

Lemma effective_rcpt word arg w : srs_domain cf = [] → word_is "rcpt" word = true → usable w →
  effective word arg (smtp_rcpt cf ipme w arg).
Proof.
  intros Hsrs Hword [Ht Hl] s Ha. eapply wp_mono; [by apply (wp_smtp_rcpt cf ipme w)|].
  assert (Hn : ∀ t reply, next t (Exchange word arg reply) = if decide (reply = ok250) then
    match t with Some (from, rs) => Some (from, rs ++ [address arg]) | None => None end else t).
  { intros t reply. by this_word Hword. }
  intros [e|b] s1; [done|]. intros [[Hs (t & Href & E)]|Hs].
  - exists t. split; [done|]. apply Kept; [by apply same_any|]. intros u.
    rewrite Hn, decide_False; [done|by apply refusal_not_ok].
  - exists ok250. split; [apply (ra_reply _ _ _ _ _ Hs)|]. apply RecipientTaken; [done|]. intros from rs.
    by rewrite Hn, decide_True.
Qed.

Lemma wp_data_command w arg s : wp (smtp_data_command cf w arg) (λ r s1, match r with inl _ => True | inr _ =>
  ∃ x, s1 = set_sm x s ∧ data_outcome (data cf) (sm s) x end) s.
Proof.
  apply wp_bind, wp_getS, wp_qbind, wp_on_sm. eapply wp_mono; [apply wp_data_outcome|].
  intros [e|[]] x; [done|]. intros H. apply wp_ok. by exists x.
Qed.
Lemma effective_data word arg w : word_is "data" word = true → effective word arg (smtp_data_command cf w arg).
Proof.
  intros Hword s Ha. eapply wp_mono; [apply wp_data_command|]. intros [e|b] s1; [done|]. intros (x & -> & H).
  assert (Hn : ∀ t reply, next t (Exchange word arg reply) = if early reply then t else None)
    by (intros; by this_word Hword).
  destruct H as [(t & He & ->)|((H1 & H2 & H3) & (t & He & E) & Hlim)]; exists t; (split; [done|]).
  - apply Kept; [by split; auto|]. intros u. by rewrite Hn, He.
  - apply Ended; [done|by right|by split; auto|done|]. intros u. by rewrite Hn, He.
Qed.

Lemma effective_hello (name : string) word arg k : (name = "helo" ∨ name = "ehlo")%string → word_is name word = true →
  talks k → effective word arg (on_sm (change (set_seenmail false));;? k).
Proof.
  intros Hname Hword Hk s Ha. eapply wp_mono; [by apply wp_unseen|]. intros [e|b] s1; [done|].
  intros (Hs & H & t & E). exists t. split; [done|]. apply Ended; [done| | | |].
  - right. split; [apply (sa_mailfrom _ _ _ H)|apply (sa_rcptto _ _ _ H)].
  - split; [apply (sa_authd _ _ _ H)|]. destruct (sa_relay _ _ _ H) as [|[]]; [by left|done].
  - intros _ Hz. by rewrite (sa_over _ _ _ H).
  - intros u. by destruct Hname as [-> | ->]; this_word Hword.
Qed.

Lemma effective_rset word arg : word_is "rset" word = true → effective word arg (smtp_rset arg).
Proof.
  intros Hword s Ha.
  assert (Hn : ∀ t reply, next t (Exchange word arg reply) =
    if decide (reply = lit "250 flushed" ++ crlf) then None else t) by (intros; by this_word Hword).
  unfold smtp_rset, no_argument. destruct (decide (arg = [])); (eexists; split; [done|]).
  - apply Ended; [done|by left|by split; auto|by intros _|]. intros t. by rewrite Hn, decide_True.
  - apply Kept; [by split; auto|]. intros t. by rewrite Hn, decide_False.
Qed.

(** A word that is not in the table. *)
Lemma effective_unimpl word arg : word_is "helo" word = false → word_is "ehlo" word = false →
  effective word arg (err_unimpl word arg).
Proof.
  intros H1 H2 s Ha. eexists. split; [done|]. apply Kept; [by split; auto|]. set (reply := _ ++ crlf).
  assert (Ht : take 3 reply = lit "502") by (unfold reply; repeat case_match; reflexivity). clearbody reply.
  intros t. unfold next. rewrite H1, H2. simpl. rewrite !decide_False by (intros ->; done).
  assert (early reply = true) as -> by (unfold early; rewrite Ht; reflexivity). by repeat case_match.
Qed.

(** ** The table of commands *)

#[local] Abbreviation cmdptr := (cmdptr cf ipme beyond smtp_auth smtp_etrn smtp_atrn smtp_tls).

Lemma word_is_equal name word : map lower (lit name) = lit name → case_equal (lit name) word = word_is name word.
Proof.
  intros Hn. unfold word_is. destruct (case_equal (lit name) word) eqn:E.
  - apply case_equal_ok in E. rewrite bool_decide_true; [done|congruence].
  - rewrite bool_decide_false; [done|]. intros H. rewrite <- not_true_iff_false in E. apply E, case_equal_ok. congruence.
Qed.

Lemma effective_command w word arg n f : srs_domain cf = [] → usable w → external word = false →
  (n, f) ∈ cmdptr w → case_equal (lit n) word = true → effective word arg (f word arg).
Proof.
  intros Hsrs Hw Hext Hin Heq.
  assert ((n, f) ∈ mail_commands cf ipme beyond w ++ greet_commands cf smtp_auth w ++ small_commands cf ++
    relay_commands smtp_etrn smtp_atrn ++ tls_commands smtp_tls) as Hall.
  { unfold SmtpdEnvelope.cmdptr in Hin. rewrite !elem_of_app. repeat case_decide; rewrite !elem_of_app in Hin; [|tauto..].
    destruct Hin as [|[->%list_elem_of_singleton|]]; [tauto| |tauto]. do 2 right. left. right. left. }
  clear Hin. unfold external in Hext. rewrite !orb_false_iff in Hext. destruct Hext as [[[X1 X2] X3] X4].
  unfold mail_commands, greet_commands, small_commands, relay_commands, tls_commands in Hall. cbn [app] in Hall.
  repeat (apply elem_of_cons in Hall as [[= -> ->]|Hall]; [rewrite word_is_equal in Heq by reflexivity|]);
    try (by apply elem_of_nil in Hall); try congruence.
  - by apply effective_rcpt.
  - by apply effective_mail.
  - by apply effective_data.
  - by intros s _.
  - eapply (effective_hello "helo"); [by left|done|apply talks_smtp_helo].
  - eapply (effective_hello "ehlo"); [by right|done|apply talks_smtp_ehlo].
  - by apply effective_rset.
  - apply effective_talks; [apply talks_help|]. intros t reply. by this_word Heq.
  - apply effective_talks; [apply talks_noop|]. intros t reply. by this_word Heq.
  - apply effective_talks; [apply talks_vrfy|]. intros t reply. by this_word Heq.
Qed.

Lemma greeted_by_table w n word : n ∈ ["helo"; "ehlo"]%string → word_is n word = true →
  filter (λ c : string * handler, case_equal (lit c.1) word = true) (cmdptr w) ≠ [].
Proof.
  intros Hn Hword E. rewrite <- word_is_equal in Hword by (by repeat (apply elem_of_cons in Hn as [->|Hn]; [reflexivity|]); apply elem_of_nil in Hn).
  assert (∃ f, (n, f) ∈ cmdptr w) as [f Hf].
  { unfold SmtpdEnvelope.cmdptr, greet_commands.
    repeat (apply elem_of_cons in Hn as [->|Hn]); [..|by apply elem_of_nil in Hn]; repeat case_decide;
      eexists; rewrite !elem_of_app, !elem_of_cons; eauto 12. }
  assert ((n, f) ∈ filter (λ c : string * handler, case_equal (lit c.1) word = true) (cmdptr w)) as Hin
    by (by apply list_elem_of_filter).
  rewrite E in Hin. by apply elem_of_nil in Hin.
Qed.

Lemma effective_dispatch w word arg : srs_domain cf = [] → usable w → external word = false →
  effective word arg (dispatch w word arg).
Proof.
  intros Hsrs Hw Hext. unfold SmtpdEnvelope.dispatch. destruct (filter _ _) as [|[n f] l] eqn:E.
  - apply effective_unimpl.
    + destruct (word_is "helo" word) eqn:Hword; [|done]. by eapply greeted_by_table in E; [|left|].
    + destruct (word_is "ehlo" word) eqn:Hword; [|done]. by eapply greeted_by_table in E; [|right; left|].
  - assert ((n, f) ∈ filter (λ c : string * handler, case_equal (lit c.1) word = true) (cmdptr w)) as [Heq Hin]%list_elem_of_filter
      by (rewrite E; left).
    by eapply effective_command.
Qed.
End session.
