(* ===== verification/QmailRemote.v ===== *)
(** * Delivering by SMTP and QMTP: [qmail-remote.c]

    qmail-remote tries the mail exchangers of a host in turn.  To one that accepts
    the connection it hands the message, and it reports on descriptor 1 what became
    of each recipient and of the message.

    [server] is what the present server still sends; when nothing is left, or the
    next entry of [lost] is [true] at a write, the connection is gone.  The message
    is read in chunks.  A computation gives a value or ends the process.

    TLS is an input: what [do_tls] returns.  DANE, SMTP AUTH, SMTPUTF8 and the
    scripts that may run at the end are not in use; descriptor 1 takes all output,
    memory allocation succeeds, and output through substdio is written at once. *)

From S2P Require Import Prelude LibQmail Filesys Tcpto.

Definition HUGESMTPTEXT : nat := 5000.
Definition PORT_SMTP : Z := 25.

Inductive rread := Chunk (d : bytes) | ReadError.

(** An attempt to connect: what the server sends, or whether the error is one that
    is entered in the table of unreachable hosts. *)
Inductive conn := Connection (srv : bytes) | NoConnection (unreachable : bool).

Record remote := Remote {
  table : tstate  (* the table of unreachable hosts *);
  conns : list conn  (* the next attempts to connect *);
  server : bytes;
  lost : list bool;
  message : list rread  (* what the next reads of descriptor 0 return *);
  sent : bytes  (* to the present server *);
  report : bytes  (* on descriptor 1 *);
  smtptext : bytes;
  ehlokw : list bytes;
  flagcritical : bool;
  inside_greeting : bool;
  partner : ip_mx;
  notls : Z;
  do_tls : list Z  (* the next results of [do_tls] *);
  smtps : bool;
  mxps : Z;
  port : Z
}.

Definition set_table v s := Remote v (conns s) (server s) (lost s) (message s) (sent s) (report s)
  (smtptext s) (ehlokw s) (flagcritical s) (inside_greeting s) (partner s) (notls s) (do_tls s)
  (smtps s) (mxps s) (port s).
Definition set_conns v s := Remote (table s) v (server s) (lost s) (message s) (sent s) (report s)
  (smtptext s) (ehlokw s) (flagcritical s) (inside_greeting s) (partner s) (notls s) (do_tls s)
  (smtps s) (mxps s) (port s).
Definition set_server v s := Remote (table s) (conns s) v (lost s) (message s) (sent s) (report s)
  (smtptext s) (ehlokw s) (flagcritical s) (inside_greeting s) (partner s) (notls s) (do_tls s)
  (smtps s) (mxps s) (port s).
Definition set_lost v s := Remote (table s) (conns s) (server s) v (message s) (sent s) (report s)
  (smtptext s) (ehlokw s) (flagcritical s) (inside_greeting s) (partner s) (notls s) (do_tls s)
  (smtps s) (mxps s) (port s).
Definition set_message v s := Remote (table s) (conns s) (server s) (lost s) v (sent s) (report s)
  (smtptext s) (ehlokw s) (flagcritical s) (inside_greeting s) (partner s) (notls s) (do_tls s)
  (smtps s) (mxps s) (port s).
Definition set_sent v s := Remote (table s) (conns s) (server s) (lost s) (message s) v (report s)
  (smtptext s) (ehlokw s) (flagcritical s) (inside_greeting s) (partner s) (notls s) (do_tls s)
  (smtps s) (mxps s) (port s).
Definition set_report v s := Remote (table s) (conns s) (server s) (lost s) (message s) (sent s) v
  (smtptext s) (ehlokw s) (flagcritical s) (inside_greeting s) (partner s) (notls s) (do_tls s)
  (smtps s) (mxps s) (port s).
Definition set_smtptext v s := Remote (table s) (conns s) (server s) (lost s) (message s) (sent s)
  (report s) v (ehlokw s) (flagcritical s) (inside_greeting s) (partner s) (notls s) (do_tls s)
  (smtps s) (mxps s) (port s).
Definition set_ehlokw v s := Remote (table s) (conns s) (server s) (lost s) (message s) (sent s)
  (report s) (smtptext s) v (flagcritical s) (inside_greeting s) (partner s) (notls s) (do_tls s)
  (smtps s) (mxps s) (port s).
Definition set_flagcritical v s := Remote (table s) (conns s) (server s) (lost s) (message s)
  (sent s) (report s) (smtptext s) (ehlokw s) v (inside_greeting s) (partner s) (notls s) (do_tls s)
  (smtps s) (mxps s) (port s).
Definition set_inside_greeting v s := Remote (table s) (conns s) (server s) (lost s) (message s)
  (sent s) (report s) (smtptext s) (ehlokw s) (flagcritical s) v (partner s) (notls s) (do_tls s)
  (smtps s) (mxps s) (port s).
Definition set_partner v s := Remote (table s) (conns s) (server s) (lost s) (message s) (sent s)
  (report s) (smtptext s) (ehlokw s) (flagcritical s) (inside_greeting s) v (notls s) (do_tls s)
  (smtps s) (mxps s) (port s).
Definition set_notls v s := Remote (table s) (conns s) (server s) (lost s) (message s) (sent s)
  (report s) (smtptext s) (ehlokw s) (flagcritical s) (inside_greeting s) (partner s) v (do_tls s)
  (smtps s) (mxps s) (port s).
Definition set_do_tls v s := Remote (table s) (conns s) (server s) (lost s) (message s) (sent s)
  (report s) (smtptext s) (ehlokw s) (flagcritical s) (inside_greeting s) (partner s) (notls s) v
  (smtps s) (mxps s) (port s).
Definition set_smtps v s := Remote (table s) (conns s) (server s) (lost s) (message s) (sent s)
  (report s) (smtptext s) (ehlokw s) (flagcritical s) (inside_greeting s) (partner s) (notls s)
  (do_tls s) v (mxps s) (port s).
Definition set_mxps v s := Remote (table s) (conns s) (server s) (lost s) (message s) (sent s)
  (report s) (smtptext s) (ehlokw s) (flagcritical s) (inside_greeting s) (partner s) (notls s)
  (do_tls s) (smtps s) v (port s).
Definition set_port v s := Remote (table s) (conns s) (server s) (lost s) (message s) (sent s)
  (report s) (smtptext s) (ehlokw s) (flagcritical s) (inside_greeting s) (partner s) (notls s)
  (do_tls s) (smtps s) (mxps s) v.

Notation "'RM' A" := (ST remote (Z + A)) (at level 10, A at next level, only parsing) : mta_scope.
Definition update (f : remote → remote) : RM unit := modify f;; ok tt.
Definition look {A} (f : remote → A) : RM A := s ← getS; ok (f s).

(** ** The end, and the report *)

Definition out (t : bytes) : RM unit := update (λ s, set_report (report s ++ t) s).
Definition say (t : string) : RM unit := out (lit t).
Definition zero : RM unit := out [0%Z].
Definition safe_char (ch : Z) : Z :=
  if decide (schar ch < 33 ∨ 126 < schar ch)%Z then 63%Z (* ? *) else ch.
Definition outsafe (sa : bytes) : RM unit := out (map safe_char sa).
Definition outhost : RM unit := s ← getS; out (ip_text (partner s)).

(** [run_script] does nothing, and gives 0, when no script is configured. *)
Definition zerodie {A} : RM A := zero;;? mret (inl 0%Z).

Definition temp_read {A} : RM A := say "ZUnable to read message. (#4.3.0)
";;? zerodie.
Definition perm_partialline {A} : RM A :=
  say "DSMTP cannot transfer messages with partial final lines. (#5.6.2)
";;? zerodie.
Definition temp_oserr {A} : RM A := say "ZSystem resources temporarily unavailable. (#4.3.0)
";;? zerodie.
Definition temp_proto {A} : RM A := say "Zrecipient did not talk proper QMTP (#4.3.0)
";;? zerodie.

(** ** One connection *)

(** The arguments, and what [getcontrols] and the environment give. *)
Record remote_conf := RemoteConf {
  queuedir : bytes; getpid : Z;
  helohost : bytes; outgoingip : bytes;
  smtp_sender : bytes; smtp_reciplist : list bytes;
  qmtp_sender : bytes; qmtp_reciplist : list bytes;
  qqeh : bytes; msgsize : bytes;
  st_size : option Z;        (* [fstat] of the message *)
  try_next_mx : bool;        (* TRY_NEXT_MX_HELO_FAIL *)
  flagtcpto : bool; min_penalty : Z; max_tolerance : Z;
  protocol_t : Z
}.

Section QmailRemote.
Context {L : LibQmail} (cf : remote_conf) (case_equal : bytes → bytes → bool).
Context (beyond : bytes → bytes).  (* what the buffer of [smtptext] holds behind it *)

Definition on_table {A} (m : ST tstate A) : RM A :=
  λ s, let '(a, t) := m (table s) in (inr a, set_table t s).

Definition dropped {A} : RM A :=
  say "ZConnected to ";;? outhost;;? say " but connection died. ";;?
  s ← getS;
  (if flagcritical s : bool then say "Possible duplicate! "
   else if inside_greeting s : bool then
     say "Will try alternate MX. ";;?
     (if flagtcpto cf : bool then
        say "tcpto interval ";;? out (fmt_ulong (max_tolerance cf));;? say " ";;?
        on_table (tcpto_err (queuedir cf) (partner s) true (max_tolerance cf))
      else ok tt)
   else ok tt);;?
  say "(#4.4.2)
";;? zerodie.

(** [safewrite]. *)
Definition put (d : bytes) : RM unit :=
  s ← getS;
  match lost s with
  | true :: r => update (set_lost r);;? dropped
  | r => update (λ s, set_sent (sent s ++ d) (set_lost (tail r) s))
  end.

Definition get1 : RM Z :=
  s ← getS;
  match server s with
  | [] => dropped
  | ch :: r =>
    update (set_server r);;?
    (if decide (ch ≠ c_cr ∧ length (smtptext s) < HUGESMTPTEXT)
     then update (set_smtptext (smtptext s ++ [ch])) else ok tt);;?
    ok ch
  end.

Definition get3 : RM Z :=
  a ←? get1; b ←? get1; c ←? get1;
  ok (snd (scan_ulong (cstr [a; b; c]))).

(** [while (ch != '\n') get1(&ch);] *)
Fixpoint to_lf (fuel : nat) (ch : Z) : RM unit :=
  match fuel with
  | 0 => ok tt
  | S fuel => if decide (ch = c_lf) then ok tt else c ←? get1; to_lf fuel c
  end.
Definition rest_of_line (ch : Z) : RM unit :=
  n ←? look (λ s, length (server s)); to_lf (S (S n)) ch.

(** The loop over the lines of a reply; whether one is not in order. *)
Fixpoint reply_lines (fuel : nat) (err : bool) : RM bool :=
  match fuel with
  | 0 => ok err
  | S fuel =>
    ch ←? get1;
    let err := err || bool_decide (ch ≠ c_space ∧ ch ≠ c_minus) in
    rest_of_line ch;;?
    if decide (ch ≠ c_minus) then ok err else get3;;? reply_lines fuel err
  end.

Definition smtpcode : RM Z :=
  update (set_smtptext []);;?
  code ←? get3;
  n ←? look (λ s, length (server s));
  err ←? reply_lines (S n) (bool_decide (code < 200)%Z);
  ok (if err : bool then 400%Z else code).

(** A line of a reply to EHLO: its words, each with a zero byte, and what follows.
    [cur] is the word from [s] to [p]. *)
Fixpoint ehlo_words (l cur : bytes) (wasspace : bool) : bytes * bytes :=
  match l with
  | [] => ([], [])
  | c :: l =>
    let word := if wasspace then [] else cur ++ [0%Z] in
    if decide (c = c_lf) then (word, l)
    else if decide (c = c_space ∨ c = 9%Z) then
      let '(w, r) := ehlo_words l cur true in (word ++ w, r)
    else ehlo_words l (if wasspace then [c] else cur ++ [c]) false
  end.

(** The first word ends at an equals sign. *)
Fixpoint cut_equals (s : bytes) : bytes :=
  match s with
  | [] => []
  | c :: s => if decide (c = 0%Z) then c :: s
              else if decide (c = 61%Z) then 0%Z :: s else c :: cut_equals s
  end.

(** The keywords of the reply; [l] is what is left of the buffer, of which
    [extra] bytes lie behind the reply. *)
Fixpoint ehlo_keywords (fuel extra : nat) (l : bytes) : list bytes :=
  match fuel with
  | 0 => []
  | S fuel =>
    if decide (extra + 6 ≤ length l) then
      let '(w, r) := ehlo_words (drop 4 l) [] false in cut_equals w :: ehlo_keywords fuel extra r
    else []
  end.

Definition ehlo : RM Z :=
  update (set_ehlokw []);;?
  if decide (protocol_t cf = 113%Z (* q *)) then ok 0%Z
  else
    put (lit "EHLO ");;? put (helohost cf);;? put [c_cr; c_lf];;?
    code ←? smtpcode;
    if decide (code ≠ 250%Z) then ok code
    else
      text ←? look smtptext;
      let more := beyond text in
      let l := drop (index_of c_lf (text ++ more) + 1) (text ++ more) in
      update (set_ehlokw (ehlo_keywords (length text) (length more) l));;?
      ok 250%Z.

Definition outsmtptext : RM unit :=
  s ← getS;
  if decide (smtptext s = []) then ok tt
  else
    say "Remote host said: ";;?
    out (map (λ c, if decide (c = 0%Z) then 63%Z else c) (smtptext s));;?
    update (set_smtptext []).

Definition quit_saying {A} (prepend : string) (more : bytes) : RM A :=
  put (lit "QUIT" ++ [c_cr; c_lf]);;?
  say prepend;;? outhost;;? out more;;? say ".
";;? outsmtptext;;? zerodie.
Definition quit {A} (prepend more : string) : RM A := quit_saying prepend (lit more).

(** ** The message *)

(** The two loops over a chunk, with [eom]: what is written, and [eom]. *)
Fixpoint encode (eom : bool) (l : bytes) : bytes * bool :=
  match l with
  | [] => ([], eom)
  | c :: l =>
    if eom && bool_decide (c = c_dot) then
      let '(o, e) := encode false l in (c_dot :: c :: o, e)
    else if decide (c = c_lf) then let '(o, e) := encode true l in (c_cr :: c_lf :: o, e)
    else let '(o, e) := encode false l in (c :: o, e)
  end.

(** The header fields in front of the message. *)
Fixpoint encode_qqeh (l : bytes) : bytes :=
  match l with
  | [] => []
  | c :: l => (if decide (c = c_lf) then [c_cr; c_lf] else [c]) ++ encode_qqeh l
  end.

Fixpoint blast_loop (l : list rread) (eom : bool) : RM bool :=
  match l with
  | [] | Chunk [] :: _ => ok eom
  | ReadError :: _ => temp_read
  | Chunk d :: l =>
    let '(o, eom) := encode eom d in
    put o;;? blast_loop l eom
  end.

Definition blast : RM unit :=
  put (encode_qqeh (qqeh cf));;?
  l ←? look message;
  eom ←? blast_loop l true;
  if negb eom then perm_partialline
  else
    update (set_flagcritical true);;?
    put [c_dot; c_cr; c_lf].

Definition mailfrom (use_size : bool) : RM unit :=
  put (lit "MAIL FROM:<");;? put (smtp_sender cf);;?
  (if use_size then put (lit "> SIZE=");;? put (msgsize cf) else put (lit ">"));;?
  put [c_cr; c_lf].

(** Whether the reply to EHLO offers SIZE.  Its last line is known by the byte in
    front of its text, which is not looked for in the reply alone. *)
Fixpoint offers_size (fuel : nat) (buf : bytes) (i : nat) (use_size : bool) : bool :=
  match fuel with
  | 0 => use_size
  | S fuel =>
    let i := i + 5 + index_of c_lf (cstr (drop i buf)) in
    let use_size := use_size || case_equal (take 4 (drop i buf)) (lit "SIZE") in
    if decide (buf !! (i - 1) = Some c_minus) then offers_size fuel buf i use_size else use_size
  end.

(** The loop over the recipients: the last code, and whether one was accepted. *)
Fixpoint rcpt_loop (l : list bytes) (code : Z) (flagbother : bool) : RM (Z * bool) :=
  match l with
  | [] => ok (code, flagbother)
  | r :: l =>
    put (lit "RCPT TO:<");;? put r;;? put (lit ">" ++ [c_cr; c_lf]);;?
    code ←? smtpcode;
    if decide (400 ≤ code)%Z then
      say (if decide (500 ≤ code)%Z then "h" else "s");;?
      say "From: <";;? outsafe (smtp_sender cf);;?
      say "> RCPT: <";;? outsafe r;;? say "> ";;? outhost;;?
      say " does not like recipient.
";;?
      outsmtptext;;? zero;;? rcpt_loop l code flagbother
    else
      say "rFrom: <";;? outsafe (smtp_sender cf);;?
      say "> RCPT: <";;? outsafe r;;? say "> ";;? zero;;? rcpt_loop l code true
  end.

(** It returns when the next exchanger is to be tried, or, with [notls] 2, when this
    one is to be tried again without TLS. *)
Definition do_smtp : RM unit :=
  update (set_inside_greeting true);;?
  s ← getS;
  (if decide (protocol_t cf = 83%Z (* S *) ∨ protocol_t cf ≠ 113%Z ∧ port s = 465%Z)
   then update (set_smtps true) else ok tt);;?
  tls ←? look smtps;
  code ←? (if tls : bool then ok 220%Z else smtpcode);
  update (set_inside_greeting false);;?
  if decide (500 ≤ code < 600)%Z then quit "DConnected to " " but greeting failed"
  else if decide (400 ≤ code < 500)%Z then ok tt
  else if decide (code ≠ 220%Z) then quit "ZConnected to " " but greeting failed"
  else
    code ←? (if tls : bool then ok code else ehlo);
    s ← getS;
    r ←? (if decide (notls s ≠ 0%Z) then c ←? ehlo; ok (Some c)
          else
            update (set_do_tls (tail (do_tls s)));;?
            match default 0%Z (head (do_tls s)) with
            | 1%Z => c ←? ehlo; ok (Some c)
            | 2%Z => update (set_notls 2%Z);;? ok None
            | _ => ok (Some code)
            end);
    match r with
    | None => ok tt
    | Some code =>
      c ←? (if decide (500 ≤ code)%Z then
              put (lit "HELO ");;? put (helohost cf);;? put [c_cr; c_lf];;?
              c ←? smtpcode; ok (c, false)
            else ok (code, true));
      let '(code, is_esmtp) := c in
      if try_next_mx cf && bool_decide (400 ≤ code < 500)%Z then ok tt
      else if decide (code ≠ 250%Z) then
        quit_saying (if decide (500 ≤ code)%Z then "DConnected to " else "ZConnected to ")
          (lit " but my name -->" ++ helohost cf ++ lit "<-- was rejected :(")
      else
        text ←? look smtptext;
        let buf := text ++ beyond text in
        mailfrom (is_esmtp && offers_size (S (length buf)) buf 0 false);;?
        code ←? smtpcode;
        if decide (500 ≤ code)%Z then quit "DConnected to " " but sender was rejected"
        else if decide (400 ≤ code)%Z then quit "ZConnected to " " but sender was rejected"
        else
          c ←? rcpt_loop (smtp_reciplist cf) code false;
          if negb (snd c) then quit "DGiving up on " ""
          else
            put (lit "DATA" ++ [c_cr; c_lf]);;?
            code ←? smtpcode;
            if decide (500 ≤ code)%Z then quit "D" " failed on DATA command"
            else if decide (400 ≤ code)%Z then quit "Z" " failed on DATA command"
            else
              blast;;?
              code ←? smtpcode;
              update (set_flagcritical false);;?
              if decide (500 ≤ code)%Z then quit "D" " failed after I sent the message"
              else if decide (400 ≤ code)%Z then quit "Z" " failed after I sent the message"
              else quit "K" " accepted message - Protocol SMTP"
    end.
End QmailRemote.
