(* ===== verification/RemoteMain.v ===== *)
(** * The loop over mail exchangers: [main] of [qmail-remote.c]

    The list of exchangers is sorted by preference.  The loop connects to one after
    the other, by SMTP or QMTP, and enters successes and failures in the table of
    unreachable hosts.  [prefme] is the preference from which on the exchangers are
    not better than this host.

    How often the loop goes round is not bounded by its input, so it takes fuel, and
    ends with [inr tt] when the fuel is used up while the process still runs. *)

From S2P Require Import Prelude LibQmail Filesys Tcpto QmailRemote.

(** [main] on MIN_PENALTY: the environment, else the default. [scan_int] is
    libqmail's, and gives the length and the value of a number. *)
Definition min_penalty_of (scan_int : bytes → nat * Z) (env : option bytes) (routes : Z) : Z :=
  match env with
  | Some x => Z.of_nat (fst (scan_int x))
  | None => MIN_PENALTY
  end.
Definition max_tolerance_of (scan_ulong : bytes → nat * Z) (env : option bytes) (routes : Z) : Z :=
  match env with
  | Some x => Z.of_nat (fst (scan_ulong x))
  | None => MAX_TOLERANCE
  end.

(** [char] is signed, as on the supported platforms. *)
Definition containsutf8 (p : bytes) : bool := existsb (λ c, bool_decide (127 < schar c)%Z) p.

Section RemoteMain.
Context {L : LibQmail} (cf : remote_conf) (case_equal : bytes → bytes → bool).
Context (beyond : bytes → bytes) (host : bytes) (prefme : Z).

Definition q_protocol : bool := bool_decide (protocol_t cf = 113%Z).

Definition qmtp_priority (pref : Z) : bool :=
  if decide (pref < 12800 ∨ 13055 < pref)%Z then false else bool_decide (pref mod 16 = 1)%Z.

(** ** No connection *)

Definition qmtp_text (s : remote) : bool := q_protocol || bool_decide (mxps s = 1%Z).

Definition temp_noconn {A} (ip : option bytes) : RM A :=
  s ← getS;
  say "ZSorry, I wasn't able to establish a ";;?
  say (if qmtp_text s then "QMTP connection for " else "SMTP connection for ");;?
  out host;;?
  match ip with
  | Some ip =>
    say " to ";;? out ip;;? say " port ";;? out (fmt_ulong (port s));;?
    say " bind IP [";;? out (outgoingip cf);;? say "]"
  | None => ok tt
  end;;?
  say ". (#4.4.1)
";;? zerodie.

(** ** QMTP *)

(** [while (len > 0)] over the chunks of the message. *)
Fixpoint qmtp_copy (l : list rread) (len : Z) : RM unit :=
  if decide (len = 0%Z) then ok tt
  else
    match l with
    | [] | Chunk [] :: _ | ReadError :: _ => mret (inl 32%Z)
    | Chunk d :: l => put cf d;;? qmtp_copy l (wrap 64 (len - Z.of_nat (length d)))
    end.

Definition netstring (d : bytes) : bytes := fmt_ulong (Z.of_nat (length d)) ++ [c_colon] ++ d ++ lit ",".

(** The length in front of an answer. *)
Fixpoint answer_len (fuel : nat) (len : Z) : RM Z :=
  match fuel with
  | 0 => ok len
  | S fuel =>
    ch ←? get1 cf;
    if decide (ch = c_colon) then ok len
    else if decide (200000000 < len)%Z then temp_proto
    else if decide (9 < ch - 48)%Z then temp_proto
    else answer_len fuel (wrap 64 (10 * len + (ch - 48)))
  end.

Fixpoint skip_answer (fuel : nat) (len : Z) : RM unit :=
  match fuel with
  | 0 => ok tt
  | S fuel => if decide (0 < len)%Z then get1 cf;;? skip_answer fuel (len - 1) else ok tt
  end.

Definition printable (c : Z) : Z := if decide (c < 32 ∨ 126 < c)%Z then 63%Z else c.

Fixpoint qmtp_answers (n : nat) (flagallok : Z) : RM Z :=
  match n with
  | 0 => ok flagallok
  | S n =>
    k ←? look (λ s, S (length (server s)));
    len ←? answer_len k 0;
    if decide (len = 0%Z) then temp_proto
    else
      ch ←? get1 cf;
      if negb (bool_decide (ch = 90 ∨ ch = 68 ∨ ch = 75)%Z) then temp_proto
      else
        update (set_smtptext (ch :: lit "Remote host said: "));;?
        skip_answer k (len - 1);;?
        update (λ s, set_smtptext (map printable (smtptext s)) s);;?
        comma ←? get1 cf;
        if decide (comma ≠ 44%Z) then temp_proto
        else
          text ←? look (λ s, tail (<[length (smtptext s) - 1 := c_lf]> (smtptext s)));
          say (if decide (ch = 75%Z) then "r" else if decide (ch = 68%Z) then "h" else "s");;?
          out text;;? zero;;?
          qmtp_answers n (if decide (ch = 75%Z) then flagallok else if decide (ch = 68%Z) then 0 else -1)%Z
  end.

Definition qmtp {A} : RM A :=
  match st_size cf with
  | None => quit cf "Z" "unable to fstat fd 0"
  | Some len =>
    put cf (fmt_ulong (wrap 64 (len + 1)) ++ [c_colon; c_lf]);;?
    l ←? look message;
    qmtp_copy l len;;?
    put cf (lit ",");;? put cf (netstring (qmtp_sender cf));;?
    let recips := mjoin (map netstring (qmtp_reciplist cf)) in
    put cf (netstring recips);;?
    flagallok ←? qmtp_answers (length (qmtp_reciplist cf)) 1;
    if decide (flagallok = 1%Z) then
      say "K";;? outhost;;? say " accepted message - Protocol QMTP
";;? zerodie
    else
      say "DGiving up on ";;? outhost;;? say " - Protocol QMTP
";;? zerodie
  end.

(** ** The big monstrous loop *)

(** [ip4_fmt] of [addr.ip]. *)
Definition ip4_fmt (ix : ip_mx) : bytes :=
  let d i := fmt_ulong (byte_at (addr ix) i) in
  d 0 ++ [c_dot] ++ d 1 ++ [c_dot] ++ d 2 ++ [c_dot] ++ d 3.

Definition next_conn : RM conn :=
  s ← getS;
  match conns s with
  | [] => ok (NoConnection false)
  | c :: r => update (set_conns r);;? ok c
  end.

(** Whether the loop stays at this host. *)
Definition attempt (ix : ip_mx) : RM (bool * bool) :=
  c ←? next_conn;
  s ← getS;
  match c with
  | Connection srv =>
    (if flagtcpto cf : bool then on_table (tcpto_err (queuedir cf) ix false (max_tolerance cf)) else ok tt);;?
    update (λ s, set_partner ix (set_server srv (set_sent [] s)));;?
    if bool_decide (mxps s ≠ (-1)%Z) && qmtp_text s then qmtp
    else
      do_smtp cf case_equal beyond;;?
      again ←? look notls;
      if decide (again = 2%Z) then update (set_notls 1%Z);;? ok (true, false) else ok (false, true)
  | NoConnection unreachable =>
    if decide (mxps s = 1%Z) then
      update (λ s, set_port PORT_SMTP (set_mxps (-1)%Z s));;? ok (true, false)
    else ok (false, unreachable)
  end.

(** [ips] are the hosts from the [i]th on, [x] the addresses tried, each with a
    comma.  [orig] is [notls_orig]. *)
Fixpoint mx_loop (fuel : nat) (orig : Z) (ips : list ip_mx) (x : bytes) : RM unit :=
  match fuel with
  | 0 => ok tt
  | S fuel =>
    match ips with
    | [] => temp_noconn (if decide (x = []) then None else Some (take (length x - 1) x))
    | ix :: next =>
      s ← getS;
      (if bool_decide (mxps s = 0%Z) && qmtp_priority (pref ix) then update (set_mxps 1%Z) else ok tt);;?
      s ← getS;
      if negb (qmtp_text s || bool_decide (pref ix < prefme)%Z) then mx_loop fuel orig ips x
      else
        skip_it ←? (if flagtcpto cf : bool
                 then on_table (tcpto (queuedir cf) (getpid cf) ix (min_penalty cf)) else ok false);
        if skip_it : bool then mx_loop fuel orig next x
        else
          bad ←? on_table (tsys fault);   (* [socket_tcp4], [socket_tcp6] *)
          if bad : bool then temp_oserr
          else
            let x := x ++ ip4_fmt ix ++ lit "," in
            r ←? attempt ix;
            let '(stay, errors) := r in
            if stay : bool then mx_loop fuel orig ips x
            else
              (if flagtcpto cf : bool
               then on_table (tcpto_err (queuedir cf) ix errors (max_tolerance cf)) else ok tt);;?
              update (λ s, set_notls orig (set_server [] s));;?
              mx_loop fuel orig next x
    end
  end.
End RemoteMain.
