(* ===== verification/RemoteSpec.v ===== *)
(** * What an SMTP session is to come to

    The outcome of a session with one recipient, as a function of what the server
    sends, and rules for the computations of qmail-remote. *)

From S2P Require Import Prelude LibQmail Filesys Tcpto Spawn QmailRemote.

#[local] Arguments lit : simpl never.
#[local] Arguments cstr : simpl never.

(** ** Replies *)

Fixpoint after_lf (s : bytes) : option bytes :=
  match s with
  | [] => None
  | c :: s => if decide (c = c_lf) then Some s else after_lf s
  end.

(** What follows the code of a reply: lines with a dash behind their code, and one
    without; whether that has a space, and what the server sends next. *)
Fixpoint rest_of_reply (fuel : nat) (s : bytes) : option (bool * bytes) :=
  match fuel, s with
  | S fuel, sep :: _ =>
    match after_lf s with
    | None => None
    | Some r =>
      if decide (sep = c_minus) then
        match r with _ :: _ :: _ :: r => rest_of_reply fuel r | _ => None end
      else Some (bool_decide (sep = c_space), r)
    end
  | _, _ => None
  end.

(** A letter of qmail-rspawn's report. *)
Definition letter_of (wait_crashed : Z → bool) (wait_exitcode : Z → Z) (report : bytes) : option Z :=
  head (report_remote wait_crashed wait_exitcode 0 report).

Inductive outcome :=
  Delivered | Rejected (permanently : bool) | LostConnection | NextHost.

(** The message as the reads give it. *)
Inductive reading := Whole | Partial | Unreadable.

Fixpoint read_message (l : list rread) : bytes * bool :=
  match l with
  | [] | Chunk [] :: _ => ([], true)
  | ReadError :: _ => ([], false)
  | Chunk d :: l => let '(t, good) := read_message l in (d ++ t, good)
  end.
Definition reading_of (l : list rread) : reading :=
  let '(t, good) := read_message l in
  if good then if decide (t = [] ∨ last t = Some c_lf) then Whole else Partial else Unreadable.

Section spec.
Context {L : LibQmail}.

(** The code of the next reply; a reply that is not in order counts as 400. *)
Definition next_reply (s : bytes) : option (Z * bytes) :=
  match s with
  | a :: b :: c :: r =>
    let code := snd (scan_ulong (cstr [a; b; c])) in
    match rest_of_reply (length r) r with
    | Some (good, rest) => Some (if good && bool_decide (200 ≤ code)%Z then code else 400%Z, rest)
    | None => None
    end
  | _ => None
  end.

Definition on_reply (s : bytes) (k : Z → bytes → outcome) : outcome :=
  match next_reply s with Some (c, r) => k c r | None => LostConnection end.

Definition unless_refused (c : Z) (o : outcome) : outcome :=
  if decide (500 ≤ c)%Z then Rejected true
  else if decide (400 ≤ c)%Z then Rejected false else o.

(** The session: greeting, EHLO (twice, when it is said again after [do_tls] or
    without it), HELO if that is refused, MAIL, RCPT, DATA, the message. *)
Section session.
Context (tls : bool) (notls tls_result : Z) (try_next : bool) (msg : reading).

Definition after_rcpt (s : bytes) : outcome :=
  on_reply s (λ c s, unless_refused c
    match msg with
    | Unreadable => Rejected false
    | Partial => Rejected true
    | Whole => on_reply s (λ c _, unless_refused c Delivered)
    end).

Definition after_helo (c : Z) (s : bytes) : outcome :=
  if try_next && bool_decide (400 ≤ c < 500)%Z then NextHost
  else if decide (c ≠ 250%Z) then Rejected (bool_decide (500 ≤ c)%Z)
  else on_reply s (λ c s, unless_refused c
         (on_reply s (λ c s, unless_refused c (after_rcpt s)))).

Definition after_ehlo (c : Z) (s : bytes) : outcome :=
  if decide (500 ≤ c)%Z then on_reply s after_helo else after_helo c s.

Definition after_tls (c : Z) (s : bytes) : outcome :=
  if decide (notls ≠ 0 ∨ tls_result = 1)%Z then on_reply s after_ehlo
  else if decide (tls_result = 2)%Z then NextHost
  else after_ehlo c s.

Definition after_greeting (c : Z) (s : bytes) : outcome :=
  if decide (500 ≤ c < 600)%Z then Rejected true
  else if decide (400 ≤ c < 500)%Z then NextHost
  else if decide (c ≠ 220%Z) then Rejected false
  else if tls then after_tls 220 s else on_reply s after_tls.

Definition session (s : bytes) : outcome :=
  if tls then after_greeting 220 s else on_reply s after_greeting.
End session.

Definition expected (o : outcome) : Z :=
  match o with
  | Delivered => 75
  | Rejected true => 68
  | Rejected false | LostConnection | NextHost => 90
  end.
End spec.

(** ** Rules *)

Lemma wp_update f (Q : Z + unit → remote → Prop) s : Q (inr tt) (f s) → wp (update f) Q s.
Proof. done. Qed.
Lemma wp_look {A} (f : remote → A) (Q : Z + A → remote → Prop) s : Q (inr (f s)) s → wp (look f) Q s.
Proof. done. Qed.

(** What a step of the session keeps. *)
Record kept (s s' : remote) : Prop := {
  kept_report : report s' = report s;
  kept_message : message s' = message s;
  kept_partner : partner s' = partner s;
  kept_notls : notls s' = notls s;
  kept_do_tls : do_tls s' = do_tls s;
  kept_smtps : smtps s' = smtps s;
  kept_lost : true ∈ lost s' → true ∈ lost s
}.

Lemma kept_refl s : kept s s.
Proof. by split. Qed.
Lemma kept_trans s1 s2 s3 : kept s1 s2 → kept s2 s3 → kept s1 s3.
Proof. intros [] []. split; try congruence. auto. Qed.

(** The process said that the connection is gone. *)
Definition gone (s s' : remote) : Prop :=
  ∃ t, report s' = report s ++ 90%Z :: t ++ [0%Z] ∧ (0%Z ∉ t).

Lemma gone_kept s1 s2 s3 : kept s1 s2 → gone s2 s3 → gone s1 s3.
Proof. intros H (t & Ht & ?). exists t. by rewrite Ht, (kept_report _ _ H). Qed.

Section rules.
Context {L : LibQmail} {LL : LibQmailLaws L} (cf : remote_conf).
Context (Htol : ulong (max_tolerance cf)).

Definition tame (s : remote) : Prop := 0%Z ∉ ip_text (partner s).

Lemma lit_no_zero (t : string) : forallb (λ c, negb (bool_decide (c = 0%Z))) (lit t) = true → 0%Z ∉ lit t.
Proof.
  intros H Hin. rewrite forallb_forall in H. specialize (H 0%Z ltac:(by apply list_elem_of_In)). done.
Qed.

Lemma wp_out t (Q : Z + unit → remote → Prop) s :
  Q (inr tt) (set_report (report s ++ t) s) → wp (out t) Q s.
Proof. done. Qed.

Lemma wp_dropped {A} (Q : Z + A → remote → Prop) s :
  tame s → (∀ s', gone s s' → Q (inl 0%Z) s') → wp (dropped cf) Q s.
Proof.
  intros Ht HQ. unfold dropped.
  assert (Hend : ∀ u s1, report s1 = report s ++ 90%Z :: u → 0%Z ∉ u →
    wp (say "(#4.4.2)
";;? zerodie) Q s1).
  { intros u s1 Hr Hu. unfold wp, say, out, zerodie, zero; simpl. apply HQ. simpl.
    exists (u ++ lit "(#4.4.2)
"). rewrite Hr. split; [by rewrite <- !(assoc_L app)|].
    rewrite not_elem_of_app. split; [done|by apply lit_no_zero]. }
  apply wp_qbind, wp_out, wp_qbind, wp_bind, wp_getS, wp_out, wp_qbind, wp_out. simpl.
  apply wp_bind, wp_getS.
  set (s1 := set_report _ _).
  assert (Hr1 : report s1 = report s ++ 90%Z :: (lit "Connected to " ++ ip_text (partner s) ++ lit " but connection died. ")).
  { unfold s1. simpl. by rewrite <- !(assoc_L app). }
  assert (H1 : 0%Z ∉ lit "Connected to " ++ ip_text (partner s) ++ lit " but connection died. ").
  { rewrite !not_elem_of_app. split_and!; [by apply lit_no_zero|done|by apply lit_no_zero]. }
  change (flagcritical s1) with (flagcritical s). change (inside_greeting s1) with (inside_greeting s).
  clearbody s1.
  apply wp_qbind. destruct (flagcritical s).
  { apply wp_out. eapply Hend; simpl; [by rewrite Hr1, <- !(assoc_L app)|].
    rewrite !not_elem_of_app in *. destruct_and_all. split_and!; try done; by apply lit_no_zero. }
  destruct (inside_greeting s); [|by apply wp_ok; eapply Hend].
  apply wp_qbind, wp_out. destruct (flagtcpto cf).
  - apply wp_qbind, wp_out, wp_qbind, wp_out, wp_qbind, wp_out. unfold on_table, wp. simpl.
    match goal with |- context [let '(_, _) := ?m in _] => destruct m as [[] t] end. simpl.
    eapply Hend; simpl; [by rewrite Hr1, <- !(assoc_L app)|].
    rewrite !not_elem_of_app in *. destruct_and_all.
    split_and!; try done; try (by apply lit_no_zero); by apply fmt_no_zero.
  - apply wp_ok. eapply Hend; simpl; [by rewrite Hr1, <- !(assoc_L app)|].
    rewrite !not_elem_of_app in *. destruct_and_all. split_and!; try done; by apply lit_no_zero.
Qed.

Lemma tame_kept s s' : kept s s' → tame s → tame s'.
Proof. unfold tame. intros H. by rewrite (kept_partner _ _ H). Qed.

(** [s'] is [s] with [r] left to read. *)
Definition read_to (r : bytes) (s s' : remote) : Prop :=
  kept s s' ∧ server s' = r ∧ sent s' = sent s.

Lemma read_to_refl s : read_to (server s) s s.
Proof. split_and!; [apply kept_refl|done..]. Qed.
Lemma read_to_trans r1 r2 s1 s2 s3 : read_to r1 s1 s2 → read_to r2 s2 s3 → read_to r2 s1 s3.
Proof.
  intros (? & _ & Hs) (? & ? & Hs'). split_and!; [by eapply kept_trans|done|congruence].
Qed.
Lemma gone_read r s1 s2 s3 : read_to r s1 s2 → gone s2 s3 → gone s1 s3.
Proof. intros [H _]. by apply gone_kept. Qed.

(** A computation that reads: it ends as the function [f] of the bytes says. *)
Definition reads {A} (m : RM A) (f : bytes → option (A * bytes)) : Prop :=
  ∀ (Q : Z + A → remote → Prop) s, tame s →
  (∀ a r s', f (server s) = Some (a, r) → read_to r s s' → Q (inr a) s') →
  (f (server s) = None → ∀ s', gone s s' → Q (inl 0%Z) s') →
  wp m Q s.

Lemma reads_ok {A} (a : A) : reads (ok a) (λ s, Some (a, s)).
Proof. intros Q s _ H _. apply wp_ok, (H a (server s) s); [done|apply read_to_refl]. Qed.

Lemma reads_bind {A B} (m : RM A) (k : A → RM B) f g :
  reads m f → (∀ a, reads (k a) (g a)) →
  reads (qbind m k) (λ s, match f s with Some (a, r) => g a r | None => None end).
Proof.
  intros Hm Hk Q s Ht H1 H2. apply wp_qbind, Hm; [done| |].
  - intros a r s1 Hf Hr1. assert (Hs1 : server s1 = r) by apply Hr1.
    apply Hk; [eapply tame_kept; [apply Hr1|done]| |].
    + intros b r' s2 Hg Hr2. apply (H1 b r').
      * rewrite Hf. by rewrite Hs1 in Hg.
      * by eapply read_to_trans.
    + intros Hg s2 Hgone. apply H2; [|by eapply gone_read]. rewrite Hf. by rewrite Hs1 in Hg.
  - intros Hf s1 Hgone. apply H2; [by rewrite Hf|done].
Qed.

Lemma reads_ext {A} (m : RM A) f g : (∀ s, f s = g s) → reads m f → reads m g.
Proof. intros Hfg Hm Q s Ht H1 H2. apply Hm; [done|..]; rewrite Hfg; auto. Qed.

Lemma reads_get1 : reads (get1 cf) (λ s, match s with ch :: r => Some (ch, r) | [] => None end).
Proof.
  intros Q s Ht H1 H2. unfold get1. apply wp_bind, wp_getS.
  destruct (server s) as [|ch r] eqn:E; [by apply wp_dropped; auto|].
  apply wp_qbind, wp_update, wp_qbind.
  assert (∀ t, Q (inr ch) (set_smtptext t (set_server r s))) as HQ.
  { intros t. apply (H1 ch r); [done|]. split_and!; [|done..]. by split. }
  case_decide; [apply wp_update|apply wp_ok]; apply wp_ok; [apply HQ|].
  specialize (HQ (smtptext s)). by destruct s.
Qed.

Lemma reads_to_lf fuel ch (Q : Z + unit → remote → Prop) s :
  tame s → length (server s) < fuel →
  (∀ r s', after_lf (ch :: server s) = Some r → read_to r s s' → Q (inr tt) s') →
  (after_lf (ch :: server s) = None → ∀ s', gone s s' → Q (inl 0%Z) s') →
  wp (to_lf cf fuel ch) Q s.
Proof.
  revert ch s. induction fuel as [|fuel IH]; intros ch s Ht Hf H1 H2; [lia|]. simpl in *.
  destruct (decide (ch = c_lf)) as [->|Hch].
  { apply wp_ok, (H1 (server s) s); [done|apply read_to_refl]. }
  apply wp_qbind, reads_get1; [done| |].
  - intros c r s1 Hs Hr1. destruct (server s) as [|c' r'] eqn:E; [done|]. injection Hs as -> ->.
    assert (Hs1 : server s1 = r) by apply Hr1. simpl in Hf.
    apply IH; [eapply tame_kept; [apply Hr1|done]|rewrite Hs1; lia| |]; rewrite Hs1.
    + intros r2 s2 Hl Hr2. apply (H1 r2); [done|]. by eapply read_to_trans.
    + intros Hl s2 Hg. apply H2; [done|]. by eapply gone_read.
  - destruct (server s); [|done]. intros _. by apply H2.
Qed.

Lemma reads_rest_of_line ch : reads (rest_of_line cf ch)
  (λ s, match after_lf (ch :: s) with Some r => Some (tt, r) | None => None end).
Proof.
  intros Q s Ht H1 H2. unfold rest_of_line. apply wp_qbind, wp_look, reads_to_lf; [done|lia| |].
  - intros r s' Hl. apply (H1 tt). by rewrite Hl.
  - intros Hl. apply H2. by rewrite Hl.
Qed.

Lemma reads_get3 : reads (get3 cf)
  (λ s, match s with a :: b :: c :: r => Some (snd (scan_ulong (cstr [a; b; c])), r) | _ => None end).
Proof.
  unfold get3. eapply reads_ext; [|apply reads_bind; [apply reads_get1|intros a;
    apply reads_bind; [apply reads_get1|intros b; apply reads_bind; [apply reads_get1|intros c; apply reads_ok]]]].
  by intros [|a [|b [|c r]]].
Qed.

Lemma after_lf_shorter s r : after_lf s = Some r → length r < length s.
Proof.
  induction s as [|c s IH]; simpl; [done|]. case_decide; [intros [= ->]; lia|]. intros Hr%IH. lia.
Qed.

Lemma reads_reply_lines n err (Q : Z + bool → remote → Prop) s :
  tame s → length (server s) ≤ n →
  (∀ good r s', rest_of_reply n (server s) = Some (good, r) → read_to r s s' →
     Q (inr (err || negb good)) s') →
  (rest_of_reply n (server s) = None → ∀ s', gone s s' → Q (inl 0%Z) s') →
  wp (reply_lines cf (S n) err) Q s.
Proof.
  revert err s. induction n as [|n IH]; intros err s Ht Hn H1 H2.
  { cbn [reply_lines]. apply wp_qbind, reads_get1; [done| |by intros _; apply H2].
    intros ch r s1 Hs _. destruct (server s); [done|simpl in Hn; lia]. }
  cbn [reply_lines]. apply wp_qbind, reads_get1; [done| |].
  2: { intros Hs. apply H2. by destruct (server s). }
  intros ch r s1 Hs Hr1. destruct (server s) as [|ch' r'] eqn:E; [done|]. injection Hs as -> ->.
  assert (Hs1 : server s1 = r) by apply Hr1.
  cbn [rest_of_reply] in H1, H2. simpl in Hn.
  apply wp_qbind, reads_rest_of_line; [eapply tame_kept; [apply Hr1|done]| |]; rewrite Hs1.
  2: { intros Hl s2 Hg. apply H2; [by destruct (after_lf (ch :: r))|by eapply gone_read]. }
  intros [] r2 s2 Hl Hr2. destruct (after_lf (ch :: r)) as [r2'|] eqn:El; [|done]. injection Hl as ->.
  apply after_lf_shorter in El. simpl in El.
  pose proof (read_to_trans _ _ _ _ _ Hr1 Hr2) as Hr12. assert (Hs2 : server s2 = r2) by apply Hr2.
  destruct (decide (ch = c_minus)) as [->|Hch].
  - rewrite decide_False by auto. apply wp_qbind, reads_get3; [eapply tame_kept; [apply Hr12|done]| |];
      rewrite Hs2; destruct r2 as [|a [|b [|c r3]]]; try done.
    2-4: intros _ s3 Hg; apply H2; [done|by eapply gone_read].
    intros code r4 s3 [= _ <-] Hr3.
    assert (Hs3 : server s3 = r3) by apply Hr3. pose proof (read_to_trans _ _ _ _ _ Hr12 Hr3) as Hr13.
    rewrite orb_false_r. simpl in El.
    apply IH; [eapply tame_kept; [apply Hr13|done]|rewrite Hs3; lia| |]; rewrite Hs3.
    + intros good r5 s4 Hg Hr5. by eapply H1; [|by eapply read_to_trans].
    + intros Hg s4 Hgone. apply H2; [done|by eapply gone_read].
  - rewrite decide_True by done. apply wp_ok.
    assert (bool_decide (ch ≠ c_space ∧ ch ≠ c_minus) = negb (bool_decide (ch = c_space))) as ->.
    { rewrite bool_decide_decide. repeat case_decide; destruct (decide (ch = c_space)) eqn:Ed;
        rewrite ?bool_decide_true, ?bool_decide_false by tauto; try done; tauto. }
    by eapply H1.
Qed.

Lemma reads_smtpcode : reads (smtpcode cf) next_reply.
Proof.
  intros Q s Ht H1 H2. unfold smtpcode. apply wp_qbind, wp_update.
  assert (Hr0 : read_to (server s) s (set_smtptext [] s)) by (split_and!; [by split|done..]).
  apply wp_qbind, reads_get3; [done| |]; cbn [server set_smtptext].
  2: { intros Hs s1 Hg. apply H2; [by destruct (server s) as [|a [|b [|c r]]]|exact Hg]. }
  intros code r s1 Hs Hr1. pose proof (read_to_trans _ _ _ _ _ Hr0 Hr1) as Hr01.
  unfold next_reply in H1, H2. destruct (server s) as [|a [|b [|c r']]]; try done. injection Hs as <- ->.
  assert (Hs1 : server s1 = r) by apply Hr1.
  apply wp_qbind, wp_look. rewrite Hs1. apply wp_qbind, reads_reply_lines;
    [eapply tame_kept; [apply Hr01|done]|by rewrite Hs1|..]; rewrite Hs1.
  - intros good r2 s2 Hg Hr2. apply wp_ok.
    set (code := snd (scan_ulong (cstr [a; b; c]))) in *. clearbody code.
    specialize (H1 (if good && bool_decide (200 ≤ code)%Z then code else 400%Z) r2 s2).
    rewrite Hg in H1. specialize (H1 eq_refl (read_to_trans _ _ _ _ _ Hr01 Hr2)).
    revert H1. destruct good; simpl; rewrite ?orb_true_r, ?orb_false_r; [|done].
    destruct (decide (200 ≤ code)%Z).
    + rewrite bool_decide_true, bool_decide_false by lia. done.
    + rewrite bool_decide_false, bool_decide_true by lia. done.
  - intros Hg s2 Hgone. apply H2; [by rewrite Hg|by eapply gone_read].
Qed.
End rules.
