(* ===== verification/RemoteTheorems.v ===== *)
(** * What qmail-remote reports

    The report of a session, as qmail-rspawn reads it, against the specification of
    [RemoteSpec]. *)

From S2P Require Import Prelude LibQmail Filesys Tcpto Spawn QmailRemote RemoteSpec.

#[local] Arguments lit : simpl never.
#[local] Arguments cstr : simpl never.

(** ** The report, as qmail-rspawn reads it *)

(** The loop that looks for the result comes to the end of a record. *)
Lemma remote_result_record (a t b : bytes) n :
  0%Z ∉ t → length t < n →
  ∀ u, t = u ++ drop (length u) t →
  remote_result (n - length u) (a ++ t ++ 0%Z :: b) (length a) (length a + length u) =
  if decide ((t ++ 0%Z :: b) !! 0 = Some 75%Z) then 1%Z
  else if decide ((t ++ 0%Z :: b) !! 0 = Some 90%Z) then 0%Z
  else if decide ((t ++ 0%Z :: b) !! 0 = Some 68%Z) then (-1)%Z
  else remote_result (n - length t - 1) (a ++ t ++ 0%Z :: b) (length a + length t + 1) (length a + length t + 1).
Proof.
  intros Ht Hn u. remember (length t - length u) as k eqn:Hk. revert u Hk.
  assert (Hfirst : ∀ x, (a ++ t ++ 0%Z :: b) !! (length a + x) = (t ++ 0%Z :: b) !! x).
  { intros x. rewrite lookup_app_r by lia. f_equal. lia. }
  induction k as [|k IH]; intros u Hk Hu.
  - assert (length u = length t) as Hlen.
    { apply (f_equal length) in Hu. rewrite length_app in Hu. lia. }
    rewrite Hlen. replace (n - length t) with (S (n - length t - 1)) by lia.
    cbn [remote_result]. rewrite Hfirst, lookup_app_r, Nat.sub_diag by lia.
    rewrite decide_True by done.
    replace ((a ++ t ++ 0%Z :: b) !! length a) with ((t ++ 0%Z :: b) !! 0)
      by (rewrite <- Hfirst; f_equal; lia).
    by replace (S (n - length t - 1) - 1) with (n - length t - 1) by lia.
  - destruct (lookup_lt_is_Some_2 t (length u)) as [x Hx]; [lia|].
    replace (n - length u) with (S (n - length u - 1)) by lia. cbn [remote_result].
    rewrite Hfirst, lookup_app_l by lia. rewrite Hx, decide_False.
    2: { intros [= ->]. apply Ht. by eapply list_elem_of_lookup_2. }
    assert (Hu' : t = (u ++ [x]) ++ drop (length (u ++ [x])) t).
    { rewrite Hu at 1. rewrite <- app_assoc. f_equal. rewrite length_app. simpl.
      rewrite (drop_S t x (length u)) by done. simpl. do 2 f_equal. lia. }
    specialize (IH (u ++ [x])). rewrite length_app in IH. simpl in IH.
    replace (n - length u - 1) with (n - (length u + 1)) by lia.
    replace (length a + length u + 1) with (length a + (length u + 1)) by lia.
    apply IH; [lia|]. rewrite length_app in Hu'. simpl in Hu'. done.
Qed.

Section letters.
Context (wait_crashed : Z → bool) (wait_exitcode : Z → Z).
Context (Hcrashed : wait_crashed 0 = false) (Hexit : wait_exitcode 0 = 0%Z).

Definition says (s : remote) (l : Z) : Prop := letter_of wait_crashed wait_exitcode (report s) = Some l.

(** The records before the message's: none, or that of a recipient that was accepted. *)
Definition good_so_far (r : bytes) : Prop := r = [] ∨ ∃ u, r = 114%Z :: u ++ [0%Z] ∧ (0%Z ∉ u).

Definition result_letter (l : Z) : Prop := (l = 75 ∨ l = 90 ∨ l = 68)%Z.

Lemma result_of r l t : good_so_far r → result_letter l → 0%Z ∉ t →
  remote_result (length (r ++ l :: t ++ [0%Z])) (r ++ l :: t ++ [0%Z]) 0 0 =
  if decide (l = 75%Z) then 1%Z else if decide (l = 90%Z) then 0%Z else (-1)%Z.
Proof.
  intros Hr Hl Ht.
  assert (Hlast : ∀ n, length t + 1 < n →
    remote_result n (r ++ l :: t ++ [0%Z]) (length r) (length r) =
    if decide (l = 75%Z) then 1%Z else if decide (l = 90%Z) then 0%Z else (-1)%Z).
  { intros n Hn. change (r ++ l :: t ++ [0%Z]) with (r ++ (l :: t) ++ 0%Z :: []).
    pose proof (remote_result_record r (l :: t) [] n) as H. specialize (H ltac:(destruct Hl as [->|[->| ->]]; set_solver)).
    specialize (H ltac:(simpl; lia) [] eq_refl). simpl length in H.
    rewrite Nat.sub_0_r, Nat.add_0_r in H. rewrite H. simpl.
    destruct Hl as [->|[->| ->]]; done. }
  destruct Hr as [->|(u & -> & Hu)].
  - apply (Hlast (S (length (t ++ [0%Z])))). rewrite length_app. simpl. lia.
  - set (w := (114%Z :: u ++ [0%Z]) ++ l :: t ++ [0%Z]).
    assert (w = [] ++ (114%Z :: u) ++ 0%Z :: l :: t ++ [0%Z]) as Hw.
    { unfold w. simpl. by rewrite <- app_assoc. }
    assert (Hlen : length w = length u + length t + 4).
    { unfold w. simpl. rewrite !length_app. simpl. rewrite length_app. simpl. lia. }
    pose proof (remote_result_record [] (114%Z :: u) (l :: t ++ [0%Z]) (length w)) as H.
    specialize (H ltac:(set_solver) ltac:(rewrite Hlen; simpl; lia) [] eq_refl). rewrite <- Hw in H.
    simpl length in H. rewrite Nat.sub_0_r in H. etransitivity; [exact H|]. simpl lookup. simpl decide.
    rewrite <- (Hlast (length w - S (length u) - 1)) by lia.
    f_equal; unfold w; simpl; rewrite ?length_app; simpl; lia.
Qed.

Lemma says_result s r l t : report s = r ++ l :: t ++ [0%Z] →
  good_so_far r → result_letter l → 0%Z ∉ t → says s l.
Proof.
  intros Hs Hr Hl Ht. unfold says, letter_of, report_remote. rewrite Hs, Hcrashed, Hexit.
  rewrite decide_False by done. rewrite decide_False by lia.
  rewrite decide_False by (by destruct r). cbv zeta. rewrite (result_of r l t Hr Hl Ht).
  assert (head (r ++ l :: t ++ [0%Z]) ≠ Some 115%Z ∧ head (r ++ l :: t ++ [0%Z]) ≠ Some 104%Z) as [H1 H2].
  { destruct Hr as [->|(u & -> & _)]; [|done]. simpl. destruct Hl as [->|[->| ->]]; done. }
  set (orr := match head _ with Some _ => _ | None => _ end).
  assert (orr = if decide (l = 75%Z) then 1%Z else if decide (l = 90%Z) then 0%Z else (-1)%Z) as ->.
  { unfold orr. repeat case_match; simplify_eq; done. }
  destruct Hl as [->|[->| ->]]; done.
Qed.

(** A recipient that was refused decides. *)
Lemma says_refused s u b : report s = (if b : bool then 104%Z else 115%Z) :: u →
  says s (if b then 68%Z else 90%Z).
Proof.
  intros Hs. unfold says, letter_of, report_remote. rewrite Hs, Hcrashed, Hexit.
  rewrite decide_False by done. rewrite decide_False by lia. rewrite decide_False by done.
  by destruct b.
Qed.
End letters.

(** ** Steps that write and read *)

Section steps.
Context {L : LibQmail} {LL : LibQmailLaws L} (cf : remote_conf).
Context (Htol : ulong (max_tolerance cf)).

(** As [reads], for computations that also write. *)
Definition acts {A} (m : RM A) (f : bytes → option (A * bytes)) : Prop :=
  ∀ (Q : Z + A → remote → Prop) s, tame s →
  (∀ a r s', f (server s) = Some (a, r) → kept s s' → server s' = r → Q (inr a) s') →
  (f (server s) = None ∨ true ∈ lost s → ∀ s', gone s s' → Q (inl 0%Z) s') →
  wp m Q s.

Lemma acts_reads {A} (m : RM A) f : reads m f → acts m f.
Proof.
  intros Hm Q s Ht H1 H2. apply Hm; [done| |by intros Hf; apply H2; left].
  intros a r s' Hf (Hk & Hr & _). by eapply H1.
Qed.

Lemma acts_bind {A B} (m : RM A) (k : A → RM B) f g :
  acts m f → (∀ a, acts (k a) (g a)) →
  acts (qbind m k) (λ s, match f s with Some (a, r) => g a r | None => None end).
Proof.
  intros Hm Hk Q s Ht H1 H2. apply wp_qbind, Hm; [done| |].
  - intros a r s1 Hf Hk1 Hr1. apply Hk; [by eapply tame_kept| |].
    + intros b r' s2 Hg Hk2 Hr2. apply (H1 b r'); [|by eapply kept_trans|done].
      rewrite Hf. by rewrite <- Hr1.
    + intros Hg s2 Hgone. apply H2; [|by eapply gone_kept]. destruct Hg as [Hg|Hl].
      * left. rewrite Hf. by rewrite <- Hr1.
      * right. by apply (kept_lost _ _ Hk1).
  - intros Hf s1 Hgone. apply H2; [|done]. destruct Hf as [Hf|]; [left; by rewrite Hf|by right].
Qed.

Lemma acts_ok {A} (a : A) : acts (ok a) (λ s, Some (a, s)).
Proof. apply acts_reads, reads_ok. Qed.

Lemma acts_look {A B} (g : remote → A) (k : A → RM B) f : (∀ a, acts (k a) f) → acts (qbind (look g) k) f.
Proof. intros Hk Q s Ht H1 H2. apply wp_qbind, wp_look. by apply Hk. Qed.

Lemma acts_ehlokw l : acts (update (set_ehlokw l)) (λ s, Some (tt, s)).
Proof. intros Q s Ht H1 H2. apply wp_update. by eapply H1; [done|split|]. Qed.

Lemma acts_ext {A} (m : RM A) f g : (∀ s, f s = g s) → acts m f → acts m g.
Proof. intros Hfg Hm Q s Ht H1 H2. apply Hm; [done|..]; rewrite Hfg; auto. Qed.

Lemma wp_put d (Q : Z + unit → remote → Prop) s : tame s →
  (∀ s', kept s s' → server s' = server s → sent s' = sent s ++ d → smtptext s' = smtptext s →
     Q (inr tt) s') →
  (true ∈ lost s → ∀ s', gone s s' → Q (inl 0%Z) s') →
  wp (put cf d) Q s.
Proof.
  intros Ht H1 H2. unfold put. apply wp_bind, wp_getS.
  assert (Hok : wp (update (λ s0, set_sent (sent s0 ++ d) (set_lost (tail (lost s)) s0))) Q s).
  { apply wp_update, H1; [|done..]. split; try done. simpl. destruct (lost s); set_solver. }
  destruct (lost s) as [|[] r] eqn:E; [exact Hok| |exact Hok].
  apply wp_qbind, wp_update, wp_dropped; [done|done|]. intros s' Hg. apply H2; [set_solver|exact Hg].
Qed.

Lemma acts_put d : acts (put cf d) (λ s, Some (tt, s)).
Proof.
  intros Q s Ht H1 H2. apply wp_put; [done| |by intros Hl; apply H2; right].
  intros s' Hk Hr _ _. by eapply H1.
Qed.

Lemma acts_put_then {A} d (m : RM A) f : acts m f → acts (put cf d;;? m) f.
Proof.
  intros Hm. apply (acts_ext _ (λ s, match Some (tt, s) with Some (_, r) => f r | None => None end)); [done|].
  apply (acts_bind _ _ (λ s, Some (tt, s)) (λ _, f)); [apply acts_put|done].
Qed.

Context (beyond : bytes → bytes).

Lemma acts_ehlo : protocol_t cf ≠ 113%Z → acts (ehlo cf beyond) next_reply.
Proof.
  intros Hp. unfold ehlo. rewrite decide_False by done.
  eapply acts_ext; [|apply acts_bind; [apply acts_ehlokw|intros ?; apply acts_bind; [apply acts_put|intros ?;
    apply acts_bind; [apply acts_put|intros ?; apply acts_bind; [apply acts_put|intros ?;
    apply acts_bind; [apply acts_reads, reads_smtpcode; done|]]]]]].
  2: { intros code. instantiate (1 := λ code s, Some (code, s)). cbv beta.
       case_decide as Hc; [apply acts_ok|]. subst code.
       apply acts_look. intros text. cbv zeta.
       eapply acts_ext; [|apply acts_bind; [apply acts_ehlokw|intros ?; apply acts_ok]]. done. }
  intros s. simpl. by destruct (next_reply s) as [[]|].
Qed.

Lemma acts_mailfrom b : acts (mailfrom cf b) (λ s, Some (tt, s)).
Proof.
  unfold mailfrom. eapply acts_ext; [|apply acts_bind; [apply acts_put|intros ?;
    apply acts_bind; [apply acts_put|intros ?; apply acts_bind; [|intros ?; apply acts_put]]]].
  2: { instantiate (1 := λ s, Some (tt, s)). destruct b; [|apply acts_put].
       eapply acts_ext; [|apply acts_bind; [apply acts_put|intros ?; apply acts_put]]. done. }
  done.
Qed.
End steps.

(** ** The message on the wire *)

Lemma encode_app e a b :
  encode e (a ++ b) =
  ((encode e a).1 ++ (encode (encode e a).2 b).1, (encode (encode e a).2 b).2).
Proof.
  revert e. induction a as [|c a IH]; intros e; simpl; [by destruct (encode e b)|].
  destruct (e && bool_decide (c = c_dot)); [|destruct (decide (c = c_lf))];
    rewrite IH; by destruct (encode _ a) as [o' e'].
Qed.

(** Whether the last line is whole. *)
Lemma encode_eom e t : (encode e t).2 = if decide (t = []) then e else bool_decide (last t = Some c_lf).
Proof.
  destruct t as [|c t] using rev_ind; [done|].
  rewrite encode_app, last_snoc, decide_False by (by intros [_ ?]%app_nil).
  generalize (encode e t).2. intros e'. simpl.
  destruct (e' && bool_decide (c = c_dot)) eqn:E.
  - apply andb_true_iff in E as [_ ->%bool_decide_eq_true]. done.
  - destruct (decide (c = c_lf)) as [->|Hc]; simpl; [done|].
    symmetry. apply bool_decide_eq_false. congruence.
Qed.

Section message.
Context {L : LibQmail} {LL : LibQmailLaws L} (cf : remote_conf) (Htol : ulong (max_tolerance cf)).

(** However the message is cut into chunks, the same is sent. *)
Lemma wp_blast_loop l eom (Q : Z + bool → remote → Prop) s : tame s →
  ((read_message l).2 = true → ∀ s', kept s s' → server s' = server s →
     sent s' = sent s ++ (encode eom (read_message l).1).1 →
     Q (inr (encode eom (read_message l).1).2) s') →
  ((read_message l).2 = false → ∀ s' t, report s' = report s ++ 90%Z :: t ++ [0%Z] → 0%Z ∉ t →
     Q (inl 0%Z) s') →
  (true ∈ lost s → ∀ s', gone s s' → Q (inl 0%Z) s') →
  wp (blast_loop cf l eom) Q s.
Proof.
  revert eom s. induction l as [|[[|c d]|] l IH]; intros eom s Ht H1 H2 H3; simpl in *.
  - apply wp_ok, H1; [done|apply kept_refl|done|by rewrite app_nil_r].
  - apply wp_ok, H1; [done|apply kept_refl|done|by rewrite app_nil_r].
  - change (if eom && _ then _ else _) with (encode eom (c :: d)). revert H1 H2.
    destruct (read_message l) as [t good] eqn:El. cbn [fst snd]. change (c :: d ++ t) with ((c :: d) ++ t).
    rewrite encode_app. destruct (encode eom (c :: d)) as [o e]. cbn [fst snd]. intros H1 H2.
    apply wp_qbind, wp_put; [done..| |done].
    intros s1 Hk Hs Hsent _. apply IH; [by eapply tame_kept| | |]; cbn [fst snd].
    + intros Hg s2 Hk2 Hs2 Hsent2. apply H1; [done|by eapply kept_trans|congruence|].
      by rewrite Hsent2, Hsent, <- (assoc_L app).
    + intros Hg s2 u Hr Hu. rewrite (kept_report _ _ Hk) in Hr. by eapply H2.
    + intros Hl s2 Hgone. apply H3; [by apply (kept_lost _ _ Hk)|by eapply gone_kept].
  - unfold temp_read, zerodie, zero, say, wp. simpl.
    eapply H2; simpl; [done|by rewrite <- (assoc_L app); apply f_equal2; [|exact (eq_refl (90%Z :: lit "Unable to read message. (#4.3.0)
" ++ [0%Z]))]|].
    by apply lit_no_zero.
Qed.
End message.

(** ** The session *)

Section session.
Context {L : LibQmail} {LL : LibQmailLaws L} (cf : remote_conf).
Context (Htol : ulong (max_tolerance cf)).
Context (wait_crashed : Z → bool) (wait_exitcode : Z → Z).
Context (Hcrashed : wait_crashed 0 = false) (Hexit : wait_exitcode 0 = 0%Z).
Context (msgs : list rread) (lossy : Prop).

#[local] Abbreviation says := (says wait_crashed wait_exitcode).

(** What a delivered message looks like to the server. *)
Definition wire : bytes :=
  lit "DATA" ++ [c_cr; c_lf] ++ encode_qqeh (qqeh cf) ++
  (encode true (read_message msgs).1).1 ++ [c_dot; c_cr; c_lf].

Definition settled (o : outcome) (r : Z + unit) (s : remote) : Prop :=
  match o with
  | NextHost => r = inr tt
  | Delivered => r = inl 0%Z ∧ says s 75 ∧ ∃ pre, sent s = pre ++ wire ++ lit "QUIT" ++ [c_cr; c_lf]
  | _ => r = inl 0%Z ∧ says s (expected o)
  end ∨ (lossy ∧ r = inl 0%Z ∧ says s 90).

(** The state between two steps, before any recipient is refused. *)
Record on (rep : bytes) (s : remote) : Prop := {
  on_rep : report s = rep;
  on_tame : tame s;
  on_report : good_so_far (report s);
  on_message : message s = msgs;
  on_lost : true ∈ lost s → lossy
}.

Lemma on_kept rep s s' : kept s s' → on rep s → on rep s'.
Proof.
  intros [Hr Hm Hp Hn Hd _ Hl] [Hrep Ht Ho Hms Hlo].
  split; [congruence|unfold tame in *; by rewrite Hp|by rewrite Hr|congruence|auto].
Qed.

Lemma settled_gone rep o s s' : on rep s → o = LostConnection ∨ lossy → gone s s' → settled o (inl 0%Z) s'.
Proof.
  intros Hs Ho (t & Hr & Ht).
  assert (says s' 90) by (eapply says_result; [done..|apply (on_report _ s Hs)|by right; left|done]).
  destruct Ho as [->|?]; [by left|by right].
Qed.

Lemma wp_write {A} rep (m : RM A) a (k : A → RM unit) o s :
  acts m (λ s, Some (a, s)) → on rep s →
  (∀ s', on rep s' → kept s s' → server s' = server s → wp (k a) (settled o) s') →
  wp (qbind m k) (settled o) s.
Proof.
  intros Hm Hs Hk. apply wp_qbind, Hm; [apply (on_tame _ s Hs)| |].
  - intros a' r s' [= <- <-] Hkept Hr. apply Hk; [by eapply on_kept|done|done].
  - intros [?|Hl] s' Hg; [done|]. eapply settled_gone; [done|right; by apply (on_lost _ s Hs)|done].
Qed.

(** A computation that reads one reply, and gives [f] of its code. *)
Definition answers {A} (m : RM A) (f : Z → A) : Prop :=
  acts m (λ s, match next_reply s with Some (c, r) => Some (f c, r) | None => None end).

Lemma wp_answer {A} rep (m : RM A) f (k : A → RM unit) (ks : Z → bytes → outcome) s :
  answers m f → on rep s →
  (∀ c s', on rep s' → kept s s' → wp (k (f c)) (settled (ks c (server s'))) s') →
  wp (qbind m k) (settled (on_reply (server s) ks)) s.
Proof.
  intros Hm Hs Hk. apply wp_qbind, Hm; [apply (on_tame _ s Hs)| |].
  - intros a r s' Hn Hkept Hr. unfold on_reply. destruct (next_reply (server s)) as [[c r']|]; [|done].
    injection Hn as <- ->. rewrite <- Hr. apply Hk; [by eapply on_kept|done].
  - intros Hn s' Hg. eapply settled_gone; [done| |done]. destruct Hn as [Hn|Hl].
    + left. unfold on_reply. by destruct (next_reply (server s)) as [[]|].
    + right. by apply (on_lost _ s Hs).
Qed.

Lemma answers_code (m : RM Z) : acts m next_reply → answers m id.
Proof. apply acts_ext. intros s. destruct (next_reply s) as [[]|]; done. Qed.

Lemma answers_map {A} (m : RM Z) (f : Z → A) : answers m id → answers (c ←? m; ok (f c)) f.
Proof.
  intros Hm. eapply (acts_ext _ (λ s, match match next_reply s with Some (c, r) => Some (id c, r) | None => None end with
    Some (c, r) => Some (f c, r) | None => None end)).
  - intros s. by destruct (next_reply s) as [[]|].
  - apply acts_bind; [exact Hm|]. intros c. apply acts_ok.
Qed.

Lemma answers_put {A} d (m : RM A) f : answers m f → answers (put cf d;;? m) f.
Proof. by apply acts_put_then. Qed.

Lemma wp_reply rep (m : RM Z) (k : Z → RM unit) (ks : Z → bytes → outcome) s :
  acts m next_reply → on rep s →
  (∀ c s', on rep s' → kept s s' → wp (k c) (settled (ks c (server s'))) s') →
  wp (qbind m k) (settled (on_reply (server s) ks)) s.
Proof. intros Hm%answers_code. by apply wp_answer. Qed.

Lemma acts_smtpcode : acts (smtpcode cf) next_reply.
Proof. by apply acts_reads, reads_smtpcode. Qed.

(** The first letter of a text, and that it has no zero byte. *)
Definition starts (p : string) (l : Z) : bool :=
  match lit p with
  | c :: t => bool_decide (c = l) && forallb (λ c, negb (bool_decide (c = 0%Z))) t
  | [] => false
  end.

Lemma starts_ok p l : starts p l = true → ∃ t, lit p = l :: t ∧ (0%Z ∉ t).
Proof.
  unfold starts. destruct (lit p) as [|c t]; [done|].
  intros [->%bool_decide_eq_true Ht]%andb_true_iff. exists t. split; [done|].
  intros Hin. rewrite forallb_forall in Ht. specialize (Ht 0%Z ltac:(by apply list_elem_of_In)). done.
Qed.

Lemma no_zero_map (l : bytes) : 0%Z ∉ map (λ c, if decide (c = 0%Z) then 63%Z else c) l.
Proof. intros (c & Hc & _)%list_elem_of_fmap. by case_decide. Qed.

Lemma wp_quit p l more (Q : Z + unit → remote → Prop) s :
  starts p l = true → 0%Z ∉ more → tame s →
  (∀ s' t, report s' = report s ++ l :: t ++ [0%Z] → 0%Z ∉ t →
     sent s' = sent s ++ lit "QUIT" ++ [c_cr; c_lf] → Q (inl 0%Z) s') →
  (true ∈ lost s → ∀ s', gone s s' → Q (inl 0%Z) s') →
  wp (quit_saying cf p more) Q s.
Proof.
  intros (p' & Hp & Hp0)%starts_ok Hmore Ht H1 H2. unfold quit_saying.
  apply wp_qbind, wp_put; [done..| |done].
  intros s1 Hk _ Hsent _. unfold say. rewrite Hp.
  apply wp_qbind, wp_out, wp_qbind, wp_bind, wp_getS, wp_out, wp_qbind, wp_out, wp_qbind, wp_out. simpl.
  assert (Hip : 0%Z ∉ ip_text (partner s1)) by (by rewrite (kept_partner _ _ Hk)).
  unfold outsmtptext. apply wp_qbind, wp_bind, wp_getS. simpl. rewrite (kept_report _ _ Hk).
  assert (Hdot : 0%Z ∉ lit ".
") by (by apply lit_no_zero).
  case_decide.
  - apply wp_ok. unfold zerodie, zero, wp. simpl.
    eapply (H1 _ (p' ++ ip_text (partner s1) ++ more ++ lit ".
")); simpl; [by rewrite <- !(assoc_L app)| |done].
    rewrite !not_elem_of_app. done.
  - unfold zerodie, zero, wp. simpl.
    eapply (H1 _ (p' ++ ip_text (partner s1) ++ more ++ lit ".
" ++ lit "Remote host said: " ++ map (λ c, if decide (c = 0%Z) then 63%Z else c) (smtptext s1)));
      [simpl; by rewrite <- !(assoc_L app)| |simpl; done].
    rewrite !not_elem_of_app. split_and!; try done; first [by apply lit_no_zero|apply no_zero_map].
Qed.

(** The process gives up. *)
Lemma wp_refuse rep p b more s : starts p (if b : bool then 68%Z else 90%Z) = true → 0%Z ∉ more → on rep s →
  wp (quit_saying cf p more) (settled (Rejected b)) s.
Proof.
  intros Hp Hmore Hs. eapply wp_quit; [exact Hp|done|apply (on_tame _ s Hs)| |].
  - intros s' t Hr Ht _. left. split; [done|].
    replace (expected (Rejected b)) with (if b then 68%Z else 90%Z) by (by destruct b).
    eapply says_result; [done|done|exact Hr|apply (on_report _ s Hs)|by destruct b; unfold result_letter; auto|done].
  - intros Hl s' Hg. eapply settled_gone; [done|right; by apply (on_lost _ s Hs)|done].
Qed.

Lemma wp_unless rep p1 m1 p2 m2 c (m : RM unit) o s :
  starts p1 68 = true → starts p2 90 = true → 0%Z ∉ lit m1 → 0%Z ∉ lit m2 → on rep s →
  wp m (settled o) s →
  wp (if decide (500 ≤ c)%Z then quit cf p1 m1 else if decide (400 ≤ c)%Z then quit cf p2 m2 else m)
    (settled (unless_refused c o)) s.
Proof.
  intros. unfold unless_refused. case_decide; [by eapply wp_refuse|]. case_decide; [by eapply wp_refuse|done].
Qed.

(** From DATA on: the transfer, and the verdict on it. *)
Lemma wp_final rep s : on rep s → (∃ pre, sent s = pre ++ wire) →
  wp (code ←? smtpcode cf;
      update (set_flagcritical false);;?
      if decide (500 ≤ code)%Z then quit cf "D" " failed after I sent the message"
      else if decide (400 ≤ code)%Z then quit cf "Z" " failed after I sent the message"
      else quit cf "K" " accepted message - Protocol SMTP")
    (settled (on_reply (server s) (λ c _, unless_refused c Delivered))) s.
Proof.
  intros Hs (pre & Hsent). apply wp_qbind, (reads_smtpcode cf Htol); [apply (on_tame _ s Hs)| |].
  - intros c r s1 Hn (Hk & Hr & Hsent1). unfold on_reply. rewrite Hn.
    apply wp_qbind, wp_update.
    assert (Hs1 : on rep (set_flagcritical false s1)) by (destruct (on_kept _ _ _ Hk Hs); by split).
    eapply wp_unless; [done|done|by apply lit_no_zero..|done|].
    eapply (wp_quit _ 75); [done|by apply lit_no_zero|apply (on_tame _ _ Hs1)| |].
    + intros s' t Hr' Ht Hs'. left. split; [done|]. split.
      * eapply says_result; [done|done|exact Hr'|apply (on_report _ _ Hs1)|by left|done].
      * exists pre. rewrite Hs'. cbn [sent set_flagcritical]. by rewrite Hsent1, Hsent, <- !(assoc_L app).
    + intros Hl s' Hg. eapply settled_gone; [exact Hs1|right; by apply (on_lost _ _ Hs1)|done].
  - intros Hn s' Hg. eapply settled_gone; [done|left; unfold on_reply; by rewrite Hn|done].
Qed.

Lemma wp_blast rep (k : RM unit) o s pre : on rep s → sent s = pre ++ lit "DATA" ++ [c_cr; c_lf] →
  (∀ s', on rep s' → server s' = server s → sent s' = pre ++ wire → wp k (settled o) s') →
  wp (blast cf;;? k)
    (settled match reading_of msgs with Unreadable => Rejected false | Partial => Rejected true | Whole => o end) s.
Proof.
  intros Hs Hsent Hk. apply wp_qbind. unfold blast.
  apply wp_qbind, wp_put; [done|apply (on_tame _ s Hs)| |].
  2: { intros Hl s' Hg. eapply settled_gone; [exact Hs|right; by apply (on_lost _ _ Hs)|done]. }
  intros s1 Hk1 Hsv1 Hsent1 _. pose proof (on_kept _ _ _ Hk1 Hs) as Hs1.
  apply wp_qbind, wp_look, wp_qbind. rewrite (on_message _ _ Hs1).
  unfold reading_of. apply wp_blast_loop; [done|apply (on_tame _ _ Hs1)|..];
    destruct (read_message msgs) as [t good] eqn:Em; cbn [fst snd].
  - intros -> s2 Hk2 Hsv2 Hsent2. pose proof (on_kept _ _ _ Hk2 Hs1) as Hs2. rewrite encode_eom.
    destruct (decide (t = [] ∨ last t = Some c_lf)) as [Ht|Ht].
    + assert ((if decide (t = []) then true else bool_decide (last t = Some c_lf)) = true) as ->.
      { case_decide; [done|]. apply bool_decide_eq_true. tauto. }
      simpl. apply wp_qbind, wp_update.
      assert (Hs3 : on rep (set_flagcritical true s2)) by (destruct Hs2; by split).
      apply wp_put; [done|apply (on_tame _ _ Hs3)| |].
      * intros s3 Hk3 Hsv3 Hsent3 _. apply Hk; [by eapply on_kept|simpl in *; congruence|].
        rewrite Hsent3. simpl. rewrite Hsent2, Hsent1, Hsent. unfold wire. rewrite Em.
        by rewrite <- !(assoc_L app).
      * intros Hl s' Hg. eapply settled_gone; [exact Hs3|right; by apply (on_lost _ _ Hs3)|done].
    + rewrite decide_False by tauto. rewrite bool_decide_false by tauto. simpl.
      left. split; [done|].
      eapply (says_result _ _ Hcrashed Hexit _ _ _ (lit "SMTP cannot transfer messages with partial final lines. (#5.6.2)
")); [|apply (on_report _ _ Hs2)|by right; right|by apply lit_no_zero]. simpl. by rewrite <- (assoc_L app).
  - intros -> s2 u Hr Hu. left. split; [done|].
    eapply says_result; [done|done|exact Hr|apply (on_report _ _ Hs1)|by right; left|done].
  - intros Hl s2 Hg. eapply settled_gone; [exact Hs1|right; by apply (on_lost _ _ Hs1)|done].
Qed.

(** ** The recipient *)

Lemma outsafe_no_zero (l : bytes) :
  0%Z ∉ map safe_char l.
Proof. intros (c & Hc & _)%list_elem_of_fmap. unfold safe_char in Hc. case_decide as Hd; [done|]. subst c. apply Hd. by left. Qed.

(** With a recipient that was refused the report is settled, whatever follows. *)
Lemma wp_giving_up b u s : tame s → report s = (if b : bool then 104%Z else 115%Z) :: u →
  wp (quit cf "DGiving up on " "") (settled (Rejected b)) s.
Proof.
  intros Ht Hr.
  assert (Hsay : ∀ s' t, report s' = report s ++ t → settled (Rejected b) (inl 0%Z) s').
  { intros s' t Hr'. left. split; [done|]. rewrite Hr in Hr'. destruct b; simpl;
      [by apply (says_refused _ _ Hcrashed Hexit s' (u ++ t) true)
      |by apply (says_refused _ _ Hcrashed Hexit s' (u ++ t) false)]. }
  eapply (wp_quit _ 68%Z); [done|by apply lit_no_zero|done| |].
  - intros s' t Hr' _ _. by eapply Hsay.
  - intros _ s' (t & Hr' & _). by eapply Hsay.
Qed.

(** The text on a recipient that is not liked. *)
Lemma wp_not_liked (Q : Z + Z * bool → remote → Prop) p l r c s :
  lit p = [l] → report s = [] →
  (∀ s' u, partner s' = partner s → report s' = l :: u → Q (inr (c, false)) s') →
  wp (say p;;?
      say "From: <";;? outsafe (smtp_sender cf);;?
      say "> RCPT: <";;? outsafe r;;? say "> ";;? outhost;;?
      say " does not like recipient.
";;?
      outsmtptext;;? zero;;? rcpt_loop cf [] c false) Q s.
Proof.
  intros Hp Hs HQ. unfold say, outsafe. rewrite Hp.
  do 6 (apply wp_qbind, wp_out). apply wp_qbind, wp_bind, wp_getS, wp_out, wp_qbind, wp_out.
  apply wp_qbind. unfold outsmtptext. apply wp_bind, wp_getS.
  match goal with |- wp _ _ ?x => set (s1 := x) end.
  assert (Hr1 : ∃ u, report s1 = l :: u) by (eexists; unfold s1; simpl; rewrite Hs; reflexivity).
  assert (Hp1 : partner s1 = partner s) by done. clearbody s1. destruct Hr1 as [u Hr1].
  case_decide.
  - apply wp_ok, wp_qbind, wp_out, wp_ok. eapply HQ; [exact Hp1|]. simpl. by rewrite Hr1.
  - apply wp_qbind, wp_out, wp_qbind, wp_out, wp_update, wp_qbind, wp_out, wp_ok.
    eapply HQ; [exact Hp1|]. simpl. by rewrite Hr1.
Qed.

Lemma wp_rcpt r c0 (k : RM unit) (ks : bytes → outcome) s : on [] s →
  (∀ rep s', on rep s' → wp k (settled (ks (server s'))) s') →
  wp (c ←? rcpt_loop cf [r] c0 false; if negb (snd c) then quit cf "DGiving up on " "" else k)
    (settled (on_reply (server s) (λ c s, unless_refused c (ks s)))) s.
Proof.
  intros Hs Hk.
  assert (Hlost : ∀ s1, on [] s1 → ∀ o s', true ∈ lost s1 → gone s1 s' → settled o (inl 0%Z) s').
  { intros s1 Hs1 o s' Hl Hg. eapply settled_gone; [exact Hs1|right; by apply (on_lost _ _ Hs1)|done]. }
  apply wp_qbind. cbn [rcpt_loop].
  apply wp_qbind, wp_put; [done|apply (on_tame _ _ Hs)| |by eauto].
  intros s1 Hk1 Hv1 _ _. pose proof (on_kept _ _ _ Hk1 Hs) as Hs1.
  apply wp_qbind, wp_put; [done|apply (on_tame _ _ Hs1)| |by eauto].
  intros s2 Hk2 Hv2 _ _. pose proof (on_kept _ _ _ Hk2 Hs1) as Hs2.
  apply wp_qbind, wp_put; [done|apply (on_tame _ _ Hs2)| |by eauto].
  intros s3 Hk3 Hv3 _ _. pose proof (on_kept _ _ _ Hk3 Hs2) as Hs3.
  rewrite <- Hv1, <- Hv2, <- Hv3. unfold on_reply.
  apply wp_qbind, acts_smtpcode; [apply (on_tame _ _ Hs3)| |].
  2: { intros [Hn|Hl] s' Hg; [|by eauto]. rewrite Hn. eapply settled_gone; [exact Hs3|by left|done]. }
  intros c rest s4 Hn Hk4 Hv4. rewrite Hn. rewrite <- Hv4. pose proof (on_kept _ _ _ Hk4 Hs3) as Hs4.
  unfold unless_refused. case_decide as H4.
  - assert (Hgive : ∀ b p, lit p = [if b : bool then 104%Z else 115%Z] →
      wp _ (λ r s', match r with
                    | inl e => settled (Rejected b) (inl e) s'
                    | inr c => wp (if negb (snd c) then quit cf "DGiving up on " "" else k) (settled (Rejected b)) s'
                    end) s4) by (intros b p Hp; eapply wp_not_liked; [exact Hp|apply (on_rep _ _ Hs4)|];
                      intros s' u Hp' Hr'; eapply wp_giving_up; [|exact Hr']; unfold tame; rewrite Hp'; apply (on_tame _ _ Hs4)).
    destruct (decide (500 ≤ c)%Z); [by apply (Hgive true)|]. by apply (Hgive false).
  - rewrite decide_False by lia. unfold say, outsafe.
    do 6 (apply wp_qbind, wp_out). apply wp_ok. cbn [snd negb].
    match goal with |- wp k _ ?x => change (server s4) with (server x) end. eapply Hk. split; simpl; [reflexivity|exact (on_tame _ _ Hs4)| |
      exact (on_message _ _ Hs4)|exact (on_lost _ _ Hs4)].
    rewrite (on_rep _ _ Hs4). right.
    exists (lit "From: <" ++ map safe_char (smtp_sender cf) ++ lit "> RCPT: <" ++ map safe_char r ++ lit "> ").
    split; [rewrite <- !(assoc_L app); reflexivity|].
    rewrite !not_elem_of_app. split_and!; first [by apply lit_no_zero|apply outsafe_no_zero].
Qed.

(** ** The dialogue *)

Context (beyond : bytes → bytes) (case_equal : bytes → bytes → bool).
Context (Hhelo : 0%Z ∉ helohost cf) (Hproto : protocol_t cf ≠ 113%Z) (r : bytes) (Hr : smtp_reciplist cf = [r]).

#[local] Abbreviation after_rcpt := (after_rcpt (reading_of msgs)).
#[local] Abbreviation after_helo := (after_helo (try_next_mx cf) (reading_of msgs)).

Lemma wp_after_rcpt s rep : on rep s →
  wp (put cf (lit "DATA" ++ [c_cr; c_lf]);;?
      code ←? smtpcode cf;
      if decide (500 ≤ code)%Z then quit cf "D" " failed on DATA command"
      else if decide (400 ≤ code)%Z then quit cf "Z" " failed on DATA command"
      else
        blast cf;;?
        code ←? smtpcode cf;
        update (set_flagcritical false);;?
        if decide (500 ≤ code)%Z then quit cf "D" " failed after I sent the message"
        else if decide (400 ≤ code)%Z then quit cf "Z" " failed after I sent the message"
        else quit cf "K" " accepted message - Protocol SMTP")
    (settled (after_rcpt (server s))) s.
Proof.
  intros Hs. apply wp_qbind, wp_put; [done|apply (on_tame _ _ Hs)| |].
  2: { intros Hl s' Hg. eapply settled_gone; [exact Hs|right; by apply (on_lost _ _ Hs)|done]. }
  intros s1 Hk1 Hv1 Hsent1 _. pose proof (on_kept _ _ _ Hk1 Hs) as Hs1. rewrite <- Hv1.
  unfold RemoteSpec.after_rcpt, on_reply at 1.
  apply wp_qbind, (reads_smtpcode cf Htol); [apply (on_tame _ _ Hs1)| |].
  - intros c rest s2 Hn (Hk2 & Hv2 & Hsent2). rewrite Hn. pose proof (on_kept _ _ _ Hk2 Hs1) as Hs2.
    eapply wp_unless; [done|done|by apply lit_no_zero..|exact Hs2|].
    eapply (wp_blast rep _ _ _ (sent s)); [exact Hs2|congruence|].
    intros s3 Hs3 Hv3 Hsent3.
    replace rest with (server s3) by congruence. eapply wp_final; [exact Hs3|by eexists].
  - intros Hn s' Hg. rewrite Hn. eapply settled_gone; [exact Hs1|by left|done].
Qed.

(** From the reply to EHLO or HELO on. *)
Definition transaction (is_esmtp : bool) : RM unit :=
  text ←? look smtptext;
  let buf := text ++ beyond text in
  mailfrom cf (is_esmtp && offers_size case_equal (S (length buf)) buf 0 false);;?
  code ←? smtpcode cf;
  if decide (500 ≤ code)%Z then quit cf "DConnected to " " but sender was rejected"
  else if decide (400 ≤ code)%Z then quit cf "ZConnected to " " but sender was rejected"
  else
    c ←? rcpt_loop cf (smtp_reciplist cf) code false;
    if negb (snd c) then quit cf "DGiving up on " ""
    else
      put cf (lit "DATA" ++ [c_cr; c_lf]);;?
      code ←? smtpcode cf;
      if decide (500 ≤ code)%Z then quit cf "D" " failed on DATA command"
      else if decide (400 ≤ code)%Z then quit cf "Z" " failed on DATA command"
      else
        blast cf;;?
        code ←? smtpcode cf;
        update (set_flagcritical false);;?
        if decide (500 ≤ code)%Z then quit cf "D" " failed after I sent the message"
        else if decide (400 ≤ code)%Z then quit cf "Z" " failed after I sent the message"
        else quit cf "K" " accepted message - Protocol SMTP".

Lemma wp_transaction b s : on [] s →
  wp (transaction b)
    (settled (on_reply (server s) (λ c s, unless_refused c
       (on_reply s (λ c s, unless_refused c (after_rcpt s)))))) s.
Proof.
  intros Hs. unfold transaction. apply wp_qbind, wp_look. cbv zeta.
  eapply wp_write; [by apply (acts_mailfrom cf Htol)|exact Hs|]. intros s1 Hs1 _ <-.
  eapply (wp_reply []); [by apply acts_smtpcode|exact Hs1|]. intros c s2 Hs2 _.
  eapply wp_unless; [done|done|by apply lit_no_zero..|exact Hs2|]. rewrite Hr.
  apply wp_rcpt; [exact Hs2|]. intros rep s3 Hs3. by eapply wp_after_rcpt.
Qed.

Definition identified (code : Z) (is_esmtp : bool) : RM unit :=
  if try_next_mx cf && bool_decide (400 ≤ code < 500)%Z then ok tt
  else if decide (code ≠ 250%Z) then
    quit_saying cf (if decide (500 ≤ code)%Z then "DConnected to " else "ZConnected to ")
      (lit " but my name -->" ++ helohost cf ++ lit "<-- was rejected :(")
  else transaction is_esmtp.

Lemma wp_identified c b s : on [] s → wp (identified c b) (settled (after_helo c (server s))) s.
Proof.
  intros Hs. unfold identified, RemoteSpec.after_helo.
  destruct (try_next_mx cf && _); [apply wp_ok; by left|].
  destruct (decide (c ≠ 250%Z)); [|by apply wp_transaction].
  eapply wp_refuse; [| |exact Hs].
  - destruct (decide (500 ≤ c)%Z); [by rewrite bool_decide_true|by rewrite bool_decide_false].
  - rewrite !not_elem_of_app. split_and!; try done; by apply lit_no_zero.
Qed.

#[local] Abbreviation after_ehlo := (after_ehlo (try_next_mx cf) (reading_of msgs)).

Definition greeted (code : Z) : RM unit :=
  c ←? (if decide (500 ≤ code)%Z then
          put cf (lit "HELO ");;? put cf (helohost cf);;? put cf [c_cr; c_lf];;?
          c ←? smtpcode cf; ok (c, false)
        else ok (code, true));
  let '(code, is_esmtp) := c in identified code is_esmtp.

Lemma wp_greeted c s : on [] s → wp (greeted c) (settled (after_ehlo c (server s))) s.
Proof.
  intros Hs. unfold greeted, RemoteSpec.after_ehlo. destruct (decide (500 ≤ c)%Z).
  - eapply (wp_answer _ _ (λ c, (c, false))); [|exact Hs|intros; by apply wp_identified].
    do 3 apply answers_put. by apply answers_map, answers_code, acts_smtpcode.
  - apply wp_qbind, wp_ok. by apply wp_identified.
Qed.

Definition secured (code : Z) (nt : Z) (dt : list Z) : RM unit :=
  r ←? (if decide (nt ≠ 0%Z) then c ←? ehlo cf beyond; ok (Some c)
        else
          update (set_do_tls (tail dt));;?
          match default 0%Z (head dt) with
          | 1%Z => c ←? ehlo cf beyond; ok (Some c)
          | 2%Z => update (set_notls 2%Z);;? ok None
          | _ => ok (Some code)
          end);
  match r with None => ok tt | Some code => greeted code end.

Lemma wp_secured c nt dt s : on [] s →
  wp (secured c nt dt)
    (settled (after_tls nt (default 0%Z (head dt)) (try_next_mx cf) (reading_of msgs) c (server s))) s.
Proof.
  intros Hs. unfold secured, after_tls.
  assert (Hehlo : answers (c ←? ehlo cf beyond; ok (Some c)) Some) by (by apply answers_map, answers_code, acts_ehlo).
  destruct (decide (nt ≠ 0%Z)) as [Hn|Hn].
  { rewrite decide_True by tauto.
    eapply (wp_answer _ _ Some); [done|exact Hs|intros; by apply wp_greeted]. }
  apply wp_qbind_assoc, wp_qbind, wp_update.
  assert (Hs' : on [] (set_do_tls (tail dt) s)) by (by destruct Hs).
  change (server s) with (server (set_do_tls (tail dt) s)).
  destruct (decide (default 0%Z (head dt) = 1%Z)) as [->|H1].
  { rewrite decide_True by tauto. eapply (wp_answer _ _ Some); [done|exact Hs'|intros; by apply wp_greeted]. }
  rewrite decide_False by tauto. destruct (decide (default 0%Z (head dt) = 2%Z)) as [->|H2].
  { apply wp_qbind_assoc, wp_qbind, wp_update, wp_qbind, wp_ok, wp_ok. by left. }
  assert (∀ z (a b c : RM (option Z)), z ≠ 1%Z → z ≠ 2%Z →
    match z with 1%Z => a | 2%Z => b | _ => c end = c) as ->.
  { intros [|[p|[p|p|]|]|p]; done. }
  all: try done. by apply wp_qbind, wp_ok, wp_greeted.
Qed.

#[local] Abbreviation tls_of s :=
  (bool_decide (protocol_t cf = 83%Z ∨ protocol_t cf ≠ 113%Z ∧ port s = 465%Z) || smtps s).

(** From the greeting on. *)
Definition answered (tls : bool) (code : Z) : RM unit :=
  update (set_inside_greeting false);;?
  if decide (500 ≤ code < 600)%Z then quit cf "DConnected to " " but greeting failed"
  else if decide (400 ≤ code < 500)%Z then ok tt
  else if decide (code ≠ 220%Z) then quit cf "ZConnected to " " but greeting failed"
  else
    code ←? (if tls then ok code else ehlo cf beyond);
    s ← getS;
    secured code (notls s) (do_tls s).

Lemma wp_answered tls c nt dt s : on [] s → notls s = nt → do_tls s = dt →
  wp (answered tls c)
    (settled (after_greeting tls nt (default 0%Z (head dt)) (try_next_mx cf) (reading_of msgs) c (server s))) s.
Proof.
  intros Hs Hn Hd. unfold answered, after_greeting. apply wp_qbind, wp_update.
  assert (Hs1 : on [] (set_inside_greeting false s)) by (by destruct Hs).
  change (server s) with (server (set_inside_greeting false s)).
  change (notls s) with (notls (set_inside_greeting false s)) in Hn.
  change (do_tls s) with (do_tls (set_inside_greeting false s)) in Hd.
  revert Hs1 Hn Hd. generalize (set_inside_greeting false s). clear Hs s. intros s Hs Hn Hd.
  destruct (decide (500 ≤ c < 600)%Z); [by eapply wp_refuse; [|apply lit_no_zero|]|].
  destruct (decide (400 ≤ c < 500)%Z); [apply wp_ok; by left|].
  destruct (decide (c ≠ 220%Z)) as [|Hc]; [by eapply wp_refuse; [|apply lit_no_zero|]|].
  assert (c = 220%Z) as -> by lia. destruct tls.
  - apply wp_qbind, wp_ok, wp_bind, wp_getS. rewrite Hn, Hd. by apply wp_secured.
  - eapply wp_reply; [by apply (acts_ehlo cf Htol)|exact Hs|]. intros e s1 Hs1 Hk.
    apply wp_bind, wp_getS. rewrite (kept_notls _ _ Hk), (kept_do_tls _ _ Hk), Hn, Hd. by apply wp_secured.
Qed.

Lemma wp_do_smtp s : on [] s →
  wp (do_smtp cf case_equal beyond)
    (settled (session (tls_of s) (notls s) (default 0%Z (head (do_tls s))) (try_next_mx cf)
                (reading_of msgs) (server s))) s.
Proof.
  intros Hs.
  assert (Hrest : ∀ s1, on [] s1 → server s1 = server s → notls s1 = notls s → do_tls s1 = do_tls s →
    smtps s1 = tls_of s →
    wp (tls ←? look smtps; code ←? (if tls : bool then ok 220%Z else smtpcode cf); answered tls code)
      (settled (session (tls_of s) (notls s) (default 0%Z (head (do_tls s))) (try_next_mx cf)
                  (reading_of msgs) (server s))) s1).
  { intros s1 Hs1 <- <- <- <-. apply wp_qbind, wp_look. unfold session. destruct (smtps s1).
    - apply wp_qbind, wp_ok. by apply wp_answered.
    - eapply wp_reply; [by apply acts_smtpcode|exact Hs1|]. intros c s2 Hs2 Hk.
      apply wp_answered; [exact Hs2|apply Hk|apply Hk]. }
  unfold do_smtp. apply wp_qbind, wp_update, wp_bind, wp_getS, wp_qbind.
  change (port (set_inside_greeting true s)) with (port s).
  destruct (decide (protocol_t cf = 83%Z ∨ protocol_t cf ≠ 113%Z ∧ port s = 465%Z)) as [Hd|Hd];
    [apply wp_update|apply wp_ok]; apply Hrest; try done; try (by destruct Hs).
  - by rewrite bool_decide_true.
  - by rewrite bool_decide_false.
Qed.
End session.

(** ** The claim *)

Section reported.
Context {L : LibQmail} {LL : LibQmailLaws L} (cf : remote_conf) (beyond : bytes → bytes).
Context (case_equal : bytes → bytes → bool) (wait_crashed : Z → bool) (wait_exitcode : Z → Z).

(** C26: what qmail-remote reports of a recipient is what the session came to.
    Whatever the server sends, wherever the connection breaks and however the
    message is cut into chunks, qmail-remote either goes on to the next exchanger
    where the specification does, or it ends with 0 and qmail-rspawn makes of its
    report the letter of the specification: K only if every reply up to that on the
    message was in order and all of the message was sent, D only if a reply refused
    for good or the message has a partial last line.  The only other case is that a
    write failed, and then the letter is Z: a connection that breaks never bounces
    a message. *)
Theorem session_reported r s :
  ulong (max_tolerance cf) → 0%Z ∉ helohost cf → protocol_t cf ≠ 113%Z → smtp_reciplist cf = [r] →
  wait_crashed 0 = false → wait_exitcode 0 = 0%Z →
  report s = [] → 0%Z ∉ ip_text (partner s) →
  let o := session (bool_decide (protocol_t cf = 83 ∨ protocol_t cf ≠ 113 ∧ port s = 465)%Z || smtps s)
             (notls s) (default 0%Z (head (do_tls s))) (try_next_mx cf) (reading_of (message s)) (server s) in
  let '(res, s') := do_smtp cf case_equal beyond s in
  match o with
  | NextHost => res = inr tt
  | _ => res = inl 0%Z ∧ letter_of wait_crashed wait_exitcode (report s') = Some (expected o) ∧
         (o = Delivered → ∃ pre, sent s' = pre ++ wire cf (message s) ++ lit "QUIT" ++ [c_cr; c_lf])
  end ∨ (true ∈ lost s ∧ res = inl 0%Z ∧ letter_of wait_crashed wait_exitcode (report s') = Some 90%Z).
Proof.
  intros Htol Hhelo Hp Hr Hc He Hrep Hip o.
  assert (Hs : on (message s) (true ∈ lost s) [] s) by (split; try done; left; done).
  pose proof (wp_do_smtp cf Htol _ _ Hc He _ _ beyond case_equal Hhelo Hp r Hr s Hs) as H.
  fold o in H. unfold wp in H. destruct (do_smtp cf case_equal beyond s) as [res s']. cbn [fst snd] in H.
  destruct H as [H|H]; [left|by right]. destruct o; destruct_and_all; naive_solver.
Qed.
End reported.
