(* ===== verification/SmtpdHeaders.v ===== *)
(** * Counting header fields

    What the counters of [blast] come to over the lines of a message: for the limit
    on hops it counts the header lines that start with Received or Delivered, in
    upper or lower case. *)

From S2P Require Import Prelude LibQmail Smtpd.

#[local] Arguments lit : simpl never.

Definition lower (c : Z) : Z := if decide (65 ≤ c ≤ 90)%Z then (c + 32)%Z else c.

(** ** The specification *)

(** A line as it is sent, without its end. *)
Definition stuff (l : bytes) : bytes := if decide (head l = Some c_dot) then c_dot :: l else l.

Definition traced (l : bytes) : bool :=
  bool_decide (map lower (take 8 l) = lit "received") ||
  bool_decide (map lower (take 9 l) = lit "delivered").

(** The tail of Return-Receipt, wherever the head is. *)
Definition receipt (l : bytes) : bool := bool_decide (map lower (take 5 (drop 9 l)) = lit "ceipt").

Fixpoint header_lines (ls : list bytes) : list bytes :=
  match ls with
  | [] => []
  | l :: ls => if decide (l = []) then [] else l :: header_lines ls
  end.

Definition hops_of (ls : list bytes) : Z := Z.of_nat (length (filter traced (header_lines ls))).
Definition dsn_of (ls : list bytes) : bool := existsb (λ l, receipt (stuff l)) (header_lines ls).

(** ** Agreement with a word, place by place *)

Definition letters (word : string) : bool :=
  forallb (λ c, bool_decide (97 ≤ c ≤ 122 ∨ c = 45)%Z) (lit word).

Lemma unlike_lower word i c : letters word = true →
  unlike word i c = false ↔ lit word !! i = Some (lower c).
Proof.
  intros Hw. unfold unlike. rewrite andb_false_iff, !negb_false_iff, !bool_decide_eq_true, list_lookup_fmap.
  destruct (lit word !! i) as [d|] eqn:E; simpl; [|by split; [intros [?|?]|]].
  assert (Hd : (97 ≤ d ≤ 122 ∨ d = 45)%Z).
  { unfold letters in Hw. rewrite forallb_forall in Hw.
    eapply bool_decide_eq_true_1, Hw, list_elem_of_In, list_elem_of_lookup_2, E. }
  unfold lower. repeat case_decide; split; intros H'; try (destruct H' as [H'|H']); injection H' as H';
    first [f_equal; lia|left; f_equal; lia|right; f_equal; lia|exfalso; lia].
Qed.

Definition agree (bad : nat → Z → bool) (lo hi : nat) (p : bytes) : bool :=
  forallb id (imap (λ i c, negb (bool_decide (lo ≤ i < hi) && bad i c)) p).

Lemma agree_snoc bad lo hi p c :
  agree bad lo hi (p ++ [c]) =
  agree bad lo hi p && negb (bool_decide (lo ≤ length p < hi) && bad (length p) c).
Proof. unfold agree. rewrite imap_app, forallb_app. simpl. by rewrite Nat.add_0_r, andb_true_r. Qed.

Lemma agree_spec bad lo hi p :
  agree bad lo hi p = true ↔ ∀ i c, p !! i = Some c → lo ≤ i < hi → bad i c = false.
Proof.
  induction p as [|c p IH] using rev_ind; [done|].
  rewrite agree_snoc, andb_true_iff, IH, negb_true_iff, andb_false_iff, bool_decide_eq_false. split.
  - intros [H1 H2] i d [[_ Hi]|[-> ->]]%lookup_snoc_Some Hr; [by eapply H1|naive_solver].
  - intros H. split; [intros i d Hi; apply H; by apply lookup_app_l_Some|].
    destruct (decide (lo ≤ length p < hi)); [right|by left]. apply H; [|done]. by rewrite lookup_app_r, Nat.sub_diag.
Qed.

(** A line that agrees with a word from some place to its end. *)
Lemma agree_word word lo p : letters word = true → lo < length (lit word) →
  agree (unlike word) lo (length (lit word)) p && bool_decide (length (lit word) ≤ length p) =
  bool_decide (map lower (take (length (lit word) - lo) (drop lo p)) = drop lo (lit word)).
Proof.
  intros Hw Hlo. apply eq_true_iff_eq. rewrite andb_true_iff, agree_spec, !bool_decide_eq_true. split.
  - intros [H Hl]. apply list_eq. intros i. rewrite list_lookup_fmap, lookup_drop.
    destruct (decide (lo + i < length (lit word))) as [Hi|Hi].
    + rewrite lookup_take_lt, lookup_drop by lia.
      destruct (lookup_lt_is_Some_2 p (lo + i)) as [c Hc]; [lia|]. rewrite Hc. symmetry.
      eapply unlike_lower, H; [done|done|lia].
    + rewrite lookup_take_ge by lia. symmetry. apply lookup_ge_None_2. lia.
  - intros H. assert (Hlen := f_equal length H). rewrite length_map, length_take, !length_drop in Hlen.
    split; [|lia]. intros i c Hc Hi. apply unlike_lower; [done|].
    apply (f_equal (lookup (i - lo))) in H.
    rewrite list_lookup_fmap, lookup_take_lt, !lookup_drop in H by lia.
    replace (lo + (i - lo)) with i in H by lia. rewrite Hc in H. by rewrite <- H.
Qed.

(** ** The counters in a line *)

Definition blank (i : nat) (c : Z) : bool := negb (bool_decide (crlf !! i = Some c)).
Definition is_receipt (p : bytes) : bool :=
  agree (unlike "return-receipt") 9 14 p && bool_decide (14 ≤ length p).
Definition is_delivered (p : bytes) : bool :=
  agree (unlike "delivered") 0 9 p && bool_decide (9 ≤ length p).
Definition is_received (p : bytes) : bool :=
  agree (unlike "received") 0 8 p && bool_decide (8 ≤ length p).

(** Behind the bytes [p] of a line of the header. *)
Definition in_line (n : Z) (d : bool) (p : bytes) : hdr :=
  Hdr (length p `min` 14) true (agree (unlike "return-receipt") 9 14 p)
    (agree (unlike "received") 0 8 p) (agree blank 0 2 p) (agree (unlike "delivered") 0 9 p)
    (n + Z.b2z (is_delivered p) + Z.b2z (is_received p)) (d || is_receipt p).

Lemma in_line_start n d : in_line n d [] = Hdr 0 true true true true true n d.
Proof. unfold in_line. simpl. rewrite orb_false_r. f_equal. lia. Qed.

Ltac places :=
  repeat ((case_bool_decide || case_decide); try lia);
  repeat match goal with b : bool |- context [?b'] => constr_eq b b'; destruct b end;
  simpl; first [done|lia].

Lemma header_char_line n d p c :
  header_char (in_line n d p) c =
  let q := p ++ [c] in
  let fih := negb (agree blank 0 2 q && bool_decide (length p = 1)) in
  if decide (c = c_lf) then
    Hdr 0 fih true true true true (hops (in_line n d q)) (h_dsn (in_line n d q))
  else Hdr (pos (in_line n d q)) fih (maybew (in_line n d q)) (maybex (in_line n d q))
         (maybey (in_line n d q)) (maybez (in_line n d q)) (hops (in_line n d q)) (h_dsn (in_line n d q)).
Proof.
  unfold header_char, in_line, is_receipt, is_delivered, is_received.
  cbn [flaginheader pos maybew maybex maybey maybez hops h_dsn negb].
  cbv zeta. rewrite !agree_snoc, !length_app. cbn [length].
  set (k := length p). change (negb (bool_decide (crlf !! (k `min` 14) = Some c))) with (blank (k `min` 14) c).
  generalize (agree (unlike "return-receipt") 9 14 p) (agree (unlike "received") 0 8 p)
    (agree (unlike "delivered") 0 9 p) (agree blank 0 2 p). clearbody k. intros w x z y.
  destruct (decide (k < 14)).
  - rewrite Nat.min_l by lia.
    generalize (unlike "return-receipt" k c) (unlike "received" k c) (unlike "delivered" k c) (blank k c).
    intros uw ux uz uy.
    rewrite (bool_decide_ext (8 < k < 14) (9 ≤ k < 14)), (bool_decide_ext (k < 9) (0 ≤ k < 9)),
      (bool_decide_ext (k < 8) (0 ≤ k < 8)), (bool_decide_ext (k < 2) (0 ≤ k < 2)) by lia.
    destruct (decide (c = c_lf)); f_equal; places.
  - rewrite Nat.min_r by lia. destruct (decide (c = c_lf)); f_equal; places.
Qed.

(** A line of the header leaves the counters at the start of the next one. *)
Lemma header_chars n d p q : c_lf ∉ q →
  (∀ r, p ++ q ≠ crlf ++ r) →
  foldl header_char (in_line n d p) q = in_line n d (p ++ q).
Proof.
  revert p. induction q as [|c q IH]; intros p Hlf Hne; simpl; [by rewrite app_nil_r|].
  apply not_elem_of_cons in Hlf as [Hc Hlf].
  rewrite header_char_line. cbv zeta. rewrite decide_False by done.
  assert (agree blank 0 2 (p ++ [c]) && bool_decide (length p = 1) = false) as ->.
  { apply not_true_iff_false. rewrite andb_true_iff, agree_spec, bool_decide_eq_true.
    intros [H Hp]. specialize (H 1 c). rewrite lookup_app_r, Hp in H by lia.
    specialize (H eq_refl ltac:(lia)). unfold blank in H.
    apply negb_false_iff, bool_decide_eq_true in H. injection H as H. by subst. }
  change (Hdr _ _ _ _ _ _ _ _) with (in_line n d (p ++ [c])).
  rewrite (IH (p ++ [c])); [by rewrite <- (assoc_L app)|done|].
  intros r. rewrite <- (assoc_L app). apply Hne.
Qed.

Lemma header_line n d q : c_lf ∉ q →
  foldl header_char (Hdr 0 true true true true true n d) (q ++ [c_lf]) =
  Hdr 0 (negb (bool_decide (q = [c_cr]))) true true true true
    (hops (in_line n d (q ++ [c_lf]))) (h_dsn (in_line n d (q ++ [c_lf]))).
Proof.
  intros Hlf. rewrite foldl_app, <- in_line_start. rewrite (header_chars n d [] q).
  2: done.
  2: { intros r Hr. simpl in Hr. subst q. set_solver. }
  simpl. rewrite header_char_line. cbv zeta. rewrite decide_True by done. f_equal. f_equal.
  apply eq_true_iff_eq. rewrite andb_true_iff, agree_spec, !bool_decide_eq_true. split.
  - intros [H Hq]. destruct q as [|c [|]]; try done. specialize (H 0 c eq_refl ltac:(lia)).
    apply negb_false_iff, bool_decide_eq_true in H. by injection H as ->.
  - intros ->. split; [|done]. intros [|[|i]] c; simpl; [..|done]; intros [= <-] _; by vm_compute.
Qed.

Lemma header_over p0 f1 f2 f3 f4 n d q :
  foldl header_char (Hdr p0 false f1 f2 f3 f4 n d) q = Hdr p0 false f1 f2 f3 f4 n d.
Proof. induction q as [|c q IH]; [done|]. exact IH. Qed.

(** ** The lines of a message *)

Lemma word_in_line u k x : length u = k → c_cr ∉ u →
  bool_decide (map lower (take k (x ++ crlf)) = u) = bool_decide (map lower (take k x) = u).
Proof.
  intros Hu Hcr. destruct (decide (k ≤ length x)); [by rewrite take_app_le|].
  rewrite !bool_decide_false; [done|..].
  - intros H%(f_equal length). rewrite length_map, length_take in H. lia.
  - intros <-. apply Hcr. apply list_elem_of_In, in_map_iff. exists c_cr. split; [done|].
    apply list_elem_of_In. rewrite take_app_ge by lia.
    apply elem_of_app. right. destruct (k - length x) eqn:E; [lia|]. by left.
Qed.

Lemma letters_of word c : letters word = true → c ∈ lit word → (97 ≤ c ≤ 122 ∨ c = 45)%Z.
Proof.
  unfold letters. rewrite forallb_forall. intros H Hc. by eapply bool_decide_eq_true_1, H, list_elem_of_In.
Qed.

(** A line starts with a word on the wire as it does in the message. *)
Lemma word_of_line word k l : letters word = true → length (lit word) = k → 0 < k →
  agree (unlike word) 0 k (stuff l ++ crlf) && bool_decide (k ≤ length (stuff l ++ crlf)) =
  bool_decide (map lower (take k l) = lit word).
Proof.
  intros Hw Hk H0. pose proof (agree_word word 0 (stuff l ++ crlf) Hw ltac:(lia)) as E.
  rewrite Hk, Nat.sub_0_r, !drop_0 in E. rewrite E, word_in_line; [|done|].
  2: { intros H%letters_of; [lia|done]. }
  clear E. unfold stuff. destruct (decide (head l = Some c_dot)) as [H|]; [|done].
  destruct l as [|c l]; [done|]. injection H as ->.
  destruct k as [|k]; [lia|]. cbn [take map].
  rewrite !bool_decide_false; [done|..]; intros H; pose proof (letters_of word c_dot Hw) as Hd;
    rewrite <- H in Hd; specialize (Hd (list_elem_of_here _ _)); lia.
Qed.

Lemma receipt_of_line l : is_receipt (stuff l ++ crlf) = receipt (stuff l).
Proof.
  pose proof (agree_word "return-receipt" 9 (stuff l ++ crlf) eq_refl ltac:(vm_compute; lia)) as E.
  change (length (lit "return-receipt")) with 14 in E. unfold is_receipt. rewrite E.
  change (drop 9 (lit "return-receipt")) with (lit "ceipt"). unfold receipt. simpl (14 - 9).
  destruct (decide (9 ≤ length (stuff l))).
  - rewrite drop_app_le by done. apply word_in_line; [done|].
    intros H%(letters_of "ceipt"); [lia|done].
  - rewrite !bool_decide_false; [done|..]; intros H%(f_equal length);
      rewrite length_map, length_take, length_drop in H; [|rewrite length_app in H];
      change (length (lit "ceipt")) with 5 in H; change (length crlf) with 2 in H; lia.
Qed.

Lemma counted l n d :
  hops (in_line n d (stuff l ++ crlf)) = (n + Z.b2z (traced l))%Z ∧
  h_dsn (in_line n d (stuff l ++ crlf)) = d || receipt (stuff l).
Proof.
  cbn [in_line hops h_dsn]. rewrite receipt_of_line. split; [|done].
  unfold is_delivered, is_received, traced.
  rewrite (word_of_line "delivered" 9), (word_of_line "received" 8) by (done || lia).
  destruct (decide (map lower (take 8 l) = lit "received")) as [Hr|Hr];
    [rewrite (bool_decide_true _ Hr)|rewrite (bool_decide_false _ Hr); simpl; lia].
  rewrite bool_decide_false; [simpl; lia|]. intros Hd%(f_equal head).
  apply (f_equal head) in Hr. destruct l as [|c l]; [done|]. simpl in Hr, Hd. rewrite Hr in Hd. done.
Qed.

(** The message as it is sent. *)
Definition wire_lines (ls : list bytes) : bytes := mjoin (map (λ l, stuff l ++ crlf) ls).

Lemma count_lines ls n d : Forall (λ l, c_lf ∉ l) ls → ∃ b,
  foldl header_char (Hdr 0 true true true true true n d) (wire_lines ls) =
  Hdr 0 b true true true true (n + hops_of ls) (d || dsn_of ls).
Proof.
  unfold wire_lines, hops_of, dsn_of. intros Hls. revert n d.
  induction Hls as [|l ls Hl Hls IH]; intros n d.
  { exists true. simpl. rewrite orb_false_r. f_equal. lia. }
  change (mjoin (map _ (l :: ls))) with ((stuff l ++ [c_cr] ++ [c_lf]) ++ mjoin (map (λ l, stuff l ++ crlf) ls)).
  rewrite foldl_app. rewrite (assoc_L app), header_line.
  2: { unfold stuff. case_decide; set_solver. }
  rewrite <- (assoc_L app). change ([c_cr] ++ [c_lf]) with crlf.
  destruct (counted l n d) as [-> ->].
  destruct (decide (l = [])) as [->|Hne].
  - exists false. change (stuff [] ++ [c_cr]) with [c_cr]. rewrite bool_decide_true by done. cbn [negb].
    rewrite header_over. simpl. by rewrite !orb_false_r.
  - rewrite bool_decide_false.
    2: { intros H. unfold stuff in H. case_decide; destruct l as [|? [|]]; done. }
    cbn [negb]. destruct (IH (n + Z.b2z (traced l))%Z (d || receipt (stuff l))) as [b ->].
    exists b. cbn [header_lines]. rewrite decide_False by done. cbn [existsb].
    rewrite <- orb_assoc. f_equal. rewrite filter_cons. destruct (traced l); simpl; lia.
Qed.
