(* ===== verification/SmtpdTheorems.v ===== *)
(** * What the SMTP server makes of what the client sends

    The reader of smtpd undoes what the writer of qmail-remote does to a message, and
    counts its header fields. *)

From S2P Require Import Prelude LibQmail Filesys QmailRemote RemoteSpec RemoteTheorems.
From S2P Require Import QmailQueue Qmail Smtpd SmtpdHeaders.

#[local] Arguments header_char : simpl never.

(** ** Storing bytes *)

(** What [put] does. *)
Definition stored (s : smtpd) (ch : Z) : smtpd := snd (Smtpd.put ch s).
Definition all_stored (l : bytes) (s : smtpd) : smtpd := foldl stored s l.

Lemma wp_store ch (Q : Z + unit → smtpd → Prop) s : Q (inr tt) (stored s ch) → wp (Smtpd.put ch) Q s.
Proof.
  unfold wp, stored, Smtpd.put, mbind, ST_bind, getS.
  destruct (decide (BytesToOverflow s = 0%Z)); [done|]. simpl. by destruct (bool_decide _).
Qed.
Lemma wp_change f (Q : Z + unit → smtpd → Prop) s : Q (inr tt) (f s) → wp (change f) Q s.
Proof. done. Qed.
Lemma stored_client s ch : client (stored s ch) = client s.
Proof.
  unfold stored, Smtpd.put, mbind, ST_bind, getS. destruct (decide (BytesToOverflow s = 0%Z)); [done|].
  simpl. by destruct (bool_decide _).
Qed.
Lemma set_client_stored r s ch : stored (set_client r s) ch = set_client r (stored s ch).
Proof.
  unfold stored, Smtpd.put, mbind, ST_bind, getS. simpl. destruct (decide (BytesToOverflow s = 0%Z)); [done|].
  simpl. by destruct (bool_decide _).
Qed.
Lemma set_client_all r l s : all_stored l (set_client r s) = set_client r (all_stored l s).
Proof. revert s. induction l as [|c l IH]; intros s; [done|]. simpl. by rewrite set_client_stored, IH. Qed.
Lemma all_stored_app l l' s : all_stored (l ++ l') s = all_stored l' (all_stored l s).
Proof. unfold all_stored. apply foldl_app. Qed.

(** ** The reader *)

Section reader.
Context {L : LibQmail} (conf : smtpd_conf).

(** A line feed follows a carriage return, where that matters. *)
Definition paired (seencr : bool) (ch : Z) : Prop :=
  ch = c_lf → convertbarelf conf = true → seencr = true.

Lemma wp_next_char seencr ch rest (Q : Z + option (Z * bool) → smtpd → Prop) s :
  client s = ch :: rest → paired seencr ch →
  (∀ b, (ch = c_cr → paired b c_lf) → Q (inr (Some (ch, b))) (set_client rest s)) →
  wp (next_char conf seencr) Q s.
Proof.
  intros Hc Hp HQ. unfold next_char. apply wp_bind, wp_getS. rewrite Hc.
  unfold paired in *. destruct (convertbarelf conf) eqn:E.
  - destruct (bool_decide (ch = c_lf) && negb seencr) eqn:E'.
    { apply andb_true_iff in E' as [->%bool_decide_eq_true_1 Hs]. rewrite Hp in Hs by done. done. }
    apply wp_qbind, wp_change, wp_ok, HQ. intros -> _ _. done.
  - apply wp_qbind, wp_change, wp_ok, HQ. done.
Qed.

(** The carriage return that is not stored yet. *)
Definition pending (state : nat) : bytes := match state with 4 => [c_cr] | _ => [] end.

Lemma encode_cons eom c l :
  encode eom (c :: l) =
  if eom && bool_decide (c = c_dot) then (c_dot :: c :: (encode false l).1, (encode false l).2)
  else if decide (c = c_lf) then (c_cr :: c_lf :: (encode true l).1, (encode true l).2)
  else (c :: (encode false l).1, (encode false l).2).
Proof.
  simpl. destruct (encode false l), (encode true l). destruct (_ && _); [done|]. by case_decide.
Qed.

Definition between (state : nat) : Prop := state = 0 ∨ state = 1 ∨ state = 4.

(** One byte that is neither a line feed nor a dot in front of a line. *)
Lemma wp_plain fuel state seencr h c rest (Q : Z + Z * hdr → smtpd → Prop) s :
  between state → client s = c :: rest → c ≠ c_lf → (state = 1 → c ≠ c_dot) →
  (∀ b, (c = c_cr → paired b c_lf) →
    wp (blast_loop conf fuel (if decide (c = c_cr) then 4 else 0) b (header_char h c)) Q
      (set_client rest (all_stored (pending state ++ (if decide (c = c_cr) then [] else [c])) s))) →
  wp (blast_loop conf (S fuel) state seencr h) Q s.
Proof.
  intros Hst Hc Hlf Hdot HQ. cbn [blast_loop]. apply wp_qbind.
  eapply wp_next_char; [exact Hc|by intros ?|]. intros b Hb. cbv zeta. specialize (HQ b Hb).
  rewrite (bool_decide_false (c = c_lf)) by done. unfold pending in HQ.
  destruct (decide (c = c_cr)) as [Hcr|Hcr].
  - rewrite (bool_decide_true (c = c_cr)) by done. subst c.
    destruct Hst as [-> |[-> | ->]]; simpl in HQ |- *; [done..|].
    apply wp_qbind, wp_store. by rewrite set_client_stored.
  - rewrite (bool_decide_false (c = c_cr)) by done.
    destruct Hst as [-> |[-> | ->]]; simpl in HQ |- *.
    + apply wp_qbind, wp_store. by rewrite set_client_stored.
    + rewrite decide_False by auto. apply wp_qbind, wp_store. by rewrite set_client_stored.
    + apply wp_qbind, wp_store, wp_qbind, wp_store. by rewrite !set_client_stored.
Qed.

(** The end of a line. *)
Lemma wp_newline fuel state seencr h rest (Q : Z + Z * hdr → smtpd → Prop) s :
  between state → client s = c_cr :: c_lf :: rest →
  (∀ b, wp (blast_loop conf fuel 1 b (header_char (header_char h c_cr) c_lf)) Q
      (set_client rest (all_stored (pending state ++ [c_lf]) s))) →
  wp (blast_loop conf (S (S fuel)) state seencr h) Q s.
Proof.
  intros Hst Hc HQ. eapply wp_plain; [done|exact Hc|done|done|]. intros b Hb.
  rewrite decide_True, app_nil_r by done. cbn [blast_loop]. apply wp_qbind.
  eapply wp_next_char; [done|by apply Hb|]. intros b' _. simpl. apply wp_qbind, wp_store.
  specialize (HQ b'). rewrite all_stored_app in HQ. simpl in HQ. by rewrite !set_client_stored.
Qed.

(** A line that starts with a dot. *)
Lemma wp_dotted fuel seencr h rest (Q : Z + Z * hdr → smtpd → Prop) s :
  client s = c_dot :: c_dot :: rest →
  (∀ b, wp (blast_loop conf fuel 0 b (header_char (header_char h c_dot) c_dot)) Q
      (set_client rest (all_stored [c_dot] s))) →
  wp (blast_loop conf (S (S fuel)) 1 seencr h) Q s.
Proof.
  intros Hc HQ. cbn [blast_loop]. apply wp_qbind.
  eapply wp_next_char; [exact Hc|by intros ?|]. intros b _. simpl. apply wp_qbind.
  eapply wp_next_char; [done|by intros ?|]. intros b' _. simpl. apply wp_qbind, wp_store.
  rewrite !set_client_stored. apply HQ.
Qed.

(** The end of the message. *)
Lemma wp_end fuel seencr h rest (Q : Z + Z * hdr → smtpd → Prop) s :
  client s = c_dot :: crlf ++ rest →
  Q (inr (0%Z, header_char (header_char (header_char h c_dot) c_cr) c_lf)) (set_client rest s) →
  wp (blast_loop conf (S (S (S fuel))) 1 seencr h) Q s.
Proof.
  intros Hc HQ. cbn [blast_loop]. apply wp_qbind.
  eapply wp_next_char; [exact Hc|by intros ?|]. intros b _. simpl. apply wp_qbind.
  eapply wp_next_char; [done|by intros ?|]. intros b' Hb. simpl. apply wp_qbind.
  eapply wp_next_char; [done|by apply Hb|]. intros b2 _. simpl. by apply wp_ok.
Qed.

(** From a place in the message that leaves [state] to the end. *)
Lemma wp_rest m state fuel seencr h s rest (Q : Z + Z * hdr → smtpd → Prop) :
  between state → let e := encode (Nat.eqb state 1) m in
  let w := e.1 ++ c_dot :: crlf in
  e.2 = true → client s = w ++ rest → length w ≤ fuel →
  Q (inr (0%Z, foldl header_char h w)) (set_client rest (all_stored (pending state ++ m) s)) →
  wp (blast_loop conf fuel state seencr h) Q s.
Proof.
  cbv zeta. revert state fuel seencr h s.
  induction m as [|c m IH]; intros state fuel seencr h s Hst He Hc Hf HQ.
  - simpl in *. apply Nat.eqb_eq in He as ->.
    do 3 (destruct fuel as [|fuel]; [lia|]). eapply wp_end; [exact Hc|exact HQ].
  - rewrite encode_cons in He, Hc, Hf, HQ.
    destruct (Nat.eqb state 1 && bool_decide (c = c_dot)) eqn:Ed.
    + apply andb_true_iff in Ed as [->%Nat.eqb_eq ->%bool_decide_eq_true_1].
      simpl in Hf, HQ, Hc, He. do 2 (destruct fuel as [|fuel]; [lia|]).
      eapply wp_dotted; [exact Hc|]. intros b.
      apply (IH 0); [by left|exact He|reflexivity|apply le_S_n, le_S_n, Hf|]. by rewrite set_client_all.
    + destruct (decide (c = c_lf)) as [->|Hlf].
      * simpl in Hf, HQ, Hc, He. do 2 (destruct fuel as [|fuel]; [lia|]).
        eapply wp_newline; [done|exact Hc|]. intros b.
        apply (IH 1); [by right; left|exact He|reflexivity|apply le_S_n, le_S_n, Hf|].
        rewrite set_client_all, <- all_stored_app, <- (assoc_L app (pending state)). exact HQ.
      * simpl in Hf, HQ, Hc, He. destruct fuel as [|fuel]; [lia|].
        eapply wp_plain; [done|exact Hc|done| |].
        { intros -> ->. by rewrite bool_decide_true in Ed. }
        intros b _. assert (Nat.eqb (if decide (c = c_cr) then 4 else 0) 1 = false) as Es
          by (by destruct (decide (c = c_cr))).
        apply IH; [|by rewrite Es|by rewrite Es|rewrite Es; apply le_S_n, Hf|].
        { destruct (decide (c = c_cr)); unfold between; auto. }
        rewrite Es, set_client_all, <- all_stored_app, <- (assoc_L app (pending state)).
        destruct (decide (c = c_cr)) as [->|]; exact HQ.
Qed.
End reader.

(** ** Lines *)

Definition unlines (ls : list bytes) : bytes := mjoin (map (λ l, l ++ [c_lf]) ls).

Lemma encode_inside l r : c_lf ∉ l →
  encode false (l ++ c_lf :: r) = (l ++ c_cr :: c_lf :: (encode true r).1, (encode true r).2).
Proof.
  induction l as [|c l IH]; intros Hl; simpl app; rewrite encode_cons; [done|].
  apply not_elem_of_cons in Hl as [Hc Hl]. rewrite decide_False by done. simpl. by rewrite IH.
Qed.
Lemma encode_line l r : c_lf ∉ l →
  encode true (l ++ c_lf :: r) = ((stuff l ++ crlf) ++ (encode true r).1, (encode true r).2).
Proof.
  intros Hl. destruct l as [|c l]; [cbn [app]; by rewrite encode_cons|].
  apply not_elem_of_cons in Hl as [Hc Hl]. simpl app. rewrite encode_cons, encode_inside by done.
  unfold stuff. simpl head. destruct (decide (c = c_dot)) as [->|Hd].
  - rewrite (decide_True (P := Some c_dot = Some c_dot)) by done. simpl. by rewrite <- (assoc_L app).
  - rewrite (bool_decide_false (c = c_dot)), (decide_False (P := c = c_lf)),
      (decide_False (P := Some c = Some c_dot)) by congruence. simpl. by rewrite <- (assoc_L app).
Qed.
Lemma encode_lines ls : Forall (λ l, c_lf ∉ l) ls → encode true (unlines ls) = (wire_lines ls, true).
Proof.
  induction 1 as [|l ls Hl Hls IH]; [done|]. unfold unlines, wire_lines in *. simpl.
  rewrite <- (assoc_L app). simpl app at 2. rewrite encode_line by done. by rewrite IH.
Qed.

Lemma encode_qqeh_inside l r : c_lf ∉ l → encode_qqeh (l ++ c_lf :: r) = l ++ crlf ++ encode_qqeh r.
Proof.
  induction l as [|c l IH]; intros Hl; [done|]. apply not_elem_of_cons in Hl as [Hc Hl].
  simpl. rewrite decide_False by done. simpl. by rewrite IH.
Qed.
Lemma encode_qqeh_lines hs : Forall (λ h, (c_lf ∉ h) ∧ head h ≠ Some c_dot) hs →
  encode true (unlines hs) = (encode_qqeh (unlines hs), true).
Proof.
  intros H. rewrite encode_lines by (eapply Forall_impl; [exact H|]; by intros ? []). f_equal.
  unfold unlines, wire_lines. induction H as [|h hs [Hlf Hd] Hhs IH]; [done|]. simpl.
  rewrite <- !(assoc_L app). simpl app at 4. rewrite encode_qqeh_inside by done.
  rewrite IH. unfold stuff. by rewrite decide_False.
Qed.

(** ** What is written to qmail-queue *)

(** Unless something failed, [m] and [e] were written. *)
Definition intact (m e : bytes) (b : bool) (q : qmail) : Prop :=
  flagerr q = false → to_mess q = m ∧ to_env q = e ∧ on_env q = b.
Definition healthy (q : qmail) : Prop := flagerr q = false ∧ true ∉ pipes q.

Lemma intact_put m e b t q :
  intact m e b q → intact (if b then m else m ++ t) (if b then e ++ t else e) b (qmail_put t q).
Proof.
  unfold intact, qmail_put. destruct (flagerr q) eqn:E; [congruence|]. intros H.
  destruct (H eq_refl) as (<- & <- & <-).
  destruct (pipes q) as [|[] p]; [|done|]; by destruct (on_env q).
Qed.
Lemma intact_fail m e b q : intact m e b (qmail_fail q).
Proof. done. Qed.
Lemma healthy_put t q : healthy q → healthy (qmail_put t q).
Proof.
  unfold healthy, qmail_put. intros [-> Hp]. destruct (pipes q) as [|[] p]; [|set_solver|];
    destruct (on_env q); simpl; split; done || set_solver.
Qed.
Lemma put_failed t q : flagerr q = true → flagerr (qmail_put t q) = true.
Proof. unfold qmail_put. intros E. by rewrite E. Qed.

Lemma intact_from m e a q :
  intact m e false q → intact m (e ++ lit "F" ++ a ++ [0%Z]) true (qmail_from a q).
Proof.
  intros H. unfold qmail_from. rewrite !(assoc_L app).
  apply (intact_put m _ true), (intact_put m _ true), (intact_put m _ true).
  destruct (pipes q) as [|[] p]; [|done|]; intros Hf; by destruct (H Hf) as (? & ? & ?).
Qed.
Lemma healthy_from a q : healthy q → healthy (qmail_from a q).
Proof.
  intros [Hf Hp]. unfold qmail_from. apply healthy_put, healthy_put, healthy_put.
  destruct (pipes q) as [|[] p]; [|set_solver|]; split; simpl; done || set_solver.
Qed.
Lemma from_failed a q : flagerr q = true → flagerr (qmail_from a q) = true.
Proof.
  intros Hf. unfold qmail_from. apply put_failed, put_failed, put_failed. by destruct (pipes q) as [|[] p].
Qed.

(** ** What is stored *)

Lemma stored_qqt s ch : 
  qqt (stored s ch) = qmail_put [ch] (if decide (BytesToOverflow s = 1%Z) then qmail_fail (qqt s) else qqt s) ∧
  BytesToOverflow (stored s ch) = (if decide (BytesToOverflow s = 0) then 0 else BytesToOverflow s - 1)%Z ∧
  replies (stored s ch) = replies s ∧ mailfrom (stored s ch) = mailfrom s ∧ rcptto (stored s ch) = rcptto s ∧
  seenmail (stored s ch) = seenmail s.
Proof.
  unfold stored, Smtpd.put, mbind, ST_bind, getS.
  destruct (decide (BytesToOverflow s = 0%Z)) as [E|E]; simpl.
  - rewrite E. done.
  - destruct (decide (BytesToOverflow s = 1%Z)) as [E1|E1].
    + rewrite bool_decide_true by lia. simpl. done.
    + rewrite bool_decide_false by lia. done.
Qed.

Record keeps_session (s s' : smtpd) : Prop := {
  ks_replies : replies s' = replies s;
  ks_mailfrom : mailfrom s' = mailfrom s;
  ks_rcptto : rcptto s' = rcptto s;
  ks_seenmail : seenmail s' = seenmail s
}.

(** The bytes that are stored, and whether the limit is reached. *)
Lemma all_stored_effect l s m e :
  (0 ≤ BytesToOverflow s)%Z → intact m e false (qqt s) →
  let s' := all_stored l s in
  keeps_session s s' ∧ intact (m ++ l) e false (qqt s') ∧
  BytesToOverflow s' = Z.max (BytesToOverflow s - Z.of_nat (length l)) 0 ∧
  (flagerr (qqt s) = true → flagerr (qqt s') = true) ∧
  (if decide (0 < BytesToOverflow s ≤ Z.of_nat (length l))%Z
   then flagerr (qqt s') = true
   else healthy (qqt s) → healthy (qqt s')).
Proof.
  cbv zeta. revert s m. induction l as [|c l IH]; intros s m Hb Hi.
  - simpl. rewrite app_nil_r. split_and!; [done|done|lia|done|]. by rewrite decide_False by lia.
  - simpl all_stored. destruct (stored_qqt s c) as (Eq & Eb & ? & ? & ? & ?).
    destruct (IH (stored s c) (m ++ [c])) as (Hk & Hi' & Hb' & He & Hh).
    + rewrite Eb. destruct (decide (BytesToOverflow s = 0%Z)); lia.
    + rewrite Eq. apply (intact_put m e false).
      destruct (decide (BytesToOverflow s = 1%Z)); [apply intact_fail|done].
    + split_and!.
      * destruct Hk. split; congruence.
      * by rewrite <- (assoc_L app) in Hi'.
      * rewrite Hb', Eb. simpl length. destruct (decide (BytesToOverflow s = 0%Z)); lia.
      * intros Hf. apply He. rewrite Eq. apply put_failed. by destruct (decide (BytesToOverflow s = 1%Z)).
      * rewrite Eb in Hh. simpl length.
        destruct (decide (BytesToOverflow s = 1%Z)) as [E1|E1].
        { rewrite decide_True by lia. apply He. rewrite Eq. by apply put_failed. }
        rewrite Eq in Hh. destruct (decide (BytesToOverflow s = 0%Z)).
        { rewrite decide_False in Hh by lia. rewrite decide_False by lia.
          intros. by apply Hh, healthy_put. }
        destruct (decide (0 < BytesToOverflow s ≤ Z.of_nat (S (length l)))%Z).
        { by rewrite decide_True in Hh by lia. }
        rewrite decide_False in Hh by lia. intros. by apply Hh, healthy_put.
Qed.

(** ** The message as a whole *)

Section blast.
Context {L : LibQmail} (conf : smtpd_conf).

Definition counted_over (w : bytes) : hdr := foldl header_char hdr_start (w ++ c_dot :: crlf).

Lemma wp_read_message m w rest (Q : Z + Z * Z → smtpd → Prop) s :
  encode true m = (w, true) → client s = (w ++ c_dot :: crlf) ++ rest →
  Q (inr (0%Z, hops (counted_over w)))
    (set_dsn (h_dsn (counted_over w)) (set_client rest (all_stored m (set_msg_size 0 s)))) →
  wp (blast conf) Q s.
Proof.
  intros He Hc HQ. unfold blast. apply wp_qbind, wp_change, wp_bind, wp_getS, wp_qbind.
  eapply (wp_rest conf m 1); [by right; left|..]; cbn [Nat.eqb]; rewrite He; cbn [fst snd];
    [done|exact Hc| |].
  { cbn [client set_msg_size]. rewrite Hc, (length_app _ rest). lia. }
  apply wp_qbind, wp_change, wp_ok. exact HQ.
Qed.

Lemma counted_lines ls : Forall (λ l, c_lf ∉ l) ls →
  hops (counted_over (wire_lines ls)) = hops_of ls ∧ h_dsn (counted_over (wire_lines ls)) = dsn_of ls.
Proof.
  intros Hls. unfold counted_over. rewrite foldl_app. destruct (count_lines ls 0 false Hls) as [b Hb].
  change hdr_start with (Hdr 0 true true true true true 0 false). rewrite Hb. destruct b.
  - change (c_dot :: crlf) with ([c_dot; c_cr] ++ [c_lf]). rewrite header_line by set_solver.
    unfold in_line, is_receipt, is_delivered, is_received. cbn [hops h_dsn].
    rewrite !(bool_decide_false (_ ≤ length _)) by (simpl; lia). rewrite !andb_false_r. simpl.
    rewrite orb_false_r. split; [lia|done].
  - rewrite header_over. simpl. split; [lia|done].
Qed.

(** C28: a message gets through SMTP unchanged.  What qmail-remote writes after DATA
    for the header fields [hs] and a message whose last line is whole, smtpd reads
    to the end of the message and not beyond, with ALLOW_BARELF or without, and
    qmail-queue gets these fields and every byte of the message as it was, lines
    that start with dots and carriage returns included; unless the message has more
    bytes than were left, when it is made to fail. *)
Theorem message_transparent cf msgs hs rest s :
  qqeh cf = unlines hs → Forall (λ h, (c_lf ∉ h) ∧ head h ≠ Some c_dot) hs →
  reading_of msgs = Whole → lit "DATA" ++ crlf ++ client s = wire cf msgs ++ rest →
  (0 ≤ BytesToOverflow s)%Z → on_env (qqt s) = false → healthy (qqt s) →
  let text := unlines hs ++ (read_message msgs).1 in
  let '(r, s') := blast conf s in
  (∃ n, r = inr (0%Z, n)) ∧ client s' = rest ∧
  if decide (0 < BytesToOverflow s ≤ Z.of_nat (length text))%Z then flagerr (qqt s') = true
  else flagerr (qqt s') = false ∧ to_mess (qqt s') = to_mess (qqt s) ++ text ∧ to_env (qqt s') = to_env (qqt s).
Proof.
  intros Hq Hhs Hm Hw Hb Ho Hh text. unfold wire in Hw. rewrite Hq in Hw.
  set (m := (read_message msgs).1) in *.
  assert (Hwhole : (encode true m).2 = true).
  { rewrite encode_eom. unfold reading_of in Hm. unfold m. destruct (read_message msgs) as [t good]. simpl.
    destruct good; [|done]. destruct (decide (t = [] ∨ last t = Some c_lf)) as [Ht|]; [|done].
    destruct (decide (t = [])); [done|]. apply bool_decide_eq_true. naive_solver. }
  assert (He : encode true text = (encode_qqeh (unlines hs) ++ (encode true m).1, true)).
  { unfold text. rewrite encode_app, encode_qqeh_lines by done. simpl. by rewrite Hwhole. }
  cut (wp (blast conf) (λ r s', (∃ n, r = inr (0%Z, n)) ∧ client s' = rest ∧
    if decide (0 < BytesToOverflow s ≤ Z.of_nat (length text))%Z then flagerr (qqt s') = true
    else flagerr (qqt s') = false ∧ to_mess (qqt s') = to_mess (qqt s) ++ text ∧ to_env (qqt s') = to_env (qqt s)) s).
  { unfold wp. by destruct (blast conf s). }
  eapply wp_read_message; [exact He| |].
  { rewrite <- !(assoc_L app) in Hw. do 2 apply (inj (app _)) in Hw. rewrite Hw. by rewrite <- !(assoc_L app). }
  split; [by eexists|]. split; [done|]. cbn [set_dsn set_client qqt].
  destruct (all_stored_effect text (set_msg_size 0 s) (to_mess (qqt s)) (to_env (qqt s)))
    as (_ & Hi & _ & _ & Hf); [done| |].
  { intros _. done. }
  cbn [set_msg_size BytesToOverflow qqt] in Hf. case_decide; [exact Hf|].
  destruct (Hf Hh) as [Hno _]. split; [exact Hno|]. by destruct (Hi Hno) as (? & ? & _).
Qed.

(** The header is read as lines.  Over the lines that arrive up to the end of
    the message, [blast] counts one hop for every line of the header (up to the
    first empty line) that starts with Received or Delivered in any case, and sets
    [dsn] if a line of the header has "ceipt" from its tenth byte on, as
    Return-Receipt has. *)
Lemma fields_counted ls rest s :
  Forall (λ l, c_lf ∉ l) ls → client s = wire_lines ls ++ c_dot :: crlf ++ rest →
  let '(r, s') := blast conf s in
  r = inr (0%Z, hops_of ls) ∧ dsn s' = dsn_of ls.
Proof.
  intros Hls Hc.
  cut (wp (blast conf) (λ r s', r = inr (0%Z, hops_of ls) ∧ dsn s' = dsn_of ls) s).
  { unfold wp. by destruct (blast conf s). }
  destruct (counted_lines ls Hls) as [Hh Hd].
  eapply wp_read_message; [by apply encode_lines| |].
  - rewrite Hc. by rewrite <- (assoc_L app).
  - by rewrite Hh, <- Hd.
Qed.
End blast.
