(* ===== verification/SmtpdData.v ===== *)
(** * The reply to DATA

    What smtpd answers to the end of a message, and that a message it accepts is in
    the queue. *)

From S2P Require Import Prelude LibQmail Filesys Control Fmtqfn SendState QmailRemote RemoteSpec RemoteTheorems.
From S2P Require Import QmailQueue QueueSpec QueueSteps QueueTheorems.
From S2P Require Import Qmail Smtpd SmtpdHeaders SmtpdTheorems.

#[local] Arguments lit : simpl never.

Section data.
Context {L : LibQmail} (conf : smtpd_conf).

(** ** The specification *)

(** What qmail-queue is given as envelope. *)
Definition envelope_for (from rcpts : bytes) : bytes := lit "F" ++ from ++ [0%Z] ++ rcpts ++ [0%Z].

Definition looping (ls : list bytes) : bool := bool_decide (maxhops conf ≤ hops_of ls)%Z.
Definition too_big (m : bytes) : bool := bool_decide (0 < databytes conf < Z.of_nat (length m))%Z.

(** The reply to the message, after what [qmail_close] says. *)
Definition answer (loops big : bool) (qqx : bytes) (when : Z) : bytes :=
  if decide (qqx = []) then lit "250 ok " ++ fmt_ulong when ++ lit " qp " ++ fmt_ulong (qp conf) ++ crlf
  else if loops then lit "554 too many hops, this message is looping (#5.4.6)" ++ crlf
  else if big then lit "552 sorry, that message size exceeds my databytes limit (#5.3.4)" ++ crlf
  else refusal qqx.

Definition took_over (c : child) : bool :=
  waited c && match how c with Exited e => bool_decide (e = 0%Z) | Crashed => false end.

(** A DATA command that is taken up. *)
Record in_order (s : smtpd) : Prop := {
  io_seenmail : seenmail s = true;
  io_rcptto : rcptto s ≠ [];
  io_rcptcount : rcptcount s ≠ 0%Z;
  io_flagsize : flagsize s = false;
  io_limit : (0 < databytes conf < 2 ^ 64 - 1)%Z ∨ (databytes conf = 0 ∧ BytesToOverflow s = 0)%Z
}.

(** ** The command *)

(** How a command ends that reads the message [m] of the lines [ls]. *)
Record ended (ls : list bytes) (pipes : list bool) (end_of : bytes → bytes → child) (when : Z)
    (rest : bytes) (s s' : smtpd) (q : qmail) : Prop := {
  en_client : client s' = rest;
  en_seenmail : seenmail s' = false;
  en_replies : replies s' = replies s ++ lit "354 go ahead" ++ crlf ++
    answer (looping ls) (too_big (unlines ls))
      (qmail_close (end_of (to_mess (qmail_put [0%Z] q)) (to_env (qmail_put [0%Z] q))) q) when;
  en_intact : intact (received conf ++ unlines ls) (lit "F" ++ mailfrom s ++ [0%Z] ++ rcptto s) true q;
  en_failed : looping ls || too_big (unlines ls) = true → flagerr q = true;
  en_healthy : looping ls || too_big (unlines ls) = false → (true ∉ pipes) → healthy q
}.

Lemma wp_smtp_data ls pipes end_of when rest s :
  in_order s → Forall (λ l, c_lf ∉ l) ls → client s = (wire_lines ls ++ c_dot :: crlf) ++ rest →
  wp (smtp_data conf [] (Some pipes) end_of when)
    (λ r s', r = inr tt ∧ ∃ q, ended ls pipes end_of when rest s s' q) s.
Proof.
  intros [H1 H2 H3 H4 H5] Hls Hc. unfold smtp_data. apply wp_bind, wp_getS.
  rewrite (bool_decide_true ([] = [])), H1, H4 by done. cbn [negb]. rewrite decide_False by tauto.
  set (B := if decide (0 < databytes conf)%Z then wrap 64 (databytes conf + 1) else 0%Z).
  apply wp_qbind, wp_change, wp_qbind.
  eapply (wp_mono _ (λ r s1, r = inr tt ∧ s1 = set_BytesToOverflow B (set_seenmail false s))).
  { unfold B. destruct (decide (0 < databytes conf)%Z); [by apply wp_change|]. apply wp_ok. split; [done|].
    destruct H5 as [|[_ HB]]; [lia|]. destruct s. simpl in *. by subst. }
  intros ? s1 [-> Es1]. unfold say, out. apply wp_qbind, wp_change, wp_qbind, wp_change, wp_qbind, wp_change, wp_qbind.
  set (s2 := set_qqt _ _).
  destruct (counted_lines ls Hls) as [Hh Hd].
  eapply (wp_read_message conf (unlines ls)); [by apply encode_lines|rewrite <- Hc; by subst s1|].
  rewrite Hh. set (s3 := set_dsn _ _). cbv iota beta.
  set (hops := if decide (0 = 0)%Z then _ else _).
  destruct (all_stored_effect (unlines ls) (set_msg_size 0 s2) (received conf) []) as (Hk & Hi & HB & Hbad & Hgood).
  { subst s1. unfold s2, B. simpl. case_decide; [|done]. unfold wrap. apply Z.mod_pos_bound. lia. }
  { subst s1. unfold s2. simpl. apply (intact_put [] [] false). intros _. done. }
  cbn [set_msg_size BytesToOverflow qqt] in HB, Hbad, Hgood.
  assert (EB : BytesToOverflow s2 = B) by (by subst s1). rewrite EB in *.
  assert (Hbig : (0 < B ≤ Z.of_nat (length (unlines ls)))%Z ↔ too_big (unlines ls) = true).
  { unfold too_big, B. rewrite bool_decide_eq_true. destruct (decide (0 < databytes conf)%Z); [|lia].
    unfold wrap. rewrite Z.mod_small by lia. lia. }
  assert (Hover : (0 < databytes conf ∧ BytesToOverflow s3 = 0)%Z ↔ too_big (unlines ls) = true).
  { change (BytesToOverflow s3) with (BytesToOverflow (all_stored (unlines ls) (set_msg_size 0 s2))).
    rewrite HB, <- Hbig. unfold B. destruct (decide (0 < databytes conf)%Z); [|lia].
    unfold wrap. rewrite Z.mod_small by lia. lia. }
  assert (Hloop : hops = Z.b2z (looping ls)).
  { unfold hops, looping. rewrite decide_True by done. by destruct (decide (maxhops conf ≤ hops_of ls)%Z) as [Hd'|Hd'];
      [rewrite bool_decide_true|rewrite bool_decide_false]. }
  assert (Hgood' : if too_big (unlines ls) then flagerr (qqt s3) = true else (true ∉ pipes) → healthy (qqt s3)).
  { destruct (too_big (unlines ls)) eqn:Eb.
    - rewrite decide_True in Hgood by (by apply Hbig). exact Hgood.
    - rewrite decide_False in Hgood by (rewrite Hbig; done). intros Hp. apply Hgood. subst s1.
      unfold s2. simpl. by apply healthy_put. }
  assert (Hi3 : intact (received conf ++ unlines ls) [] false (qqt s3)) by exact Hi.
  assert (Hr3 : replies s3 = replies s ++ lit "354 go ahead" ++ crlf ∧ mailfrom s3 = mailfrom s ∧
    rcptto s3 = rcptto s ∧ seenmail s3 = false ∧ client s3 = rest).
  { destruct Hk as [K1 K2 K3 K4]. subst s1. split_and!; [exact K1|exact K2|exact K3|exact K4|done]. }
  clearbody s3 hops. clear Hk Hi HB Hbad Hgood Hbig Hd Hh EB s2 Es1 s1 B.
  destruct Hr3 as (R1 & R2 & R3 & R4 & R5).
  apply wp_qbind.
  eapply (wp_mono _ (λ r s4, r = inr tt ∧ s4 = if looping ls then set_qqt (qmail_fail (qqt s3)) s3 else s3)).
  { subst hops. destruct (looping ls); simpl; [by apply wp_change|by apply wp_ok]. }
  intros ? s4 [-> Es4]. apply wp_qbind, wp_change, wp_bind, wp_getS. cbn [qqt set_qqt].
  assert (H4' : mailfrom s4 = mailfrom s ∧ rcptto s4 = rcptto s ∧ client s4 = rest ∧ seenmail s4 = false ∧
    replies s4 = replies s3 ∧ BytesToOverflow s4 = BytesToOverflow s3 ∧
    qqt s4 = if looping ls then qmail_fail (qqt s3) else qqt s3).
  { subst s4. by destruct (looping ls). }
  clear Es4. destruct H4' as (-> & -> & R6 & R7 & R8 & R9 & Eq). rewrite Eq. set (q := qmail_put (rcptto s) _).
  set (qqx := qmail_close _ _).
  assert (Hq : ∀ s', client s' = rest → seenmail s' = false →
    replies s' = replies s3 ++ answer (looping ls) (too_big (unlines ls)) qqx when →
    ended ls pipes end_of when rest s s' q).
  { intros s' E1 E2 E3. split; [done|done| | | |].
    - rewrite E3, R1. unfold qqx. by rewrite <- !(assoc_L app).
    - unfold q. rewrite !(assoc_L app). apply (intact_put _ _ true), (intact_from _ []).
      destruct (looping ls); [apply intact_fail|exact Hi3].
    - intros Hbad. apply put_failed, from_failed. destruct (looping ls); [done|].
      simpl in Hbad. by rewrite Hbad in Hgood'.
    - intros [Hl Hb]%orb_false_iff Hp. apply healthy_put, healthy_from. rewrite Hl. rewrite Hb in Hgood'. auto. }
  unfold answer in Hq. unfold acceptmessage, out. cbn [BytesToOverflow set_qqt]. rewrite R9, Hloop.
  destruct (decide (qqx = [])).
  { apply wp_change. split; [done|]. exists q. apply Hq; simpl; by rewrite ?R8. }
  destruct (looping ls) eqn:El.
  { rewrite decide_True by done. apply wp_change. split; [done|]. exists q. apply Hq; simpl; by rewrite ?R8. }
  rewrite decide_False by tauto.
  destruct (too_big (unlines ls)) eqn:Eb.
  - rewrite decide_True by tauto. apply wp_change. split; [done|]. exists q. apply Hq; simpl; by rewrite ?R8.
  - rewrite decide_False by (rewrite Hover; done). apply wp_change. split; [done|].
    exists q. apply Hq; simpl; by rewrite ?R8.
Qed.

Lemma close_healthy c q : healthy q → qmail_close c q = qmail_close c (qmail_start []).
Proof.
  intros Hq. apply (healthy_put [0%Z]) in Hq as [Hf Hp]. unfold qmail_close.
  change (qmail_put [0%Z] (qmail_start [])) with (Qmail false [0%Z] [] false []). cbn [flagerr pipes].
  rewrite Hf. destruct (pipes (qmail_put [0%Z] q)) as [|[] p]; [done|set_solver|done].
Qed.
Lemma close_zero c q : waited c = true → how c = Exited 0 → healthy q → qmail_close c q = [].
Proof. intros Hw He Hq. rewrite close_healthy by done. unfold qmail_close. by rewrite Hw, He. Qed.

(** No success without a good end, unless an error text starts with a zero byte. *)
Lemma close_nothing c q : (∀ t, custom c = Some t → head t ≠ Some 0%Z) → qmail_close c q = [] →
  waited c = true ∧ how c = Exited 0 ∧ flagerr q = false.
Proof.
  intros Hc Hq. pose proof Hq as (Hw & He & Hf)%close_accepted. split; [done|].
  destruct He as [He|(t & Ht & He & Hz)].
  - split; [done|]. specialize (Hf He). destruct (flagerr q) eqn:E; [|done].
    by rewrite put_failed in Hf.
  - exfalso. specialize (Hc t Ht). unfold qmail_close in Hq. rewrite Hw, He, Ht in Hq. simpl in Hq.
    case_decide as Hl; [|done]. destruct t as [|x t]; [simpl in Hl; lia|]. simpl in Hz.
    destruct (decide (x = 0%Z)) as [->|]; [by apply Hc|done].
Qed.

(** An error text that starts with a zero byte. *)
Lemma zero_text_accepted a b t q :
  qmail_close (Child true (Exited QQ_CUSTOM_ERR) (Some (0%Z :: a :: b :: t))) q = [].
Proof. reflexivity. Qed.

(** Why DATA is not taken up: nothing may follow the word, there has to be a sender
    and a recipient, the size that MAIL declared has to be within the limit, and
    qmail-queue has to be there. *)
Definition not_taken (arg : bytes) (opened : option (list bool)) (s : smtpd) : option string :=
  if negb (bool_decide (arg = [])) then Some "501 invalid parameter syntax (#5.3.2)"%string
  else if negb (seenmail s) then Some "503 MAIL first (#5.5.1)"%string
  else if decide (rcptto s = [] ∨ rcptcount s = 0%Z) then Some "503 RCPT first (#5.5.1)"%string
  else if flagsize s then Some "552 sorry, that message size exceeds my databytes limit (#5.3.4)"%string
  else if opened is None then Some "451 Sorry, I got a temporary queue failure (#4.3.0)"%string
  else None.

Lemma data_not_taken arg opened end_of when s text : not_taken arg opened s = Some text →
  let '(r, s') := smtp_data conf arg opened end_of when s in
  r = inr tt ∧ client s' = client s ∧ qqt s' = qqt s ∧ replies s' = replies s ++ lit text ++ crlf.
Proof.
  unfold not_taken, smtp_data. intros H. unfold getS, mbind, ST_bind. cbv beta iota.
  destruct (negb (bool_decide (arg = []))); [injection H as <-; repeat split|].
  destruct (negb (seenmail s)); [injection H as <-; repeat split|].
  destruct (decide (rcptto s = [] ∨ rcptcount s = 0%Z)); [injection H as <-; repeat split|].
  destruct (flagsize s); [injection H as <-; repeat split|]. destruct opened; [done|].
  injection H as <-. destruct (decide (0 < databytes conf)%Z); repeat split.
Qed.

End data.

(** ** Into the queue *)

Section queue.
Context {L : LibQmail} (conf : smtpd_conf).
Context (cfg : config) (st : setting) (s0 : qqueue) (use_fsync use_fdatasync : bool).
Context (scan_int scan_uint : bytes → Z) (case_equal : bytes → bytes → bool).
Context (mess822_ok : bytes → bool) (beyond : bytes → bytes).

(** qmail-queue as it finds its descriptors, and how it ends. *)
Definition given (m e : bytes) : qqueue := set_envelope e (set_body [m] s0).
#[local] Abbreviation queue :=
  (qmail_queue cfg st use_fsync use_fdatasync scan_int scan_uint case_equal mess822_ok beyond).
#[local] Abbreviation verdict := (QueueSpec.verdict st scan_int scan_uint case_equal mess822_ok beyond).
#[local] Abbreviation queued m e := (QueueTheorems.queued cfg st (given m e) use_fsync use_fdatasync).
Definition queue_end (m e : bytes) : child := Child true (Exited (val queue (given m e))) None.

(** smtpd accepts a message if and only if it is queued.  Let qmail-queue run
    on what smtpd writes to it.  If the reply to a message starts with 2 then the
    message is in the queue: qmail-queue had the Received field, every byte of the
    message and the whole envelope, and carried out its verdict on them, whatever
    failed on the way, of smtpd's writes or of qmail-queue's calls.  And if nothing
    fails, the limits are kept and the verdict is to accept, then the message is
    queued and the reply is 250. *)
Lemma reply_means_queued ls pipes when rest s :
  in_order conf s → Forall (λ l, c_lf ∉ l) ls → client s = (wire_lines ls ++ c_dot :: crlf) ++ rest →
  fresh s0 →
  let m := received conf ++ unlines ls in
  let e := envelope_for (mailfrom s) (rcptto s) in
  let '(r, s') := smtp_data conf [] (Some pipes) queue_end when s in
  ∃ reply, r = inr tt ∧ replies s' = replies s ++ lit "354 go ahead" ++ crlf ++ reply ∧
  (head reply = Some 50%Z →
    verdict (given m e) = inr None ∨
    ∃ d o, verdict (given m e) = inr (Some (d, o)) ∧ queued m e d o (run queue (given m e))) ∧
  (∀ d o, undisturbed cfg st (given m e) → (true ∉ pipes) → looping conf ls = false → too_big conf (unlines ls) = false →
    verdict (given m e) = inr (Some (d, o)) →
    reply = lit "250 ok " ++ fmt_ulong when ++ lit " qp " ++ fmt_ulong (qp conf) ++ crlf ∧
    queued m e d o (run queue (given m e))).
Proof.
  intros Hs Hls Hc [Hf1 Hf2] m e.
  assert (Hf : ∀ m e, fresh (given m e)) by done.
  pose proof (wp_smtp_data conf ls pipes queue_end when rest s Hs Hls Hc) as H. unfold wp in H.
  destruct (smtp_data conf [] (Some pipes) queue_end when s) as [r s']. cbn [fst snd] in H.
  destruct H as (-> & q & [E1 E2 E3 Hi Hbad Hgood]). eexists. split; [done|]. split; [exact E3|]. clear E3.
  assert (Hfull : flagerr (qmail_put [0%Z] q) = false →
    to_mess (qmail_put [0%Z] q) = m ∧ to_env (qmail_put [0%Z] q) = e).
  { intros Hok. destruct (intact_put _ _ true [0%Z] q Hi Hok) as (-> & -> & _). split; [done|].
    unfold e, envelope_for. by rewrite <- !(assoc_L app). }
  split.
  - intros H2. set (c := queue_end _ _) in *.
    assert (Hz : qmail_close c q = []).
    { unfold answer in H2. destruct (decide (qmail_close c q = [])); [done|exfalso].
      revert H2. destruct (looping conf ls), (too_big conf (unlines ls)); [done..|].
      unfold refusal. repeat case_match; done. }
    pose proof Hz as (_ & _ & Hok)%close_accepted. apply close_nothing in Hz as (_ & He & _); [|done].
    specialize (Hok He). apply Hfull in Hok as [Em Ee]. unfold c in He. rewrite Em, Ee in He.
    apply exit_zero; [apply Hf|]. by injection He.
  - intros d o Hu Hp Hl Hb Hv. rewrite Hl, Hb in *. specialize (Hgood eq_refl Hp).
    destruct (Hfull (proj1 (healthy_put _ _ Hgood))) as [-> ->].
    pose proof (verdict_run cfg st (given m e) scan_int scan_uint case_equal mess822_ok beyond use_fsync
      use_fdatasync (Hf m e) Hu) as Hr.
    rewrite Hv in Hr. unfold run. unfold queue_end, val.
    destruct (queue (given m e)) as [x s1]. destruct Hr as (-> & Hq & _). split; [|exact Hq].
    unfold answer. by rewrite close_zero.
Qed.
End queue.
