(* ===== verification/SessionQueued.v ===== *)
(** * From the dialogue to the queue

    The transaction that the client sees is the one that smtpd keeps, in every
    dialogue in order, and a message that is accepted at its end is queued with it;
    and in every dialogue only recipients come in that may. *)

From S2P Require Import Prelude LibQmail Filesys Control Fmtqfn SendState.
From S2P Require Import QmailRemote RemoteSpec RemoteTheorems QmailQueue QueueSpec QueueSteps QueueTheorems.
From S2P Require Import Rcpthosts Qmail Smtpd SmtpdHeaders SmtpdTheorems SmtpdData SmtpdSession SmtpdEnvelope.
From S2P Require Import SessionPhases SessionEnvelope SessionDialogue SessionTheorems.

#[local] Arguments lit : simpl never.
#[local] Arguments SessionTheorems.next : simpl never.

Section session.
Context {L : LibQmail} {K : CaseLib} {KL : CaseLaws K} {C : Commands} (cf : session_conf).
Context (ipme : list (list Z)) (beyond : bytes) (smtp_auth smtp_etrn smtp_atrn smtp_tls : bytes → SS unit).
Context (Hsrs : srs_domain cf = []).

#[local] Abbreviation dialogue lent := (dialogue cf ipme beyond smtp_auth smtp_etrn smtp_atrn smtp_tls lent).
#[local] Abbreviation dispatch := (dispatch cf ipme beyond smtp_auth smtp_etrn smtp_atrn smtp_tls).
#[local] Abbreviation commands := (commands cf ipme beyond smtp_auth smtp_etrn smtp_atrn smtp_tls).
#[local] Abbreviation next := (next cf ipme).
#[local] Abbreviation transaction := (option (bytes * list bytes)).

(** ** The loop of the program runs through a dialogue *)

Lemma commands_dialogue lent fuel ws n s s1 : authd s = false → (∀ i, usable cf lent (ws i)) →
  (∀ word arg rest text, next_command text = Some (word, arg, rest) → external word = false) →
  commands fuel ws n s = (inr tt, s1) → ∃ log, dialogue lent s log s1 ∧ length log = fuel.
Proof.
  intros Ha Hw Hx. revert n s Ha. induction fuel as [|fuel IH]; intros n s Ha E; cbn [SmtpdEnvelope.commands] in E.
  { injection E as <-. exists []. split; [constructor|done]. }
  destruct (next_command (client (sm s))) as [[[word arg] rest]|] eqn:En.
  2: { exfalso. unfold qbind, see, mbind, ST_bind, getS, ok, mret, ST_ret in E. rewrite En in E.
       by destruct (read_fails (data cf)). }
  assert (Es : (let '(r, s') := dispatch (ws n) word arg (set_sm (set_client rest (sm s)) s) in
    match r with inl e => (inl e, s') | inr _ => commands fuel ws (S n) s' end) = (inr tt, s1)).
  { rewrite <- E. unfold qbind, see, mbind, ST_bind, getS, ok, mret, ST_ret. rewrite En. simpl.
    by destruct (SmtpdEnvelope.dispatch _ _ _ _ _ _ _ _ _ _ _) as [[]]. }
  clear E. rename Es into E.
  pose proof (effective_dispatch cf ipme beyond smtp_auth smtp_etrn smtp_atrn smtp_tls lent (ws n) word arg Hsrs
    (Hw n) (Hx _ _ _ _ En) (set_sm (set_client rest (sm s)) s) Ha) as He.
  unfold wp in He.
  destruct (dispatch (ws n) word arg (set_sm (set_client rest (sm s)) s)) as [[e|b] s2] eqn:Ed; [discriminate E|].
  cbn [fst snd] in He. destruct He as (reply & Hr & Heff).
  assert (Ha2 : authd s2 = false).
  { destruct Heff as [[]|? ? [Hk _]|? []|[]|[]]; by etrans. }
  destruct (IH _ _ Ha2 E) as (log & Hlog & Hlen). exists (Exchange word arg reply :: log).
  split; [|simpl; by rewrite Hlen]. eapply dialogue_step; [done|apply Hw|by eapply Hx|exact Ed|exact Hr|exact Hlog].
Qed.

(** ** The transaction *)

(** The recipients as qmail-queue gets them, each with RELAYCLIENT behind it. *)
Definition recipients_part (suffix : bytes) (rs : list bytes) : bytes :=
  mjoin (map (λ r, lit "T" ++ (r ++ suffix) ++ [0%Z]) rs).
Lemma recipients_part_snoc suffix rs r :
  recipients_part suffix (rs ++ [r]) = recipients_part suffix rs ++ lit "T" ++ (r ++ suffix) ++ [0%Z].
Proof.
  unfold recipients_part. rewrite map_app, join_app. f_equal. apply app_nil_r.
Qed.
Lemma wrap_succ n : wrap 32 (wrap 32 (Z.of_nat n) + 1) = wrap 32 (Z.of_nat (n + 1)).
Proof. unfold wrap. rewrite Z.add_mod_idemp_l by done. f_equal. lia. Qed.

Record tracks (suffix : bytes) (t : transaction) (s : session) : Prop := {
  tr_authd : authd s = false;
  tr_suffix : default [] (relayclient s) = suffix;
  tr_limit : (databytes (data cf) ≤ 0)%Z → BytesToOverflow (sm s) = 0%Z;
  tr_state : match t with
             | None => seenmail (sm s) = false
             | Some (from, rs) => seenmail (sm s) = true ∧ mailfrom (sm s) = from ∧
                 rcptto (sm s) = recipients_part suffix rs ∧ rcptcount (sm s) = wrap 32 (Z.of_nat (length rs))
             end
}.

Lemma tracks_step lent suffix t x s s1 : tracks suffix t s → effect cf ipme lent x s s1 →
  (word_is "mail" (ex_word x) = true → t = None) → tracks suffix (next t x) s1.
Proof.
  intros [Ha Hs Hl Ht] He Hm.
  assert (Hrel : ∀ s1, relayclient s1 = relayclient s ∨ (lent ∧ relayclient s = None ∧ relayclient s1 = Some []) →
    default [] (relayclient s1) = suffix).
  { intros s' [-> |(_ & E & ->)]; [done|]. by rewrite E in Hs. }
  destruct He as [[] Hn|? ? [] Hk Hn|Hw [] Hn|[] Hn|[] Hn].
  - rewrite Hn. split; [congruence|by apply Hrel|by rewrite sa_over|]. destruct t as [[from rs]|]; [|congruence].
    destruct Ht as (? & ? & ? & ?). split_and!; congruence.
  - rewrite Hn. split; [congruence|by apply Hrel|intros; apply Hk; auto|done].
  - rewrite Hn. specialize (Hm Hw) as ->. split; [congruence|by apply Hrel|by rewrite ml_over|congruence].
  - rewrite Hn. split; [congruence|by apply Hrel|by rewrite ma_over|]. split_and!; [done| |done|done].
    unfold address. by rewrite ma_sender.
  - destruct t as [[from rs]|]; [|congruence]. rewrite Hn. destruct Ht as (_ & H1 & H2 & H3).
    split; [congruence|by rewrite ra_relay|by rewrite ra_over|]. split_and!; [done|congruence| |].
    + destruct ra_address as (a & Hp & _ & _ & E). unfold address. rewrite Hp, recipients_part_snoc, E. simpl. congruence.
    + rewrite length_app, ra_rcptcount, H3. apply wrap_succ.
Qed.

Lemma dialogue_tracks lent suffix s log s1 t : dialogue lent s log s1 → tracks suffix t s → orderly cf ipme t log →
  tracks suffix (foldl next t log) s1.
Proof.
  intros Hd. revert t. induction Hd as [|s w word arg rest b s1 reply log s2 Hc Hw Hx E Hr Hd IH]; intros t Ht Ho; [done|].
  destruct Ho as [Hm Ho]. simpl. apply IH; [|done].
  assert (Ht' : tracks suffix t (set_sm (set_client rest (sm s)) s)) by (by destruct Ht).
  pose proof (effective_dispatch cf ipme beyond smtp_auth smtp_etrn smtp_atrn smtp_tls lent w word arg Hsrs Hw Hx _
    (tr_authd _ _ _ Ht')) as He.
  unfold wp in He. rewrite E in He. cbn [fst snd] in He. destruct He as (reply' & Hr' & He).
  assert (reply' = reply) as ->. { simpl in Hr'. rewrite Hr in Hr'. by apply (inj (app _)) in Hr'. }
  by eapply tracks_step.
Qed.

(** Where a session begins. *)
Record begun (s : session) : Prop := {
  bg_authd : authd s = false;
  bg_seenmail : seenmail (sm s) = false;
  bg_limit : BytesToOverflow (sm s) = 0%Z
}.
Lemma begun_tracks s : begun s → tracks (default [] (relayclient s)) None s.
Proof. intros []. by split. Qed.

(** ** Who may send *)

Definition admissible (r : bytes) : Prop := addrrelay r = false ∧ rcpthosts case_lower (hosts cf) false r ≠ 0%Z.
Record closed (s : session) : Prop := {
  cl_authd : authd s = false;
  cl_relay : relayclient s = None;
  cl_limit : (databytes (data cf) ≤ 0)%Z → BytesToOverflow (sm s) = 0%Z;
  cl_rcptto : ∃ rs, rcptto (sm s) = recipients_part [] rs ∧ Forall admissible rs ∧
    (mailfrom (sm s) = [] → length rs ≤ 1) ∧
    ((0 < maxrcptcount cf)%Z → (Z.of_nat (length rs) ≤ maxrcptcount cf)%Z) ∧
    (seenmail (sm s) = true → rcptcount (sm s) = wrap 32 (Z.of_nat (length rs)))
}.

Lemma closed_step x s s1 : (maxrcptcount cf < 2 ^ 31)%Z → closed s → effect cf ipme False x s s1 → closed s1.
Proof.
  intros Hmax [Ha Hr Hl (rs & H1 & H2 & H3 & H4 & H5)] He.
  assert (Hrel : ∀ s1, relayclient s1 = relayclient s ∨ (False ∧ relayclient s = None ∧ relayclient s1 = Some []) →
    relayclient s1 = None) by (intros s' [-> |[[] _]]; done).
  assert (Hnone : ∀ s1, authd s1 = authd s → relayclient s1 = None → limit_kept cf s s1 → rcptto (sm s1) = [] →
    (seenmail (sm s1) = true → rcptcount (sm s1) = 0%Z) → closed s1).
  { intros s' ? ? Hk ? Hc. split; [congruence|done|intros; apply Hk; auto|]. exists []. split_and!; simpl; try done; lia. }
  destruct He as [[] Hn|Hs [Hz|[Em Er]] [] Hk Hn|Hw [] Hn|[] Hn|[] Hn].
  - split; [congruence|by apply Hrel|by rewrite sa_over|]. exists rs.
    rewrite sa_mailfrom, sa_rcptto, sa_seenmail, sa_rcptcount. done.
  - apply Hnone; [done|by apply Hrel|done|done|congruence].
  - split; [congruence|by apply Hrel|intros; apply Hk; auto|]. exists rs. rewrite Em, Er. split_and!; try done. congruence.
  - apply Hnone; auto. intros _. by rewrite ml_over.
  - apply Hnone; auto. intros _. by rewrite ma_over.
  - split; [congruence|congruence|by rewrite ra_over|]. destruct ra_address as (a & _ & Hrel' & Hhosts & E). rewrite Hr in E. simpl in E.
    destruct ra_limits as [L1 L2]. specialize (H5 ra_began). rewrite H5 in L1, L2, ra_rcptcount. rewrite wrap_succ in *.
    exists (rs ++ [a]). rewrite ra_mailfrom, recipients_part_snoc, length_app. simpl length. split_and!.
    + by rewrite E, H1.
    + apply Forall_app. split; [done|]. constructor; [|done]. split; auto.
    + intros Hm. specialize (H3 Hm). specialize (L2 Hm). unfold wrap in L2.
      rewrite Z.mod_small in L2 by lia. lia.
    + intros Hpos. specialize (H4 Hpos). specialize (L1 Hpos). unfold wrap in L1. rewrite Z.mod_small in L1 by lia. lia.
    + intros _. done.
Qed.

Lemma dialogue_closed s log s1 : (maxrcptcount cf < 2 ^ 31)%Z → dialogue False s log s1 → closed s → closed s1.
Proof.
  intros Hmax Hd. induction Hd as [|s w word arg rest b s1 reply log s2 Hc Hw Hx E Hr Hd IH]; intros Hs; [done|].
  apply IH. assert (Hs' : closed (set_sm (set_client rest (sm s)) s)) by (by destruct Hs).
  pose proof (effective_dispatch cf ipme beyond smtp_auth smtp_etrn smtp_atrn smtp_tls False w word arg Hsrs Hw Hx _
    (cl_authd _ Hs')) as He.
  unfold wp in He. rewrite E in He. cbn [fst snd] in He. destruct He as (reply' & _ & He). by eapply closed_step.
Qed.

(** ** DATA at the end of a dialogue *)

Lemma dispatch_data w word arg : smtp_port cf ≠ 366%Z ∨ port cf ≠ 366%Z → word_is "data" word = true →
  dispatch w word arg = smtp_data_command cf w arg.
Proof.
  intros Hport Hword. unfold SmtpdEnvelope.dispatch, SmtpdEnvelope.cmdptr. rewrite decide_False by tauto.
  assert (Hd : ∀ l, filter (λ c : string * handler, case_equal (lit c.1) word = true) (mail_commands cf ipme beyond w ++ l) =
    ("data"%string, λ _, smtp_data_command cf w) :: filter (λ c : string * handler, case_equal (lit c.1) word = true) l).
  { intros l. unfold mail_commands. cbn [app]. rewrite !filter_cons. cbn [fst].
    rewrite !word_is_equal by reflexivity.
    rewrite (decide_False (P := word_is "rcpt" word = true)), (decide_False (P := word_is "mail" word = true)), decide_True;
      [done|done|unfold word_is; by rewrite (word_of _ _ Hword)..]. }
  case_decide; by rewrite Hd.
Qed.
End session.

Section queue.
Context {L : LibQmail} {K : CaseLib} {KL : CaseLaws K} {C : Commands} (cf : session_conf).
Context (ipme : list (list Z)) (beyond : bytes) (smtp_auth smtp_etrn smtp_atrn smtp_tls : bytes → SS unit).
Context (Hsrs : srs_domain cf = []) (Hport : smtp_port cf ≠ 366%Z ∨ port cf ≠ 366%Z).
Context (Hdb : (0 ≤ databytes (data cf) < 2 ^ 64 - 1)%Z).
Context (cfg : config) (st : setting) (s0 : qqueue) (use_fsync use_fdatasync : bool).
Context (scan_int' scan_uint' : bytes → Z) (case_equal' : bytes → bytes → bool).
Context (mess822_ok : bytes → bool) (line_beyond : bytes → bytes) (Hfresh : fresh s0).

#[local] Abbreviation dialogue lent := (dialogue cf ipme beyond smtp_auth smtp_etrn smtp_atrn smtp_tls lent).
#[local] Abbreviation dispatch := (dispatch cf ipme beyond smtp_auth smtp_etrn smtp_atrn smtp_tls).
#[local] Abbreviation given := (given s0).
#[local] Abbreviation queue :=
  (qmail_queue cfg st use_fsync use_fdatasync scan_int' scan_uint' case_equal' mess822_ok line_beyond).
#[local] Abbreviation verdict := (QueueSpec.verdict st scan_int' scan_uint' case_equal' mess822_ok line_beyond).
#[local] Abbreviation queued m e := (QueueTheorems.queued cfg st (given m e) use_fsync use_fdatasync).
#[local] Abbreviation queue_result :=
  (SmtpdData.queue_end cfg st s0 use_fsync use_fdatasync scan_int' scan_uint' case_equal' mess822_ok line_beyond).

(** The client asks to send the message [ls], and qmail-queue takes it. *)
Record asks (w : lookups) (pipes : list bool) (ls : list bytes) (s : session) : Prop := {
  as_opened : opened w = Some pipes;
  as_queue env : queue_end w env = queue_result;
  as_lines : Forall (λ l, c_lf ∉ l) ls;
  as_client : ∃ word rest, word_is "data" word = true ∧
    next_command (client (sm s)) = Some (word, [], (wire_lines ls ++ c_dot :: crlf) ++ rest)
}.
(** The message is queued, or was to be dropped. *)
Definition in_queue (m e : bytes) : Prop :=
  verdict (given m e) = inr None ∨
  ∃ d o, verdict (given m e) = inr (Some (d, o)) ∧ queued m e d o (run queue (given m e)).

(** The DATA command that is read next, and its reply. *)
Definition data_step (w : lookups) (s s1 : session) (reply : bytes) : Prop := ∃ word arg rest r,
  next_command (client (sm s)) = Some (word, arg, rest) ∧
  dispatch w word arg (set_sm (set_client rest (sm s)) s) = (r, s1) ∧
  replies (sm s1) = replies (sm s) ++ reply.
Definition go_ahead : bytes := lit "354 go ahead" ++ crlf.

(** Without these it does not ask for the message. *)
Lemma went_ahead conf pipes end_of when x r x1 t : smtp_data conf [] (Some pipes) end_of when x = (r, x1) →
  replies x1 = replies x ++ go_ahead ++ t →
  seenmail x = true ∧ rcptto x ≠ [] ∧ rcptcount x ≠ 0%Z ∧ flagsize x = false.
Proof.
  intros E Hr.
  cut (wp (smtp_data conf [] (Some pipes) end_of when) (λ _ x1,
    (seenmail x = true ∧ rcptto x ≠ [] ∧ rcptcount x ≠ 0%Z ∧ flagsize x = false) ∨
    ∃ u, head u ≠ Some 51%Z ∧ replies x1 = replies x ++ u) x).
  { unfold wp. rewrite E. intros [H|(u & Hu & H)]; [exact H|]. cbn [snd] in H. rewrite Hr in H.
    by apply (inj (app _)) in H as <-. }
  unfold smtp_data. apply wp_bind, wp_getS. cbn [negb]. rewrite bool_decide_true by done. cbn [negb].
  destruct (seenmail x); cbn [negb]; [|right; by eexists; split; [|reflexivity]].
  destruct (decide (rcptto x = [] ∨ rcptcount x = 0%Z)) as [|Hn]; [right; by eexists; split; [|reflexivity]|].
  destruct (flagsize x); [right; by eexists; split; [|reflexivity]|]. unfold wp. left. tauto.
Qed.

Lemma data_command_run w arg s r s1 : smtp_data_command cf w arg s = (r, s1) →
  ∃ r' x, smtp_data (data_conf cf w s) arg (opened w) (queue_end w (environ s)) (now w) (sm s) = (r', x) ∧ s1 = set_sm x s.
Proof.
  intros E.
  cut (wp (smtp_data_command cf w arg) (λ _ s1, ∃ r' x,
    smtp_data (data_conf cf w s) arg (opened w) (queue_end w (environ s)) (now w) (sm s) = (r', x) ∧ s1 = set_sm x s) s).
  { unfold wp. by rewrite E. }
  apply wp_bind, wp_getS, wp_qbind, wp_on_sm. unfold wp.
  destruct (smtp_data _ _ _ _ _ (sm s)) as [[e|[]] x] eqn:Ed; cbn [fst snd]; by eexists _, _.
Qed.

(** What the reply to the message says, and when it is 250. *)
Definition settled (w : lookups) (pipes : list bool) (ls : list bytes) (from rcpts reply : bytes) : Prop :=
  let m := received_field w ++ unlines ls in
  let e := envelope_for from rcpts in
  (head reply = Some 50%Z → in_queue m e) ∧
  (∀ d o, undisturbed cfg st (given m e) → (true ∉ pipes) → looping (data cf) ls = false →
    too_big (data cf) (unlines ls) = false → verdict (given m e) = inr (Some (d, o)) →
    reply = lit "250 ok " ++ fmt_ulong (now w) ++ lit " qp " ++ fmt_ulong (queue_pid w) ++ crlf ∧
    queued m e d o (run queue (given m e))).

Lemma data_settled w pipes ls s s1 reply : ((databytes (data cf) ≤ 0)%Z → BytesToOverflow (sm s) = 0%Z) →
  asks w pipes ls s → data_step w s s1 (go_ahead ++ reply) →
  settled w pipes ls (mailfrom (sm s)) (rcptto (sm s)) reply.
Proof.
  intros Hl [Ho Hq Hls (word & rest & Hword & Hn)] (word' & arg & rest' & r & Hn' & E & Hr).
  rewrite Hn in Hn'. injection Hn' as <- <- <-. rewrite dispatch_data in E by done.
  apply data_command_run in E as (r' & x & E & ->). cbn [set_sm sm] in *. rewrite Ho in E.
  set (s2 := set_client _ (sm s)) in *. pose proof E as E'. eapply (went_ahead _ _ _ _ s2) in E' as (H1 & H2 & H3 & H4); [|exact Hr].
  assert (Hin : in_order (data_conf cf w (set_sm s2 s)) s2).
  { split; try done. simpl. destruct (decide (databytes (data cf) ≤ 0)%Z); [right; split; [lia|by apply Hl]|left; lia]. }
  rewrite Hq in E.
  pose proof (reply_means_queued (data_conf cf w (set_sm s2 s)) cfg st s0 use_fsync use_fdatasync scan_int' scan_uint' case_equal'
    mess822_ok line_beyond ls pipes (now w) rest s2 Hin Hls eq_refl Hfresh) as H.
  cbv zeta in H. rewrite E in H. destruct H as (t & _ & Ht & Hyes & Hno).
  rewrite Hr in Ht. unfold go_ahead in Ht. rewrite <- (assoc_L app (lit _)) in Ht. do 3 apply (inj (app _)) in Ht. subst t.
  split; [exact Hyes|exact Hno].
Qed.
(** C31: what the client agreed to is what is queued.  Take any dialogue that begins
    with a session as it is set up, in which the client gives MAIL only when there is
    no transaction, and let the first replies tell of a sender [from] and recipients
    [rs] at its end.  When DATA is then answered with 354 and the message ends, a
    reply that starts with 2 says that the message is in the queue, with the Received
    field before all its lines, from [from] and to [rs], in their order and each as
    often as it was accepted, with RELAYCLIENT behind each; and if nothing fails and
    the limits are kept, then the reply is 250. *)
Theorem transaction_queued lent ss log s w pipes ls from rs s1 reply :
  begun ss → dialogue lent ss log s → orderly cf ipme None log → transaction_of cf ipme log = Some (from, rs) →
  asks w pipes ls s → data_step w s s1 (go_ahead ++ reply) →
  settled w pipes ls from (recipients_part (default [] (relayclient ss)) rs) reply.
Proof.
  intros Hb Hd Ho Ht Hasks Hdata.
  assert (Htr : tracks cf (default [] (relayclient ss)) (Some (from, rs)) s).
  { rewrite <- Ht. eapply dialogue_tracks; [done|exact Hd|by apply begun_tracks|done]. }
  destruct Htr as [_ _ Hl (_ & <- & <- & _)]. by eapply data_settled.
Qed.

End queue.
