(* ===== verification/QmtpdTheorems.v ===== *)
(** * A message by QMTP

    What qmail-remote sends by QMTP, qmail-qmtpd hands to qmail-queue, and what it
    answers, qmail-remote reports. *)

From S2P Require Import Prelude LibQmail Filesys QmailQueue Rcpthosts Qmail QmailRemote RemoteMain SmtpdTheorems SmtpdData Qmtpd.

(** ** Numbers *)

Lemma value_grows ds v : Forall (λ c, is_digit c = true) ds → (0 ≤ v)%Z →
  (v ≤ foldl (λ v d, v * 10 + (d - 48)) v ds)%Z.
Proof.
  intros Hds. revert v. induction Hds as [|d ds Hd _ IH]; intros v Hv; simpl; [lia|].
  apply bool_decide_eq_true in Hd. specialize (IH (v * 10 + (d - 48))%Z). lia.
Qed.

(** A length that is taken. *)
Definition fits (n : Z) : Prop := (0 ≤ n ≤ 200000000)%Z.

Lemma fits_ulong n : fits n → ulong n.
Proof. unfold fits, ulong. lia. Qed.

Lemma cstr_whole s : 0%Z ∉ s → cstr s = s.
Proof.
  induction s as [|c s IH]; intros Hs; simpl; [done|]. apply not_elem_of_cons in Hs as [Hc Hs].
  rewrite decide_False by done. by rewrite IH.
Qed.

(** ** The server *)

Section server.
Context {L : LibQmail} {LL : LibQmailLaws L} (cf : qmtpd_conf) (case_lower : bytes → bytes).

Lemma wp_set f (Q : Z + unit → qmtpd → Prop) s : Q (inr tt) (f s) → wp (change f) Q s.
Proof. done. Qed.
Lemma wp_getch c r s (Q : Z + Z → qmtpd → Prop) :
  client s = c :: r → Q (inr c) (set_client r s) → wp getch Q s.
Proof. intros Hc HQ. unfold getch. apply wp_bind, wp_getS. rewrite Hc. by apply wp_qbind, wp_set, wp_ok. Qed.
Lemma wp_getn b r s (Q : Z + bytes → qmtpd → Prop) :
  client s = b ++ r → Q (inr b) (set_client r s) → wp (getn (length b)) Q s.
Proof.
  revert s Q. induction b as [|c b IH]; intros s Q Hc HQ; simpl in *.
  { apply wp_ok. destruct s. simpl in *. by subst. }
  apply wp_qbind. eapply wp_getch; [done|]. apply wp_qbind, IH; [done|]. by apply wp_ok.
Qed.

Lemma wp_digit len c s (Q : Z + Z → qmtpd → Prop) :
  is_digit c = true → (0 ≤ len)%Z → (len * 10 + (c - 48) ≤ 200000000)%Z →
  Q (inr (len * 10 + (c - 48))%Z) s → wp (digit len c) Q s.
Proof.
  intros Hd Hl Hb HQ. apply bool_decide_eq_true in Hd. unfold digit. rewrite decide_False by lia.
  unfold wrap. rewrite Z.mod_small by lia. rewrite decide_False by lia. apply wp_ok.
  by replace (10 * len + (c - 48))%Z with (len * 10 + (c - 48))%Z by lia.
Qed.
Lemma digit_not_colon c : is_digit c = true → c ≠ c_colon.
Proof. by intros Hd ->. Qed.

Lemma wp_getlen_loop ds r fuel len s (Q : Z + Z → qmtpd → Prop) :
  client s = ds ++ c_colon :: r → Forall (λ c, is_digit c = true) ds → length ds < fuel → (0 ≤ len)%Z →
  (foldl (λ v d, v * 10 + (d - 48)) len ds ≤ 200000000)%Z →
  Q (inr (foldl (λ v d, v * 10 + (d - 48)) len ds)%Z) (set_client r s) → wp (getlen_loop fuel len) Q s.
Proof.
  revert fuel len s. induction ds as [|d ds IH]; intros fuel len s Hc Hds Hf Hl Hb HQ;
    (destruct fuel as [|fuel]; [simpl in Hf; lia|]); cbn [getlen_loop]; apply wp_qbind; (eapply wp_getch; [exact Hc|]).
  - rewrite decide_True by done. by apply wp_ok.
  - apply Forall_cons in Hds as [Hd Hds]. rewrite decide_False by (by apply digit_not_colon).
    pose proof (value_grows ds (len * 10 + (d - 48)) Hds). pose proof Hd as Hd'. apply bool_decide_eq_true in Hd'.
    simpl in *. apply wp_qbind, wp_digit; [done..|lia|]. apply IH; done || lia.
Qed.
Lemma wp_getlen n r s (Q : Z + Z → qmtpd → Prop) :
  client s = fmt_ulong n ++ c_colon :: r → fits n → Q (inr n) (set_client r s) → wp getlen Q s.
Proof.
  intros Hc Hn HQ. pose proof (fits_ulong n Hn) as Hu. unfold getlen. apply wp_bind, wp_getS.
  rewrite fmt_ulong_ok in Hc by done. pose proof (value_of_decimal n Hu) as Hv. unfold value_of in Hv.
  eapply wp_getlen_loop; [exact Hc|by apply decimal_digits|rewrite Hc, length_app; lia|lia|..]; rewrite Hv; [apply Hn|done].
Qed.
Lemma wp_getcomma r s (Q : Z + unit → qmtpd → Prop) :
  client s = lit "," ++ r → Q (inr tt) (set_client r s) → wp getcomma Q s.
Proof. intros Hc HQ. apply wp_qbind. eapply wp_getch; [exact Hc|]. rewrite decide_False; [by apply wp_ok|by intros []]. Qed.

(** The length of a recipient. *)
Lemma wp_rcpt_len ds r fuel biglen len s (Q : Z + (Z * Z) → qmtpd → Prop) :
  client s = ds ++ c_colon :: r → Forall (λ c, is_digit c = true) ds → length ds < fuel → (0 ≤ len)%Z →
  (foldl (λ v d, v * 10 + (d - 48)) len ds ≤ 200000000)%Z → (Z.of_nat (length ds) < biglen)%Z →
  Q (inr (biglen - Z.of_nat (length ds) - 1, foldl (λ v d, v * 10 + (d - 48)) len ds)%Z) (set_client r s) →
  wp (rcpt_len fuel biglen len) Q s.
Proof.
  revert fuel biglen len s. induction ds as [|d ds IH]; intros fuel biglen len s Hc Hds Hf Hl Hb Hbig HQ;
    (destruct fuel as [|fuel]; [simpl in Hf; lia|]); cbn [rcpt_len]; simpl length in *;
    rewrite decide_False by lia; apply wp_qbind; (eapply wp_getch; [exact Hc|]).
  - rewrite decide_True by done. apply wp_ok. simpl in HQ. by replace (biglen - 1)%Z with (biglen - 0 - 1)%Z by lia.
  - apply Forall_cons in Hds as [Hd Hds]. rewrite decide_False by (by apply digit_not_colon).
    pose proof (value_grows ds (len * 10 + (d - 48)) Hds). pose proof Hd as Hd'. apply bool_decide_eq_true in Hd'.
    simpl foldl in *. apply wp_qbind, wp_digit; [done..|lia|]. apply IH; try done || lia.
    by replace (biglen - 1 - Z.of_nat (length ds) - 1)%Z with (biglen - Z.of_nat (S (length ds)) - 1)%Z by lia.
Qed.

(** ** What qmail-queue is given *)

(** [m] and [e] were written unless something failed; all is well when [good], and
    it is known to have failed when [bad]. *)
Definition track (good bad : Prop) (m e : bytes) (b : bool) (q : qmail) : Prop :=
  intact m e b q ∧ (good → healthy q) ∧ (bad → flagerr q = true).

Lemma track_put good bad m e b t q :
  track good bad m e b q → track good bad (if b then m else m ++ t) (if b then e ++ t else e) b (qmail_put t q).
Proof.
  intros (H1 & H2 & H3). split; [by apply intact_put|]. split; [intros H; by apply healthy_put, H2|].
  intros H. by apply put_failed, H3.
Qed.
Lemma track_fail good bad m e b q : track good bad m e b q → track False True m e b (qmail_fail q).
Proof. intros (H1 & _). by split; [apply intact_fail|]. Qed.
Lemma track_from good bad m e a q :
  track good bad m e false q → track good bad m (e ++ lit "F" ++ a ++ [0%Z]) true (qmail_from a q).
Proof.
  intros (H1 & H2 & H3). split; [by apply intact_from|]. split; [intros H; by apply healthy_from, H2|].
  intros H. by apply from_failed, H3.
Qed.
Lemma track_to good bad m e a q :
  track good bad m e true q → track good bad m (e ++ lit "T" ++ a ++ [0%Z]) true (qmail_to a q).
Proof. intros H. unfold qmail_to. rewrite !(assoc_L app). by do 3 apply (track_put _ _ _ _ true). Qed.
Lemma track_weaken (good bad good' bad' : Prop) m e b q :
  (good' → good) → (bad' → bad) → track good bad m e b q → track good' bad' m e b q.
Proof. intros Hg Hb (H1 & H2 & H3). split; auto. Qed.

(** The message, in lines that end with a line feed. *)
Lemma wp_unix_loop good bad m0 m r s (Q : Z + unit → qmtpd → Prop) :
  client s = m ++ r → track good bad m0 [] false (qq s) →
  (∀ q, track good bad (m0 ++ m) [] false q → Q (inr tt) (set_qq q (set_client r s))) →
  wp (unix_loop (length m)) Q s.
Proof.
  revert m0 s. induction m as [|c m IH]; intros m0 s Hc Ht HQ; simpl in *.
  { apply wp_ok. specialize (HQ (qq s)). rewrite app_nil_r in HQ. destruct s. simpl in *. subst. auto. }
  apply wp_qbind. eapply wp_getch; [done|]. apply wp_qbind, wp_set. apply (IH (m0 ++ [c])); [done| |].
  - by apply (track_put good bad m0 [] false).
  - intros q Hq. apply HQ. by rewrite <- (assoc_L app) in Hq.
Qed.

(** ** Recipients *)

Definition relay : bytes := default [] (relayclient cf).
Definition noted (r : bytes) : Z :=
  if decide (1000 ≤ Z.of_nat (length r) + Z.of_nat (length relay))%Z then 76%Z
  else
    let n := if bool_decide (0%Z ∈ r) then 78%Z else 0%Z in
    match relayclient cf with
    | Some _ => n
    | None => if decide (rcpthosts case_lower (hosts cf) false r = 0%Z) then 68%Z else n
    end.
Definition accepted (rs : list bytes) : list bytes := filter (λ r, noted r = 0%Z) rs.
Definition envelope_part (rs : list bytes) : bytes := mjoin (map (λ r, lit "T" ++ (r ++ relay) ++ [0%Z]) (accepted rs)).

(** A recipient that can be looked up. *)
Definition lookable (r : bytes) : Prop := fits (Z.of_nat (length r)) ∧ rcpthosts case_lower (hosts cf) false r ≠ (-1)%Z.

Lemma noted_zero r : noted r = 0%Z → 0%Z ∉ r.
Proof.
  unfold noted. destruct (decide (1000 ≤ _)%Z); [done|]. destruct (bool_decide (0%Z ∈ r)) eqn:E.
  - destruct (relayclient cf); [done|]. by destruct (decide (rcpthosts _ _ _ _ = 0%Z)).
  - intros _. by apply bool_decide_eq_false in E.
Qed.

Lemma wp_verdict r s (Q : Z + Z → qmtpd → Prop) : lookable r → Q (inr (noted r)) s →
  wp (if decide (1000 ≤ Z.of_nat (length r) + Z.of_nat (length (default [] (relayclient cf))))%Z then ok 76%Z
      else rcpt_verdict cf case_lower r) Q s.
Proof.
  intros [_ Hr] HQ. unfold noted, relay in HQ. case_decide; [by apply wp_ok|]. unfold rcpt_verdict.
  destruct (relayclient cf); [by apply wp_ok|]. rewrite decide_False by done. by case_decide; apply wp_ok.
Qed.

Lemma netstring_length r : (0 < Z.of_nat (length (netstring r)))%Z.
Proof. unfold netstring. rewrite !length_app. simpl. lia. Qed.

(** What one recipient comes to. *)
Lemma wp_one_rcpt good bad m e r rest s fl biglen fuel (Q : Z + bool → qmtpd → Prop) :
  client s = netstring r ++ rest → lookable r → 0%Z ∉ relay → track good bad m e true (qq s) →
  (Z.of_nat (length (netstring r)) ≤ biglen)%Z →
  (∀ q, track good bad m (if decide (noted r = 0%Z) then e ++ lit "T" ++ (r ++ relay) ++ [0%Z] else e) true q →
     wp (rcpt_loop cf case_lower fuel (biglen - Z.of_nat (length (netstring r))) (fl || bool_decide (noted r = 0%Z))) Q
       (set_qq q (set_failure (failure s ++ [noted r]) (set_client rest s)))) →
  wp (rcpt_loop cf case_lower (S fuel) biglen fl) Q s.
Proof.
  intros Hc Hr Hrelay Ht Hbig HQ. pose proof Hr as [Hfit _]. pose proof (fits_ulong _ Hfit) as Hu.
  set (n := Z.of_nat (length r)) in *. cbn [rcpt_loop].
  pose proof (netstring_length r) as Hpos. rewrite decide_False by lia.
  assert (Z.of_nat (length (netstring r)) = Z.of_nat (length (decimal n)) + 1 + n + 1)%Z as Hlen.
  { unfold netstring. rewrite fmt_ulong_ok by done. unfold n. rewrite !length_app. simpl. lia. }
  unfold netstring in Hc. rewrite fmt_ulong_ok in Hc by done. rewrite <- !(assoc_L app) in Hc. cbn [app] in Hc.
  pose proof (value_of_decimal n Hu) as Hv. unfold value_of in Hv.
  apply wp_qbind. eapply (wp_rcpt_len (decimal n)); [exact Hc|by apply decimal_digits|lia|lia| |lia|]; rewrite Hv; [apply Hfit|].
  cbv iota beta. rewrite decide_False by lia.
  apply wp_qbind. subst n. rewrite Nat2Z.id. eapply wp_getn; [done|].
  apply wp_qbind, wp_verdict; [done|]. apply wp_qbind, wp_set, wp_qbind.
  replace (biglen - Z.of_nat (length (decimal (Z.of_nat (length r)))) - 1 - (Z.of_nat (length r) + 1))%Z
    with (biglen - Z.of_nat (length (netstring r)))%Z by lia.
  destruct (decide (noted r = 0%Z)) as [E|E].
  - apply wp_set, wp_qbind. eapply wp_getcomma; [done|]. simpl.
    assert (cstr (r ++ relay) = r ++ relay) as Hcs.
    { apply cstr_whole. pose proof (noted_zero r E). set_solver. }
    fold relay. rewrite Hcs. apply (HQ (qmail_to (r ++ relay) (qq s))). by apply track_to.
  - apply wp_ok, wp_qbind. eapply wp_getcomma; [done|]. by apply (HQ (qq s)).
Qed.

Lemma envelope_cons r rs : envelope_part (r :: rs) =
  (if decide (noted r = 0%Z) then lit "T" ++ (r ++ relay) ++ [0%Z] else []) ++ envelope_part rs.
Proof. unfold envelope_part, accepted. rewrite filter_cons. by destruct (decide (noted r = 0%Z)). Qed.

Lemma wp_rcpts good bad m e rs rest s fl fuel (Q : Z + bool → qmtpd → Prop) :
  client s = mjoin (map netstring rs) ++ rest → Forall lookable rs → 0%Z ∉ relay → length rs < fuel →
  track good bad m e true (qq s) →
  (∀ q, track good bad m (e ++ envelope_part rs) true q →
     Q (inr (fl || bool_decide (0%Z ∈ map noted rs)))
       (set_qq q (set_failure (failure s ++ map noted rs) (set_client rest s)))) →
  wp (rcpt_loop cf case_lower fuel (Z.of_nat (length (mjoin (map netstring rs)))) fl) Q s.
Proof.
  intros Hc Hrs Hrelay. revert e s fl fuel Hc. induction Hrs as [|r rs Hr _ IH]; intros e s fl fuel Hc Hf Ht HQ.
  - destruct fuel as [|fuel]; [simpl in Hf; lia|]. cbn [rcpt_loop]. rewrite decide_True by done. apply wp_ok.
    simpl in *. specialize (HQ (qq s)). rewrite !app_nil_r, orb_false_r in HQ. destruct s. simpl in *. subst. by apply HQ.
  - destruct fuel as [|fuel]; [simpl in Hf; lia|].
    change (mjoin (map netstring (r :: rs))) with (netstring r ++ mjoin (map netstring rs)) in *.
    rewrite <- (assoc_L app) in Hc. eapply (wp_one_rcpt good bad m e); [exact Hc|done|done|exact Ht|rewrite length_app; lia|].
    intros q Hq. replace (_ - _)%Z with (Z.of_nat (length (mjoin (map netstring rs)))) by (rewrite length_app; lia).
    eapply IH; [done|simpl in Hf; lia|exact Hq|]. intros q' Hq'.
    replace (fl || bool_decide (noted r = 0%Z) || bool_decide (0%Z ∈ map noted rs))
      with (fl || bool_decide (0%Z ∈ map noted (r :: rs))).
    + simpl. rewrite <- (assoc_L app). apply (HQ q'). rewrite envelope_cons.
      destruct (decide (noted r = 0%Z)); [|done]. by rewrite (assoc_L app e).
    + rewrite <- orb_assoc. f_equal. rewrite <- bool_decide_or. apply bool_decide_ext. simpl.
      rewrite elem_of_cons. naive_solver.
Qed.

(** ** One message *)

(** What a client sends for a message in lines that end with a line feed. *)
Definition request (m from : bytes) (rs : list bytes) : bytes :=
  fmt_ulong (Z.of_nat (length m) + 1) ++ [c_colon; c_lf] ++ m ++ lit "," ++ netstring from ++
  netstring (mjoin (map netstring rs)).

(** The lengths are within the limits. *)
Record sendable (m from : bytes) (rs : list bytes) : Prop := {
  sb_message : fits (Z.of_nat (length m) + 1);
  sb_from : length from < 1000;
  sb_from_zero : 0%Z ∉ from;
  sb_rcpts : fits (Z.of_nat (length (mjoin (map netstring rs))));
  sb_lookable : Forall lookable rs;
  sb_relay : 0%Z ∉ relay
}.
Definition too_long (m : bytes) : bool := bool_decide (databytes cf ≠ 0 ∧ databytes cf < Z.of_nat (length m))%Z.

Lemma wp_netstring d rest s (Q : Z + Z → qmtpd → Prop) :
  client s = netstring d ++ rest → fits (Z.of_nat (length d)) →
  Q (inr (Z.of_nat (length d))) (set_client (d ++ lit "," ++ rest) s) → wp getlen Q s.
Proof.
  intros Hc Hd HQ. eapply wp_getlen; [|done|exact HQ]. rewrite Hc. unfold netstring.
  by rewrite <- !(assoc_L app).
Qed.

Lemma wp_sender good bad m a rest s (Q : Z + bool → qmtpd → Prop) :
  client s = netstring a ++ rest → length a < 1000 → 0%Z ∉ a → track good bad m [] false (qq s) →
  (∀ q, track good bad m (lit "F" ++ a ++ [0%Z]) true q → Q (inr true) (set_qq q (set_client rest s))) →
  wp sender Q s.
Proof.
  intros Hc Ha Hz Ht HQ. apply wp_qbind. eapply wp_netstring; [exact Hc|split; lia|].
  rewrite Nat2Z.id. apply wp_qbind. eapply wp_getn; [done|]. apply wp_qbind. eapply wp_getcomma; [done|].
  rewrite (bool_decide_false (1000 ≤ _)%Z), (bool_decide_false (0%Z ∈ a)) by (done || lia). cbn [negb andb].
  apply wp_qbind, wp_set, wp_qbind, wp_ok, wp_ok. rewrite cstr_whole by done. apply HQ. simpl.
  by apply (track_from good bad m []).
Qed.

Lemma wp_message good bad m r s (Q : Z + unit → qmtpd → Prop) :
  client s = m ++ r → track good bad (received cf) [] false (qq s) →
  (∀ q b, track (good ∧ too_long m = false) (bad ∨ too_long m = true) (received cf ++ m) [] false q →
     b = (if too_long m then 0%Z else bytestooverflow s) →
     Q (inr tt) (set_bytestooverflow b (set_qq q (set_client r s)))) →
  wp (message cf false (Z.of_nat (length m))) Q s.
Proof.
  intros Hc Ht HQ. unfold message. rewrite Nat2Z.id. unfold too_long in HQ. apply wp_qbind.
  destruct (decide (databytes cf ≠ 0 ∧ databytes cf < Z.of_nat (length m))%Z) as [Hb|Hb].
  - rewrite bool_decide_true in HQ by done. apply wp_qbind, wp_set, wp_set.
    eapply (wp_unix_loop False True); [done|by eapply track_fail|]. intros q Hq.
    eapply (HQ q 0%Z); [|done]. eapply track_weaken; [| |exact Hq]; naive_solver.
  - rewrite bool_decide_false in HQ by done. apply wp_ok.
    eapply (wp_unix_loop good bad); [done|exact Ht|]. intros q Hq.
    assert (s = set_bytestooverflow (bytestooverflow s) s) as Es by by destruct s.
    rewrite Es. eapply (HQ q (bytestooverflow s)); [|done]. eapply track_weaken; [| |exact Hq]; naive_solver.
Qed.

(** What is submitted, and whether it is to be. *)
Definition submission (m from : bytes) (rs : list bytes) : bytes * bytes :=
  (received cf ++ m, lit "F" ++ from ++ [0%Z] ++ envelope_part rs).
Definition wanted (m : bytes) (rs : list bytes) : Prop := too_long m = false ∧ 0%Z ∈ map noted rs.

Lemma netstrings_length rs : length rs ≤ length (mjoin (map netstring rs)).
Proof.
  induction rs as [|r rs IH]; [simpl; lia|]. pose proof (netstring_length r).
  change (mjoin (map netstring (r :: rs))) with (netstring r ++ mjoin (map netstring rs)).
  rewrite length_app. simpl length. lia.
Qed.

(** The count of bytes is zero exactly if the message is too long. *)
Definition count_from (n : Z) : Z := if decide (databytes cf = 0%Z) then n else wrap 32 (databytes cf + 1).
Lemma wp_count s (Q : Z + unit → qmtpd → Prop) :
  Q (inr tt) (set_bytestooverflow (count_from (bytestooverflow s)) s) →
  wp (if decide (databytes cf = 0%Z) then ok tt else change (set_bytestooverflow (wrap 32 (databytes cf + 1)))) Q s.
Proof.
  unfold count_from. case_decide; intros HQ; [|by apply wp_set]. apply wp_ok. by destruct s.
Qed.
Lemma count_ok m n : (0 ≤ databytes cf < 2 ^ 32 - 1)%Z →
  bool_decide (databytes cf ≠ 0 ∧ (if too_long m then 0 else count_from n) = 0)%Z = too_long m.
Proof.
  intros Hdb. unfold too_long, count_from, wrap. rewrite Z.mod_small by lia. apply bool_decide_ext.
  case_bool_decide; destruct (decide (databytes cf = 0%Z)); naive_solver lia.
Qed.

Lemma wp_one_message p end_of m from rs rest s (Q : Z + unit → qmtpd → Prop) :
  sendable m from rs → (0 ≤ databytes cf < 2 ^ 32 - 1)%Z → client s = request m from rs ++ rest →
  (∀ q s', track ((true ∉ p) ∧ wanted m rs) (¬ wanted m rs) (submission m from rs).1 (submission m from rs).2 true q →
     client s' = rest →
     (let z := qmail_put [0%Z] q in
      replies s' = replies s ++ mjoin (map (answer_to (result cf true (too_long m)
        (qmail_close (end_of (to_mess z) (to_env z)) q))) (map noted rs))) →
     Q (inr tt) s') →
  wp (one_message cf case_lower (Some p) end_of) Q s.
Proof.
  intros [H1 H2 H3 H4 H5 H6] Hdb Hc HQ. unfold request in Hc. rewrite <- !(assoc_L app) in Hc.
  apply wp_qbind, wp_set, wp_qbind. eapply wp_getlen; [exact Hc|done|].
  rewrite decide_False by (unfold fits in H1; lia). apply wp_qbind.
  apply wp_count, wp_qbind, wp_set, wp_qbind. eapply wp_getch; [done|]. rewrite decide_False by naive_solver.
  rewrite (bool_decide_false (c_lf = c_cr)) by done.
  replace (Z.of_nat (length m) + 1 - 1)%Z with (Z.of_nat (length m)) by lia.
  apply wp_qbind, wp_qbind, wp_set. set (s2 := set_qq _ _).
  eapply (wp_message (true ∉ p) False m); [done| |].
  { unfold s2. simpl. apply (track_put _ _ [] [] false). split; [done|]. split; [by split|done]. }
  intros q b Hq Hb. apply wp_qbind. eapply wp_getcomma; [done|]. apply wp_qbind.
  eapply wp_sender; [done..|exact Hq|]. intros q1 Hq1. apply wp_qbind.
  eapply wp_netstring; [done|done|]. apply wp_qbind.
  eapply (wp_rcpts _ _ _ _ rs); [done|done|done|pose proof (netstrings_length rs); lia|exact Hq1|].
  intros q2 Hq2. rewrite <- !(assoc_L app) in Hq2. apply wp_qbind. eapply wp_getcomma; [done|]. apply wp_qbind. cbn [orb].
  assert (Hover : bool_decide (databytes cf ≠ 0 ∧ b = 0)%Z = too_long m) by (subst b; by apply count_ok).
  assert (Hend : ∀ q' s', track ((true ∉ p) ∧ wanted m rs) (¬ wanted m rs) (submission m from rs).1 (submission m from rs).2 true q' →
    client s' = rest → qq s' = q' → bytestooverflow s' = b → failure s' = map noted rs → replies s' = replies s →
    wp (s ← getS;
      let q := qmail_put [0%Z] (qq s) in
      let r := result cf true (bool_decide (databytes cf ≠ 0 ∧ bytestooverflow s = 0)%Z)
                 (qmail_close (end_of (to_mess q) (to_env q)) (qq s)) in
      change (λ s, set_replies (replies s ++ mjoin (map (answer_to r) (failure s))) s)) Q s').
  { intros q' s' Hq' E1 E2 E3 E4 E5. apply wp_bind, wp_getS, wp_set. eapply (HQ q'); [done|done|]. cbn [replies set_replies].
    by rewrite E2, E3, E4, E5, Hover. }
  destruct (bool_decide (0%Z ∈ map noted rs)) eqn:Hany.
  - apply bool_decide_eq_true in Hany. apply wp_ok. apply (Hend q2); [|done..].
    eapply track_weaken; [| |exact Hq2]; unfold wanted; [tauto|]. destruct (too_long m); naive_solver.
  - apply bool_decide_eq_false in Hany. apply wp_set. apply (Hend (qmail_fail q2)); [|done..].
    eapply track_weaken; [| |by eapply track_fail]; unfold wanted; tauto.
Qed.
End server.
