(* ===== verification/RemoteLoop.v ===== *)
(** * When the loop over mail exchangers ends

    Every round of the loop in [main] goes on to the next exchanger, except after a
    failure of TLS or QMTP, which does not happen twice to one of them, and except
    when it comes to one that is not better than this host: then it goes round for
    ever. *)

From S2P Require Import Prelude LibQmail Filesys Tcpto Spawn QmailRemote RemoteMain RemoteSpec.

(** ** What computations leave alone *)

(** A computation that ends the process. *)
Definition ends {A} (m : RM A) : Prop := ∀ s, wp m (λ r _, ∃ e, r = inl e) s.

Lemma ends_exit {A} e : ends (A := A) (mret (inl e)).
Proof. intros s. by exists e. Qed.
Lemma ends_bind {A B} (m : RM A) (k : A → RM B) : (∀ a, ends (k a)) → ends (qbind m k).
Proof.
  intros Hk s. apply wp_qbind, wp_any. intros [e|a] s'; [by exists e|apply Hk].
Qed.
Lemma ends_getS {B} (k : remote → RM B) : (∀ s, ends (k s)) → ends (s ← getS; k s).
Proof. intros Hk s. apply wp_bind, wp_getS, Hk. Qed.
Create HintDb ends.
#[export] Hint Resolve ends_exit : ends.
#[export] Hint Extern 1 (ends (qbind _ _)) => apply ends_bind; intros : ends.
#[export] Hint Extern 1 (ends (mbind _ getS)) => apply ends_getS; intros : ends.
#[export] Hint Extern 2 (ends (match ?x with _ => _ end)) => destruct x : ends.

(** A computation that, when it returns, has the modes of the loop unchanged. *)
Definition keeps {A} (m : RM A) : Prop := ∀ s,
  wp m (λ r s', match r with inr _ => mxps s' = mxps s ∧ notls s' = notls s | inl _ => True end) s.

Lemma keeps_ok {A} (a : A) : keeps (ok a).
Proof. intros s. apply wp_ok. done. Qed.
Lemma keeps_bind {A B} (m : RM A) (k : A → RM B) : keeps m → (∀ a, keeps (k a)) → keeps (qbind m k).
Proof.
  intros Hm Hk s. apply wp_qbind. eapply wp_mono; [apply Hm|]. intros [e|a] s' H; [done|].
  eapply wp_mono; [apply Hk|]. intros [e|b] s'' H'; [done|]. destruct H, H'. split; congruence.
Qed.
Lemma keeps_getS {B} (k : remote → RM B) : (∀ s, keeps (k s)) → keeps (s ← getS; k s).
Proof. intros Hk s. apply wp_bind, wp_getS, Hk. Qed.
Lemma wp_ends {A} (m : RM A) (P : A → remote → Prop) s :
  ends m → wp m (λ r s', match r with inr a => P a s' | inl _ => True end) s.
Proof. intros Hm. eapply wp_mono; [apply Hm|]. by intros r s' [e ->]. Qed.
Lemma keeps_ends {A} (m : RM A) : ends m → keeps m.
Proof. intros Hm s. by apply wp_ends. Qed.
Lemma keeps_look {A} (f : remote → A) : keeps (look f).
Proof. intros s. apply wp_look. done. Qed.
Lemma keeps_update f : (∀ s, mxps (f s) = mxps s ∧ notls (f s) = notls s) → keeps (update f).
Proof. intros Hf s. apply wp_update, Hf. Qed.
Lemma keeps_on_table {A} (m : ST tstate A) : keeps (on_table m).
Proof. intros s. unfold wp, on_table. by destruct (m (table s)). Qed.
Create HintDb keeps.
#[export] Hint Resolve keeps_ok keeps_look keeps_on_table : keeps.
#[export] Hint Extern 1 (keeps (qbind _ _)) => apply keeps_bind; [|intros] : keeps.
#[export] Hint Extern 1 (keeps (mbind _ getS)) => apply keeps_getS; intros : keeps.
#[export] Hint Extern 1 (keeps (update _)) => apply keeps_update; done : keeps.
#[export] Hint Extern 2 (keeps (match ?x with _ => _ end)) => destruct x : keeps.

Section loop.
Context {L : LibQmail} (cf : remote_conf) (case_equal : bytes → bytes → bool).
Context (beyond : bytes → bytes) (host : bytes) (prefme : Z).

Lemma ends_zerodie {A} : ends (A := A) zerodie.
Proof. unfold zerodie. auto with ends. Qed.
#[local] Hint Resolve ends_zerodie : ends.
Lemma ends_dropped {A} : ends (A := A) (dropped cf).
Proof. unfold dropped. eauto 10 with ends. Qed.
Lemma ends_quit {A} p t : ends (A := A) (quit_saying cf p t).
Proof. unfold quit_saying. eauto 10 with ends. Qed.
Lemma ends_qmtp {A} : ends (A := A) (qmtp cf).
Proof. unfold qmtp. destruct (st_size cf); [|apply ends_quit]. eauto 20 with ends. Qed.
Lemma ends_noconn {A} ip : ends (A := A) (temp_noconn cf host ip).
Proof. unfold temp_noconn. eauto 20 with ends. Qed.

Lemma keeps_put d : keeps (put cf d).
Proof.
  intros s. unfold put. apply wp_bind, wp_getS. destruct (lost s) as [|[] r]; [by apply wp_update| |by apply wp_update].
  apply wp_qbind, wp_update, wp_ends, ends_dropped.
Qed.
Lemma keeps_get1 : keeps (get1 cf).
Proof.
  intros s. unfold get1. apply wp_bind, wp_getS. destruct (server s) as [|ch r].
  - apply wp_ends, ends_dropped.
  - apply wp_qbind, wp_update, wp_qbind. case_decide; [apply wp_update|]; by apply wp_ok.
Qed.
#[local] Hint Resolve keeps_put keeps_get1 : keeps.
Lemma keeps_to_lf fuel ch : keeps (to_lf cf fuel ch).
Proof. revert ch. induction fuel; intros ch; simpl; auto with keeps. Qed.
#[local] Hint Resolve keeps_to_lf : keeps.
Lemma keeps_get3 : keeps (get3 cf).
Proof. unfold get3. eauto 10 with keeps. Qed.
#[local] Hint Resolve keeps_get3 : keeps.
Lemma keeps_reply_lines fuel err : keeps (reply_lines cf fuel err).
Proof. revert err. induction fuel; intros err; simpl; unfold rest_of_line; eauto 20 with keeps. Qed.
#[local] Hint Resolve keeps_reply_lines : keeps.
Lemma keeps_smtpcode : keeps (smtpcode cf).
Proof. unfold smtpcode. eauto 20 with keeps. Qed.
#[local] Hint Resolve keeps_smtpcode : keeps.
Lemma keeps_ehlo : keeps (ehlo cf beyond).
Proof. unfold ehlo. eauto 20 with keeps. Qed.
Lemma keeps_quit {A} p t : keeps (A := A) (quit_saying cf p t).
Proof. apply keeps_ends, ends_quit. Qed.
Lemma keeps_quit_text {A} p t : keeps (A := A) (quit cf p t).
Proof. apply keeps_quit. Qed.
Lemma keeps_zerodie {A} : keeps (A := A) zerodie.
Proof. apply keeps_ends, ends_zerodie. Qed.
#[local] Hint Resolve keeps_ehlo keeps_quit keeps_quit_text keeps_zerodie : keeps.
Lemma keeps_blast_loop l eom : keeps (blast_loop cf l eom).
Proof.
  revert eom. induction l as [|[[|c d]|] l IH]; intros eom; cbn [blast_loop]; auto with keeps.
  unfold temp_read, say, out. auto with keeps.
Qed.
#[local] Hint Resolve keeps_blast_loop : keeps.
Lemma keeps_blast : keeps (blast cf).
Proof. unfold blast, perm_partialline, say, out. eauto 20 with keeps. Qed.
Lemma keeps_mailfrom b : keeps (mailfrom cf b).
Proof. unfold mailfrom. eauto 20 with keeps. Qed.
Lemma keeps_rcpt_loop l c b : keeps (rcpt_loop cf l c b).
Proof.
  revert c b. induction l as [|r l IH]; intros c b; cbn [rcpt_loop]; [auto with keeps|].
  unfold say, out, outsafe, outhost, outsmtptext, zero, say, out. eauto 50 with keeps.
Qed.
#[local] Hint Resolve keeps_blast keeps_mailfrom keeps_rcpt_loop : keeps.

(** [do_smtp] alone asks for another attempt without TLS, at a host with which TLS
    was tried. *)
Definition asks_again (s s' : remote) : Prop :=
  mxps s' = mxps s ∧ (notls s' = notls s ∨ notls s = 0%Z ∧ notls s' = 2%Z).
Definition steady {A} (m : RM A) : Prop := ∀ s,
  wp m (λ r s', match r with inr _ => asks_again s s' | inl _ => True end) s.

Lemma steady_keeps {A} (m : RM A) : keeps m → steady m.
Proof.
  intros Hm s. eapply wp_mono; [apply Hm|]. intros [e|a] s'; [done|]. intros [? ?]. split; auto.
Qed.
Lemma steady_bind {A B} (m : RM A) (k : A → RM B) :
  keeps m → (∀ a, steady (k a)) → steady (qbind m k).
Proof.
  intros Hm Hk s. apply wp_qbind. eapply wp_mono; [apply Hm|]. intros [e|a] s' H; [done|].
  eapply wp_mono; [apply Hk|]. intros [e|b] s'' H'; [done|]. unfold asks_again in *.
  destruct H as [<- <-]. done.
Qed.
Lemma steady_getS {B} (k : remote → RM B) : (∀ s, steady (k s)) → steady (s ← getS; k s).
Proof. intros Hk s. apply wp_bind, wp_getS, Hk. Qed.

Lemma steady_do_smtp : steady (do_smtp cf case_equal beyond).
Proof.
  unfold do_smtp. apply steady_bind; [auto with keeps|intros _]. apply steady_getS; intros s.
  apply steady_bind; [auto with keeps|intros _]. apply steady_bind; [auto with keeps|intros tls].
  apply steady_bind; [auto with keeps|intros code]. apply steady_bind; [auto with keeps|intros _].
  case_decide; [apply steady_keeps; auto with keeps|].
  case_decide; [apply steady_keeps; auto with keeps|].
  case_decide; [apply steady_keeps; auto with keeps|].
  apply steady_bind; [auto with keeps|clear; intros code s].
  apply wp_bind, wp_getS, wp_qbind.
  eapply (wp_mono _ (λ r s', match r with
    | inr (Some _) => mxps s' = mxps s ∧ notls s' = notls s
    | inr None => asks_again s s'
    | inl _ => True end)).
  { assert (Hagain : ∀ s0, mxps s0 = mxps s → notls s0 = notls s →
      wp (c ←? ehlo cf beyond; ok (Some c)) (λ r s', match r with
        | inr (Some _) => mxps s' = mxps s ∧ notls s' = notls s
        | inr None => asks_again s s' | inl _ => True end) s0).
    { intros s0 <- <-. apply wp_qbind. eapply wp_mono; [apply keeps_ehlo|]. intros [e|c] s'; done. }
    case_decide as Hn; [by apply Hagain|]. apply wp_qbind, wp_update.
    destruct (default 0%Z (head (do_tls s))) as [|[[]|[]|]|]; try (by apply Hagain); try (by apply wp_ok).
    apply wp_qbind, wp_update, wp_ok. split; [done|]. right. split; [lia|done]. }
  intros [e|[c|]] s' H; [done| |by apply wp_ok].
  destruct H as [H1 H2]. unfold asks_again. rewrite <- H1, <- H2.
  match goal with |- context [wp ?m _ _] => cut (keeps m) end.
  { intros Hk. eapply wp_mono; [apply Hk|]. intros [e|a] s''; [done|]. intros [? ?]. split; auto. }
  apply keeps_bind; [eauto 10 with keeps|]. clear code. intros [code is_esmtp].
  destruct (try_next_mx cf && _); [auto with keeps|]. case_decide; [auto with keeps|].
  apply keeps_bind; [auto with keeps|intros text]. cbv zeta.
  apply keeps_bind; [auto with keeps|intros _]. apply keeps_bind; [auto with keeps|intros c1].
  case_decide; [auto with keeps|]. case_decide; [auto with keeps|].
  apply keeps_bind; [auto with keeps|intros [c2 b]].
  eauto 20 with keeps.
Qed.

(** ** The rounds of the loop *)

(** How many rounds may still come: two for every exchanger, one less when TLS has
    failed at the present one, one more for QMTP. *)
Definition rounds (ips : list ip_mx) (s : remote) : nat :=
  2 * length ips + Nat.b2n (bool_decide (notls s = 0%Z))
  + Nat.b2n (bool_decide (mxps s = 0 ∨ mxps s = 1)%Z).

Lemma keeps_next_conn : keeps next_conn.
Proof. intros s. unfold next_conn. apply wp_bind, wp_getS. by destruct (conns s). Qed.

(** What an attempt comes to that does not end the process. *)
Definition goes_on (s : remote) (r : Z + bool * bool) (s' : remote) : Prop :=
  match r with
  | inl _ => True
  | inr (true, _) => notls s' ≠ 2%Z ∧ rounds [] s' < rounds [] s
  | inr (false, _) => mxps s' = mxps s
  end.

Lemma wp_attempt ix s :
  notls s ≠ 2%Z → wp (attempt cf case_equal beyond ix) (goes_on s) s.
Proof.
  intros Hn. unfold attempt. apply wp_qbind. eapply wp_mono; [apply keeps_next_conn|].
  intros [e|c] s0 H; [done|]. destruct H as [Hm Hl]. apply wp_bind, wp_getS.
  destruct c as [srv|un].
  - apply wp_qbind. eapply (wp_mono _ (λ r s', r = inr tt → mxps s' = mxps s ∧ notls s' = notls s)).
    { destruct (flagtcpto cf); [|by apply wp_ok]. eapply wp_mono; [apply keeps_on_table|].
      intros [e|[]] s1; [done|]. intros [-> ->]. done. }
    intros [e|[]] s1 H; [done|]. destruct (H eq_refl) as [Hm1 Hl1]. clear H.
    apply wp_qbind, wp_update. destruct (_ && _).
    { eapply wp_mono; [apply ends_qmtp|]. by intros r s' [e ->]. }
    apply wp_qbind. eapply wp_mono; [apply steady_do_smtp|]. intros [e|[]] s2 H; [done|].
    unfold asks_again in H. cbn [mxps notls set_partner set_server set_sent] in H.
    apply wp_qbind, wp_look. case_decide as Ha; [|apply wp_ok; destruct H; simpl; congruence].
    apply wp_qbind, wp_update, wp_ok. split; [done|]. unfold rounds.
    cbn [mxps notls set_notls]. destruct H as [H [Hx|[Hx _]]]; [congruence|].
    rewrite H, Hm1. rewrite (bool_decide_true (notls s = 0%Z)) by congruence. simpl. lia.
  - case_decide as H1; [|apply wp_ok; simpl; done].
    apply wp_qbind, wp_update, wp_ok. unfold goes_on, rounds.
    cbn [mxps notls set_port set_mxps]. split; [congruence|].
    rewrite Hl. rewrite (bool_decide_true (mxps s = 0 ∨ mxps s = 1)%Z) by lia.
    rewrite (bool_decide_false (-1 = 0 ∨ -1 = 1)%Z) by lia. simpl. lia.
Qed.

Lemma rounds_cons ix ips s : rounds (ix :: ips) s = S (S (rounds ips s)).
Proof. unfold rounds. simpl. lia. Qed.
Lemma rounds_next ips s s' :
  rounds [] s = rounds [] s' → rounds ips s = rounds ips s'.
Proof. unfold rounds. simpl. lia. Qed.
Lemma rounds_mxps ips s s' : mxps s' = mxps s → rounds ips s' ≤ S (rounds ips s).
Proof. unfold rounds. intros ->. destruct (bool_decide (notls s' = 0%Z)); simpl; lia. Qed.

Lemma wp_on_table {A} (m : ST tstate A) (Q : Z + A → remote → Prop) s :
  (∀ a t, Q (inr a) (set_table t s)) → wp (on_table m) Q s.
Proof. intros H. unfold wp, on_table. destruct (m (table s)). apply H. Qed.

(** The table is consulted only if it is in use. *)
Lemma wp_if_table {A} (b : bool) (m : ST tstate A) (a : A) (Q : Z + A → remote → Prop) s :
  (∀ a t, Q (inr a) (set_table t s)) → Q (inr a) s →
  wp (if b then on_table m else ok a) Q s.
Proof.
  intros H1 H2. destruct b; [by apply wp_on_table|by apply wp_ok].
Qed.

(** When every exchanger is better than this host the loop ends, and with it the
    process. *)
Lemma loop_ends fuel orig ips x s :
  Forall (λ ix, pref ix < prefme)%Z ips → orig ≠ 2%Z → notls s ≠ 2%Z → rounds ips s < fuel →
  wp (mx_loop cf case_equal beyond host prefme fuel orig ips x) (λ r _, ∃ e, r = inl e) s.
Proof.
  revert ips x s. induction fuel as [|fuel IH]; intros ips x s Hp Ho Hn Hf; [lia|].
  cbn [mx_loop]. destruct ips as [|ix next]; [apply ends_noconn|].
  pose proof (Forall_inv Hp) as Hix. pose proof (Forall_inv_tail Hp) as Hnext.
  apply wp_bind, wp_getS, wp_qbind.
  eapply (wp_mono _ (λ r s', r = inr tt ∧ notls s' = notls s ∧ rounds [] s' = rounds [] s)).
  { destruct (bool_decide (mxps s = 0%Z) && _) eqn:Eq; [|by apply wp_ok].
    apply wp_update. split_and!; [done..|].
    apply andb_true_iff in Eq as [Hz%bool_decide_eq_true_1 _]. unfold rounds. simpl.
    rewrite (bool_decide_true (mxps s = 0 ∨ mxps s = 1)%Z) by auto. done. }
  intros ? s1 (-> & Hn1 & Hr1). rewrite rounds_cons, <- (rounds_next _ s1) in Hf by done.
  apply wp_bind, wp_getS. rewrite (bool_decide_true (pref ix < prefme)%Z), orb_true_r by done. cbn [negb].
  rewrite <- Hn1 in Hn. clear s Hr1 Hn1.
  assert (Hgo : ∀ t, wp (bad ←? on_table (tsys fault);
      if bad : bool then temp_oserr
      else
        let x := x ++ ip4_fmt ix ++ lit "," in
        r ←? attempt cf case_equal beyond ix;
        let '(stay, errors) := r in
        if stay : bool then mx_loop cf case_equal beyond host prefme fuel orig (ix :: next) x
        else
          (if flagtcpto cf : bool
           then on_table (tcpto_err (queuedir cf) ix errors (max_tolerance cf)) else ok tt);;?
          update (λ s, set_notls orig (set_server [] s));;?
          mx_loop cf case_equal beyond host prefme fuel orig next x)
      (λ r _, ∃ e, r = inl e) (set_table t s1)).
  { intros t. apply wp_qbind, wp_on_table. intros bad t'.
    destruct bad; [unfold temp_oserr; apply ends_bind; intros; apply ends_zerodie|]. cbv zeta.
    apply wp_qbind. eapply wp_mono; [by apply wp_attempt|].
    intros [e|[[] errors]] s2; unfold goes_on; [by exists e| |].
    - intros [Hn2 Hr2]. apply IH; [done..|]. rewrite rounds_cons.
      unfold rounds in *. simpl in *. lia.
    - intros Hm. simpl in Hm. apply wp_qbind, wp_if_table; [intros [] t2|];
        apply wp_qbind, wp_update, IH; try done;
        match goal with |- rounds next ?s' < _ =>
          pose proof (rounds_mxps next s1 s' Hm) end; lia. }
  apply wp_qbind, wp_if_table; [intros [|] t; [|apply Hgo]|].
  - apply IH; [done..|]. unfold rounds in *. simpl in *. lia.
  - specialize (Hgo (table s1)). by destruct s1.
Qed.

(** An exchanger that is not better than this host is not passed over: the rounds
    change nothing and have no end. *)
Lemma loop_stands fuel orig ix next x s :
  (prefme <= pref ix)%Z → q_protocol cf = false → mxps s ≠ 0%Z → mxps s ≠ 1%Z →
  mx_loop cf case_equal beyond host prefme fuel orig (ix :: next) x s = (inr tt, s).
Proof.
  intros Hp Hq H0 H1.
  cut (wp (mx_loop cf case_equal beyond host prefme fuel orig (ix :: next) x)
    (λ r s', (r, s') = (inr tt, s)) s).
  { unfold wp. by destruct (mx_loop _ _ _ _ _ _ _ _ _). }
  induction fuel as [|fuel IH]; [done|].
  cbn [mx_loop]. apply wp_bind, wp_getS, wp_qbind.
  rewrite (bool_decide_false (mxps s = 0%Z)) by done. apply wp_ok, wp_bind, wp_getS.
  unfold qmtp_text. rewrite Hq, !bool_decide_false by lia. apply IH.
Qed.

(** C27: [main] of qmail-remote comes to an end.  When every exchanger is better than
    this host, [2 * n + 3] rounds are enough for [n] exchangers to end the process,
    whatever the table of unreachable hosts holds, however the attempts to connect
    and the sessions go: no exchanger is tried more than twice, once with TLS and
    once without, but for one that is tried by QMTP first. *)
Theorem mx_loop_ends fuel orig ips x s :
  Forall (λ ix, pref ix < prefme)%Z ips → orig ≠ 2%Z → notls s ≠ 2%Z →
  2 * length ips + 3 <= fuel →
  ∃ code s', mx_loop cf case_equal beyond host prefme fuel orig ips x s = (inl code, s').
Proof.
  intros Hp Ho Hn Hf.
  assert (rounds ips s < fuel) as Hr.
  { unfold rounds. destruct (bool_decide _), (bool_decide _); simpl; lia. }
  pose proof (loop_ends fuel orig ips x s Hp Ho Hn Hr) as [e He].
  destruct (mx_loop _ _ _ _ _ _ _ _ _) as [r s']. exists e, s'. by simpl in He; subst.
Qed.
End loop.
