(* ===== verification/RemoteRun.v ===== *)
(** * qmail-remote at work

    The theorems on qmail-remote at concrete sessions and lists of exchangers. *)

From S2P Require Import Prelude LibQmail Filesys Tcpto Spawn QmailRemote RemoteMain RemoteSpec.
From S2P Require Import RemoteTheorems RemoteLoop.

Module RemoteRun.
#[local] Existing Instance reference_libqmail.
#[local] Existing Instance reference_laws.

Definition cf : remote_conf := {|
  queuedir := lit "q"; getpid := 77; helohost := lit "me.example"; outgoingip := lit "10.0.0.2";
  smtp_sender := lit "a@x"; smtp_reciplist := [lit "b@y"];
  qmtp_sender := lit "a@x"; qmtp_reciplist := [lit "b@y"];
  qqeh := []; msgsize := lit "12"; st_size := Some 12%Z; try_next_mx := true;
  flagtcpto := true; min_penalty := MIN_PENALTY; max_tolerance := MAX_TOLERANCE;
  protocol_t := 115 |}.

Definition line (t : string) : bytes := lit t ++ [c_cr; c_lf].
Definition exchanger (n p : Z) : ip_mx := IpMx AF_INET [10; 0; 0; n]%Z p (lit "[10.0.0.1]").

(** A server that accepts the message, with replies of one and of more lines. *)
Definition greeting : bytes := line "220-hello" ++ line "220 there".
Definition talk : bytes :=
  greeting ++ line "250-me" ++ line "250-PIPELINING" ++ line "250 SIZE 5000"
  ++ line "250 sender" ++ line "250 recipient" ++ line "354 go" ++ line "250 ok".

(** A message in two chunks, with a line that starts with a dot. *)
Definition reads : list rread := [Chunk (lit "s: t
.d"); Chunk (lit "ot
")].

Definition start (srv : bytes) (cs : list conn) : remote :=
  Remote (TS (World {[lit "q/lock/tcpto" := 1]} {[1 := Inode (replicate 64 0%Z) 0 0]} 2 [] 0 []) false)
    cs srv [] reads [] [] [] [] false false (exchanger 1 5) 0 [] false 2 25.

Definition same (a b : bytes) : bool := bool_decide (a = b).
Definition nothing_behind (t : bytes) : bytes := [].

Lemma session_reported_witness :
  let o := session false 0 0 true Whole talk in
  let '(res, s') := do_smtp cf same nothing_behind (start talk []) in
  match o with
  | NextHost => res = inr tt
  | _ => res = inl 0%Z ∧ letter_of (λ _, false) (λ w, w) (report s') = Some (expected o) ∧
         (o = Delivered → ∃ pre, sent s' = pre ++ wire cf reads ++ lit "QUIT" ++ [c_cr; c_lf])
  end ∨ (true ∈ @nil bool ∧ res = inl 0%Z ∧ letter_of (λ _, false) (λ w, w) (report s') = Some 90%Z).
Proof.
  apply (session_reported cf nothing_behind same (λ _, false) (λ w, w) (lit "b@y") (start talk [])).
  - vm_compute. split; congruence.
  - vm_compute. intros H. repeat (apply elem_of_cons in H as [H|H]; [discriminate H|]). by apply elem_of_nil in H.
  - discriminate.
  - reflexivity.
  - reflexivity.
  - reflexivity.
  - reflexivity.
  - vm_compute. intros H. repeat (apply elem_of_cons in H as [H|H]; [discriminate H|]). by apply elem_of_nil in H.
Defined.

Example talk_delivers : session false 0 0 true Whole talk = Delivered.
Proof. vm_compute. reflexivity. Qed.
Example lost_after_data :
  session false 0 0 true Whole (take (length talk - 3) talk) = LostConnection.
Proof. vm_compute. reflexivity. Qed.

(** Two exchangers: TLS fails at the first, then it refuses for now; no connection
    to the second. *)
Definition mxs : list ip_mx := [exchanger 1 5; exchanger 2 10].
Definition tries : list conn :=
  [Connection (greeting ++ line "250 me"); Connection (line "421 busy"); NoConnection true].

Lemma mx_loop_ends_witness :
  let s := set_do_tls [2%Z] (start [] tries) in
  ∃ code s', mx_loop cf same nothing_behind (lit "y") 20 7 0 mxs [] s = (inl code, s').
Proof.
  apply (mx_loop_ends cf same nothing_behind (lit "y") 20 7 0 mxs [] (set_do_tls [2%Z] (start [] tries))).
  - repeat constructor.
  - discriminate.
  - discriminate.
  - vm_compute. lia.
Defined.

(** The variable MIN_PENALTY sets the number of its digits. *)
Example min_penalty_is_a_length :
  min_penalty_of (λ s, (length (digit_prefix s), value_of (digit_prefix s))) (Some (lit "7200")) 60 = 4%Z.
Proof. vm_compute. reflexivity. Qed.

(** No byte is a [char] above 127. *)
Lemma containsutf8_never p : Forall is_byte p → containsutf8 p = false.
Proof.
  unfold containsutf8. intros Hp. apply not_true_iff_false. rewrite existsb_exists.
  intros (c & Hc & H%bool_decide_eq_true). apply list_elem_of_In in Hc.
  rewrite Forall_forall in Hp. specialize (Hp c Hc). unfold is_byte in Hp.
  unfold schar, swrap in H. rewrite Z.mod_small in H by lia. case_decide; lia.
Qed.

(** An exchanger that is not better than this host, behind one that cannot be
    reached: the loop goes round and round. *)
Example spins_at_second fuel :
  fst (mx_loop cf same nothing_behind (lit "y") 7 (S fuel) 0 mxs [] (start [] [NoConnection true])) = inr tt.
Proof.
  assert (H : ∀ s, mxps s = 2%Z →
    mx_loop cf same nothing_behind (lit "y") 7 fuel 0 [exchanger 2 10] (lit "10.0.0.1,") s = (inr tt, s)).
  { intros s Hs. apply loop_stands; [simpl; lia|reflexivity|rewrite Hs; discriminate..]. }
  pose (s1 := snd (mx_loop cf same nothing_behind (lit "y") 7 1 0 mxs [] (start [] [NoConnection true]))).
  etrans; [|exact (f_equal fst (H s1 eq_refl))]. reflexivity.
Qed.
End RemoteRun.
