(* ===== verification/SmtpdAddress.v ===== *)
(** * Addresses over SMTP

    What qmail-remote writes for an address ([Quote.quote2]) the server reads as
    that address. *)

From S2P Require Import Prelude LibQmail Filesys Control Fmtqfn Quote SendState.
From S2P Require Import QmailRemote RemoteSpec RemoteTheorems RemoteRun.
From S2P Require Import QmailQueue QueueSpec QueueTheorems QueueRun.
From S2P Require Import Qmail Smtpd SmtpdHeaders SmtpdTheorems SmtpdData.

Section address.
Context {L : LibQmail} {LL : LibQmailLaws L}.

Definition special (c : Z) : Prop := c = c_dquote ∨ c = c_backslash ∨ c = c_gt.

Lemma unquote_plain s r : Forall (λ c, ¬ special c) s →
  unquote c_gt (s ++ r) false false = s ++ unquote c_gt r false false.
Proof.
  induction 1 as [|c s Hc Hs IH]; [done|]. unfold special in Hc. simpl.
  rewrite (bool_decide_false (c = c_gt)), !decide_False by tauto. by rewrite IH.
Qed.

Lemma unquote_doit s r : unquote c_gt (doit_loop s ++ r) false true = s ++ unquote c_gt r false true.
Proof.
  induction s as [|c s IH]; [done|]. simpl. destruct (must_escape c) eqn:E; simpl.
  - by rewrite IH.
  - unfold must_escape in E. apply bool_decide_eq_false in E.
    rewrite !decide_False by tauto. by rewrite IH.
Qed.

Lemma unquote_doit_whole s q r : doit s = Some q →
  unquote c_gt (q ++ r) false false = s ++ unquote c_gt r false false.
Proof.
  unfold doit. case_decide; [done|]. intros [= <-]. simpl.
  rewrite <- (assoc_L app), unquote_doit. done.
Qed.

Lemma ok_plain s : quote_need s = false → Forall (λ c, ¬ special c ∧ c ≠ c_at) s.
Proof.
  unfold quote_need. rewrite !orb_false_iff. intros [[[[_ H] _] _] _]. apply Forall_forall. intros c Hc.
  destruct (bool_decide (128 ≤ c)%Z || negb (ok_byte c)) eqn:E.
  { exfalso. revert H. apply not_false_iff_true, existsb_exists. exists c. split; [by apply list_elem_of_In|done]. }
  apply orb_false_iff in E as [_ E%negb_false_iff]. unfold special.
  split; [intros [->|[->| ->]]|intros ->]; by vm_compute in E.
Qed.

Lemma unquote_quote s q r : quote s = Some q →
  unquote c_gt (q ++ r) false false = s ++ unquote c_gt r false false.
Proof.
  unfold quote. destruct (quote_need s) eqn:E; [apply unquote_doit_whole|]. intros [= <-].
  apply unquote_plain. eapply Forall_impl; [by apply ok_plain|]. by intros ? [].
Qed.

(** No route in front of a quoted box. *)
Lemma quote_head s q : quote s = Some q → q ≠ [] ∧ head q ≠ Some c_at.
Proof.
  unfold quote. destruct (quote_need s) eqn:E.
  - unfold doit. case_decide; [done|]. by intros [= <-].
  - intros [= <-]. pose proof (ok_plain s E) as H. destruct s as [|c s]; [done|].
    split; [done|]. apply Forall_cons in H as [[_ H] _]. simpl. congruence.
Qed.

Context (conf : smtpd_conf) (ipme : list (list Z)).

(** C32: an address gets through SMTP unchanged.  What [quote2] makes of an address,
    between angle brackets behind any word, the server reads as that address,
    whatever bytes the box has, if the host has no quotes, backslashes or angle
    brackets; parameters that follow are not part of it.  An address of this host by
    its number gets the name of the host, and one of 900 bytes is refused. *)
Theorem address_parsed word a q params :
  (c_lt ∉ word) → Forall (λ c, ¬ special c) (drop (rindex_of c_at a) a) → quote2 a = Some q →
  addrparse conf ipme (word ++ c_lt :: q ++ c_gt :: params) =
  let addr := localize conf ipme a in
  if decide (900 < length addr + 1) then None else Some addr.
Proof.
  intros Hword Hhost Hq. unfold addrparse. rewrite str_chr_ok, index_of_app by done.
  rewrite decide_True by (rewrite length_app; simpl; lia).
  replace (drop (length word + 1) (word ++ c_lt :: q ++ c_gt :: params)) with (q ++ c_gt :: params).
  2: { rewrite <- drop_drop, drop_app_length. done. }
  assert (Hend : unquote c_gt (c_gt :: params) false false = []) by done.
  cut (head (q ++ c_gt :: params) ≠ Some c_at ∧ unquote c_gt (q ++ c_gt :: params) false false = a).
  { intros [Hh Hu]. rewrite (decide_False (P := head _ = Some c_at)) by done. by rewrite Hu. }
  unfold quote2 in Hq. destruct (decide (a = [])) as [->|Ha]; [by injection Hq as <-|].
  rewrite str_rchr_ok in Hq. destruct (decide (length a ≤ rindex_of c_at a)) as [Hl|Hl].
  - split; [|by rewrite (unquote_quote a), Hend, app_nil_r].
    apply quote_head in Hq as [H1 H2]. by destruct q.
  - destruct (quote (take (rindex_of c_at a) a)) as [qb|] eqn:Eq; [|done]. injection Hq as <-.
    rewrite <- (assoc_L app). split.
    + apply quote_head in Eq as [H1 H2]. by destruct qb.
    + rewrite (unquote_quote _ _ _ Eq), unquote_plain, Hend, app_nil_r by done. apply take_drop.
Qed.
End address.

(** ** smtpd at work

    The theorems on smtpd at concrete messages, with the queue of [QueueRun] behind
    it. *)

Module SmtpdRun.
#[local] Existing Instance reference_libqmail.
#[local] Existing Instance reference_laws.

Definition conf : smtpd_conf := {|
  convertbarelf := true; databytes := 100; maxhops := 3;
  received := lit "Received: by us" ++ [c_lf]; qp := 77; liphost := Some (lit "mx.example"); read_fails := false |}.

Definition fresh_session (c : bytes) : smtpd :=
  Smtpd c [] true (lit "joe@example.org") (lit "Tbob@example.org" ++ [0%Z]) 1 false 0 0 false
    (qmail_start []).

(** qmail-remote sends the message of [RemoteRun] with a header field, and QUIT. *)
Definition fields : list bytes := [lit "Delivered-To: b@y"].
Definition cf : remote_conf := {|
  queuedir := lit "q"; getpid := 77; helohost := lit "me.example"; outgoingip := lit "10.0.0.2";
  smtp_sender := lit "a@x"; smtp_reciplist := [lit "b@y"];
  qmtp_sender := lit "a@x"; qmtp_reciplist := [lit "b@y"];
  qqeh := unlines fields; msgsize := lit "12"; st_size := Some 12%Z; try_next_mx := true;
  flagtcpto := true; min_penalty := 60; max_tolerance := 120; protocol_t := 115 |}.
Definition quit_line : bytes := lit "QUIT" ++ crlf.

Lemma message_transparent_witness :
  let s := fresh_session (drop 6 (wire cf RemoteRun.reads ++ quit_line)) in
  let '(r, s') := Smtpd.blast conf s in
  client s' = quit_line ∧ flagerr (qqt s') = false ∧
  to_mess (qqt s') = unlines fields ++ (read_message RemoteRun.reads).1.
Proof.
  intros s.
  pose proof (message_transparent conf cf RemoteRun.reads fields quit_line s) as H.
  destruct (Smtpd.blast conf s) as [r s'].
  destruct H as (_ & H1 & H2 & H3 & _).
  - reflexivity.
  - repeat constructor; [by apply (bool_decide_eq_true _)|discriminate].
  - reflexivity.
  - reflexivity.
  - vm_compute. discriminate.
  - reflexivity.
  - split; [reflexivity|apply not_elem_of_nil].
  - split; [exact H1|]. split; [exact H2|]. exact H3.
Defined.

(** A header of three lines, two of which are hops, and a body that looks like one. *)
Definition ls : list bytes :=
  [lit "reCEIVED: x"; lit "Delivered-To: y"; lit "RETURN-RECEIPT-TO: z"; []; lit "Received: not"; lit ".end"].

Lemma fields_counted_witness :
  let '(r, s') := Smtpd.blast conf (fresh_session (wire_lines ls ++ c_dot :: crlf ++ quit_line)) in
  r = inr (0%Z, 2%Z) ∧ dsn s' = true.
Proof.
  pose proof (fields_counted conf ls quit_line (fresh_session (wire_lines ls ++ c_dot :: crlf ++ quit_line))) as H.
  destruct (Smtpd.blast conf _) as [r s']. apply H.
  - by apply (bool_decide_eq_true _).
  - reflexivity.
Defined.

Definition session : smtpd := fresh_session ((wire_lines ls ++ c_dot :: crlf) ++ quit_line).
Lemma session_in_order : in_order conf session.
Proof. split; try done. left. by vm_compute. Qed.
Lemma ls_lines : Forall (λ l, c_lf ∉ l) ls.
Proof. by apply (bool_decide_eq_true _). Qed.


Definition queue0 : qqueue := QueueRun.s0.
Lemma reply_means_queued_witness :
  let m := received conf ++ unlines ls in
  let e := envelope_for (lit "joe@example.org") (lit "Tbob@example.org" ++ [0%Z]) in
  ∃ d o, @QueueTheorems.queued reference_libqmail QueueRun.cfg QueueRun.st (given queue0 m e) true false d o
    (run QueueRun.queue (given queue0 m e)).
Proof.
  pose proof (reply_means_queued conf QueueRun.cfg QueueRun.st queue0 true false QueueRun.scan_int
    QueueRun.scan_int QueueRun.case_equal QueueRun.mess822_ok QueueRun.beyond ls [] 1000 quit_line session
    session_in_order ls_lines eq_refl (conj eq_refl eq_refl)) as H.
  destruct (smtp_data _ _ _ _ _ _) as [r s']. destruct H as (reply & _ & _ & _ & H).
  set (m := received conf ++ unlines ls) in *. set (e := envelope_for _ _) in *.
  destruct (QueueSpec.verdict QueueRun.st QueueRun.scan_int QueueRun.scan_int QueueRun.case_equal
    QueueRun.mess822_ok QueueRun.beyond (given queue0 m e)) as [c|[[d o]|]] eqn:E.
  - exfalso. vm_compute in E. discriminate E.
  - exists d, o. destruct (H d o) as [_ Hq]; [split; by vm_compute|apply not_elem_of_nil|reflexivity|reflexivity|reflexivity|].
    exact Hq.
  - exfalso. vm_compute in E. discriminate E.
Defined.

(** A box with a space and a quote. *)
Definition address : bytes := [106; 34; 32; 64; 107]%Z ++ lit "@example.org".
Lemma address_parsed_witness : ∃ q,
  quote2 address = Some q ∧ addrparse conf [] (lit "FROM:" ++ c_lt :: q ++ c_gt :: lit " SIZE=12") = Some address.
Proof.
  destruct (quote2 address) as [q|] eqn:E; [|vm_compute in E; discriminate E].
  exists q. split; [reflexivity|].
  rewrite (address_parsed conf [] (lit "FROM:") address q (lit " SIZE=12")).
  - vm_compute. reflexivity.
  - by apply (bool_decide_eq_true _).
  - vm_compute. repeat constructor; intros [H|[H|H]]; discriminate H.
  - exact E.
Defined.
End SmtpdRun.
