(* ===== verification/QmtpTheorems.v ===== *)
(** * From qmail-remote to the queue of another host, by QMTP

    What qmail-remote sends by QMTP, qmail-qmtpd hands to qmail-queue, and what
    qmail-qmtpd answers, qmail-remote reports. *)

From S2P Require Import Prelude LibQmail Filesys Control Fmtqfn SendState Tcpto QmailRemote RemoteMain RemoteSpec RemoteRun.
From S2P Require Import QmailQueue QueueSpec QueueSteps QueueTheorems QueueRun Qmail SmtpdTheorems SmtpdData Rcpthosts Qmtpd QmtpdTheorems.

#[local] Arguments lit : simpl never.

(** ** The client *)

Section client.
Context {L : LibQmail} {LL : LibQmailLaws L} (cf : remote_conf).

Lemma wp_sent d (Q : Z + unit → remote → Prop) s : true ∉ lost s →
  (∀ l, true ∉ l → Q (inr tt) (set_sent (sent s ++ d) (set_lost l s))) → wp (QmailRemote.put cf d) Q s.
Proof.
  intros Hl HQ. unfold QmailRemote.put. apply wp_bind, wp_getS.
  destruct (lost s) as [|[] l]; [|set_solver|]; apply wp_update, HQ; set_solver.
Qed.

(** A byte that is read, and what it adds to [smtptext]. *)
Definition heard (d : bytes) : bytes := filter (λ c, c ≠ c_cr) d.
Lemma wp_heard c r (Q : Z + Z → remote → Prop) s : server s = c :: r →
  (∀ t, (length (smtptext s) < HUGESMTPTEXT → t = smtptext s ++ heard [c]) →
     Q (inr c) (set_smtptext t (set_server r s))) →
  wp (get1 cf) Q s.
Proof.
  intros Hs HQ. unfold get1. apply wp_bind, wp_getS. rewrite Hs. apply wp_qbind, wp_update, wp_qbind.
  unfold heard in HQ. rewrite filter_cons, filter_nil in HQ. simpl.
  destruct (decide (c ≠ c_cr ∧ length (smtptext s) < HUGESMTPTEXT)) as [[Hc Hl]|Hno].
  - apply wp_update, wp_ok, HQ. intros _. by rewrite decide_True.
  - apply wp_ok, wp_ok. specialize (HQ (smtptext s)). destruct s. simpl in *. apply HQ. intros Hl.
    rewrite decide_False by tauto. by rewrite app_nil_r.
Qed.

Lemma wp_skip d r fuel (Q : Z + unit → remote → Prop) s : server s = d ++ r → length d < fuel →
  length (smtptext s) + length d < HUGESMTPTEXT →
  Q (inr tt) (set_smtptext (smtptext s ++ heard d) (set_server r s)) →
  wp (skip_answer cf fuel (Z.of_nat (length d))) Q s.
Proof.
  revert fuel s. induction d as [|c d IH]; intros fuel s Hs Hf Hl HQ; (destruct fuel as [|fuel]; [simpl in Hf; lia|]);
    cbn [skip_answer].
  - rewrite decide_False by (simpl; lia). apply wp_ok. unfold heard in HQ. rewrite filter_nil, app_nil_r in HQ.
    destruct s. simpl in *. by subst.
  - simpl in Hf, Hl. rewrite decide_True by (simpl; lia). apply wp_qbind. eapply wp_heard; [exact Hs|].
    intros t Ht. rewrite Ht by lia.
    replace (Z.of_nat (length (c :: d)) - 1)%Z with (Z.of_nat (length d)) by (simpl; lia).
    assert (length (heard [c]) ≤ 1) by (apply length_filter).
    apply IH; [done|lia|cbn [smtptext set_smtptext]; rewrite length_app; lia|].
    cbn [smtptext set_smtptext]. unfold heard in *. rewrite <- (assoc_L app), <- filter_app. exact HQ.
Qed.

Lemma wp_answer_len ds r fuel len (Q : Z + Z → remote → Prop) s :
  server s = ds ++ c_colon :: r → Forall (λ c, is_digit c = true) ds → length ds < fuel → (0 ≤ len)%Z →
  (foldl (λ v d, v * 10 + (d - 48)) len ds ≤ 200000000)%Z →
  (∀ t, Q (inr (foldl (λ v d, v * 10 + (d - 48)) len ds)%Z) (set_smtptext t (set_server r s))) →
  wp (answer_len cf fuel len) Q s.
Proof.
  revert fuel len s. induction ds as [|d ds IH]; intros fuel len s Hs Hds Hf Hl Hb HQ;
    (destruct fuel as [|fuel]; [simpl in Hf; lia|]); cbn [answer_len]; apply wp_qbind;
    (eapply wp_heard; [exact Hs|]); intros t _.
  - rewrite decide_True by done. by apply wp_ok.
  - apply Forall_cons in Hds as [Hd Hds]. rewrite decide_False by (by apply digit_not_colon).
    pose proof Hd as Hd'. apply bool_decide_eq_true in Hd'. simpl in Hf, Hb, HQ.
    pose proof (value_grows ds (len * 10 + (d - 48)) Hds). rewrite !decide_False by lia.
    unfold wrap. rewrite Z.mod_small by lia. replace (10 * len + (d - 48))%Z with (len * 10 + (d - 48))%Z by lia.
    apply IH; try done || lia.
Qed.

(** The message, however it comes in chunks. *)
Lemma wp_copy l m (Q : Z + unit → remote → Prop) s : true ∉ lost s → read_message l = (m, true) →
  (Z.of_nat (length m) < 2 ^ 64)%Z →
  (∀ k, true ∉ k → Q (inr tt) (set_sent (sent s ++ m) (set_lost k s))) →
  wp (qmtp_copy cf l (Z.of_nat (length m))) Q s.
Proof.
  revert m s. induction l as [|[[|c d]|] l IH]; intros m s Hlost Hm Hlen HQ.
  1,2: injection Hm as <-; specialize (HQ (lost s) Hlost); rewrite app_nil_r in HQ; by destruct s.
  2: done.
  simpl in Hm. destruct (read_message l) as [t good] eqn:El. injection Hm as <- ->.
  change (c :: d ++ t) with ((c :: d) ++ t) in *. cbn [qmtp_copy].
  rewrite decide_False by (simpl; lia). apply wp_qbind, wp_sent; [done|]. intros k Hk.
  unfold wrap. rewrite Z.mod_small by (rewrite length_app in *; lia).
  replace (Z.of_nat (length ((c :: d) ++ t)) - Z.of_nat (length (c :: d)))%Z with (Z.of_nat (length t)) by (rewrite length_app; lia).
  apply IH; [done|done|rewrite length_app in Hlen; lia|]. intros k' Hk'. simpl.
  specialize (HQ k' Hk'). simpl in HQ. by rewrite <- (assoc_L app).
Qed.

(** ** Answers *)

(** An answer that is in order: its first byte is a letter. *)
Definition decent (t : bytes) : Prop :=
  (Z.of_nat (length t) < 4900)%Z ∧ ∃ x t', t = x :: t' ∧ (x = 75 ∨ x = 68 ∨ x = 90)%Z.

(** The record of a recipient in the report. *)
Definition record_of (t : bytes) : bytes :=
  (if decide (head t = Some 75%Z) then lit "r" else if decide (head t = Some 68%Z) then lit "h" else lit "s") ++
  lit "Remote host said: " ++ map printable (heard (tail t)) ++ [c_lf; 0%Z].

Definition all_well (ts : list bytes) : bool := forallb (λ t, bool_decide (head t = Some 75%Z)) ts.
Definition flag_after (f : Z) (ts : list bytes) : Z :=
  foldl (λ f t, if decide (head t = Some 75%Z) then f else if decide (head t = Some 68%Z) then 0 else -1)%Z f ts.

Lemma flag_after_one ts f : (flag_after f ts = 1)%Z ↔ f = 1%Z ∧ all_well ts = true.
Proof.
  revert f. induction ts as [|t ts IH]; intros f; simpl; [tauto|]. unfold flag_after in IH. rewrite IH, andb_true_iff.
  rewrite bool_decide_eq_true. repeat case_decide; intuition (congruence || lia).
Qed.

Lemma netstring_is d : (Z.of_nat (length d) < 2 ^ 64)%Z → netstring d = decimal (Z.of_nat (length d)) ++ c_colon :: d ++ lit ",".
Proof. intros Hd. unfold netstring. rewrite fmt_ulong_ok; [done|]. unfold ulong. lia. Qed.

Lemma heard_text x d : tail (<[length (map printable (x :: lit "Remote host said: " ++ d) ++ [44%Z]) - 1 := c_lf]>
  (map printable (x :: lit "Remote host said: " ++ d) ++ [44%Z])) = lit "Remote host said: " ++ map printable d ++ [c_lf].
Proof.
  rewrite length_app, insert_app_r_alt by (simpl; lia). replace (_ + _ - 1 - _) with 0 by (simpl; lia). cbn [list_insert].
  rewrite map_cons, map_app. cbn [app tail]. by rewrite <- (assoc_L app).
Qed.

Lemma text_short x d : (Z.of_nat (length (x :: d)) < 4900)%Z →
  length (map printable ((x :: lit "Remote host said: ") ++ heard d)) < HUGESMTPTEXT.
Proof.
  intros Hd. rewrite length_map, length_app. pose proof (length_filter (λ c, c ≠ c_cr) d). unfold heard, HUGESMTPTEXT.
  simpl in *. lia.
Qed.

Lemma wp_answers ts rest f (Q : Z + Z → remote → Prop) s :
  server s = mjoin (map netstring ts) ++ rest → Forall decent ts →
  (∀ s', report s' = report s ++ mjoin (map record_of ts) → sent s' = sent s → partner s' = partner s →
     Q (inr (flag_after f ts)) s') →
  wp (qmtp_answers cf (length ts) f) Q s.
Proof.
  intros Hs Hts. revert f s Hs. induction Hts as [|t ts Ht _ IH]; intros f s Hs HQ.
  { apply wp_ok, HQ; [by rewrite app_nil_r|done..]. }
  change (mjoin (map netstring (t :: ts))) with (netstring t ++ mjoin (map netstring ts)) in Hs.
  change (mjoin (map record_of (t :: ts))) with (record_of t ++ mjoin (map record_of ts)) in HQ.
  destruct Ht as (Hl & x & t' & -> & Hx). set (n := Z.of_nat (length (x :: t'))) in *.
  assert (ulong n) as Hu by (unfold ulong, n; lia).
  pose proof (value_of_decimal n Hu) as Hv. unfold value_of in Hv.
  rewrite netstring_is in Hs by (unfold ulong in Hu; lia). fold n in Hs. do 2 (rewrite <- !(assoc_L app) in Hs; cbn [app] in Hs).
  cbn [qmtp_answers length]. apply wp_qbind, wp_look. rewrite Hs.
  set (k := S _). assert (length (decimal n) + length (x :: t') < k) as Hk.
  { unfold k. rewrite length_app. simpl. rewrite !length_app. simpl. lia. }
  clearbody k. apply wp_qbind. eapply (wp_answer_len (decimal n)); [exact Hs|by apply decimal_digits|lia|lia|rewrite Hv; unfold n; lia|].
  intros u. rewrite Hv. rewrite decide_False by (unfold n; simpl; lia).
  apply wp_qbind. eapply wp_heard; [done|]. intros u' _.
  rewrite bool_decide_true by tauto. cbn [negb]. apply wp_qbind, wp_update, wp_qbind.
  replace (n - 1)%Z with (Z.of_nat (length t')) by (unfold n; simpl; lia).
  eapply wp_skip; [done|simpl in Hk; lia|simpl in *; unfold HUGESMTPTEXT; lia|].
  apply wp_qbind, wp_update, wp_qbind. eapply wp_heard; [done|]. intros u2 Hu2.
  specialize (Hu2 (text_short x t' Hl)).
  cbn [smtptext set_smtptext app] in Hu2. change (heard [44%Z]) with [44%Z] in Hu2.
  rewrite decide_False by auto. apply wp_qbind, wp_look. cbn [smtptext set_smtptext]. rewrite Hu2, heard_text.
  apply wp_qbind, wp_out, wp_qbind, wp_out, wp_qbind, wp_out.
  eapply IH; [done|]. clear - HQ Hx. cbn [report set_report set_smtptext set_server sent partner].
  intros s' Hr Hsent Hp. replace (flag_after _ ts) with (flag_after f ((x :: t') :: ts)) by by destruct Hx as [->|[->| ->]].
  apply HQ; [|done..]. rewrite Hr. unfold record_of. rewrite <- !(assoc_L app). do 2 f_equal.
  by destruct Hx as [->|[->| ->]].
Qed.

(** What is said at the end. *)
Definition conclusion (ts : list bytes) (s : remote) : bytes :=
  (if all_well ts then lit "K" ++ ip_text (partner s) ++ lit " accepted message - Protocol QMTP
" else lit "DGiving up on " ++ ip_text (partner s) ++ lit " - Protocol QMTP
") ++ [0%Z].

Lemma wp_conclude ts (Q : Z + unit → remote → Prop) s :
  Q (inl 0%Z) (set_report (report s ++ conclusion ts s) s) →
  wp (if decide (flag_after 1 ts = 1%Z) then
        say "K";;? outhost;;? say " accepted message - Protocol QMTP
";;? zerodie
      else say "DGiving up on ";;? outhost;;? say " - Protocol QMTP
";;? zerodie) Q s.
Proof.
  unfold conclusion. intros HQ. case_decide as H; rewrite flag_after_one in H; destruct (all_well ts) eqn:E;
    [|naive_solver|naive_solver|]; unfold wp, say, outhost, zerodie, zero, out; simpl; rewrite <- !(assoc_L app) in *; exact HQ.
Qed.

(** A session with a server that answers as it should. *)
Lemma wp_qmtp ts rest m (Q : Z + unit → remote → Prop) s :
  true ∉ lost s → read_message (QmailRemote.message s) = (m, true) → st_size cf = Some (Z.of_nat (length m)) →
  fits (Z.of_nat (length m) + 1) → length ts = length (qmtp_reciplist cf) →
  server s = mjoin (map netstring ts) ++ rest → Forall decent ts →
  (∀ s', sent s' = sent s ++ request m (qmtp_sender cf) (qmtp_reciplist cf) →
     report s' = report s ++ mjoin (map record_of ts) ++ conclusion ts s → Q (inl 0%Z) s') →
  wp (qmtp cf) Q s.
Proof.
  intros Hl Hm Hsize Hfit Hn Hs Hts HQ. unfold qmtp. rewrite Hsize. unfold fits in Hfit.
  unfold wrap. rewrite Z.mod_small by lia.
  apply wp_qbind, wp_sent; [done|]. intros l1 Hl1. apply wp_qbind, wp_look, wp_qbind.
  eapply wp_copy; [done|exact Hm|lia|]. intros l2 Hl2.
  apply wp_qbind, wp_sent; [done|]. intros l3 Hl3. apply wp_qbind, wp_sent; [done|]. intros l4 Hl4.
  apply wp_qbind, wp_sent; [done|]. intros l5 Hl5. rewrite <- Hn.
  apply wp_qbind. eapply wp_answers; [exact Hs|done|]. intros s' Hr Hsent Hp. apply wp_conclude, HQ; cbn.
  - rewrite Hsent. unfold request. cbn. by rewrite <- !(assoc_L app).
  - unfold conclusion. rewrite Hr, Hp. cbn. by rewrite <- !(assoc_L app).
Qed.
End client.

(** ** What the server answers *)

(** A text of [qmail_close] says that nothing is wrong, or what. *)
Definition complaint (t : bytes) : Prop := (Z.of_nat (length t) < 4900)%Z ∧ ∃ x t', t = x :: t' ∧ (x = 68 ∨ x = 90)%Z.
Definition complaint_dec (t : bytes) : bool :=
  bool_decide (Z.of_nat (length t) < 4900)%Z && match t with x :: _ => bool_decide (x = 68 ∨ x = 90)%Z | [] => false end.
Lemma complaint_ok t : complaint_dec t = true → complaint t.
Proof.
  intros [Hl Hx]%andb_true_iff. destruct t as [|x t]; [done|]. apply bool_decide_eq_true in Hl, Hx.
  split; [done|]. by exists x, t.
Qed.
Lemma complaint_decent t : complaint t → decent t.
Proof. intros (? & x & t' & -> & ?). split; [done|]. exists x, t'. tauto. Qed.

Lemma close_complaint c q : custom c = None → qmail_close c q = [] ∨ complaint (qmail_close c q).
Proof.
  intros Hc. unfold qmail_close. destruct (waited c); [|by right; apply complaint_ok].
  destruct (how c) as [|e]; [by right; apply complaint_ok|]. cbn [negb].
  destruct (decide (e = 0%Z)); [case_match; [case_match|]; (by left) || by right; apply complaint_ok|].
  rewrite Hc. destruct (decide (e = QQ_CUSTOM_ERR)); [by right; apply complaint_ok|]. right.
  unfold assoc, close_texts. repeat (case_decide; [by apply complaint_ok|]).
  destruct (perm_error e); by apply complaint_ok.
Qed.

Section answers.
Context {L : LibQmail} {LL : LibQmailLaws L}.

(** The text for a recipient, when [t] is that for the message. *)
Definition answer_text (t : bytes) (f : Z) : bytes :=
  match f with
  | 0%Z => t
  | 68%Z => lit "Dsorry, that domain isn't in my list of allowed rcpthosts (#5.7.1)"
  | _ => lit "Dsorry, I can't handle that recipient (#5.1.3)"
  end.

Lemma answer_netstring t f : answer_to t f = netstring (answer_text t f).
Proof.
  unfold answer_to, answer_text.
  repeat case_match; first [reflexivity | rewrite netstring_is by (by vm_compute); reflexivity].
Qed.
Lemma answer_decent t f : decent t → decent (answer_text t f).
Proof. intros Ht. unfold answer_text. repeat case_match; try done; by apply complaint_decent, complaint_ok. Qed.
End answers.

(** ** Into the queue of the other host *)

Section queue.
Context {L : LibQmail} {LL : LibQmailLaws L}.
Context (sv : qmtpd_conf) (case_lower : bytes → bytes) (cf : remote_conf).
Context (cfg : config) (st : setting) (s0 : qqueue) (use_fsync use_fdatasync : bool).
Context (scan_int scan_uint : bytes → Z) (case_equal : bytes → bytes → bool).
Context (mess822_ok : bytes → bool) (beyond : bytes → bytes).

#[local] Abbreviation given := (given s0).
#[local] Abbreviation queue_end :=
  (queue_end cfg st s0 use_fsync use_fdatasync scan_int scan_uint case_equal mess822_ok beyond).
#[local] Abbreviation queue :=
  (qmail_queue cfg st use_fsync use_fdatasync scan_int scan_uint case_equal mess822_ok beyond).
#[local] Abbreviation verdict := (QueueSpec.verdict st scan_int scan_uint case_equal mess822_ok beyond).
#[local] Abbreviation queued m e := (QueueTheorems.queued cfg st (given m e) use_fsync use_fdatasync).
#[local] Abbreviation noted := (noted sv case_lower).

Lemma decimal_short n : length (decimal n) ≤ 20.
Proof. apply decimal_length. Qed.
Definition success : bytes := lit "Kok " ++ fmt_ulong (when sv) ++ lit " qp " ++ fmt_ulong (qp sv).
Lemma success_decent : ulong (when sv) → ulong (qp sv) → decent success.
Proof.
  intros Hw Hq. split; [|exists 75%Z; eexists; split; [reflexivity|tauto]].
  unfold success. rewrite !length_app, !fmt_ulong_ok by done.
  change (length (lit "Kok ")) with 4. change (length (lit " qp ")) with 4.
  pose proof (decimal_short (when sv)). pose proof (decimal_short (qp sv)). lia.
Qed.

(** The state of qmail-qmtpd when the client has sent [d]. *)
Definition start (d : bytes) : qmtpd := Qmtpd d [] (qmail_start []) [] 0.

Lemma result_decent over c q : ulong (when sv) → ulong (qp sv) → custom c = None →
  decent (result sv true over (qmail_close c q)) ∧
  (head (result sv true over (qmail_close c q)) = Some 75%Z → over = false ∧ qmail_close c q = []).
Proof.
  intros Hw Hq Hc. unfold result. destruct over.
  { rewrite decide_False by done. split; [by apply complaint_decent, complaint_ok|done]. }
  destruct (close_complaint c q Hc) as [->|Ht].
  { rewrite decide_True by done. split; [by apply success_decent|done]. }
  pose proof (complaint_decent _ Ht) as Hd. destruct Ht as (_ & x & t & E & Hx). rewrite E in *.
  rewrite decide_False by done. split; [exact Hd|]. intros [= ->]. lia.
Qed.

(** What the server answers to a request, and what it had submitted by then. *)
Lemma server_answers m from rs p : sendable sv case_lower m from rs → (0 ≤ databytes sv < 2 ^ 32 - 1)%Z → ∃ q,
  track ((true ∉ p) ∧ wanted sv case_lower m rs) (¬ wanted sv case_lower m rs)
    (submission sv case_lower m from rs).1 (submission sv case_lower m from rs).2 true q ∧
  let z := qmail_put [0%Z] q in
  let t := result sv true (too_long sv m) (qmail_close (queue_end (to_mess z) (to_env z)) q) in
  replies (snd (one_message sv case_lower (Some p) queue_end (start (request m from rs)))) =
    mjoin (map netstring (map (λ r, answer_text t (noted r)) rs)).
Proof.
  intros Hs Hdb.
  enough (wp (one_message sv case_lower (Some p) queue_end) (λ _ s', ∃ q,
    track ((true ∉ p) ∧ wanted sv case_lower m rs) (¬ wanted sv case_lower m rs)
      (submission sv case_lower m from rs).1 (submission sv case_lower m from rs).2 true q ∧
    let z := qmail_put [0%Z] q in
    let t := result sv true (too_long sv m) (qmail_close (queue_end (to_mess z) (to_env z)) q) in
    replies s' = mjoin (map netstring (map (λ r, answer_text t (noted r)) rs))) (start (request m from rs))) as H.
  { exact H. }
  eapply (wp_one_message sv case_lower p queue_end m from rs []); [done|done|by rewrite app_nil_r|].
  intros q s' Hq _ Hr. exists q. split; [exact Hq|]. cbv zeta in *. rewrite Hr. simpl. f_equal.
  rewrite !map_map. apply map_ext. intros r. apply answer_netstring.
Qed.

(** C38: a message that goes by QMTP.  Let qmail-remote send a message to a
    qmail-qmtpd that runs qmail-queue, over a connection that holds.  Then
    qmail-remote sends the request as the protocol has it, and reports, for every
    recipient, the answer to it, and whether all went well.  If it reports that a
    recipient is accepted then the other host has the message in its queue, with its
    Received field, every byte of the message, the sender, and exactly the recipients
    that qmail-qmtpd accepts, in their order, each with RELAYCLIENT behind it.  And
    if nothing fails, the message is not too long and a recipient is acceptable then
    the message is queued, and the accepted recipients are reported so. *)
Theorem qmtp_delivered m p s :
  let from := qmtp_sender cf in
  let rs := qmtp_reciplist cf in
  let m' := received sv ++ m in
  let e := envelope_for from (envelope_part sv case_lower rs) in
  sendable sv case_lower m from rs → (0 ≤ databytes sv < 2 ^ 32 - 1)%Z → ulong (when sv) → ulong (qp sv) →
  true ∉ lost s → read_message (QmailRemote.message s) = (m, true) → st_size cf = Some (Z.of_nat (length m)) →
  fresh s0 →
  server s = replies (snd (one_message sv case_lower (Some p) queue_end (start (request m from rs)))) →
  let '(r, s') := qmtp (A := unit) cf s in
  r = inl 0%Z ∧ sent s' = sent s ++ request m from rs ∧
  ∃ t, let ts := map (λ r, answer_text t (noted r)) rs in
  report s' = report s ++ mjoin (map record_of ts) ++ conclusion ts s ∧
  (head t = Some 75%Z →
    verdict (given m' e) = inr None ∨
    ∃ d o, verdict (given m' e) = inr (Some (d, o)) ∧ queued m' e d o (run queue (given m' e))) ∧
  (∀ d o, undisturbed cfg st (given m' e) → (true ∉ p) → wanted sv case_lower m rs →
    verdict (given m' e) = inr (Some (d, o)) → t = success ∧ queued m' e d o (run queue (given m' e))).
Proof.
  intros from rs m' e Hs Hdb Hw Hqp Hl Hm Hsize [Hf1 Hf2] Hsrv.
  assert (Hf : ∀ m e, fresh (given m e)) by done.
  destruct (server_answers m from rs p Hs Hdb) as (q & (Hi & Hgood & Hbad) & Hans). cbv zeta in Hans.
  rewrite Hans in Hsrv. clear Hans.
  assert (Hfull : flagerr (qmail_put [0%Z] q) = false → to_mess (qmail_put [0%Z] q) = m' ∧ to_env (qmail_put [0%Z] q) = e).
  { intros Hok. destruct (intact_put _ _ true [0%Z] q Hi Hok) as (-> & -> & _). split; [done|].
    unfold e, envelope_for. simpl. by rewrite <- !(assoc_L app). }
  set (c := queue_end _ _) in *.
  destruct (result_decent (too_long sv m) c q Hw Hqp eq_refl) as [Hdec Hhead].
  set (t := result sv true (too_long sv m) (qmail_close c q)) in *.
  enough (wp (qmtp (A := unit) cf) (λ r s', r = inl 0%Z ∧ sent s' = sent s ++ request m from rs ∧
    report s' = report s ++ mjoin (map record_of (map (λ r, answer_text t (noted r)) rs)) ++
      conclusion (map (λ r, answer_text t (noted r)) rs) s) s) as H.
  { unfold wp in H. destruct (qmtp cf s) as [r s']. cbn [fst snd] in H. destruct H as (-> & Hsent & Hrep).
    split; [done|]. split; [exact Hsent|]. exists t. split; [exact Hrep|]. split.
    - intros [Hlong Hz]%Hhead. pose proof Hz as (_ & _ & Hok)%close_accepted.
      apply close_nothing in Hz as (_ & He & _); [|done].
      specialize (Hok He). apply Hfull in Hok as [Em Ee]. unfold c in He. rewrite Em, Ee in He.
      apply exit_zero; [apply Hf|]. by injection He.
    - intros d o Hu Hp Hwant Hv. specialize (Hgood (conj Hp Hwant)).
      destruct (Hfull (proj1 (healthy_put _ _ Hgood))) as [Em Ee].
      pose proof (verdict_run cfg st (given m' e) scan_int scan_uint case_equal mess822_ok beyond use_fsync
        use_fdatasync (Hf m' e) Hu) as Hr.
      rewrite Hv in Hr. unfold t, c. rewrite Em, Ee. unfold run, SmtpdData.queue_end, val.
      destruct (queue (given m' e)) as [x s1]. destruct Hr as (-> & Hq & _). split; [|exact Hq].
      unfold result. destruct Hwant as [-> _]. by rewrite close_zero. }
  eapply (wp_qmtp cf _ [] m); [done|exact Hm|exact Hsize|apply Hs|by rewrite length_map|by rewrite app_nil_r| |].
  - apply Forall_map, Forall_true. intros r. by apply answer_decent.
  - intros s' H1 H2. done.
Qed.
End queue.

(** ** At work

    qmail-remote sends the message of [RemoteRun] to two recipients, of which
    qmail-qmtpd takes one, with the queue of [QueueRun] behind it. *)

Module QmtpRun.
#[local] Existing Instance reference_libqmail.
#[local] Existing Instance reference_laws.

Definition sv : qmtpd_conf := {|
  databytes := 100; received := lit "Received: by us" ++ [c_lf]; relayclient := None;
  hosts := RcpthostsConf 1 (λ b, bool_decide (b = lit "example.org")) None; when := 1000; qp := 77 |}.
Definition recipients : list bytes := [lit "bob@example.org"; lit "eve@example.net"].
Definition message : bytes := (read_message RemoteRun.reads).1.
Definition cf : remote_conf := {|
  queuedir := lit "q"; getpid := 77; helohost := lit "me.example"; outgoingip := lit "10.0.0.2";
  smtp_sender := []; smtp_reciplist := [];
  qmtp_sender := lit "joe@example.com"; qmtp_reciplist := recipients;
  qqeh := []; msgsize := []; st_size := Some (Z.of_nat (length message)); try_next_mx := true;
  flagtcpto := true; min_penalty := 60; max_tolerance := 120; protocol_t := 113 |}.

Definition queue_result : bytes → bytes → child :=
  queue_end QueueRun.cfg QueueRun.st QueueRun.s0 true false QueueRun.scan_int QueueRun.scan_int QueueRun.case_equal
    QueueRun.mess822_ok QueueRun.beyond.
Definition said : bytes :=
  replies (snd (one_message sv (λ b, b) (Some []) queue_result (start (request message (qmtp_sender cf) recipients)))).

Example answers :
  said = netstring (lit "Kok 1000 qp 77") ++
    netstring (lit "Dsorry, that domain isn't in my list of allowed rcpthosts (#5.7.1)").
Proof. by vm_compute. Qed.

Lemma message_sendable : sendable sv (λ b, b) message (qmtp_sender cf) recipients.
Proof.
  split.
  - by vm_compute.
  - by apply (bool_decide_eq_true _).
  - by apply (bool_decide_eq_true _).
  - by vm_compute.
  - repeat constructor; discriminate.
  - apply not_elem_of_nil.
Qed.

Lemma qmtp_delivered_witness :
  let m := received sv ++ message in
  let e := envelope_for (lit "joe@example.com") (lit "Tbob@example.org" ++ [0%Z]) in
  ∃ d o, @QueueTheorems.queued reference_libqmail QueueRun.cfg QueueRun.st (given QueueRun.s0 m e) true false d o
    (run QueueRun.queue (given QueueRun.s0 m e)).
Proof.
  pose proof (qmtp_delivered sv (λ b, b) cf QueueRun.cfg QueueRun.st QueueRun.s0 true false QueueRun.scan_int
    QueueRun.scan_int QueueRun.case_equal QueueRun.mess822_ok QueueRun.beyond message [] (RemoteRun.start said [])
    message_sendable) as H.
  cbv zeta in H.
  destruct (qmtp cf (RemoteRun.start said [])) as [r s'] eqn:Er.
  destruct H as (_ & _ & t & _ & _ & H).
  - vm_compute. split; congruence.
  - vm_compute. split; congruence.
  - vm_compute. split; congruence.
  - apply not_elem_of_nil.
  - vm_compute. reflexivity.
  - reflexivity.
  - split; reflexivity.
  - reflexivity.
  - set (m := received sv ++ message) in *.
    set (e := envelope_for (lit "joe@example.com") (lit "Tbob@example.org" ++ [0%Z])).
    change (envelope_for _ _) with e in H.
    destruct (QueueSpec.verdict QueueRun.st QueueRun.scan_int QueueRun.scan_int QueueRun.case_equal
      QueueRun.mess822_ok QueueRun.beyond (given QueueRun.s0 m e)) as [c|[[d o]|]] eqn:E.
    + exfalso. vm_compute in E. discriminate E.
    + exists d, o. destruct (H d o) as [_ Hq]; [split; by vm_compute|apply not_elem_of_nil| |reflexivity|exact Hq].
      split; [reflexivity|]. by apply (bool_decide_eq_true _).
    + exfalso. vm_compute in E. discriminate E.
Defined.
End QmtpRun.
