(* ===== verification/SessionRun.v ===== *)
(** * SMTP sessions at work

    The functions of libqmail that a session uses, concretely, and sessions. *)

From S2P Require Import Prelude LibQmail Filesys Control Fmtqfn SendState QmailRemote RemoteSpec RemoteTheorems.
From S2P Require Import QmailQueue QueueSpec QueueTheorems QueueRun Rcpthosts Qmail Smtpd SmtpdHeaders SmtpdData.
From S2P Require Import SmtpdSession SmtpdEnvelope SessionPhases SessionEnvelope SessionDialogue SessionTheorems.
From S2P Require Import SessionQueued SmtpdTheorems.

Module SessionRun.
#[local] Existing Instance reference_libqmail.
#[local] Existing Instance reference_laws.

Definition reference_case : CaseLib := {|
  case_lower := map lower;
  case_equal a b := bool_decide (map lower a = map lower b);
  case_starts s t := bool_decide (map lower (take (length t) s) = map lower t);
  scan_int := QueueRun.scan_int |}.
#[local] Existing Instance reference_case.
Lemma reference_case_laws : CaseLaws reference_case.
Proof. split; simpl; intros; try done; apply bool_decide_eq_true. Qed.
#[local] Existing Instance reference_case_laws.

Definition strip_cr (l : bytes) : bytes :=
  if decide (last l = Some c_cr) then take (length l - 1) l else l.
Definition reference_commands : Commands := λ s,
  let i := index_of c_lf s in
  if decide (i < length s) then
    let l := strip_cr (take i s) in
    let j := index_of c_space l in
    Some (take j l, skip_spaces (drop j l), drop (i + 1) s)
  else None.
#[local] Existing Instance reference_commands.

Definition conf : session_conf := {|
  data := SmtpdConf false 1000 10 [] 0 (Some (lit "mx.example")) false;
  environ0 := ∅; badip := false; badhost := false;
  remoteip := lit "10.0.0.2"; remotehost := lit "me.example"; localip := lit "10.0.0.1"; localhost := lit "mx.example";
  greeting := [lit "mx.example"]; greet_extra := []; revision := lit "1.335"; childargs := false; auth_lines := [];
  port := 25; smtp_port := 25; servercert := false; nodnscheck := true; nodnschecks := None; dohelocheck := false;
  no_vrfy := false; no_help := false; spfbehavior := 0; maxrcptcount := 3; acclistok := false; srs_domain := [];
  maplocals := λ _, false;
  hosts := RcpthostsConf 1 (λ b, bool_decide (b = lit "example.org")) None |}.

(** Nothing is listed anywhere, [texts] are what plugins say of a sender, and
    qmail-queue runs on the queue of [QueueRun]. *)
Definition answers (texts : list (option bytes)) : lookups := {|
  address_match _ _ _ := 0%Z; dns_mxip _ := DnsOk; tablematch _ := 1%Z; mail_plugin := texts; rcpt_plugin := [];
  passwd := Absent; recipients _ := 10%Z; mail_acl _ _ := 0%Z; spfcheck := SpfNone; spfbarfmsg := lit "x"; spfinfo := [];
  srsreverse _ := (0%Z, []); received_field := lit "Received: by us" ++ [c_lf]; queue_pid := 77; opened := Some [];
  queue_end _ := SmtpdData.queue_end QueueRun.cfg QueueRun.st QueueRun.s0 true false QueueRun.scan_int
    QueueRun.scan_int QueueRun.case_equal QueueRun.mess822_ok QueueRun.beyond;
  now := 1000 |}.
Definition quiet : lookups := answers [].
Lemma quiet_usable : usable conf False quiet.
Proof.
  split; [split|]; simpl; [by intros ? ?%elem_of_nil..| |]; done.
Qed.

Definition start (c : bytes) : session :=
  Session (Smtpd c [] false [] [] 0 false 0 0 false (qmail_start [])) ∅ true (lit "me.example") false [] None []
    None false [] false false false false false 0 1 false false.
Lemma start_begun c : begun (start c).
Proof. done. Qed.

(** ** Dialogues, computed *)

#[local] Abbreviation dispatch ws := (dispatch conf [] [] (λ _, ok tt) (λ _, ok tt) (λ _, ok tt) (λ _, ok tt) ws).
#[local] Abbreviation dialogue := (dialogue conf [] [] (λ _, ok tt) (λ _, ok tt) (λ _, ok tt) (λ _, ok tt) False).

(** The first [n] commands, all of them answered by [quiet]. *)
Fixpoint talk (n : nat) (s : session) : option (list exchange * session) :=
  match n with
  | 0 => Some ([], s)
  | S n =>
    '(word, arg, rest) ← next_command (client (sm s));
    match dispatch quiet word arg (set_sm (set_client rest (sm s)) s) with
    | (inl _, _) => None
    | (inr _, s1) =>
      let reply := drop (length (replies (sm s))) (replies (sm s1)) in
      if decide (external word = false ∧ replies (sm s1) = replies (sm s) ++ reply) then
        '(log, s2) ← talk n s1; Some (Exchange word arg reply :: log, s2)
      else None
    end
  end.
Lemma talk_dialogue n s log s2 : talk n s = Some (log, s2) → dialogue s log s2.
Proof.
  revert s log. induction n as [|n IH]; intros s log; cbn [talk]; [intros [= <- <-]; constructor|].
  destruct (next_command (client (sm s))) as [[[word arg] rest]|] eqn:En; [|done]. cbn [mbind option_bind].
  destruct (dispatch quiet word arg _) as [[e|b] s1] eqn:Ed; [done|]. case_decide as Hd; [|done]. destruct Hd as [Hx Hr].
  destruct (talk n s1) as [[log' s']|] eqn:Et; [|done]. intros [= <- <-].
  eapply dialogue_step; [exact En|apply quiet_usable|exact Hx|exact Ed|exact Hr|by apply IH].
Qed.

Definition lines (l : list string) : bytes := mjoin (map (λ t, lit t ++ crlf) l).
Definition ls : list bytes := [lit "Subject: x"; []; lit ".hello"].
(** Three recipients are given, of whom two may come in. *)
Definition given_commands : bytes := lines
  ["EHLO me.example"; "MAIL FROM:<joe@example.com> SIZE=100"; "RCPT TO:<bob@example.org>"; "rcpt to:<eve@example.net>";
   "RCPT TO:<a%b@example.org>"; "RCPT TO:<sue@example.org>"; "DATA"]%string.
Definition ss : session := start (given_commands ++ (wire_lines ls ++ c_dot :: crlf) ++ lines ["QUIT"]%string).

Definition log0 : list exchange := match talk 6 ss with Some (log, _) => log | None => [] end.
Definition s_data : session := match talk 6 ss with Some (_, s) => s | None => ss end.
Lemma talked : dialogue ss log0 s_data.
Proof. apply (talk_dialogue 6). vm_compute. reflexivity. Qed.
Definition agreed : bytes * list bytes := (lit "joe@example.com", [lit "bob@example.org"; lit "sue@example.org"]).
Definition reply : bytes := lit "250 ok 1000 qp 77" ++ crlf.
Definition tail : bytes := (wire_lines ls ++ c_dot :: crlf) ++ lines ["QUIT"]%string.
Definition after_data : (Z + bool) * session := dispatch quiet (lit "DATA") [] (set_sm (set_client tail (sm s_data)) s_data).
Definition s_end : session := snd after_data.

#[local] Abbreviation data_step :=
  (data_step conf [] [] (λ _, ok tt) (λ _, ok tt) (λ _, ok tt) (λ _, ok tt) quiet s_data s_end (go_ahead ++ reply)).
#[local] Abbreviation asks := (asks QueueRun.cfg QueueRun.st QueueRun.s0 true false QueueRun.scan_int
  QueueRun.scan_int QueueRun.case_equal QueueRun.mess822_ok QueueRun.beyond quiet [] ls s_data).
Lemma asked : asks.
Proof.
  split; [reflexivity|reflexivity|by apply (bool_decide_eq_true _)|].
  exists (lit "DATA"), (lines ["QUIT"]%string). split; vm_compute; reflexivity.
Qed.
Lemma answered : data_step.
Proof.
  exists (lit "DATA"), [], tail, (fst after_data). split; [vm_compute; reflexivity|]. split; [apply surjective_pairing|].
  vm_compute. reflexivity.
Qed.

Lemma conf_port : smtp_port conf ≠ 366%Z ∨ port conf ≠ 366%Z.
Proof. by left. Qed.
Lemma conf_databytes : (0 ≤ databytes (data conf) < 2 ^ 64 - 1)%Z.
Proof. done. Qed.
Lemma queue_fresh : fresh QueueRun.s0.
Proof. done. Qed.
Lemma start_orderly : orderly conf [] None log0.
Proof. vm_compute. split_and!; first [done|intros H; discriminate H]. Qed.
Lemma start_agreed : transaction_of conf [] log0 = Some agreed.
Proof. vm_compute. reflexivity. Qed.

Lemma transaction_queued_witness :
  let m := lit "Received: by us" ++ c_lf :: unlines ls in
  let e := envelope_for (lit "joe@example.com") (lit "Tbob@example.org" ++ 0%Z :: lit "Tsue@example.org" ++ [0%Z]) in
  ∃ d o, @QueueTheorems.queued reference_libqmail QueueRun.cfg QueueRun.st (given QueueRun.s0 m e) true false d o
    (run QueueRun.queue (given QueueRun.s0 m e)).
Proof.
  pose proof (transaction_queued conf [] [] (λ _, ok tt) (λ _, ok tt) (λ _, ok tt) (λ _, ok tt) eq_refl conf_port
    conf_databytes QueueRun.cfg QueueRun.st QueueRun.s0 true false
    QueueRun.scan_int QueueRun.scan_int QueueRun.case_equal QueueRun.mess822_ok QueueRun.beyond queue_fresh
    False ss log0 s_data quiet [] ls agreed.1 agreed.2 s_end reply (start_begun _) talked start_orderly
    start_agreed asked answered) as [_ H].
  set (m := received_field quiet ++ unlines ls) in *. set (e := envelope_for agreed.1 _) in *.
  destruct (QueueSpec.verdict QueueRun.st QueueRun.scan_int QueueRun.scan_int QueueRun.case_equal
    QueueRun.mess822_ok QueueRun.beyond (given QueueRun.s0 m e)) as [c|[[d o]|]] eqn:E.
  - exfalso. vm_compute in E. discriminate E.
  - exists d, o. destruct (H d o) as [_ Hq]; [split; by vm_compute|apply not_elem_of_nil|reflexivity|reflexivity|reflexivity|].
    exact Hq.
  - exfalso. vm_compute in E. discriminate E.
Defined.


(** ** A second MAIL *)

(** A MAIL that is refused by one of the later checks leaves its sender, without
    recipients, in the transaction that an earlier one began. *)
Definition second_mail : bytes := lines
  ["MAIL FROM:<joe@example.com>"; "RCPT TO:<sue@example.org>"; "MAIL FROM:<evil@example.com>"; "RCPT TO:<bob@example.org>"]%string.
Example refused_sender_kept :
  let ws n := if decide (n = 2) then answers [Some (lit "553 not you" ++ crlf)] else quiet in
  let '(r, s) := commands conf [] [] (λ _, ok tt) (λ _, ok tt) (λ _, ok tt) (λ _, ok tt) 4 ws 0 (start second_mail) in
  r = inr tt ∧ replies (sm s) = lines ["250 ok"; "250 ok"; "553 not you"; "250 ok"]%string ∧
  seenmail (sm s) = true ∧ mailfrom (sm s) = lit "evil@example.com" ∧ rcptto (sm s) = lit "Tbob@example.org" ++ [0%Z].
Proof. vm_compute. done. Qed.
End SessionRun.
