(* ===== verification/Greyd.v ===== *)
(** * Greylisting: [qmail-greyd.c] and its client [greylist.c]

    The daemon keeps a record for each address, sender and list of recipients in
    memory: a doubly linked list in the order of their arrival, chains of the records
    of an address, and a hash table of [hsearch] with the first record of each.  The
    memory is a heap here: a pointer is the number of a record, and to follow one that
    is null or was freed ends the process ([crash]), as does a loop that does not end.

    The program is the one with IPv6.  What [malloc] leaves in a field that is not
    set is a parameter, as are [scan_xlong], how much room [hcreate] makes, the
    whitelist and what memory holds behind a datagram.  Left out: the log, the options
    and the socket, errors of [sendto], and SIGHUP, which reads the whitelist again.
    The part of [ip_match] for a list in memory is left out since it is not reached:
    with a whitelist [whitefn] is set, and the function returns before it. *)

From S2P Require Import Prelude LibQmail Control Smtpd.

Abbreviation ptr := (option nat) (only parsing).

Definition RECORD_NEW : Z := 0.
Definition RECORD_EARLY : Z := 1.
Definition RECORD_STALE : Z := 2.
Definition RECORD_WHITE : Z := 3.
Definition RECORD_OK : Z := 4.
Definition RECORD_GREY : Z := 5.
Definition RECORD_BOUNCE : Z := 6.
Definition IPFMT : nat := 72.

Record greylst := Greylst {
  ip : bytes;  (* sixteen *)
  ip_str : bytes; rpath : bytes;
  rcpt : bytes;  (* [Trcpt1\0Trcpt2\0...]; [rcptlen] is its length *)
  timestamp : Z; attempts : Z; status : Z;
  prev : ptr; next : ptr;
  ip_prev : ptr; ip_next : ptr
}.

(** The static variables, the memory, and what was sent. *)
Record greyd := GreyD {
  heap : gmap nat greylst;
  brk : nat;  (* the next place *)
  ghead : ptr; gtail : ptr;
  table : option (nat * gmap bytes nat);  (* that of [hsearch]: its room, and what it holds *)
  grey_count : Z; hcount : Z; h_allocated : Z;
  sent : list bytes
}.

Record grey_conf := GreyConf {
  timeout : Z; min_resend : Z; resend_window : Z; free_interval : Z;  (* unsigned longs *)
  hash_size : Z;
  white : option (bytes → Z)  (* the whitelist, if there is one: [cdb_matchaddr] on it *)
}.
Record request := Request { q_ip : bytes; q_from : bytes; q_rcpts : bytes }.
(** A datagram, and the time when it is looked at and when a record is made of it. *)
Record datagram := Datagram { packet : bytes; now : Z; then_ : Z }.

Notation "'GS' A" := (ST greyd (Z + A)) (at level 10, A at next level, only parsing) : mta_scope.
Definition setg (f : greyd → greyd) : GS unit := modify f;; ok tt.
Definition see {A} (f : greyd → A) : GS A := s ← getS; ok (f s).
Definition exit {A} (code : Z) : GS A := mret (inl code).
Definition crash {A} : GS A := exit (-1).
Definition die_nomem {A} : GS A := exit 1.

Definition set_heap v s := GreyD v (brk s) (ghead s) (gtail s) (table s) (grey_count s) (hcount s) (h_allocated s) (sent s).
Definition set_brk v s := GreyD (heap s) v (ghead s) (gtail s) (table s) (grey_count s) (hcount s) (h_allocated s) (sent s).
Definition set_ghead v s := GreyD (heap s) (brk s) v (gtail s) (table s) (grey_count s) (hcount s) (h_allocated s) (sent s).
Definition set_gtail v s := GreyD (heap s) (brk s) (ghead s) v (table s) (grey_count s) (hcount s) (h_allocated s) (sent s).
Definition set_table v s := GreyD (heap s) (brk s) (ghead s) (gtail s) v (grey_count s) (hcount s) (h_allocated s) (sent s).
Definition set_grey_count v s := GreyD (heap s) (brk s) (ghead s) (gtail s) (table s) v (hcount s) (h_allocated s) (sent s).
Definition set_hcount v s := GreyD (heap s) (brk s) (ghead s) (gtail s) (table s) (grey_count s) v (h_allocated s) (sent s).
Definition set_h_allocated v s := GreyD (heap s) (brk s) (ghead s) (gtail s) (table s) (grey_count s) (hcount s) v (sent s).
Definition set_sent v s := GreyD (heap s) (brk s) (ghead s) (gtail s) (table s) (grey_count s) (hcount s) (h_allocated s) v.

Definition set_prev v r := Greylst (ip r) (ip_str r) (rpath r) (rcpt r) (timestamp r) (attempts r) (status r) v (next r) (ip_prev r) (ip_next r).
Definition set_next v r := Greylst (ip r) (ip_str r) (rpath r) (rcpt r) (timestamp r) (attempts r) (status r) (prev r) v (ip_prev r) (ip_next r).
Definition set_ip_prev v r := Greylst (ip r) (ip_str r) (rpath r) (rcpt r) (timestamp r) (attempts r) (status r) (prev r) (next r) v (ip_next r).
Definition set_ip_next v r := Greylst (ip r) (ip_str r) (rpath r) (rcpt r) (timestamp r) (attempts r) (status r) (prev r) (next r) (ip_prev r) v.
Definition set_attempt (t n st : Z) r :=
  Greylst (ip r) (ip_str r) (rpath r) (rcpt r) t n st (prev r) (next r) (ip_prev r) (ip_next r).

(** Memory. *)
Definition load (p : ptr) : GS greylst :=
  match p with
  | None => crash
  | Some a => h ←? see heap; match h !! a with Some r => ok r | None => crash end
  end.
Definition store (p : ptr) (f : greylst → greylst) : GS unit :=
  r ←? load p; setg (λ s, set_heap (match p with Some a => <[a := f r]> (heap s) | None => heap s end) s).
Definition malloc (r : greylst) : GS nat :=
  a ←? see brk; setg (λ s, set_brk (S a) (set_heap (<[a := r]> (heap s)) s));;? ok a.
Definition free (a : nat) : GS unit := setg (λ s, set_heap (delete a (heap s)) s).

(** ** The client *)

Definition grey_packet (connectingip from tolist : bytes) : bytes :=
  lit "I" ++ connectingip ++ [0%Z] ++ lit "F" ++ from ++ [0%Z] ++ tolist ++ [0%Z].
(** The result of [greylist], from what [query_skt] read: -1 for an error, 0 for a
    client that is to come back. *)
Definition grey_result (reply : option bytes) : Z :=
  match reply with
  | None => -1
  | Some r => if decide (head r = Some 0%Z) then 0 else 1
  end.

Section daemon.
Context {L : LibQmail} (scan_xlong : bytes → nat * Z) (hcreate : Z → option nat).
Context (junk : ptr) (beyond : bytes) (cf : grey_conf).

(** ** [ip6_scan]; the length that it returns is only compared with 0 *)

Definition two (u : Z) : bytes := [wrap 8 (Z.shiftr u 8); wrap 8 u].
(** The part before [::]: all of the address, or its first bytes and what follows. *)
Fixpoint ip6_prefix (n : nat) (s pre : bytes) : option (bytes + bytes * bytes) :=
  match n with
  | 0 => None
  | S n =>
    if decide (s !! 0 = Some c_colon ∧ s !! 1 = Some c_colon) then Some (inr (pre, drop 2 s))
    else
      let s := if decide (s !! 0 = Some c_colon) then drop 1 s else s in
      let '(i, u) := scan_xlong s in
      if decide (i = 0) then None
      else if decide (length pre = 12 ∧ s !! i = Some c_dot) then
        match ip4_scan s with Some (v, _) => Some (inl (pre ++ v)) | None => None end
      else
        let pre := pre ++ two u in
        if decide (length pre = 16) then Some (inl pre) else ip6_prefix n (drop i s) pre
  end.
Fixpoint ip6_suffix (n : nat) (s : bytes) (prefixlen : nat) (suf : bytes) : bytes :=
  match n with
  | 0 => suf
  | S n =>
    if decide ((s !! 0 = Some c_colon) ↔ suf = []) then suf
    else
      let s := if decide (s !! 0 = Some c_colon) then drop 1 s else s in
      let '(i, u) := scan_xlong s in
      if decide (i = 0) then suf
      else
        let dotted := bool_decide (length suf + prefixlen ≤ 12 ∧ s !! i = Some c_dot) in
        match (if dotted then ip4_scan s else None) with
        | Some (v, _) => suf ++ v
        | None =>
          let prefixlen := if dotted then 12 - length suf else prefixlen in
          let suf := suf ++ two u in
          if decide (prefixlen + length suf = 16) then suf else ip6_suffix n (drop i s) prefixlen suf
        end
  end.
Definition V4mappedprefix : bytes := replicate 10 0%Z ++ [255; 255]%Z.
Definition ip6_scan (s : bytes) : option bytes :=
  match ip4_scan s with
  | Some (v, _) => Some ((if decide (v = replicate 4 0%Z) then replicate 12 0%Z else V4mappedprefix) ++ v)
  | None =>
    match ip6_prefix 9 s [] with
    | None => None
    | Some (inl a) => Some a
    | Some (inr (pre, s)) =>
      let suf := ip6_suffix 9 s (length pre) [] in
      Some (pre ++ replicate (16 - length pre - length suf) 0%Z ++ suf)
    end
  end.

(** ** The hash table *)

Definition hdestroy : GS unit := setg (set_table None).
Definition hsearch_find (k : bytes) : GS (option nat) :=
  t ←? see table; match t with None => crash | Some (_, m) => ok (m !! k) end.
(** Whether there was room. *)
Definition hsearch_enter (k : bytes) (a : nat) : GS bool :=
  t ←? see table;
  match t with
  | None => crash
  | Some (room, m) =>
    if decide (size m < room) then setg (set_table (Some (room, <[k := a]> m)));;? ok true else ok false
  end.

(** A chain of [n] records at most is followed. *)
Fixpoint chain_end (n : nat) (a : nat) : GS nat :=
  match n with
  | 0 => crash
  | S n => r ←? load (Some a); match ip_next r with None => ok a | Some b => chain_end n b end
  end.
Definition chain_bound : GS nat := see (λ s, S (size (heap s))).

Definition hash_one (p : nat) : GS bool :=
  r ←? load (Some p);
  e ←? hsearch_find (ip_str r);
  match e with
  | None =>
    done_ ←? hsearch_enter (ip_str r) p;
    if done_ : bool then n ←? see hcount; setg (set_hcount (n + 1)%Z);;? ok true else ok false
  | Some a =>
    n ←? chain_bound; z ←? chain_end n a;
    store (Some z) (set_ip_next (Some p));;? store (Some p) (set_ip_next None);;?
    store (Some p) (set_ip_prev (Some z));;? ok true
  end.
Fixpoint hash_all (n : nat) (p : ptr) : GS bool :=
  match p with
  | None => ok true
  | Some a =>
    match n with
    | 0 => crash
    | S n =>
      done_ ←? hash_one a;
      if done_ : bool then r ←? load (Some a); hash_all n (next r) else ok false
    end
  end.

Definition new_table (curr : ptr) : GS ptr :=
  n ←? see h_allocated;
  setg (set_h_allocated (n + 1)%Z);;?
  (if decide (n = 0)%Z then ok tt else hdestroy;;? setg (set_hcount 0%Z));;?
  match hcreate (Z.quot (swrap 32 (125 * hash_size cf * (n + 1))) 100) with
  | None => exit 111
  | Some room => setg (set_table (Some (room, ∅)));;? ok (if decide (n = 0)%Z then curr else None)
  end.
(** 0, or -1 when there is no room. *)
Definition create_hash (curr : ptr) : GS Z :=
  (if decide (curr = None) then
     hdestroy;;? setg (set_h_allocated 0%Z);;? setg (set_hcount 0%Z)
   else ok tt);;?
  c ←? see hcount;
  curr ←? (if decide (Z.rem c (hash_size cf) = 0)%Z then new_table curr else ok curr);
  done_ ←? (match curr with
            | Some p => hash_one p
            | None => h ←? see ghead; n ←? chain_bound; hash_all n h
            end);
  ok (if done_ : bool then 0 else -1)%Z.

(** ** Expiry *)

Definition ulong_sub (a b : Z) : Z := wrap 64 (a - b).
(** Taken out of the list: for the first record of it the list starts with the next. *)
Definition unlink (a : nat) : GS unit :=
  c ←? see grey_count; setg (set_grey_count (c - 1)%Z);;?
  h ←? see ghead;
  (if decide (h = Some a) then
     r ←? load (Some a); setg (set_ghead (next r));;? store (next r) (set_prev None)
   else ok tt);;?
  r ←? load (Some a); store (prev r) (set_next (next r));;?
  r ←? load (Some a); store (next r) (set_prev (prev r)).
Fixpoint expire_loop (n : nat) (start : Z) (p : ptr) : GS unit :=
  match p with
  | None => ok tt
  | Some a =>
    match n with
    | 0 => crash
    | S n =>
      r ←? load (Some a);
      if decide (start ≤ timestamp r)%Z then expire_loop n start (next r)
      else unlink a;;? r ←? load (Some a); free a;;? expire_loop n start (next r)
    end
  end.
Definition expire_records (cur_time : Z) : GS unit :=
  let start := swrap 64 (cur_time - timeout cf) in
  h ←? see ghead; n ←? chain_bound; expire_loop n start h;;?
  r ←? create_hash None;
  if decide (r = 0)%Z then ok tt else die_nomem.

(** ** Looking for a record *)

(** Whether some record has not expired. *)
Fixpoint unexpired (n : nat) (start : Z) (p : ptr) : GS bool :=
  match p with
  | None => ok false
  | Some a =>
    match n with
    | 0 => crash
    | S n => r ←? load (Some a); if decide (timestamp r < start)%Z then unexpired n start (next r) else ok true
    end
  end.
Definition matches (q : request) (v : bytes) (r : greylst) : bool :=
  bool_decide (ip r = v ∧ take (length (q_from q)) (rpath r) = q_from q ∧ rcpt r = q_rcpts q).
Fixpoint chain_find (n : nat) (q : request) (v : bytes) (p : ptr) : GS ptr :=
  match p with
  | None => ok None
  | Some a =>
    match n with
    | 0 => crash
    | S n => r ←? load (Some a); if matches q v r then ok (Some a) else chain_find n q v (ip_next r)
    end
  end.

(** What is said of a record at [cur_time], and what becomes of it. *)
Definition judge (cur_time : Z) (bounce : bool) (stat stamp : Z) : Z * Z :=
  if decide ((stat = RECORD_GREY ∨ stat = RECORD_OK) ∧ (ulong_sub cur_time (timeout cf) < wrap 64 stamp)%Z)
  then (RECORD_OK, cur_time)
  else if decide (cur_time < stamp + swrap 32 (min_resend cf))%Z then (RECORD_EARLY, stamp)
  else if decide (stamp + swrap 32 (resend_window cf) < cur_time)%Z then (RECORD_STALE, cur_time)
  else (if bounce then RECORD_BOUNCE else RECORD_GREY, cur_time).

Definition is_white (remoteip : bytes) : GS bool :=
  match white cf with
  | None => ok false
  | Some cdb =>
    let x := cdb remoteip in
    if decide (x = 1)%Z then ok true else if decide (x = 0)%Z then ok false
    else if decide (x = -1)%Z then die_nomem else exit 111
  end.

(** With nothing unexpired the record is new. *)
Definition wait_for_expiry (cur_time : Z) : GS bool :=
  h ←? see ghead; r ←? load h;
  if decide (wrap 64 (timestamp r) < ulong_sub cur_time (timeout cf))%Z then
    if decide (swrap 32 (free_interval cf) = 0)%Z then crash
    else if decide (Z.rem cur_time (swrap 32 (free_interval cf)) = 0)%Z then
      expire_records cur_time;;? h ←? see ghead; ok (bool_decide (h ≠ None))
    else n ←? chain_bound; unexpired n (swrap 64 (cur_time - timeout cf)) h
  else ok true.

Definition search_record (cur_time : Z) (q : request) : GS (Z * ptr) :=
  w ←? is_white (q_ip q);
  if w : bool then ok (RECORD_WHITE, None)
  else
    h ←? see ghead;
    if decide (h = None) then ok (RECORD_NEW, None)
    else
      some ←? wait_for_expiry cur_time;
      if negb some then ok (RECORD_NEW, None)
      else
        match ip6_scan (q_ip q) with
        | None => ok (0%Z, None)
        | Some v =>
          e ←? hsearch_find (q_ip q);
          match e with
          | None => ok (RECORD_NEW, None)
          | Some a =>
            n ←? chain_bound; found ←? chain_find n q v (Some a);
            match found with
            | None => ok (RECORD_NEW, None)
            | Some a =>
              r ←? load (Some a);
              let '(st, t) := judge cur_time (bool_decide (q_from q = [])) (status r) (timestamp r) in
              store (Some a) (set_attempt t (swrap 32 (attempts r + 1)) st);;? ok (st, Some a)
            end
          end
        end.

(** ** Adding one *)

(** The record behind the last one gets a predecessor, but no successor. *)
Definition append (r : greylst) : GS nat :=
  h ←? see ghead;
  if decide (h = None) then
    a ←? malloc (set_prev None (set_next None r)); setg (set_ghead (Some a));;? setg (set_gtail (Some a));;? ok a
  else
    t ←? see gtail; a ←? malloc (set_prev t (set_next junk r));
    store t (set_next (Some a));;? setg (set_gtail (Some a));;? ok a.
(** When the address cannot be read the record is freed, but stays in the list. *)
Definition add_record (time : Z) (q : request) : GS (bool * nat) :=
  let v := ip6_scan (q_ip q) in
  a ←? append (Greylst (default [] v) (q_ip q) (q_from q) (q_rcpts q) time 1 RECORD_NEW None None None None);
  if decide (IPFMT < length (q_ip q) + 1) then crash
  else
    n ←? see grey_count; setg (set_grey_count (n + 1)%Z);;?
    match v with Some _ => ok (true, a) | None => free a;;? ok (false, a) end.

Definition response (st : Z) : bytes :=
  if decide (st = RECORD_EARLY) then [0; 2]%Z
  else if decide (st = RECORD_STALE) then [0; 3]%Z
  else if decide (st = RECORD_WHITE) then [1; 1]%Z
  else if decide (st = RECORD_OK) then [1; 2]%Z
  else if decide (st = RECORD_GREY) then [1; 3]%Z
  else if decide (st = RECORD_BOUNCE) then [1; 4]%Z
  else [48; 5]%Z.
(** The record that it is about, and whether it is a new one. *)
Definition send_response (d : datagram) (q : request) : GS (ptr * bool) :=
  let send resp := setg (λ s, set_sent (sent s ++ [resp]) s) in
  x ←? search_record (now d) q;
  let '(st, grey) := x in
  if decide (st = RECORD_NEW) then
    x ←? add_record (then_ d) q;
    let '(added, a) := x in
    send (if added : bool then [0; 1] else [0; 4])%Z;;? ok (Some a, added)
  else send (response st);;? ok (grey, false).

(** ** Datagrams *)

Record parsed := Parsed { state : Z; client_ip : ptr; p_rpath : ptr; rcpt_head : ptr; rcptlen : nat }.
(** [mem] is the memory at the datagram of [n] bytes. *)
Fixpoint parse_loop (fuel : nat) (mem : bytes) (n pos : nat) (p : parsed) : parsed :=
  match fuel with
  | 0 => p
  | S fuel =>
    if decide (pos + 1 < n) then
      let c := mem !! pos in
      let len := length (cstr (drop pos mem)) + 1 in
      let p :=
        if decide (c = Some 73%Z) (* I *) then Parsed (state p + 1) (Some (pos + 1)) (p_rpath p) (rcpt_head p) (rcptlen p)
        else if decide (c = Some 70%Z) (* F *) then Parsed (state p + 1) (client_ip p) (Some (pos + 1)) (rcpt_head p) (rcptlen p)
        else if decide (c = Some 84%Z) (* T *) then
          Parsed (state p) (client_ip p) (p_rpath p) (Some (default pos (rcpt_head p))) (rcptlen p + len)
        else p in
      let p := if decide (pos + len = n) then Parsed 0 (client_ip p) (p_rpath p) (rcpt_head p) (rcptlen p) else p in
      parse_loop fuel mem n (pos + len) p
    else p
  end.
(** Pointers that this datagram did not set are null, or into memory that was
    reallocated. *)
Definition parse (data : bytes) : option (option request) :=
  let mem := data ++ beyond in
  let p := parse_loop (length data) mem (length data) 0 (Parsed 0 None None None 0) in
  if decide (state p ≠ 2%Z ∨ rcptlen p = 0) then Some None
  else
    match client_ip p, p_rpath p with
    | Some i, Some f =>
      Some (Some (Request (cstr (drop i mem)) (cstr (drop f mem)) (take (rcptlen p) (drop (default 0 (rcpt_head p)) mem))))
    | _, _ => None
    end.

Definition serve_request (d : datagram) (q : request) : GS unit :=
  x ←? send_response d q;
  let '(grey, rec_added) := x in
  (if decide (grey = None) then ok tt else load grey;;? ok tt);;?
  if rec_added : bool then
    r ←? create_hash grey; if decide (r = 0)%Z then ok tt else die_nomem
  else ok tt.
(** An empty datagram: [rdata_len / n]. *)
Definition serve (d : datagram) : GS unit :=
  match packet d with
  | [] => crash
  | c :: _ =>
    if decide (c = 73)%Z then
      match parse (packet d) with
      | None => crash
      | Some None => ok tt
      | Some (Some q) => serve_request d q
      end
    else ok tt
  end.
Fixpoint serve_all (ds : list datagram) : GS unit :=
  match ds with [] => ok tt | d :: ds => serve d;;? serve_all ds end.

(** ** The context file *)

Definition record_line (r : greylst) : bytes :=
  ip_str r ++ [0%Z] ++ rpath r ++ [0%Z] ++ fmt_ulong (Z.of_nat (length (rcpt r))) ++ [0%Z] ++ rcpt r ++
  fmt_ulong (wrap 64 (timestamp r)) ++ [0%Z] ++ [wrap 8 (status r)] ++ [c_lf].
Fixpoint save_loop (n : nat) (time : Z) (p : ptr) : GS bytes :=
  match p with
  | None => ok []
  | Some a =>
    match n with
    | 0 => crash
    | S n =>
      r ←? load (Some a);
      rest ←? save_loop n time (next r);
      ok ((if decide (wrap 64 (timestamp r) < ulong_sub time (timeout cf))%Z then [] else record_line r) ++ rest)
    end
  end.
(** What is written, if the file is. *)
Definition save_context (time : Z) : GS (option bytes) :=
  c ←? see grey_count;
  if decide (c = 0)%Z then ok None
  else h ←? see ghead; n ←? chain_bound; t ←? save_loop n time h; ok (Some t).

Context (scan_int : bytes → Z) (verbose : bool).  (* [verbose] is above 1 *)
Definition next_field (m : bytes) : bytes := drop (length (cstr m) + 1) m.
Definition saved_record (line : bytes) : option greylst :=
  let m1 := line ++ [0%Z] ++ beyond in
  let m2 := next_field m1 in
  let m3 := next_field m2 in
  let len := scan_int m3 in
  let m4 := next_field m3 in
  let m5 := drop (Z.to_nat len) m4 in
  let m6 := next_field m5 in
  if decide (len < 0)%Z then None
  else Some (Greylst (default [] (ip6_scan (cstr m1))) (cstr m1) (cstr m2) (take (Z.to_nat len) m4)
               (swrap 64 (snd (scan_ulong m5))) 0 (schar (default 0%Z (head m6))) None None junk junk).
Fixpoint load_loop (fuel : nat) (cur_time : Z) (file : bytes) : GS unit :=
  match fuel with
  | 0 => ok tt
  | S fuel =>
    let '(line, more) := line_by c_lf file in
    if decide (line = []) then ok tt
    else
      match saved_record line with
      | None => crash
      | Some r =>
        if verbose && bool_decide (wrap 64 (timestamp r) < ulong_sub cur_time (timeout cf))%Z
        then load_loop fuel cur_time (drop (length line) file)
        else
          a ←? append r;
          (if decide (IPFMT < length (ip_str r) + 1) then crash else ok tt);;?
          h ←? create_hash (Some a);
          (if decide (h = 0)%Z then ok tt else die_nomem);;?
          n ←? see grey_count; setg (set_grey_count (n + 1)%Z);;?
          match ip6_scan (ip_str r) with
          | None => free a
          | Some _ => if more : bool then load_loop fuel cur_time (drop (length line) file) else ok tt
          end
      end
  end.
Definition load_context (cur_time : Z) (file : bytes) : GS unit := load_loop (S (length file)) cur_time file.
End daemon.

(** The daemon when it starts. *)
Definition greyd0 : greyd := GreyD ∅ 0 None None None 0 0 0 [].
