(* ===== verification/GreydHeap.v ===== *)
(** * The memory of qmail-greyd

    The list of records and the chains of an address in the heap, and what one step
    of [create_hash] does to them. *)

From S2P Require Import Prelude LibQmail Control Smtpd Greyd.

(** ** Rules for the memory *)

Lemma wp_field {A} (f : greyd → A) (Q : Z + A → greyd → Prop) s : Q (inr (f s)) s → wp (see f) Q s.
Proof. done. Qed.
Lemma wp_setg f (Q : Z + unit → greyd → Prop) s : Q (inr tt) (f s) → wp (setg f) Q s.
Proof. done. Qed.
Lemma wp_load a r (Q : Z + greylst → greyd → Prop) s : heap s !! a = Some r → Q (inr r) s → wp (load (Some a)) Q s.
Proof. intros E H. unfold load. apply wp_qbind, wp_field. by rewrite E. Qed.
Lemma wp_heap_store a f (Q : Z + unit → greyd → Prop) s : is_Some (heap s !! a) →
  Q (inr tt) (set_heap (alter f a (heap s)) s) → wp (store (Some a) f) Q s.
Proof.
  intros [r E] H. apply wp_qbind. eapply wp_load; [exact E|]. apply wp_setg.
  by assert (<[a:=f r]> (heap s) = alter f a (heap s)) as ->
    by (apply map_eq; intros b; destruct (decide (a = b)) as [<-|];
        [by rewrite lookup_insert_eq, lookup_alter_eq, E|by rewrite lookup_insert_ne, lookup_alter_ne]).
Qed.

(** ** Linked lists *)

(** The records at [c] are linked by the field [f]. *)
Fixpoint linked (f : greylst → option nat) (h : gmap nat greylst) (c : list nat) : Prop :=
  match c with
  | [] => True
  | p :: c => (∃ r, h !! p = Some r ∧ f r = head c) ∧ linked f h c
  end.

Section linked.
Context (f : greylst → option nat).

Lemma linked_mono h h' c : (∀ a, a ∈ c → f <$> h' !! a = f <$> h !! a) → linked f h c → linked f h' c.
Proof.
  induction c as [|p c IH]; intros Hh; [done|]. intros [(r & Hr & Hf) Hc]. split; [|apply IH; [|done]].
  - specialize (Hh p (list_elem_of_here _ _)). rewrite Hr in Hh. simpl in Hh.
    destruct (h' !! p) as [r'|]; [|done]. injection Hh as E. exists r'. by rewrite E.
  - intros a Ha. apply Hh. by right.
Qed.
Lemma linked_some h c a : linked f h c → a ∈ c → is_Some (h !! a).
Proof.
  induction c as [|p c IH]; intros Hc Ha; [by apply elem_of_nil in Ha|].
  destruct Hc as [(r & Hr & _) Hc]. apply elem_of_cons in Ha as [->|Ha]; eauto.
Qed.
Lemma linked_size h c : linked f h c → NoDup c → length c ≤ size h.
Proof.
  intros Hc Hn. transitivity (size (list_to_set c : gset nat)); [by rewrite size_list_to_set|].
  rewrite <- (size_dom h). apply subseteq_size. intros a. rewrite elem_of_list_to_set, elem_of_dom. by apply linked_some.
Qed.
Lemma linked_app_r h c d : linked f h (c ++ d) → linked f h d.
Proof. induction c as [|p c IH]; [done|]. intros [_ Hc]. auto. Qed.
Lemma linked_last h c z : linked f h (c ++ [z]) → ∃ r, h !! z = Some r ∧ f r = None.
Proof. intros [H _]%linked_app_r. exact H. Qed.
Lemma linked_extend h h' c z p : linked f h (c ++ [z]) →
  (∀ a, a ∈ c → f <$> h' !! a = f <$> h !! a) → f <$> h' !! z = Some (Some p) → f <$> h' !! p = Some None →
  linked f h' (c ++ [z; p]).
Proof.
  intros Hc Hh Hz Hp. induction c as [|x c IH].
  - apply fmap_Some in Hz as (rz & Ez & Fz). apply fmap_Some in Hp as (rp & Ep & Fp).
    split; [by exists rz|]. split; [by exists rp|done].
  - destruct Hc as [(r & Hr & Hf) Hc]. split; [|apply IH; [done|]; intros; apply Hh; by right].
    specialize (Hh x (list_elem_of_here _ _)). rewrite Hr in Hh. apply fmap_Some in Hh as (r' & E & F).
    exists r'. split; [done|]. rewrite <- F, Hf. by destruct c.
Qed.
End linked.

(** ** The hash table *)

(** A chain is walked to its end. *)
Lemma wp_chain_end n a w z (Q : Z + nat → greyd → Prop) s : linked ip_next (heap s) (a :: w) → length w < n →
  last (a :: w) = Some z → Q (inr z) s → wp (chain_end n a) Q s.
Proof.
  revert a w. induction n as [|n IH]; intros a w Hc Hn Hz HQ; [lia|]. cbn [chain_end].
  destruct Hc as [(r & Hr & Hf) Hc]. apply wp_qbind. eapply wp_load; [exact Hr|]. rewrite Hf.
  destruct w as [|b w]; [by injection Hz as ->|]. simpl in *. apply (IH b w); [done|lia|done|done].
Qed.

(** The links that [hash_one] sets. *)
Definition relink (z p : nat) (h : gmap nat greylst) : gmap nat greylst :=
  alter (set_ip_prev (Some z)) p (alter (set_ip_next None) p (alter (set_ip_next (Some p)) z h)).
(** What they leave alone. *)
Definition erase (r : greylst) : greylst := set_ip_prev None (set_ip_next None r).

Lemma erase_alter (f : greylst → greylst) (a : nat) (h : gmap nat greylst) : (∀ r, erase (f r) = erase r) → erase <$> alter f a h = erase <$> h.
Proof.
  intros Hf. apply map_eq. intros b. rewrite !lookup_fmap. destruct (decide (a = b)) as [<-|].
  - rewrite lookup_alter_eq. destruct (h !! a); simpl; by rewrite ?Hf.
  - by rewrite lookup_alter_ne.
Qed.
Lemma relink_erase z p h : erase <$> relink z p h = erase <$> h.
Proof. unfold relink. by rewrite !erase_alter. Qed.
Lemma relink_other z p h a : a ≠ z → a ≠ p → relink z p h !! a = h !! a.
Proof. intros. unfold relink. by rewrite !lookup_alter_ne. Qed.
Lemma relink_new z p h : is_Some (h !! p) → ip_next <$> relink z p h !! p = Some None.
Proof.
  intros [r Hr]. unfold relink. rewrite !lookup_alter_eq. destruct (decide (z = p)) as [->|].
  - by rewrite lookup_alter_eq, Hr.
  - by rewrite lookup_alter_ne, Hr.
Qed.
Lemma relink_end z p h : is_Some (h !! z) → z ≠ p → ip_next <$> relink z p h !! z = Some (Some p).
Proof. intros [r Hr] Hz. unfold relink. do 2 rewrite lookup_alter_ne by done. by rewrite lookup_alter_eq, Hr. Qed.

Lemma wp_hash_first room m p r (Q : Z + bool → greyd → Prop) s : heap s !! p = Some r → table s = Some (room, m) →
  m !! ip_str r = None → size m < room →
  Q (inr true) (set_hcount (hcount s + 1)%Z (set_table (Some (room, <[ip_str r := p]> m)) s)) → wp (hash_one p) Q s.
Proof.
  intros Hr Ht Hm Hroom HQ. apply wp_qbind. eapply wp_load; [exact Hr|]. apply wp_qbind. unfold hsearch_find.
  apply wp_qbind, wp_field. rewrite Ht. apply wp_ok. rewrite Hm. apply wp_qbind. unfold hsearch_enter.
  apply wp_qbind, wp_field. rewrite Ht. rewrite decide_True by done. exact HQ.
Qed.
Lemma wp_hash_next room m p r a w z (Q : Z + bool → greyd → Prop) s : heap s !! p = Some r → table s = Some (room, m) →
  m !! ip_str r = Some a → linked ip_next (heap s) (a :: w) → NoDup (a :: w) → last (a :: w) = Some z →
  Q (inr true) (set_heap (relink z p (heap s)) s) → wp (hash_one p) Q s.
Proof.
  intros Hr Ht Hm Hc Hn Hz HQ. apply wp_qbind. eapply wp_load; [exact Hr|]. apply wp_qbind. unfold hsearch_find.
  apply wp_qbind, wp_field. rewrite Ht. apply wp_ok. rewrite Hm. apply wp_qbind, wp_field, wp_qbind.
  pose proof (linked_size _ _ _ Hc Hn) as Hsize. simpl in Hsize.
  eapply wp_chain_end; [exact Hc|lia|exact Hz|].
  assert (Hzs : is_Some (heap s !! z)) by (eapply linked_some; [exact Hc|by eapply last_Some_elem_of]).
  apply wp_qbind, wp_heap_store; [done|]. apply wp_qbind, wp_heap_store.
  { simpl. destruct (decide (z = p)) as [->|]; [by rewrite lookup_alter_eq, Hr|by rewrite lookup_alter_ne, Hr]. }
  apply wp_qbind, wp_heap_store; [|exact HQ]. simpl. rewrite lookup_alter_eq.
  destruct (decide (z = p)) as [->|]; [by rewrite lookup_alter_eq, Hr|by rewrite lookup_alter_ne, Hr].
Qed.

(** ** The table over a list of records *)

(** What is kept of a record. *)
Record entry := Entry { e_ip : bytes; e_from : bytes; e_rcpts : bytes; e_stamp : Z; e_status : Z }.
Definition entry_of (r : greylst) : entry := Entry (ip_str r) (rpath r) (rcpt r) (timestamp r) (status r).
(** The places of the records of an address. *)
Definition chain (key : bytes) (pes : list (nat * entry)) : list nat := (filter (λ pe, e_ip pe.2 = key) pes).*1.

Lemma chain_app key a b : chain key (a ++ b) = chain key a ++ chain key b.
Proof. unfold chain. by rewrite filter_app, fmap_app. Qed.
Lemma chain_one key p e : chain key [(p, e)] = if decide (e_ip e = key) then [p] else [].
Proof. unfold chain. rewrite filter_cons. simpl. by case_decide. Qed.
Lemma chain_in key pes a : a ∈ chain key pes → a ∈ pes.*1.
Proof.
  unfold chain. intros ([b e] & -> & [_ H]%list_elem_of_filter)%list_elem_of_fmap.
  apply list_elem_of_fmap. by exists (b, e).
Qed.
Lemma chain_nodup key pes : NoDup pes.*1 → NoDup (chain key pes).
Proof.
  induction pes as [|[p e] pes IH]; intros Hn; [constructor|]. simpl in Hn. apply NoDup_cons in Hn as [Hp Hn].
  change ((p, e) :: pes) with ([(p, e)] ++ pes). rewrite chain_app, chain_one. case_decide; [|by apply IH].
  apply NoDup_cons. split; [|by apply IH]. by intros Hin%chain_in.
Qed.
Lemma chain_disjoint key key' pes a : NoDup pes.*1 → a ∈ chain key pes → a ∈ chain key' pes → key = key'.
Proof.
  intros Hn Ha Ha'. apply list_elem_of_fmap in Ha as ([b e] & -> & [Hk H]%list_elem_of_filter).
  apply list_elem_of_fmap in Ha' as ([b' e'] & Eb & [Hk' H']%list_elem_of_filter). simpl in *. subst b'.
  apply list_elem_of_lookup in H as [i Hi]. apply list_elem_of_lookup in H' as [j Hj].
  assert (i = j) as <-.
  { eapply (NoDup_lookup pes.*1); [done|rewrite list_lookup_fmap, Hi|rewrite list_lookup_fmap, Hj]; done. }
  rewrite Hi in Hj. injection Hj as <-. by rewrite <- Hk, <- Hk'.
Qed.

(** The heap holds the records of [pes]; the address of each was read. *)
Definition stored (scan : bytes → option bytes) (h : gmap nat greylst) (pes : list (nat * entry)) : Prop :=
  Forall (λ pe, ∃ r, h !! pe.1 = Some r ∧ entry_of r = pe.2 ∧ scan (ip_str r) = Some (ip r)) pes.
(** The table has the first record of each address. *)
Definition indexed (m : gmap bytes nat) (pes : list (nat * entry)) : Prop := ∀ key, m !! key = head (chain key pes).

Lemma stored_erase scan h h' pes : erase <$> h' = erase <$> h → stored scan h pes → stored scan h' pes.
Proof.
  intros E H. eapply Forall_impl; [exact H|]. intros [p e] (r & Hr & He & Hi). simpl in *.
  assert (E' : (erase <$> h') !! p = (erase <$> h) !! p) by (by rewrite E). rewrite !lookup_fmap, Hr in E'. simpl in E'.
  destruct (h' !! p) as [r'|]; [|done]. exists r'. split; [done|]. injection E' as E1 E2 E3 E4 E5 E6 E7 E8 E9.
  unfold entry_of in *. by rewrite E1, E2, E3, E4, E5, E7.
Qed.
Lemma next_erase (h h' : gmap nat greylst) a : erase <$> h' = erase <$> h → next <$> h' !! a = next <$> h !! a.
Proof.
  intros E. assert (E' : (erase <$> h') !! a = (erase <$> h) !! a) by (by rewrite E). rewrite !lookup_fmap in E'.
  destruct (h' !! a), (h !! a); try done. injection E' as E1 E2 E3 E4 E5 E6 E7 E8 E9. simpl. by rewrite E9.
Qed.
Lemma some_erase (h h' : gmap nat greylst) a : erase <$> h' = erase <$> h → is_Some (h' !! a) ↔ is_Some (h !! a).
Proof.
  intros E. assert (E' : (erase <$> h') !! a = (erase <$> h) !! a) by (by rewrite E). rewrite !lookup_fmap in E'.
  rewrite !is_Some_alt. by destruct (h' !! a), (h !! a).
Qed.

(** ** A record is hashed *)

Record kept (s s' : greyd) : Prop := {
  k_erase : erase <$> heap s' = erase <$> heap s;
  k_brk : brk s' = brk s; k_ghead : ghead s' = ghead s; k_gtail : gtail s' = gtail s;
  k_grey_count : grey_count s' = grey_count s; k_h_allocated : h_allocated s' = h_allocated s; k_sent : sent s' = sent s
}.
Lemma unmoved_refl s : kept s s.
Proof. done. Qed.
Lemma unmoved_trans s1 s2 s3 : kept s1 s2 → kept s2 s3 → kept s1 s3.
Proof. intros [] []. split; congruence. Qed.

(** The table of [s] is [m], over [pes]. *)
Record tabled (room : nat) (m : gmap bytes nat) (pes : list (nat * entry)) (s : greyd) : Prop := {
  t_table : table s = Some (room, m);
  t_indexed : indexed m pes;
  t_hcount : hcount s = Z.of_nat (size m)
}.

Lemma indexed_snoc m pes p e : indexed m pes → m !! e_ip e = None → indexed (<[e_ip e := p]> m) (pes ++ [(p, e)]).
Proof.
  intros Hm Hn key. rewrite chain_app, chain_one. destruct (decide (e_ip e = key)) as [<-|Hk].
  - rewrite lookup_insert_eq. rewrite Hm in Hn. apply head_None in Hn as ->. done.
  - by rewrite lookup_insert_ne, app_nil_r.
Qed.
Lemma indexed_old m pes p e : indexed m pes → m !! e_ip e ≠ None → indexed m (pes ++ [(p, e)]).
Proof.
  intros Hm Hn key. rewrite chain_app, chain_one, Hm. destruct (decide (e_ip e = key)) as [<-|Hk].
  - rewrite Hm in Hn. by destruct (chain (e_ip e) pes).
  - by rewrite app_nil_r.
Qed.
Lemma indexed_size m m' a b : indexed m a → indexed m' (a ++ b) → size m ≤ size m'.
Proof.
  intros H H'. rewrite <- !size_dom. apply subseteq_size. intros key. rewrite !elem_of_dom, H, H', chain_app.
  destruct (chain key a); [by intros [? ?]|by intros _; eexists].
Qed.
Lemma indexed_size_lt m m' a p e b : indexed m a → indexed m' (a ++ (p, e) :: b) → m !! e_ip e = None → size m < size m'.
Proof.
  intros H H' Hn. pose proof (indexed_snoc _ _ p _ H Hn) as H2.
  change ((p, e) :: b) with ([(p, e)] ++ b) in H'. rewrite (assoc_L app) in H'.
  pose proof (indexed_size _ _ _ _ H2 H') as Hs. rewrite map_size_insert_None in Hs by done. lia.
Qed.

(** A new record. *)
Lemma wp_hash_new scan room m old p e r (s : greyd) : NoDup (old.*1 ++ [p]) → stored scan (heap s) (old ++ [(p, e)]) →
  heap s !! p = Some r → ip_next r = None → (∀ key, linked ip_next (heap s) (chain key old)) →
  tabled room m old s → (m !! e_ip e = None → size m < room) →
  wp (hash_one p) (λ r s', r = inr true ∧ kept s s' ∧ (∀ key, linked ip_next (heap s') (chain key (old ++ [(p, e)]))) ∧
    ∃ m', tabled room m' (old ++ [(p, e)]) s' ∧ size m' ≤ size m + 1) s.
Proof.
  intros Hn Hst Hr Hnext Hc [Ht Hm Hh] Hroom.
  assert (Hkey : ip_str r = e_ip e).
  { apply Forall_app in Hst as [_ Hst]. apply Forall_cons in Hst as [(r' & Hr' & He & _) _]. simpl in Hr', He.
    rewrite Hr in Hr'. injection Hr' as <-. by rewrite <- He. }
  apply NoDup_app in Hn as (Hno & Hp & _). assert (Hp' : ∀ key, p ∉ chain key old).
  { intros key Hk%chain_in. by apply (Hp p Hk), list_elem_of_singleton. }
  destruct (m !! e_ip e) as [a|] eqn:Em.
  - pose proof (Hm (e_ip e)) as Hhd. rewrite Em in Hhd. pose proof (Hc (e_ip e)) as Hce.
    pose proof (chain_nodup (e_ip e) _ Hno) as Hnd. destruct (chain (e_ip e) old) as [|a' w] eqn:Ech; [done|].
    injection Hhd as <-. destruct (exists_last (l := a :: w)) as (c & z & Ez); [done|].
    assert (Hz : last (a :: w) = Some z) by (rewrite Ez; apply last_snoc).
    assert (Hzp : z ≠ p). { intros ->. apply (Hp' (e_ip e)). rewrite Ech. by apply last_Some_elem_of. }
    eapply (wp_hash_next room m p r a w z); [exact Hr|exact Ht|by rewrite Hkey|exact Hce|exact Hnd|exact Hz|].
    split; [done|]. split; [split; try done; apply relink_erase|]. split.
    + intros key. rewrite chain_app, chain_one. simpl heap. destruct (decide (e_ip e = key)) as [<-|Hk].
      * rewrite Ech, Ez, <- (assoc_L app). simpl. rewrite Ez in Hce, Hnd. eapply linked_extend; [exact Hce| | |].
        -- intros b Hb. rewrite relink_other; [done| |].
           ++ intros ->. apply NoDup_app in Hnd as (_ & Hd & _). apply (Hd z Hb). by left.
           ++ intros ->. apply (Hp' (e_ip e)). rewrite Ech, Ez. apply elem_of_app. by left.
        -- apply relink_end; [|done]. eapply linked_some; [exact Hce|]. apply elem_of_app. right. by left.
        -- by apply relink_new.
      * rewrite app_nil_r. eapply linked_mono; [|apply Hc]. intros b Hb. rewrite relink_other; [done| |].
        -- intros ->. apply Hk. eapply chain_disjoint; [exact Hno| |exact Hb]. rewrite Ech. by apply last_Some_elem_of.
        -- intros ->. by apply (Hp' key).
    + exists m. split; [|lia]. split; [done| |done]. apply indexed_old; [done|by rewrite Em].
  - eapply (wp_hash_first room m p r); [exact Hr|exact Ht|by rewrite Hkey|by apply Hroom|].
    split; [done|]. split; [done|]. split.
    + intros key. rewrite chain_app, chain_one. simpl heap. destruct (decide (e_ip e = key)) as [<-|Hk].
      * pose proof (Hm (e_ip e)) as Hhd. rewrite Em in Hhd. symmetry in Hhd. apply head_None in Hhd as ->.
        simpl. split; [|done]. by exists r.
      * rewrite app_nil_r. apply Hc.
    + exists (<[e_ip e := p]> m). rewrite map_size_insert_None by done. split; [|lia]. rewrite Hkey. split; [done| |].
      * by apply indexed_snoc.
      * simpl. rewrite map_size_insert_None by done. lia.
Qed.

(** ** The table is made again *)

(** The chain of an address when the records of [done] were hashed: as it was before,
    as long as there is one of them at most, and of those that were hashed then. *)
Definition rehashed (h : gmap nat greylst) (old done : list (nat * entry)) : Prop := ∀ key,
  (length (chain key done) ≤ 1 ∧ linked ip_next h (chain key old)) ∨
  (2 ≤ length (chain key done) ∧ linked ip_next h (chain key done)).

Lemma rehashed_start h old : (∀ key, linked ip_next h (chain key old)) → rehashed h old [].
Proof. intros H key. left. split; [simpl; lia|apply H]. Qed.
Lemma rehashed_end h old : rehashed h old old → ∀ key, linked ip_next h (chain key old).
Proof. intros H key. destruct (H key) as [[_ ?]|[_ ?]]; done. Qed.

(** The links of other addresses are as before. *)
Lemma rehashed_other h h' old done p e rest : old = done ++ (p, e) :: rest → rehashed h old done →
  (∀ key a, key ≠ e_ip e → a ∈ chain key old → h' !! a = h !! a) →
  ∀ key, key ≠ e_ip e → (length (chain key (done ++ [(p, e)])) ≤ 1 ∧ linked ip_next h' (chain key old)) ∨
    (2 ≤ length (chain key (done ++ [(p, e)])) ∧ linked ip_next h' (chain key (done ++ [(p, e)]))).
Proof.
  intros -> H Hh key Hk. rewrite chain_app, chain_one, decide_False, app_nil_r by done.
  destruct (H key) as [[? Hc]|[? Hc]]; [left|right]; (split; [done|]); (eapply linked_mono; [|exact Hc]);
    intros a Ha; rewrite (Hh key) by (done || rewrite chain_app; apply elem_of_app; by left); done.
Qed.

(** The walk along the chain of a record that is hashed again. *)
Lemma rehash_walk h old done p e rest a : old = done ++ (p, e) :: rest → NoDup (chain (e_ip e) old) → is_Some (h !! p) →
  rehashed h old done → Some a = head (chain (e_ip e) done) →
  ∃ w z, linked ip_next h (a :: w) ∧ NoDup (a :: w) ∧ last (a :: w) = Some z ∧ z ∈ chain (e_ip e) old ∧
    linked ip_next (relink z p h) (chain (e_ip e) done ++ [p]) ∧ 1 ≤ length (chain (e_ip e) done).
Proof.
  intros Hold Hnd Hsome Hre Hhd.
  specialize (Hre (e_ip e)).
  assert (Eold : chain (e_ip e) old = chain (e_ip e) done ++ p :: chain (e_ip e) rest).
  { rewrite Hold, chain_app. change ((p, e) :: rest) with ([(p, e)] ++ rest). by rewrite chain_app, chain_one, decide_True. }
  rewrite Eold in *. destruct (chain (e_ip e) done) as [|a' w] eqn:Ech; [done|]. injection Hhd as <-.
  destruct Hre as [[Hle Hc]|[Hle Hc]].
  - destruct w as [|]; [|simpl in Hle; lia]. cbn [app] in *. exists (p :: chain (e_ip e) rest).
    destruct (last_is_Some (p :: chain (e_ip e) rest)) as [_ Hl]. destruct Hl as [z Hz]; [done|]. exists z.
    assert (Hzin : z ∈ p :: chain (e_ip e) rest) by (by apply last_Some_elem_of).
    assert (a ∉ p :: chain (e_ip e) rest) as Ha by (by apply NoDup_cons in Hnd as [? _]).
    split_and!; [done|done|done|by right| |simpl; lia].
    destruct Hc as [(ra & Hra & Fa) Hc]. split.
    + exists ra. rewrite relink_other; [done|by intros ->|]. intros ->. apply Ha. by left.
    + split; [|done]. pose proof (relink_new z p (h) Hsome) as Hn. apply fmap_Some in Hn as (rp & E & F). by exists rp.
  - destruct (exists_last (l := a :: w)) as (c & z & Ez); [done|]. exists w, z. rewrite Ez in *.
    assert (Hnz : NoDup (c ++ [z])) by (by apply NoDup_app in Hnd as [? _]).
    assert (Hpn : p ∉ c ++ [z]).
    { intros Hin. apply NoDup_app in Hnd as (_ & Hd & _). apply (Hd p Hin). by left. }
    assert (Hzp : z ≠ p). { intros ->. apply Hpn. apply elem_of_app. right. by left. }
    split_and!; [done|done|apply last_snoc|rewrite !elem_of_app; left; right; by left| |rewrite length_app in *; lia].
    rewrite <- (assoc_L app). eapply linked_extend; [exact Hc| | |by apply relink_new].
    + intros b Hb. rewrite relink_other; [done| |].
      * intros ->. apply NoDup_app in Hnz as (_ & Hd & _). apply (Hd z Hb). by left.
      * intros ->. apply Hpn, elem_of_app. by left.
    + apply relink_end; [|done]. eapply linked_some; [exact Hc|]. apply elem_of_app. right. by left.
Qed.

Lemma wp_hash_old scan room m old done p e rest (s : greyd) : NoDup old.*1 → old = done ++ (p, e) :: rest →
  stored scan (heap s) old → rehashed (heap s) old done → tabled room m done s → (m !! e_ip e = None → size m < room) →
  wp (hash_one p) (λ r s', r = inr true ∧ kept s s' ∧ (∀ a, a ∉ old.*1 → heap s' !! a = heap s !! a) ∧
    rehashed (heap s') old (done ++ [(p, e)]) ∧ ∃ m', tabled room m' (done ++ [(p, e)]) s') s.
Proof.
  intros Hno Hold Hst Hre [Ht Hm Hh] Hroom.
  assert (∃ r, heap s !! p = Some r ∧ ip_str r = e_ip e) as (r & Hr & Hkey).
  { rewrite Hold in Hst. apply Forall_app in Hst as [_ Hst]. apply Forall_cons in Hst as [(r & Hr & He & _) _].
    exists r. simpl in Hr, He. by rewrite <- He. }
  assert (Hp : p ∈ chain (e_ip e) old).
  { rewrite Hold, chain_app. change ((p, e) :: rest) with ([(p, e)] ++ rest). rewrite chain_app, chain_one.
    rewrite decide_True by done. apply elem_of_app. right. left. }
  pose proof (chain_nodup (e_ip e) _ Hno) as Hnd.
  destruct (m !! e_ip e) as [a|] eqn:Em.
  2: { eapply (wp_hash_first room m p r); [exact Hr|exact Ht|by rewrite Hkey|by apply Hroom|].
    split; [done|]. split; [done|]. split; [done|]. split.
    - intros key. destruct (decide (key = e_ip e)) as [->|Hk]; [|by eapply rehashed_other].
      pose proof (Hm (e_ip e)) as Hhd. rewrite Em in Hhd. symmetry in Hhd. apply head_None in Hhd.
      rewrite chain_app, chain_one, decide_True, Hhd by done. left. split; [simpl; lia|].
      destruct (Hre (e_ip e)) as [[_ ?]|[H2 _]]; [done|]. rewrite Hhd in H2. simpl in H2. lia.
    - exists (<[e_ip e := p]> m). rewrite Hkey. split; [done|by apply indexed_snoc|].
      simpl. rewrite map_size_insert_None by done. lia. }
  pose proof (Hm (e_ip e)) as Hhd. rewrite Em in Hhd.
  destruct (rehash_walk (heap s) old done p e rest a) as (w & z & Hw & Hnw & Hz & Hzin & Hlink & Hlen); [done..|].
  eapply (wp_hash_next room m p r a w z); [exact Hr|exact Ht|by rewrite Hkey|done..|].
  assert (Hother : ∀ b, b ≠ z → b ≠ p → relink z p (heap s) !! b = heap s !! b) by (intros; by apply relink_other).
  split; [done|]. split; [split; try done; apply relink_erase|]. split; [|split].
  - intros b Hb. simpl. apply Hother; intros ->; by apply Hb, (chain_in (e_ip e)).
  - intros key. destruct (decide (key = e_ip e)) as [->|Hk].
    + right. rewrite chain_app, chain_one, decide_True by done. simpl heap. split; [rewrite length_app; simpl; lia|done].
    + eapply rehashed_other; [done|done| |done]. intros key' b Hk' Hb. simpl.
      apply Hother; intros ->; apply Hk'; (eapply chain_disjoint; [exact Hno|exact Hb|done]).
  - exists m. split; [done| |done]. apply indexed_old; [done|by rewrite Em].
Qed.

(** All of the list, with a new record at its end. *)
Lemma wp_hash_all scan room mf old p e r n rest done m (s : greyd) : NoDup (old.*1 ++ [p]) → old = done ++ rest →
  stored scan (heap s) (old ++ [(p, e)]) → linked next (heap s) (old.*1 ++ [p]) → heap s !! p = Some r → ip_next r = None →
  rehashed (heap s) old done → tabled room m done s → indexed mf (old ++ [(p, e)]) → size mf ≤ room → length rest < n →
  wp (hash_all n (head (rest.*1 ++ [p]))) (λ r s', r = inr true ∧ kept s s' ∧
    (∀ key, linked ip_next (heap s') (chain key (old ++ [(p, e)]))) ∧ ∃ m', tabled room m' (old ++ [(p, e)]) s') s.
Proof.
  intros Hn Hold Hst Hl Hr Hnext Hre Ht Hmf Hroom. revert n done m s Hold Hst Hl Hr Hre Ht.
  pose proof Hn as Hn'. apply NoDup_app in Hn' as (Hno & Hp & _).
  induction rest as [|[q f] rest IH]; intros n done m s Hold Hst Hl Hr Hre Ht Hlen;
    (destruct n as [|n]; [simpl in Hlen; lia|]); cbn [hash_all head fmap list_fmap app fst]; apply wp_qbind.
  - rewrite app_nil_r in Hold. subst done. eapply wp_mono.
    { eapply (wp_hash_new scan room m old p e r); [done..|by apply rehashed_end|done|].
      intros Hm. eapply Nat.lt_le_trans; [eapply (indexed_size_lt _ mf old p e [])|done]; [apply Ht|done|done]. }
    intros ? s' (-> & Hk & Hc & m' & Ht' & _). apply wp_qbind.
    assert (Hl' : linked next (heap s') (old.*1 ++ [p])).
    { eapply linked_mono; [|exact Hl]. intros b _. apply next_erase, Hk. }
    apply linked_last in Hl' as (r' & Hr' & Hf). eapply wp_load; [exact Hr'|]. rewrite Hf.
    assert (hash_all n None = ok true) as -> by (by destruct n). apply wp_ok. eauto 6.
  - pose proof Hst as [Hst1 _]%Forall_app. eapply wp_mono.
    { eapply (wp_hash_old scan room m old done q f rest); [done..|].
      intros Hm. eapply Nat.lt_le_trans; [|exact Hroom]. rewrite Hold, <- (assoc_L app) in Hmf.
      eapply (indexed_size_lt _ mf done q f (rest ++ [(p, e)])); [apply Ht|done|done]. }
    intros ? s' (-> & Hk & Hsame & Hre' & m' & Ht'). apply wp_qbind.
    assert (Hl' : linked next (heap s') (old.*1 ++ [p])).
    { eapply linked_mono; [|exact Hl]. intros b _. apply next_erase, Hk. }
    assert (∃ rq, heap s' !! q = Some rq ∧ next rq = head (rest.*1 ++ [p])) as (rq & Hrq & Hnq).
    { pose proof Hl' as Hq. rewrite Hold, fmap_app, <- (assoc_L app) in Hq. apply linked_app_r in Hq as [Hq _]. exact Hq. }
    eapply wp_load; [exact Hrq|]. rewrite Hnq. eapply wp_mono.
    { eapply (IH n (done ++ [(q, f)]) m' s'); [by rewrite <- (assoc_L app)| | | |done|done|simpl in Hlen; lia].
      - eapply stored_erase; [apply Hk|done].
      - done.
      - rewrite Hsame; [done|]. intros Hin. apply (Hp p Hin). by left. }
    intros x s'' (-> & Hk' & Hc & Hm'). split; [done|]. split; [by eapply unmoved_trans|done].
Qed.
