(* ===== verification/GreydTheorems.v ===== *)
(** * What qmail-greyd answers

    The daemon with its memory implements a list of entries in the order of their
    arrival, in which the first one that matches is looked for. *)

From S2P Require Import Prelude LibQmail Control Smtpd Greyd GreydHeap.

Section greyd.
Context {L : LibQmail} (scan_xlong : bytes → nat * Z) (hcreate : Z → option nat) (cf : grey_conf).
(** [hcreate] makes the room that is asked for, and new memory is zero. *)
Context (Hcreate : ∀ n, (0 < n < 2 ^ 31)%Z → ∃ room, hcreate n = Some room ∧ (n ≤ Z.of_nat room)%Z).
#[local] Abbreviation create_hash := (create_hash hcreate cf).
#[local] Abbreviation ip6_scan := (ip6_scan scan_xlong).

(** ** The invariant *)

Record in_memory (s : greyd) (pes : list (nat * entry)) : Prop := {
  l_nodup : NoDup pes.*1;
  l_stored : stored ip6_scan (heap s) pes;
  l_next : linked next (heap s) pes.*1;
  l_ghead : ghead s = head pes.*1;
  l_gtail : gtail s = last pes.*1;
  l_brk a : is_Some (heap s !! a) → a < brk s
}.
(** How often the table was made, when there are [n] records. *)
Definition rebuilds (n : nat) : Z := 1 + Z.max 0 (Z.of_nat n - hash_size cf).
(** The size of the table is a number of 32 bits. *)
Definition roomy (n : nat) : Prop := (125 * hash_size cf * rebuilds n < 2 ^ 31)%Z.

Record hashed (s : greyd) (pes : list (nat * entry)) : Prop := {
  h_chains key : linked ip_next (heap s) (chain key pes);
  h_table : match pes with
            | [] => table s = None ∧ hcount s = 0%Z ∧ h_allocated s = 0%Z
            | _ => ∃ room m, tabled room m pes s ∧ (1 ≤ h_allocated s ≤ rebuilds (length pes))%Z ∧
                (Z.of_nat (size m) ≤ hash_size cf * h_allocated s ≤ Z.of_nat room)%Z
            end
}.
Definition holds (s : greyd) (pes : list (nat * entry)) : Prop :=
  in_memory s pes ∧ hashed s pes ∧ grey_count s = Z.of_nat (length pes).

Lemma holds_start : holds greyd0 [].
Proof. split; [|split; [by split|done]]. split; try done; [constructor..|]. intros a [? [=]]. Qed.

Lemma in_memory_kept s s' pes : erase <$> heap s' = erase <$> heap s → brk s' = brk s → ghead s' = ghead s →
  gtail s' = gtail s → in_memory s pes → in_memory s' pes.
Proof.
  intros E E1 E2 E3 []. split; [done|by eapply stored_erase| |congruence|congruence|].
  - eapply linked_mono; [|done]. intros a _. by apply next_erase.
  - intros a Ha. rewrite E1. apply l_brk0. by apply (some_erase _ _ a E).
Qed.

Lemma hashed_same s s' pes : heap s' = heap s → table s' = table s → hcount s' = hcount s →
  h_allocated s' = h_allocated s → hashed s pes → hashed s' pes.
Proof.
  intros E1 E2 E3 E4 [Hc Ht]. split; [by rewrite E1|]. rewrite E2, E3, E4. destruct pes; [done|].
  destruct Ht as (room & m & [? ? ?] & ?). exists room, m. split; [|done]. split; [by rewrite E2|done|by rewrite E3].
Qed.

Lemma quot_room h k : (0 < h)%Z → (0 < k)%Z → (125 * h * k < 2 ^ 31)%Z →
  (0 < Z.quot (swrap 32 (125 * h * k)) 100 < 2 ^ 31)%Z ∧ (h * k ≤ Z.quot (swrap 32 (125 * h * k)) 100)%Z.
Proof.
  intros Hh Hk Hx. assert (0 < h * k)%Z by nia. replace (125 * h * k)%Z with (125 * (h * k))%Z in * by ring.
  unfold swrap. rewrite Z.mod_small by lia. rewrite decide_True by lia.
  rewrite Z.quot_div_nonneg by lia. pose proof (Z.div_mod (125 * (h * k)) 100).
  pose proof (Z.mod_pos_bound (125 * (h * k)) 100). lia.
Qed.

(** A new table. *)
Lemma wp_new_table curr s : (0 < hash_size cf)%Z → (0 ≤ h_allocated s)%Z →
  (125 * hash_size cf * (h_allocated s + 1) < 2 ^ 31)%Z →
  ∃ room, (hash_size cf * (h_allocated s + 1) ≤ Z.of_nat room)%Z ∧
  wp (new_table hcreate cf curr) (λ x s', x = inr (if decide (h_allocated s = 0)%Z then curr else None) ∧
    heap s' = heap s ∧ brk s' = brk s ∧ ghead s' = ghead s ∧ gtail s' = gtail s ∧ grey_count s' = grey_count s ∧
    sent s' = sent s ∧ h_allocated s' = (h_allocated s + 1)%Z ∧ table s' = Some (room, ∅) ∧
    hcount s' = if decide (h_allocated s = 0)%Z then hcount s else 0%Z) s.
Proof.
  intros Hh Hk Hx. destruct (quot_room (hash_size cf) (h_allocated s + 1)) as [H1 H2]; [lia..|].
  destruct (Hcreate _ H1) as (room & Hroom & Hle). exists room. split; [lia|].
  apply wp_qbind, wp_field, wp_qbind, wp_setg, wp_qbind.
  eapply (wp_mono _ (λ x s1, x = inr tt ∧ set_table None s1 = set_table None (set_hcount
    (if decide (h_allocated s = 0)%Z then hcount s else 0%Z) (set_h_allocated (h_allocated s + 1)%Z s)))).
  { case_decide; [done|]. by apply wp_qbind, wp_setg, wp_setg. }
  intros ? s1 [-> E]. rewrite Hroom. apply wp_qbind, wp_setg, wp_ok. injection E as E1 E2 E3 E4 E5 E6 E7 E8.
  split; [done|]. simpl. by rewrite E1, E2, E3, E4, E5, E6, E7, E8.
Qed.

Lemma tabled_hashed s pes room m : tabled room m pes s → pes ≠ [] → (∀ key, linked ip_next (heap s) (chain key pes)) →
  (1 ≤ h_allocated s ≤ rebuilds (length pes))%Z → (Z.of_nat (size m) ≤ hash_size cf * h_allocated s ≤ Z.of_nat room)%Z →
  hashed s pes.
Proof. intros. split; [done|]. destruct pes; [done|]. eauto 6. Qed.

(** The new record goes into a table that has room. *)
Lemma wp_hash_last s pes p e r room m : in_memory s (pes ++ [(p, e)]) → heap s !! p = Some r → ip_next r = None →
  (∀ key, linked ip_next (heap s) (chain key pes)) → tabled room m pes s →
  (1 ≤ h_allocated s ≤ rebuilds (S (length pes)))%Z →
  (Z.of_nat (size m) + 1 ≤ hash_size cf * h_allocated s ≤ Z.of_nat room)%Z →
  wp (hash_one p) (λ x s', x = inr true ∧ in_memory s' (pes ++ [(p, e)]) ∧ hashed s' (pes ++ [(p, e)]) ∧
    grey_count s' = grey_count s ∧ sent s' = sent s) s.
Proof.
  intros Hl Hr Hnext Hc Ht Ha Hroom. pose proof Hl as [Hn Hst _ _ _ _]. rewrite fmap_app in Hn.
  eapply wp_mono; [eapply (wp_hash_new ip6_scan room m pes p e r); [done..|lia]|].
  intros ? s' (-> & [K1 K2 K3 K4 K5 K6 K7] & Hc' & m' & Ht' & Hm). split; [done|]. split; [by eapply in_memory_kept|].
  split; [|done]. eapply tabled_hashed; [done|by destruct pes|done| |rewrite K6; lia].
  rewrite length_app. simpl. rewrite K6. replace (length pes + 1) with (S (length pes)) by lia. done.
Qed.

(** The table is made again from the list. *)
Lemma wp_hash_again s pes p e r room mo ro : in_memory s (pes ++ [(p, e)]) → heap s !! p = Some r → ip_next r = None →
  (∀ key, linked ip_next (heap s) (chain key pes)) → indexed mo pes → table s = Some (room, ∅) → hcount s = 0%Z →
  (1 ≤ h_allocated s ≤ rebuilds (S (length pes)))%Z → ro = Z.of_nat (size mo) →
  (ro + 1 ≤ hash_size cf * h_allocated s ≤ Z.of_nat room)%Z →
  wp (hash_all (S (size (heap s))) (ghead s)) (λ x s', x = inr true ∧ in_memory s' (pes ++ [(p, e)]) ∧
    hashed s' (pes ++ [(p, e)]) ∧ grey_count s' = grey_count s ∧ sent s' = sent s) s.
Proof.
  intros Hl Hr Hnext Hc Hmo Ht Hh Ha -> Hroom. pose proof Hl as [Hn Hst Hln Hgh _ _]. rewrite fmap_app in Hn, Hln.
  assert (∃ mf, indexed mf (pes ++ [(p, e)]) ∧ size mf ≤ size mo + 1) as (mf & Hmf & Hsz).
  { destruct (mo !! e_ip e) as [a|] eqn:Em.
    - exists mo. split; [|lia]. apply indexed_old; [done|by rewrite Em].
    - exists (<[e_ip e := p]> mo). rewrite map_size_insert_None by done. split; [by apply indexed_snoc|lia]. }
  rewrite Hgh, fmap_app. eapply wp_mono.
  { eapply (wp_hash_all ip6_scan room mf pes p e r _ pes [] ∅); [done..| | |done|lia|].
    - by apply rehashed_start.
    - split; [done| |by rewrite Hh]. intros key. by rewrite lookup_empty.
    - pose proof (linked_size _ _ _ Hln Hn) as Hs. rewrite length_app, length_fmap in Hs. simpl in Hs. lia. }
  intros ? s' (-> & [K1 K2 K3 K4 K5 K6 K7] & Hc' & m' & Ht'). split; [done|]. split; [by eapply in_memory_kept|].
  split; [|done]. eapply tabled_hashed; [done|by destruct pes|done| |].
  - rewrite length_app. simpl. rewrite K6. replace (length pes + 1) with (S (length pes)) by lia. done.
  - assert (size m' ≤ size mf) by (eapply (indexed_size _ _ _ []); [apply Ht'|by rewrite app_nil_r]). rewrite K6. lia.
Qed.

Lemma rebuilds_S n : (rebuilds n ≤ rebuilds (S n))%Z.
Proof. unfold rebuilds. lia. Qed.

(** The last step: 0 is returned. *)
Lemma wp_done (m : GS bool) (Q : greyd → Prop) s : wp m (λ x s', x = inr true ∧ Q s') s →
  wp (done_ ←? m; ok (if done_ : bool then 0 else -1)%Z) (λ x s', x = inr 0%Z ∧ Q s') s.
Proof. intros H. apply wp_qbind. eapply wp_mono; [exact H|]. by intros ? s' [-> HQ]. Qed.

Lemma indexed_length m pes : pes ≠ [] → indexed m pes → 0 < size m ∧ size m ≤ length pes.
Proof.
  intros Hne Hm. split.
  - destruct pes as [|[p e] pes]; [done|]. assert (Hk : is_Some (m !! e_ip e)).
    { rewrite Hm. change ((p, e) :: pes) with ([(p, e)] ++ pes). rewrite chain_app, chain_one, decide_True by done. by eexists. }
    destruct (decide (size m = 0)) as [->%map_size_empty_iff|]; [|lia]. by destruct Hk.
  - assert (∃ m', indexed m' pes ∧ size m' ≤ length pes) as (m' & Hm' & Hle).
    { clear. induction pes as [|[p e] pes (m & Hm & Hle)] using rev_ind; [exists ∅; split; [intros key; apply lookup_empty|done]|].
      rewrite length_app. simpl. destruct (m !! e_ip e) eqn:E.
      - exists m. split; [apply indexed_old; [done|by rewrite E]|lia].
      - exists (<[e_ip e := p]> m). rewrite map_size_insert_None by done. split; [by apply indexed_snoc|lia]. }
    by assert (m = m') as -> by (apply map_eq; intros key; by rewrite Hm, Hm').
Qed.

(** The chains and the table after one more record is hashed. *)
Lemma wp_create_hash s pes p e r : (0 < hash_size cf)%Z → roomy (S (length pes)) →
  in_memory s (pes ++ [(p, e)]) → hashed s pes → heap s !! p = Some r → ip_next r = None →
  wp (create_hash (Some p)) (λ x s', x = inr 0%Z ∧ in_memory s' (pes ++ [(p, e)]) ∧ hashed s' (pes ++ [(p, e)]) ∧
    grey_count s' = grey_count s ∧ sent s' = sent s) s.
Proof.
  intros Hhs Hroomy Hl [Hc Ht] Hr Hnext.
  assert (Hreb : (1 ≤ rebuilds (S (length pes)))%Z) by (unfold rebuilds; lia).
  pose proof (rebuilds_S (length pes)) as HS. unfold roomy in Hroomy.
  apply wp_qbind. rewrite decide_False by done. apply wp_ok, wp_qbind, wp_field, wp_qbind.
  destruct pes as [|pe pes'] eqn:Epes.
  - destruct Ht as (Ht & Hh & Ha). rewrite Hh, decide_True by (by apply Z.rem_0_l; lia).
    destruct (wp_new_table (Some p) s Hhs) as (room & Hroom & Hw); [lia|nia|]. rewrite Ha in *.
    eapply wp_mono; [exact Hw|]. intros ? s' (-> & E1 & E2 & E3 & E4 & E5 & E6 & E7 & E8 & E9).
    rewrite Hh in E9. simpl in E9. apply wp_done. rewrite <- E5, <- E6.
    eapply (wp_hash_last s' [] p e r room ∅); [eapply in_memory_kept; [..|exact Hl]; by rewrite ?E1|by rewrite E1|done|..].
    + intros key. done.
    + split; [done| |done]. intros key. by rewrite lookup_empty.
    + rewrite E7. simpl in *. lia.
    + rewrite E7, map_size_empty. lia.
  - rewrite <- Epes in *. assert (Hne : pes ≠ []) by (by rewrite Epes). clear Epes pe pes'.
    destruct Ht as (room & m & Ht & Ha & Hsz). pose proof (t_hcount _ _ _ _ Ht) as Hh. rewrite Hh.
    destruct (indexed_length m pes Hne (t_indexed _ _ _ _ Ht)) as [Hpos Hlen].
    destruct (decide (Z.rem (Z.of_nat (size m)) (hash_size cf) = 0)%Z) as [Hz|Hz].
    + assert (hash_size cf ≤ Z.of_nat (size m))%Z as Hfull.
      { apply Z.rem_divide in Hz as [k Hk]; [|lia]. assert (0 < k)%Z by nia. nia. }
      assert (Hmore : rebuilds (S (length pes)) = (rebuilds (length pes) + 1)%Z) by (unfold rebuilds; lia).
      destruct (wp_new_table (Some p) s Hhs) as (room' & Hroom' & Hw); [lia|nia|]. rewrite decide_False in Hw by lia.
      eapply wp_mono; [exact Hw|]. intros ? s' (-> & E1 & E2 & E3 & E4 & E5 & E6 & E7 & E8 & E9).
      rewrite decide_False in E9 by lia. rewrite <- E5, <- E6.
      apply wp_done, wp_qbind, wp_field, wp_qbind, wp_field.
      eapply (wp_hash_again s' pes p e r room' m); [eapply in_memory_kept; [..|exact Hl]; by rewrite ?E1|by rewrite E1|done|..].
      * rewrite E1. exact Hc.
      * apply Ht.
      * done.
      * done.
      * rewrite E7. lia.
      * done.
      * rewrite E7. nia.
    + apply wp_ok, wp_done. eapply (wp_hash_last s pes p e r room m); [done..|lia|].
      assert (Z.of_nat (size m) ≠ hash_size cf * h_allocated s)%Z; [|lia].
      intros E. apply Hz. rewrite E, Z.mul_comm. apply Z.rem_mul. lia.
Qed.

(** ** A record is added *)

(** The new place, and one link to it, leave the records alone. *)
Lemma stored_insert (h h' : gmap nat greylst) pes : stored ip6_scan h pes →
  (∀ b, b ∈ pes.*1 → (λ r, (entry_of r, ip r)) <$> h' !! b = (λ r, (entry_of r, ip r)) <$> h !! b) → stored ip6_scan h' pes.
Proof.
  intros H Hh. apply Forall_forall. intros [b f] Hin. unfold stored in H. rewrite Forall_forall in H.
  destruct (H _ Hin) as (r & Hr & He & Hi). simpl in *.
  assert (Hb : b ∈ pes.*1) by (apply list_elem_of_fmap; by exists (b, f)). specialize (Hh b Hb). rewrite Hr in Hh.
  apply fmap_Some in Hh as (r' & E & F). injection F as E1 E2 E3 E4 E5 E6. exists r'.
  split; [done|]. unfold entry_of in *. split; [congruence|]. congruence.
Qed.

Lemma brk_fresh s pes : in_memory s pes → heap s !! brk s = None ∧ ∀ b, b ∈ pes.*1 → b ≠ brk s.
Proof.
  intros [_ _ Hl _ _ Hbrk]. assert (Hnew : heap s !! brk s = None).
  { destruct (heap s !! brk s) eqn:E; [|done]. specialize (Hbrk (brk s)). rewrite E in Hbrk.
    specialize (Hbrk (ex_intro _ _ eq_refl)). lia. }
  split; [done|]. intros b Hb ->. apply (linked_some _ _ _ _ Hl) in Hb as [? ?]. congruence.
Qed.

(** What [append] comes to. *)
Definition appended (pes : list (nat * entry)) (e : entry) (s : greyd) (x : Z + nat) (s' : greyd) : Prop :=
  ∃ a r, x = inr a ∧ in_memory s' (pes ++ [(a, e)]) ∧ hashed s' pes ∧ heap s' !! a = Some r ∧ ip_next r = None ∧
    grey_count s' = grey_count s ∧ sent s' = sent s.

Lemma wp_append_first s r0 e : in_memory s [] → hashed s [] → entry_of r0 = e → ip6_scan (ip_str r0) = Some (ip r0) →
  ip_next r0 = None → wp (append None r0) (appended [] e s) s.
Proof.
  intros [_ _ _ Hgh _ Hbrk] [_ Ht] He Hi Hnext. apply wp_qbind, wp_field. rewrite decide_True by done.
  unfold malloc. apply wp_qbind, wp_qbind, wp_field, wp_qbind, wp_setg, wp_ok, wp_qbind, wp_setg, wp_qbind, wp_setg, wp_ok.
  set (r := set_prev None (set_next None r0)). exists (brk s), r. simpl.
  split; [done|]. split; [|split; [|by rewrite lookup_insert_eq]]; [split; simpl|split; simpl]; try done.
  - by apply NoDup_singleton.
  - constructor; [|constructor]. exists r. by rewrite lookup_insert_eq.
  - split; [|done]. exists r. by rewrite lookup_insert_eq.
  - intros b [<-|[_ Hb]]%lookup_insert_is_Some; [lia|]. specialize (Hbrk b Hb). lia.
Qed.

Lemma wp_append_last s pes z r0 e : in_memory s pes → hashed s pes → last pes.*1 = Some z → entry_of r0 = e →
  ip6_scan (ip_str r0) = Some (ip r0) → ip_next r0 = None → wp (append None r0) (appended pes e s) s.
Proof.
  intros Hlist [Hc Ht] Ez He Hi Hnext. destruct (brk_fresh s pes Hlist) as [Hnew Hout].
  destruct Hlist as [Hn Hst Hl Hgh Hgt Hbrk]. apply wp_qbind, wp_field.
  assert (Hne : ghead s ≠ None) by (rewrite Hgh; by destruct pes). rewrite decide_False by done.
  apply wp_qbind, wp_field. rewrite Hgt, Ez. unfold malloc. apply wp_qbind, wp_qbind, wp_field, wp_qbind, wp_setg, wp_ok.
  set (r := set_prev (Some z) (set_next None r0)). set (h1 := <[brk s := r]> (heap s)).
  assert (Hzin : z ∈ pes.*1) by (by apply last_Some_elem_of). pose proof (Hout z Hzin) as Hzb.
  assert (Hzs : is_Some (h1 !! z)) by (unfold h1; rewrite lookup_insert_ne by done; by eapply linked_some).
  apply wp_qbind, wp_heap_store; [done|]. apply wp_qbind, wp_setg, wp_ok. simpl. fold h1.
  set (h2 := alter (set_next (Some (brk s))) z h1).
  assert (Hsame : ∀ {B} (f : greylst → B) b, (∀ r v, f (set_next v r) = f r) → b ≠ brk s → f <$> h2 !! b = f <$> heap s !! b).
  { intros B f b Hf Hb. unfold h2, h1. destruct (decide (z = b)) as [<-|Hz].
    - rewrite lookup_alter_eq, lookup_insert_ne by done. destruct (heap s !! z); simpl; by rewrite ?Hf.
    - by rewrite lookup_alter_ne, lookup_insert_ne. }
  assert (Hr : h2 !! brk s = Some r) by (unfold h2, h1; by rewrite lookup_alter_ne, lookup_insert_eq).
  exists (brk s), r. split; [done|]. split; [|split; [|done]]; [split; simpl; rewrite ?fmap_app; simpl|split; simpl].
  - apply NoDup_app. split; [done|]. split; [|by apply NoDup_singleton].
    intros b Hb ->%list_elem_of_singleton. by apply (Hout (brk s)).
  - apply Forall_app. split; [|constructor; [|constructor]; simpl; by exists r].
    eapply stored_insert; [exact Hst|]. intros b Hb. apply Hsame; [done|by apply Hout].
  - apply last_Some in Ez as [c Ec]. rewrite Ec in *. rewrite <- (assoc_L app). eapply linked_extend; [exact Hl| | |by rewrite Hr].
    + intros b Hb. unfold h2, h1. rewrite lookup_alter_ne, lookup_insert_ne; [done| |].
      * apply not_eq_sym, Hout, elem_of_app. by left.
      * intros <-. apply NoDup_app in Hn as (_ & Hd & _). apply (Hd z Hb). by left.
    + unfold h2. rewrite lookup_alter_eq. by destruct Hzs as [rz ->].
  - rewrite Hgh. by destruct pes.
  - by rewrite last_snoc.
  - intros b Hb. unfold h2 in Hb. apply lookup_alter_is_Some in Hb. unfold h1 in Hb.
    apply lookup_insert_is_Some in Hb as [<-|[_ Hb]]; [lia|]. specialize (Hbrk b Hb). lia.
  - intros key. eapply linked_mono; [|apply Hc]. intros b Hb%chain_in. apply Hsame; [done|by apply Hout].
  - destruct pes; [done|]. destruct Ht as (room & m & [? ? ?] & ?). by exists room, m.
Qed.

Lemma wp_append s pes r0 e : in_memory s pes → hashed s pes → entry_of r0 = e → ip6_scan (ip_str r0) = Some (ip r0) →
  ip_next r0 = None → wp (append None r0) (appended pes e s) s.
Proof.
  intros ?????. destruct (last pes.*1) as [z|] eqn:Ez; [by apply (wp_append_last s pes z)|].
  apply last_None, fmap_nil_inv in Ez as ->. by apply wp_append_first.
Qed.

(** ** The specification *)

Definition entry_matches (q : request) (e : entry) : bool :=
  bool_decide (e_ip e = q_ip q ∧ take (length (q_from q)) (e_from e) = q_from q ∧ e_rcpts e = q_rcpts q).
Definition expired (time : Z) (e : entry) : bool := bool_decide (e_stamp e < time - timeout cf)%Z.
(** What is said of an entry, and its new time. *)
Definition verdict (time : Z) (bounce : bool) (stat stamp : Z) : Z * Z :=
  if decide ((stat = RECORD_GREY ∨ stat = RECORD_OK) ∧ (time - timeout cf < stamp)%Z) then (RECORD_OK, time)
  else if decide (time < stamp + min_resend cf)%Z then (RECORD_EARLY, stamp)
  else if decide (stamp + resend_window cf < time)%Z then (RECORD_STALE, time)
  else (if bounce then RECORD_BOUNCE else RECORD_GREY, time).
Definition whitelisted (address : bytes) : bool :=
  match white cf with Some f => bool_decide (f address = 1%Z) | None => false end.
Definition find (q : request) : list entry → option (nat * entry) := list_find (λ e, entry_matches q e = true).

Definition new_entry (time : Z) (q : request) : entry := Entry (q_ip q) (q_from q) (q_rcpts q) time RECORD_NEW.
Definition mark (t st : Z) (e : entry) : entry := Entry (e_ip e) (e_from e) (e_rcpts e) t st.
(** The answer to a request at [time], when a new entry is made at [time']. *)
Definition answer (time time' : Z) (q : request) (l : list entry) : Z * list entry :=
  if whitelisted (q_ip q) then (RECORD_WHITE, l)
  else
    match (if forallb (expired time) l then None else find q l) with
    | Some (i, e) =>
      let '(st, t) := verdict time (bool_decide (q_from q = [])) (e_status e) (e_stamp e) in (st, <[i := mark t st e]> l)
    | None => (RECORD_NEW, l ++ [new_entry time' q])
    end.
Definition reply (st : Z) : bytes := if decide (st = RECORD_NEW) then [0; 1]%Z else response st.
(** Entries are about to be removed. *)
Definition due (time : Z) (l : list entry) : bool :=
  match l with
  | [] => false
  | e :: _ => expired time e && bool_decide (time mod free_interval cf = 0)%Z
  end.

(** ** Requests *)

Record sane : Prop := {
  sn_timeout : (0 ≤ timeout cf < 2 ^ 62)%Z;
  sn_min_resend : (0 ≤ min_resend cf < 2 ^ 31)%Z;
  sn_resend_window : (0 ≤ resend_window cf < 2 ^ 31)%Z;
  sn_free_interval : (0 < free_interval cf < 2 ^ 31)%Z;
  sn_hash_size : (0 < hash_size cf)%Z;
  sn_white f a : white cf = Some f → f a = 0%Z ∨ f a = 1%Z
}.
Context (Hsane : sane).
#[local] Abbreviation timely time := (timeout cf ≤ time < 2 ^ 62)%Z.
Definition stamped (time : Z) (l : list entry) : Prop := Forall (λ e, 0 ≤ e_stamp e ≤ time)%Z l.

Lemma swrap_id n : (0 ≤ n < 2 ^ 31)%Z → swrap 32 n = n.
Proof. intros. unfold swrap. rewrite Z.mod_small by lia. by rewrite decide_True by lia. Qed.
Lemma swrap_64 n : (0 ≤ n < 2 ^ 62)%Z → swrap 64 n = n.
Proof. intros. unfold swrap. rewrite Z.mod_small by lia. by rewrite decide_True by lia. Qed.
Lemma wrap_64 n : (0 ≤ n < 2 ^ 62)%Z → wrap 64 n = n.
Proof. intros. unfold wrap. apply Z.mod_small. lia. Qed.

Lemma judge_verdict time bounce stat stamp : timely time → (0 ≤ stamp ≤ time)%Z →
  judge cf time bounce stat stamp = verdict time bounce stat stamp.
Proof.
  intros Ht Hs. destruct Hsane. unfold judge, verdict, ulong_sub. by rewrite !wrap_64, !swrap_id by lia.
Qed.

(** ** The search *)

Lemma wp_unexpired n time pes (s : greyd) : linked next (heap s) pes.*1 → stored ip6_scan (heap s) pes → length pes ≤ n →
  wp (unexpired n (time - timeout cf) (head pes.*1)) (λ x s', x = inr (negb (forallb (expired time) pes.*2)) ∧ s' = s) s.
Proof.
  revert n. induction pes as [|[p e] pes IH]; intros n Hl Hst Hn; [by destruct n|].
  destruct n as [|n]; [simpl in Hn; lia|]. cbn [unexpired head fmap list_fmap fst snd forallb].
  destruct Hl as [(r & Hr & Hf) Hl]. apply Forall_cons in Hst as [(r' & Hr' & He & _) Hst]. simpl in Hr, Hr', He.
  rewrite Hr in Hr'. injection Hr' as <-. apply wp_qbind. eapply wp_load; [exact Hr|].
  assert (Ee : expired time e = bool_decide (timestamp r < time - timeout cf)%Z) by (by rewrite <- He).
  rewrite Ee. destruct (decide (timestamp r < time - timeout cf)%Z).
  - rewrite bool_decide_true by done. rewrite Hf. apply IH; [done|done|simpl in Hn; lia].
  - by rewrite bool_decide_false.
Qed.
Lemma wp_chain_find n q v cs (s : greyd) : linked ip_next (heap s) cs.*1 → stored ip6_scan (heap s) cs → length cs ≤ n →
  Forall (λ pe, e_ip pe.2 = q_ip q) cs → ip6_scan (q_ip q) = Some v →
  wp (chain_find n q v (head cs.*1))
    (λ x s', x = inr (fst ∘ snd <$> list_find (λ pe, entry_matches q pe.2 = true) cs) ∧ s' = s) s.
Proof.
  intros Hl Hst Hn Hip Hv. revert n Hl Hst Hn. induction cs as [|[p e] cs IH]; intros n Hl Hst Hn; [by destruct n|].
  destruct n as [|n]; [simpl in Hn; lia|]. cbn [chain_find head fmap list_fmap fst snd].
  apply Forall_cons in Hip as [Hk Hip]. simpl in Hk.
  destruct Hl as [(r & Hr & Hf) Hl]. apply Forall_cons in Hst as [(r' & Hr' & He & Hi) Hst]. simpl in Hr, Hr', He.
  rewrite Hr in Hr'. injection Hr' as <-. apply wp_qbind. eapply wp_load; [exact Hr|].
  assert (Em : matches q v r = entry_matches q e).
  { unfold matches, entry_matches. apply bool_decide_ext. rewrite <- He in *. simpl in *. rewrite Hk, Hv in Hi. injection Hi as ->. tauto. }
  rewrite Em. destruct (entry_matches q e) eqn:E; simpl; rewrite E.
  - by rewrite decide_True.
  - rewrite decide_False by done. rewrite Hf. eapply wp_mono; [apply IH; [done|done|done|simpl in Hn; lia]|].
    intros ? s' [-> ->]. split; [|done]. by destruct (list_find _ cs) as [[i [p' e']]|].
Qed.

(** A record gets another time and status. *)
Lemma marked_places i p e e' (pes : list (nat * entry)) : pes !! i = Some (p, e) → e_ip e' = e_ip e →
  (<[i := (p, e')]> pes).*1 = pes.*1 ∧ ∀ key, chain key (<[i := (p, e')]> pes) = chain key pes.
Proof.
  intros Hi Hip. split.
  - rewrite list_fmap_insert. apply list_insert_id. by rewrite list_lookup_fmap, Hi.
  - intros key. rewrite <- (take_drop_middle _ _ _ Hi) at 2. rewrite insert_take_drop by (by apply lookup_lt_Some in Hi).
    change ((p, e') :: drop (S i) pes) with ([(p, e')] ++ drop (S i) pes).
    change ((p, e) :: drop (S i) pes) with ([(p, e)] ++ drop (S i) pes).
    by rewrite !chain_app, !chain_one, Hip.
Qed.
Lemma holds_mark s pes i p e t n st : holds s pes → pes !! i = Some (p, e) →
  holds (set_heap (alter (set_attempt t n st) p (heap s)) s) (<[i := (p, mark t st e)]> pes).
Proof.
  intros ([Hn Hst Hl Hgh Hgt Hbrk] & [Hc Ht] & Hg) Hi.
  destruct (marked_places i p e (mark t st e) pes Hi eq_refl) as [E1 E2].
  assert (Hsame : ∀ {B} (f : greylst → B) b, (∀ r, f (set_attempt t n st r) = f r) →
    f <$> alter (set_attempt t n st) p (heap s) !! b = f <$> heap s !! b).
  { intros B f b Hf. destruct (decide (p = b)) as [<-|Hp]; [|by rewrite lookup_alter_ne].
    rewrite lookup_alter_eq. destruct (heap s !! p); simpl; by rewrite ?Hf. }
  split; [|split; [|simpl; by rewrite length_insert]]; split; simpl; rewrite ?E1; try done.
  - apply Forall_lookup. intros j [b f] Hj. apply list_lookup_insert_Some in Hj as [(<- & [= <- <-] & _)|[Hij Hj]].
    + unfold stored in Hst. rewrite Forall_lookup in Hst. destruct (Hst _ _ Hi) as (r & Hr & He & Hs). simpl in *.
      exists (set_attempt t n st r). rewrite lookup_alter_eq, Hr. split; [done|]. by rewrite <- He.
    + unfold stored in Hst. rewrite Forall_lookup in Hst. destruct (Hst _ _ Hj) as (r & Hr & He & Hs). simpl in *.
      exists r. rewrite lookup_alter_ne; [done|]. intros ->. apply Hij.
      eapply (NoDup_lookup pes.*1); [done|by rewrite list_lookup_fmap, Hi|by rewrite list_lookup_fmap, Hj].
  - eapply linked_mono; [|exact Hl]. intros b _. by apply Hsame.
  - intros b Hb. apply lookup_alter_is_Some in Hb. by apply Hbrk.
  - intros key. rewrite E2. eapply linked_mono; [|apply Hc]. intros b _. by apply Hsame.
  - assert (Hix : ∀ m, indexed m pes → indexed m (<[i:=(p, mark t st e)]> pes)) by (intros m Hm key; by rewrite E2).
    pose proof (length_insert pes i (p, mark t st e)) as Hlen.
    destruct (<[i:=(p, mark t st e)]> pes) as [|pe pes']; [by destruct pes|]. rewrite Hlen. destruct pes as [|pe' pes'']; [done|].
    destruct Ht as (room & m & [? Hm ?] & ? & ?). exists room, m. split; [|done]. by split; [|apply Hix|].
Qed.

Lemma find_filter q pes : let P (pe : nat * entry) := entry_matches q pe.2 = true in
  snd <$> list_find P (filter (λ pe, e_ip pe.2 = q_ip q) pes) = snd <$> list_find P pes.
Proof.
  intros P. induction pes as [|[p e] pes IH]; [done|]. rewrite filter_cons. simpl. subst P. simpl in *.
  destruct (entry_matches q e) eqn:E.
  - assert (e_ip e = q_ip q) as Hk by (by apply bool_decide_eq_true in E as [? _]). rewrite decide_True by done.
    simpl. by rewrite E.
  - case_decide as Hk; simpl; rewrite ?E, ?decide_False by done;
      destruct (list_find _ (filter _ pes)) as [[??]|], (list_find _ pes) as [[??]|]; simpl in *; congruence.
Qed.

Definition look_up (time : Z) (q : request) (pes : list (nat * entry)) : option (nat * (nat * entry)) :=
  if forallb (expired time) pes.*2 then None else list_find (λ pe, entry_matches q pe.2 = true) pes.
Definition searched (time : Z) (q : request) (pes : list (nat * entry)) (s : greyd) (x : Z + Z * option nat) (s' : greyd) : Prop :=
  if whitelisted (q_ip q) then x = inr (RECORD_WHITE, None) ∧ s' = s
  else
    match look_up time q pes with
    | None => x = inr (RECORD_NEW, None) ∧ s' = s
    | Some (i, (p, e)) =>
      let '(st, t) := verdict time (bool_decide (q_from q = [])) (e_status e) (e_stamp e) in
      x = inr (st, Some p) ∧ holds s' (<[i := (p, mark t st e)]> pes) ∧ sent s' = sent s
    end.

Lemma wp_wait_for_expiry s pes time : timely time → stamped time pes.*2 → in_memory s pes → pes ≠ [] → due time pes.*2 = false →
  wp (wait_for_expiry hcreate cf time) (λ x s', x = inr (negb (forallb (expired time) pes.*2)) ∧ s' = s) s.
Proof.
  intros Ht Hs [Hn Hst Hl Hgh _ _] Hne Hdue. destruct Hsane. unfold wait_for_expiry.
  apply wp_qbind, wp_field. rewrite Hgh. destruct pes as [|[p e] pes]; [done|].
  pose proof Hl as [(r & Hr & _) _]. pose proof Hst as [(r' & Hr' & He & _) _]%Forall_cons. simpl in Hr, Hr', He.
  rewrite Hr in Hr'. injection Hr' as <-. apply wp_qbind. eapply wp_load; [exact Hr|].
  assert (He' : e_stamp e = timestamp r) by (by rewrite <- He).
  apply Forall_cons in Hs as [Hse Hs]. simpl in Hse. rewrite He' in Hse. unfold ulong_sub. do 2 rewrite wrap_64 by lia.
  assert (Ee : expired time e = bool_decide (timestamp r < time - timeout cf)%Z) by (unfold expired; by rewrite He').
  case_decide as Hx.
  - rewrite swrap_id by lia. rewrite (decide_False (P := free_interval cf = 0%Z)) by lia.
    cbn [due fmap list_fmap snd] in Hdue. rewrite Ee, bool_decide_true in Hdue by done. simpl in Hdue.
    apply bool_decide_eq_false in Hdue. rewrite Z.rem_mod_nonneg by lia.
    rewrite (decide_False (P := (time mod free_interval cf = 0)%Z)) by done.
    apply wp_qbind, wp_field. rewrite swrap_64 by lia.
    eapply (wp_unexpired _ time ((p, e) :: pes)); [done|done|].
    pose proof (linked_size _ _ _ Hl Hn) as Hsz. rewrite length_fmap in Hsz. lia.
  - apply wp_ok. split; [|done]. cbn [fmap list_fmap snd forallb]. by rewrite Ee, bool_decide_false.
Qed.

Lemma wp_search s pes time q v : timely time → stamped time pes.*2 → holds s pes → due time pes.*2 = false →
  ip6_scan (q_ip q) = Some v → wp (search_record scan_xlong hcreate cf time q) (searched time q pes s) s.
Proof.
  intros Ht Hs Hh Hdue Hv. pose proof Hh as (Hl & [Hc Htab] & Hg). unfold search_record, searched.
  apply wp_qbind. eapply (wp_mono _ (λ x s', x = inr (whitelisted (q_ip q)) ∧ s' = s)).
  { unfold is_white, whitelisted. destruct (white cf) as [f|] eqn:Ew; [|done].
    by destruct (sn_white Hsane f (q_ip q) Ew) as [-> | ->]. }
  intros ? ? [-> ->]. destruct (whitelisted (q_ip q)); [done|].
  apply wp_qbind, wp_field. destruct pes as [|pe pes'] eqn:Epes.
  { rewrite (l_ghead _ _ Hl). done. }
  rewrite <- Epes in *. assert (Hne : pes ≠ []) by (by rewrite Epes).
  assert (Hg' : ghead s ≠ None) by (rewrite (l_ghead _ _ Hl), Epes; done). rewrite decide_False by done.
  assert (∃ room m, tabled room m pes s) as (room & m & Htm) by (destruct pes; [done|]; destruct Htab as (? & ? & ? & _); eauto).
  clear Epes pe pes' Htab Hg'. apply wp_qbind. eapply wp_mono; [by eapply wp_wait_for_expiry|]. intros ? ? [-> ->].
  unfold look_up. destruct (forallb (expired time) pes.*2); [done|]. cbn [negb]. rewrite Hv.
  apply wp_qbind. unfold hsearch_find. apply wp_qbind, wp_field. rewrite (t_table _ _ _ _ Htm). apply wp_ok.
  rewrite (t_indexed _ _ _ _ Htm). set (cs := filter (λ pe, e_ip pe.2 = q_ip q) pes).
  pose proof (find_filter q pes) as Hff. cbv zeta in Hff. fold cs in Hff.
  change (chain (q_ip q) pes) with cs.*1.
  destruct (head cs.*1) as [a|] eqn:Ea.
  2: { apply head_None, fmap_nil_inv in Ea. rewrite Ea in Hff. by destruct (list_find _ pes). }
  apply wp_qbind, wp_field, wp_qbind. rewrite <- Ea. pose proof (l_nodup _ _ Hl) as Hn. eapply wp_mono.
  { apply (wp_chain_find _ q v cs); [apply Hc| | | |done].
    - apply Forall_forall. intros pe [_ Hin]%list_elem_of_filter. pose proof (l_stored _ _ Hl) as Hst.
      unfold stored in Hst. rewrite Forall_forall in Hst. by apply Hst.
    - pose proof (linked_size _ _ _ (Hc (q_ip q)) (chain_nodup _ _ Hn)) as Hsz. unfold chain in Hsz.
      rewrite length_fmap in Hsz. fold cs in Hsz. lia.
    - apply Forall_forall. by intros pe [? _]%list_elem_of_filter. }
  intros ? ? [-> ->]. destruct (list_find _ pes) as [[i [p e]]|] eqn:Ef.
  2: { by destruct (list_find _ cs). }
  destruct (list_find _ cs) as [[j pe]|]; [|done]. injection Hff as ->. simpl.
  apply list_find_Some in Ef as (Hi & _ & _).
  pose proof (l_stored _ _ Hl) as Hst. unfold stored in Hst. rewrite Forall_lookup in Hst.
  destruct (Hst _ _ Hi) as (r & Hr & He & _). simpl in Hr, He. apply wp_qbind. eapply wp_load; [exact Hr|].
  unfold stamped in Hs. rewrite Forall_lookup in Hs.
  assert (Hse : (0 ≤ e_stamp e ≤ time)%Z) by (apply (Hs i); by rewrite list_lookup_fmap, Hi).
  rewrite <- He. simpl. rewrite judge_verdict by (rewrite <- He in Hse; done).
  destruct (verdict time _ (status r) (timestamp r)) as [st t].
  apply wp_qbind, wp_heap_store; [done|]. apply wp_ok. split; [done|]. split; [|done]. rewrite He. by apply holds_mark.
Qed.

(** ** A request *)

Lemma wp_add_record s pes time q v : holds s pes → ip6_scan (q_ip q) = Some v → length (q_ip q) < IPFMT →
  wp (add_record scan_xlong None time q) (λ x s', ∃ a r, x = inr (true, a) ∧ in_memory s' (pes ++ [(a, new_entry time q)]) ∧
    hashed s' pes ∧ heap s' !! a = Some r ∧ ip_next r = None ∧ grey_count s' = Z.of_nat (S (length pes)) ∧ sent s' = sent s) s.
Proof.
  intros (Hl & Hh & Hg) Hv Hlen. unfold add_record. rewrite Hv. apply wp_qbind. eapply wp_mono.
  { by apply (wp_append s pes _ (new_entry time q)). }
  intros ? s1 (a & r & -> & Hl1 & Hh1 & Hr & Hnext & E1 & E2). rewrite decide_False by lia.
  apply wp_qbind, wp_field, wp_qbind, wp_setg, wp_ok. exists a, r. split; [done|].
  split; [by eapply in_memory_kept; [..|exact Hl1]|]. split; [by eapply hashed_same; [..|exact Hh1]|].
  split; [done|]. split; [done|]. split; [simpl; lia|done].
Qed.

Definition answered (time time' : Z) (q : request) (pes : list (nat * entry)) (s s' : greyd) : Prop :=
  let '(st, l) := answer time time' q pes.*2 in
  sent s' = sent s ++ [reply st] ∧ ∃ pes', holds s' pes' ∧ pes'.*2 = l.

Lemma answer_new time time' q pes : whitelisted (q_ip q) = false → look_up time q pes = None →
  answer time time' q pes.*2 = (RECORD_NEW, pes.*2 ++ [new_entry time' q]).
Proof.
  unfold answer, look_up. intros -> H. destruct (forallb _ _); [done|]. unfold find. rewrite list_find_fmap.
  unfold compose. by rewrite H.
Qed.
Lemma answer_found time time' q pes i p e : whitelisted (q_ip q) = false → look_up time q pes = Some (i, (p, e)) →
  answer time time' q pes.*2 = let '(st, t) := verdict time (bool_decide (q_from q = [])) (e_status e) (e_stamp e) in
    (st, <[i := mark t st e]> pes.*2).
Proof.
  unfold answer, look_up. intros -> H. destruct (forallb _ _); [done|]. unfold find. rewrite list_find_fmap.
  unfold compose. by rewrite H.
Qed.
Lemma verdict_not_new time b st stamp : (verdict time b st stamp).1 ≠ RECORD_NEW.
Proof. unfold verdict. repeat case_decide; try done. by destruct b. Qed.

Lemma holds_sent s pes l : holds s pes → holds (set_sent l s) pes.
Proof.
  intros (Hl & Hh & Hg). split; [by eapply in_memory_kept; [..|exact Hl]|]. by split; [eapply hashed_same; [..|exact Hh]|].
Qed.

Lemma wp_serve_request s pes d q v : timely (now d) → stamped (now d) pes.*2 → holds s pes → due (now d) pes.*2 = false →
  ip6_scan (q_ip q) = Some v → length (q_ip q) < IPFMT → roomy (S (length pes)) →
  wp (serve_request scan_xlong hcreate None cf d q) (λ x s', x = inr tt ∧ answered (now d) (then_ d) q pes s s') s.
Proof.
  intros Ht Hs Hh Hdue Hv Hlen Hroomy. unfold serve_request, send_response. apply wp_qbind, wp_qbind.
  eapply wp_mono; [by eapply wp_search|]. intros x s1. unfold searched. destruct (whitelisted (q_ip q)) eqn:Hw.
  { intros [-> ->]. rewrite decide_False by done. apply wp_qbind, wp_setg, wp_ok. simpl. apply wp_qbind, wp_ok, wp_ok.
    split; [done|]. unfold answered, answer. rewrite Hw. split; [done|]. exists pes. by split; [apply holds_sent|]. }
  destruct (look_up (now d) q pes) as [[i [p e]]|] eqn:El.
  - unfold answered. rewrite (answer_found _ _ _ _ _ _ _ Hw El).
    pose proof (verdict_not_new (now d) (bool_decide (q_from q = [])) (e_status e) (e_stamp e)) as Hst.
    destruct (verdict _ _ _ _) as [st t]. intros (-> & Hh1 & Hsent). rewrite decide_False by done.
    apply wp_qbind, wp_setg, wp_ok. simpl. apply wp_qbind, wp_qbind.
    assert (is_Some (heap s1 !! p)) as [r Hr].
    { destruct Hh1 as ([_ _ Hl _ _ _] & _). eapply linked_some; [exact Hl|]. rewrite list_fmap_insert. simpl.
      apply list_elem_of_insert. rewrite length_fmap. unfold look_up in El. destruct (forallb _ _); [done|].
      apply list_find_Some in El as (Hi & _). by eapply lookup_lt_Some. }
    eapply wp_load; [exact Hr|]. apply wp_ok, wp_ok. split; [done|]. simpl. rewrite Hsent. split.
    { unfold reply. by rewrite decide_False. }
    exists (<[i:=(p, mark t st e)]> pes). split; [by apply holds_sent|]. by rewrite list_fmap_insert.
  - unfold answered. rewrite (answer_new _ _ _ _ Hw El). intros [-> ->]. rewrite decide_True by done.
    apply wp_qbind. eapply wp_mono; [by eapply wp_add_record|].
    intros ? s1 (a & r & -> & Hl1 & Hh1 & Hr & Hnext & Hg & Hsent). apply wp_qbind, wp_setg, wp_ok. simpl.
    apply wp_qbind, wp_qbind. eapply wp_load; [exact Hr|]. apply wp_ok, wp_qbind. eapply wp_mono.
    { eapply (wp_create_hash (set_sent (sent s1 ++ [[0; 1]%Z]) s1) pes a (new_entry (then_ d) q) r); [by destruct Hsane|done| | |done|done];
        [by eapply in_memory_kept; [..|exact Hl1]|by eapply hashed_same; [..|exact Hh1]]. }
    intros ? s2 (-> & Hl2 & Hh2 & Hg2 & Hs2). simpl in Hg2, Hs2. rewrite decide_True by done. apply wp_ok. split; [done|].
    rewrite Hs2, Hsent. split; [done|]. exists (pes ++ [(a, new_entry (then_ d) q)]). rewrite fmap_app. split; [|done].
    split; [done|]. split; [done|]. rewrite Hg2, Hg, length_app. simpl. lia.
Qed.
End greyd.
