(* ===== verification/GreydRequests.v ===== *)
(** * Greylisting from the client's side

    The datagram of [greylist] is read as it was meant, any number of them is answered
    as the specification says, and what that means for a client. *)

From S2P Require Import Prelude LibQmail Control Smtpd Greyd GreydHeap GreydTheorems.

(** ** Datagrams *)

Definition nonzero (s : bytes) : Prop := Forall (λ c, c ≠ 0%Z) s.
(** Recipients as smtpd keeps them. *)
Definition tolist (rs : list bytes) : bytes := mjoin (map (λ r, lit "T" ++ r ++ [0%Z]) rs).

Lemma parse_step fuel mem n pos p pre c body rest : mem = pre ++ (c :: body ++ 0%Z :: rest) → pos = length pre →
  nonzero (c :: body) → pos + length body + 2 < n →
  parse_loop (S fuel) mem n pos p = parse_loop fuel mem n (pos + (length body + 2))
    (if decide (c = 73%Z) then Parsed (state p + 1) (Some (pos + 1)) (p_rpath p) (rcpt_head p) (rcptlen p)
     else if decide (c = 70%Z) then Parsed (state p + 1) (client_ip p) (Some (pos + 1)) (rcpt_head p) (rcptlen p)
     else if decide (c = 84%Z) then
       Parsed (state p) (client_ip p) (p_rpath p) (Some (default pos (rcpt_head p))) (rcptlen p + (length body + 2))
     else p).
Proof.
  intros -> -> Hc Hn. cbn [parse_loop]. rewrite (decide_True (P := length pre + 1 < n)) by lia.
  assert (E : cstr (drop (length pre) (pre ++ c :: body ++ 0%Z :: rest)) = c :: body).
  { rewrite drop_app_length. change (c :: body ++ 0%Z :: rest) with ((c :: body) ++ 0%Z :: rest). by apply cstr_app. }
  assert (E2 : (pre ++ c :: body ++ 0%Z :: rest) !! length pre = Some c) by (by rewrite lookup_app_r, Nat.sub_diag).
  rewrite E, E2. simpl length. replace (S (length body) + 1) with (length body + 2) by lia.
  rewrite (decide_False (P := length pre + (length body + 2) = n)) by lia.
  f_equal. destruct (decide (c = 73%Z)) as [->|]; [done|]. rewrite (decide_False (P := Some c = Some 73%Z)) by congruence.
  destruct (decide (c = 70%Z)) as [->|]; [done|]. rewrite (decide_False (P := Some c = Some 70%Z)) by congruence.
  destruct (decide (c = 84%Z)) as [->|]; [done|]. by rewrite decide_False by congruence.
Qed.

Lemma length_tolist r rs : length (tolist (r :: rs)) = length r + 2 + length (tolist rs).
Proof. unfold tolist. simpl. rewrite !length_app. simpl. lia. Qed.
Lemma parse_recipients fuel mem n pos p pre rs rest : mem = pre ++ tolist rs ++ rest → pos = length pre →
  Forall nonzero rs → n = pos + length (tolist rs) + 1 → length rs < fuel →
  parse_loop fuel mem n pos p = Parsed (state p) (client_ip p) (p_rpath p)
    (if rs is [] then rcpt_head p else Some (default pos (rcpt_head p))) (rcptlen p + length (tolist rs)).
Proof.
  revert fuel pos p pre. induction rs as [|r rs IH]; intros fuel pos p pre Hmem Hpos Hnz Hn Hf;
    (destruct fuel as [|fuel]; [simpl in Hf; lia|]).
  - cbn [parse_loop]. rewrite decide_False by (simpl in Hn; lia). destruct p. simpl. by rewrite Nat.add_0_r.
  - apply Forall_cons in Hnz as [Hr Hnz]. rewrite length_tolist in *.
    assert (Hmem' : mem = pre ++ (84%Z :: r ++ 0%Z :: (tolist rs ++ rest))).
    { rewrite Hmem. unfold tolist. simpl. rewrite <- !(assoc_L app). done. }
    rewrite (parse_step fuel mem n pos p pre 84%Z r (tolist rs ++ rest)); [|done|done|by constructor|lia].
    rewrite !decide_False, decide_True by done.
    rewrite (IH fuel _ _ (pre ++ (84%Z :: r ++ [0%Z]))).
    + simpl. destruct rs; simpl; f_equal; lia.
    + rewrite Hmem', <- (assoc_L app). simpl. by rewrite <- (assoc_L app).
    + rewrite length_app. simpl. rewrite length_app. simpl. lia.
    + done.
    + lia.
    + simpl in Hf. lia.
Qed.

(** Appended lists that are the same after association. *)
Ltac appends := repeat (progress simpl || rewrite <- (assoc_L app)); reflexivity.

Lemma packet_parsed beyond ip from rs : nonzero ip → nonzero from → Forall nonzero rs → rs ≠ [] →
  parse beyond (grey_packet ip from (tolist rs)) = Some (Some (Request ip from (tolist rs))).
Proof.
  intros Hip Hfrom Hrs Hne. set (data := grey_packet ip from (tolist rs)).
  set (pre1 := 73%Z :: ip ++ [0%Z]). set (pre2 := pre1 ++ 70%Z :: from ++ [0%Z]).
  assert (E0 : data = pre2 ++ tolist rs ++ [0%Z]) by (unfold data, grey_packet, pre2, pre1; appends).
  assert (E2 : data ++ beyond = pre2 ++ tolist rs ++ 0%Z :: beyond) by (rewrite E0; appends).
  assert (E1 : data ++ beyond = pre1 ++ (70%Z :: from ++ 0%Z :: (tolist rs ++ 0%Z :: beyond))) by (rewrite E2; unfold pre2; appends).
  assert (E : data ++ beyond = [] ++ (73%Z :: ip ++ 0%Z :: (70%Z :: from ++ 0%Z :: (tolist rs ++ 0%Z :: beyond)))) by (rewrite E1; unfold pre1; appends).
  assert (Hp1 : length pre1 = length ip + 2) by (unfold pre1; simpl; rewrite length_app; simpl; lia).
  assert (Hp2 : length pre2 = length ip + length from + 4).
  { unfold pre2. rewrite length_app, Hp1. simpl. rewrite length_app. simpl. lia. }
  assert (Hlen : length data = length pre2 + length (tolist rs) + 1) by (rewrite E0, !length_app; simpl; lia).
  assert (Hl : length rs ≤ length (tolist rs)).
  { clear. induction rs as [|r rs IH]; [done|]. rewrite length_tolist. simpl. lia. }
  assert (∃ f, length data = S (S f) ∧ length rs < f) as (f & Hf & Hrf) by (exists (length data - 2); lia).
  assert (Hp : parse_loop (length data) (data ++ beyond) (length data) 0 (Parsed 0 None None None 0) =
    Parsed 2 (Some 1) (Some (length pre1 + 1)) (Some (length pre2)) (length (tolist rs))).
  { trans (parse_loop (S (S f)) (data ++ beyond) (length data) 0 (Parsed 0 None None None 0)); [by rewrite <- Hf|].
    rewrite (parse_step (S f) _ _ 0 _ [] 73%Z ip _ E), decide_True by (done || (by constructor) || lia).
    rewrite (parse_step f _ _ _ _ pre1 70%Z from _ E1), decide_False, decide_True by (done || (by constructor) || lia).
    rewrite (parse_recipients f _ _ _ _ pre2 rs _ E2); [|lia|done|lia|done]. cbn [state client_ip p_rpath rcpt_head rcptlen default].
    rewrite Hp1, Hp2. destruct rs; [done|]. f_equal; (lia || (f_equal; lia)). }
  unfold parse. rewrite Hp. cbn [state client_ip p_rpath rcpt_head rcptlen default].
  assert (length (tolist rs) ≠ 0) by (destruct rs; [done|rewrite length_tolist; lia]).
  rewrite decide_False by (intros [?|?]; [done|lia]). do 2 f_equal. f_equal.
  - rewrite E. simpl. by apply cstr_app.
  - rewrite E1. replace (length pre1 + 1) with (length (pre1 ++ [70%Z])) by (rewrite length_app; simpl; lia).
    change (70%Z :: from ++ 0%Z :: tolist rs ++ 0%Z :: beyond) with ([70%Z] ++ (from ++ 0%Z :: tolist rs ++ 0%Z :: beyond)).
    rewrite (assoc_L app), drop_app_length. by apply cstr_app.
  - rewrite E2. cbn [from_option id]. rewrite drop_app_length. by rewrite take_app_length.
Qed.

(** ** Many requests *)

Record query := Query { y_ip : bytes; y_from : bytes; y_rs : list bytes; y_now : Z; y_then : Z }.
Definition request_of (y : query) : request := Request (y_ip y) (y_from y) (tolist (y_rs y)).
Definition datagram_of (y : query) : datagram :=
  Datagram (grey_packet (y_ip y) (y_from y) (tolist (y_rs y))) (y_now y) (y_then y).
(** The clock does not go back. *)
Fixpoint ordered (time : Z) (ys : list query) : Prop :=
  match ys with [] => (time < 2 ^ 62)%Z | y :: ys => (time ≤ y_now y ≤ y_then y)%Z ∧ ordered (y_then y) ys end.
(** A sender and an address again, with the same recipients. *)
Definition same_mail (y y' : query) : Prop := y_ip y = y_ip y' ∧ y_rs y = y_rs y'.

Lemma ordered_max time ys : ordered time ys → (time < 2 ^ 62)%Z.
Proof. revert time. induction ys as [|y ys IH]; intros time; [done|]. simpl. intros [? ?%IH]. lia. Qed.

Section answers.
Context (cf : grey_conf).

(** What the specification answers to them. *)
Fixpoint play (ys : list query) (l : list entry) : list Z * list entry :=
  match ys with
  | [] => ([], l)
  | y :: ys =>
    let '(st, l) := answer cf (y_now y) (y_then y) (request_of y) l in
    let '(sts, l) := play ys l in (st :: sts, l)
  end.
Fixpoint never_due (ys : list query) (l : list entry) : Prop :=
  match ys with
  | [] => True
  | y :: ys => due cf (y_now y) l = false ∧ never_due ys (answer cf (y_now y) (y_then y) (request_of y) l).2
  end.

Lemma answer_entries time time' q l : Forall (λ e, e ∈ l ∨ e = new_entry time' q ∨
    ∃ i e0, l !! i = Some e0 ∧ entry_matches q e0 = true ∧
      e = mark (verdict cf time (bool_decide (q_from q = [])) (e_status e0) (e_stamp e0)).2
            (verdict cf time (bool_decide (q_from q = [])) (e_status e0) (e_stamp e0)).1 e0) (answer cf time time' q l).2.
Proof.
  apply Forall_forall. intros e. unfold answer. destruct (whitelisted _ _); [by left|].
  destruct (if forallb _ _ then _ else _) as [[i e0]|] eqn:Ef.
  - destruct (forallb _ _); [done|]. apply list_find_Some in Ef as (Hi & Hm & _).
    destruct (verdict _ _ _ _ _) as [st t] eqn:Ev. intros [j [(_ & <- & _)|[_ Hj]]%list_lookup_insert_Some]%list_elem_of_lookup.
    + right; right. exists i, e0. by rewrite Ev.
    + left. by eapply list_elem_of_lookup_2.
  - intros [Hin | ->%list_elem_of_singleton]%elem_of_app; [by left|by right; left].
Qed.
Lemma verdict_stamp time b st stamp : (verdict cf time b st stamp).2 = stamp ∨ (verdict cf time b st stamp).2 = time.
Proof. unfold verdict. repeat case_decide; simpl; auto. Qed.
Lemma answer_stamped time time' q l : (time ≤ time')%Z → (0 ≤ time)%Z → stamped time l → stamped time' (answer cf time time' q l).2.
Proof.
  intros Ht H0 Hs. unfold stamped in *. rewrite Forall_forall in Hs. eapply Forall_impl; [apply answer_entries|].
  intros e [He%Hs|[->|(i & e0 & He%list_elem_of_lookup_2%Hs & _ & ->)]]; simpl; [lia..|].
  destruct (verdict_stamp time (bool_decide (q_from q = [])) (e_status e0) (e_stamp e0)) as [-> | ->]; lia.
Qed.
Lemma answer_length time time' q l : length (answer cf time time' q l).2 ≤ S (length l).
Proof.
  unfold answer. destruct (whitelisted _ _); [simpl; lia|]. destruct (if forallb _ _ then _ else _) as [[i e0]|].
  - destruct (verdict _ _ _ _ _). simpl. rewrite length_insert. lia.
  - simpl. rewrite length_app. simpl. lia.
Qed.

End answers.

Section requests.
Context {L : LibQmail} (scan_xlong : bytes → nat * Z) (hcreate : Z → option nat) (beyond : bytes) (cf : grey_conf).
Context (Hcreate : ∀ n, (0 < n < 2 ^ 31)%Z → ∃ room, hcreate n = Some room ∧ (n ≤ Z.of_nat room)%Z) (Hsane : sane cf).

#[local] Abbreviation play := (play cf).
#[local] Abbreviation never_due := (never_due cf).

Definition valid (y : query) : Prop :=
  is_Some (ip6_scan scan_xlong (y_ip y)) ∧ length (y_ip y) < IPFMT ∧ nonzero (y_ip y) ∧ nonzero (y_from y) ∧
  Forall nonzero (y_rs y) ∧ y_rs y ≠ [].

Lemma roomy_mono n m : n ≤ m → roomy cf m → roomy cf n.
Proof. unfold roomy, rebuilds. destruct Hsane. intros. nia. Qed.

Lemma serve_query y : nonzero (y_ip y) → nonzero (y_from y) → Forall nonzero (y_rs y) → y_rs y ≠ [] →
  serve scan_xlong hcreate None beyond cf (datagram_of y) =
  serve_request scan_xlong hcreate None cf (datagram_of y) (request_of y).
Proof.
  intros Hz Hzf Hzr Hne. pose proof (packet_parsed beyond _ _ _ Hz Hzf Hzr Hne) as Hp. unfold serve.
  change (packet (datagram_of y)) with (grey_packet (y_ip y) (y_from y) (tolist (y_rs y))).
  assert (Eh : head (grey_packet (y_ip y) (y_from y) (tolist (y_rs y))) = Some 73%Z) by done.
  destruct (grey_packet _ _ _) as [|c t]; [done|]. injection Eh as ->.
  rewrite decide_True by done. by rewrite Hp.
Qed.

Lemma wp_serve_all ys time pes s : holds scan_xlong cf s pes → stamped time pes.*2 → (timeout cf ≤ time)%Z → ordered time ys →
  Forall valid ys → never_due ys pes.*2 → roomy cf (length pes + length ys) →
  wp (serve_all scan_xlong hcreate None beyond cf (map datagram_of ys))
    (λ x s', x = inr tt ∧ sent s' = sent s ++ map reply (play ys pes.*2).1 ∧
      ∃ pes', holds scan_xlong cf s' pes' ∧ pes'.*2 = (play ys pes.*2).2) s.
Proof.
  revert time pes s. induction ys as [|y ys IH]; intros time pes s Hh Hs Ht Ho Hv Hd Hr.
  { apply wp_ok. split; [done|]. simpl. rewrite app_nil_r. eauto. }
  destruct Ho as [Hnow Ho]. pose proof (ordered_max _ _ Ho) as Hmax. apply Forall_cons in Hv as [Hy Hv].
  destruct Hy as ([v Hip] & Hlen & Hz & Hzf & Hzr & Hne). destruct Hd as [Hd0 Hd]. cbn [length] in Hr.
  assert (Ht0 : (0 ≤ timeout cf)%Z) by (destruct Hsane; lia).
  cbn [map serve_all]. apply wp_qbind. rewrite serve_query by done.
  assert (Hs' : stamped (y_now y) pes.*2) by (eapply Forall_impl; [exact Hs|]; simpl; lia).
  eapply wp_mono.
  { eapply (wp_serve_request scan_xlong hcreate cf Hcreate Hsane s pes (datagram_of y) (request_of y) v);
      simpl; [lia|done..|eapply roomy_mono; [|exact Hr]; lia]. }
  intros x s1 [-> Ha]. unfold answered in Ha. cbn [now then_ datagram_of] in Ha. cbn [play].
  pose proof (answer_stamped cf (y_now y) (y_then y) (request_of y) pes.*2) as Hs1.
  pose proof (answer_length cf (y_now y) (y_then y) (request_of y) pes.*2) as Hl1. rewrite length_fmap in Hl1.
  cbn [never_due] in Hd. change (Request (y_ip y) (y_from y) (tolist (y_rs y))) with (request_of y) in Ha.
  destruct (answer cf (y_now y) (y_then y) (request_of y) pes.*2) as [st l]. simpl in Hs1, Hl1, Hd.
  destruct Ha as (Hsent & pes' & Hh' & <-). rewrite length_fmap in Hl1.
  eapply wp_mono; [apply (IH (y_then y) pes'); [done|apply Hs1; [lia..|done]|lia|done|done|done|eapply roomy_mono; [|exact Hr]; lia]|].
  intros ? s2 (-> & Hsent' & Hend). split; [done|]. destruct (play ys pes'.*2). simpl in *.
  split; [|done]. by rewrite Hsent', Hsent, <- (assoc_L app).
Qed.

End requests.

(** ** What a client may rely on *)

Section contract.
Context (cf : grey_conf).
#[local] Abbreviation play := (play cf).

Lemma tolist_inj rs rs' : Forall nonzero rs → Forall nonzero rs' → tolist rs = tolist rs' → rs = rs'.
Proof.
  intros H. revert rs'. induction H as [|r rs Hr H IH]; intros rs' H' E; destruct H' as [|r' rs' Hr' H']; try done.
  assert (Hc : ∀ x xs, tolist (x :: xs) = 84%Z :: (x ++ 0%Z :: tolist xs)) by (intros; unfold tolist; simpl; by rewrite <- (assoc_L app)).
  rewrite !Hc in E. injection E as E. assert (r = r') as ->.
  { rewrite <- (cstr_app r (tolist rs)), <- (cstr_app r' (tolist rs')) by done. by rewrite E. }
  apply app_inv_head in E. injection E as E. by rewrite (IH _ H' E).
Qed.

Definition settled (st : Z) : Prop := st = RECORD_GREY ∨ st = RECORD_OK.
Definition accepted (st : Z) : Prop := settled st ∨ st = RECORD_BOUNCE.
(** The entry is that of an earlier query, and it was accepted only after the delay. *)
Definition backed (past : list query) (e : entry) : Prop :=
  ∃ y, y ∈ past ∧ e_ip e = y_ip y ∧ e_from e = y_from y ∧ e_rcpts e = tolist (y_rs y) ∧
    (y_then y ≤ e_stamp e)%Z ∧ (settled (e_status e) → y_then y + min_resend cf ≤ e_stamp e)%Z.

Lemma verdict_after time b st stamp base : (base ≤ stamp ≤ time)%Z → (settled st → base + min_resend cf ≤ stamp)%Z →
  let '(st', stamp') := verdict cf time b st stamp in
  (base ≤ stamp')%Z ∧ (settled st' → base + min_resend cf ≤ stamp')%Z ∧ (accepted st' → base + min_resend cf ≤ time)%Z.
Proof.
  intros Hb Hs. unfold verdict, accepted. case_decide as H1; [|case_decide as H2; [|case_decide as H3]].
  - destruct H1 as [H1 _]. specialize (Hs H1). lia.
  - split; [lia|]. by split; [intros [?|?]|intros [[?|?]|?]].
  - split; [lia|]. by split; [intros [?|?]|intros [[?|?]|?]].
  - lia.
Qed.

Lemma backed_mono past past' e : (∀ y, y ∈ past → y ∈ past') → backed past e → backed past' e.
Proof. intros H (y & Hy & ?). exists y. eauto. Qed.
Lemma answer_backed past y l : (y_now y ≤ y_then y)%Z → stamped (y_now y) l → Forall (backed past) l →
  Forall (backed (past ++ [y])) (answer cf (y_now y) (y_then y) (request_of y) l).2.
Proof.
  intros Ht Hs Hb. rewrite Forall_forall in Hb. unfold stamped in Hs. rewrite Forall_forall in Hs.
  assert (Hm : ∀ y0, y0 ∈ past → y0 ∈ past ++ [y]) by (intros; apply elem_of_app; by left).
  eapply Forall_impl; [apply answer_entries|]. intros e [He%Hb|[->|(i & e0 & He%list_elem_of_lookup_2 & _ & ->)]].
  - by eapply backed_mono.
  - exists y. split; [apply elem_of_app; right; by left|]. simpl. do 4 (split; [done|]). by intros [? | ?].
  - destruct (Hb _ He) as (y0 & Hy & ? & ? & ? & Hle & Hset). specialize (Hs _ He).
    pose proof (verdict_after (y_now y) (bool_decide (q_from (request_of y) = [])) (e_status e0) (e_stamp e0) (y_then y0)) as Hv.
    destruct (verdict cf _ _ _ _) as [st t]. destruct Hv as (? & ? & _); [lia|done|]. exists y0. simpl. eauto 7.
Qed.

Lemma answer_accepted past y l : stamped (y_now y) l → Forall (backed past) l →
  accepted (answer cf (y_now y) (y_then y) (request_of y) l).1 → ∃ y0, y0 ∈ past ∧ y_ip y0 = y_ip y ∧
    tolist (y_rs y0) = tolist (y_rs y) ∧ take (length (y_from y)) (y_from y0) = y_from y ∧ (y_then y0 + min_resend cf ≤ y_now y)%Z.
Proof.
  intros Hs Hb. unfold answer. destruct (whitelisted _ _); [by intros [[?|?]|?]|].
  destruct (if forallb _ _ then _ else _) as [[i e]|] eqn:Ef; [|by intros [[?|?]|?]].
  destruct (forallb _ _); [done|]. apply list_find_Some in Ef as (Hi & Hm%bool_decide_eq_true & _).
  unfold stamped in Hs. rewrite Forall_lookup in Hs, Hb. specialize (Hs _ _ Hi).
  destruct (Hb _ _ Hi) as (y0 & Hy & E1 & E2 & E3 & Hle & Hset).
  pose proof (verdict_after (y_now y) (bool_decide (q_from (request_of y) = [])) (e_status e) (e_stamp e) (y_then y0)) as Hv.
  destruct (verdict cf _ _ _ _) as [st t]. destruct Hv as (_ & _ & Hv); [lia|done|]. simpl. intros Ha%Hv.
  exists y0. simpl in Hm. rewrite E1, E2, E3 in Hm. tauto.
Qed.

Lemma stamped_later time time' l : (time ≤ time')%Z → stamped time l → stamped time' l.
Proof. intros Ht H. eapply Forall_impl; [exact H|]. simpl. lia. Qed.

Lemma play_accepted ys past time l i y st : ordered time ys → (0 ≤ time)%Z → stamped time l → Forall (backed past) l →
  ys !! i = Some y → (play ys l).1 !! i = Some st → accepted st → ∃ y0, y0 ∈ past ++ take i ys ∧ y_ip y0 = y_ip y ∧
    tolist (y_rs y0) = tolist (y_rs y) ∧ take (length (y_from y)) (y_from y0) = y_from y ∧ (y_then y0 + min_resend cf ≤ y_now y)%Z.
Proof.
  revert past time l i. induction ys as [|z ys IH]; intros past time l i Ho H0 Hs Hb Hi Hst Ha; [done|].
  destruct Ho as [Hz Ho]. cbn [play] in Hst. assert (Hs' : stamped (y_now z) l) by (eapply stamped_later; [|exact Hs]; lia).
  destruct i as [|i]; simpl in Hi.
  - injection Hi as ->. rewrite app_nil_r. eapply answer_accepted; [exact Hs'|exact Hb|].
    destruct (answer cf (y_now y) (y_then y) (request_of y) l) as [st0 l0]. destruct (play ys l0). by injection Hst as ->.
  - pose proof (answer_stamped cf (y_now z) (y_then z) (request_of z) l) as Hs1.
    pose proof (answer_backed past z l) as Hb1.
    destruct (answer cf (y_now z) (y_then z) (request_of z) l) as [st0 l0]. simpl in Hs1, Hb1.
    assert (Hst' : (play ys l0).1 !! i = Some st) by (by destruct (play ys l0)).
    destruct (IH (past ++ [z]) (y_then z) l0 i) as (y0 & Hy & ?);
      [done|lia|apply Hs1; [lia..|done]|apply Hb1; [lia|done|done]|done|done|done|].
    exists y0. rewrite <- (assoc_L app) in Hy. eauto.
Qed.

Lemma verdict_not_white time b st stamp : (verdict cf time b st stamp).1 ≠ RECORD_WHITE.
Proof. unfold verdict. repeat case_decide; try done. by destruct b. Qed.
Lemma play_white ys l i y : ys !! i = Some y → (play ys l).1 !! i = Some RECORD_WHITE → whitelisted cf (y_ip y) = true.
Proof.
  revert l i. induction ys as [|z ys IH]; intros l i Hi Hst; [done|]. cbn [play] in Hst.
  destruct (answer cf (y_now z) (y_then z) (request_of z) l) as [st0 l0] eqn:Ea. destruct i as [|i]; simpl in Hi.
  - injection Hi as ->. destruct (play ys l0). injection Hst as ->. unfold answer in Ea. simpl in Ea.
    destruct (whitelisted cf (y_ip y)); [done|]. destruct (if forallb _ _ then _ else _) as [[j e]|]; [|done].
    pose proof (verdict_not_white (y_now y) (bool_decide (y_from y = [])) (e_status e) (e_stamp e)) as Hv.
    destruct (verdict cf _ _ _ _). by injection Ea as -> _.
  - apply (IH l0 i Hi). by destruct (play ys l0).
Qed.
Lemma reply_one st rest : reply st = 1%Z :: rest → st = RECORD_WHITE ∨ accepted st.
Proof.
  unfold reply, response, accepted, settled. case_decide; [done|]. case_decide; [done|]. case_decide; [done|].
  case_decide; [by left|]. case_decide; [by right; left; right|]. case_decide; [by right; left; left|].
  case_decide; [by right; right|done].
Qed.

(** *** A retry *)

(** No request for [y] has been seen. *)
Definition foreign (y : query) (e : entry) : Prop := ¬ (e_ip e = y_ip y ∧ e_rcpts e = tolist (y_rs y)).
Lemma foreign_no_match y e : foreign y e → entry_matches (request_of y) e = false.
Proof. intros H. apply bool_decide_eq_false. simpl. intros (? & _ & ?). by apply H. Qed.

(** The only entry that may be for [y] is [e], at [k]. *)
Definition alone (y : query) (k : nat) (e : entry) (l : list entry) : Prop :=
  l !! k = Some e ∧ ∀ j e', l !! j = Some e' → j ≠ k → foreign y e'.
Definition elsewhere (y z : query) : Prop := ¬ (y_ip z = y_ip y ∧ tolist (y_rs z) = tolist (y_rs y)).

Lemma answer_foreign y z time time' l : elsewhere y z → Forall (foreign y) l →
  Forall (foreign y) (answer cf time time' (request_of z) l).2.
Proof.
  intros Hz Hl. rewrite Forall_forall in Hl. eapply Forall_impl; [apply answer_entries|].
  intros e [He|[->|(i & e0 & He%list_elem_of_lookup_2 & _ & ->)]]; [by apply Hl|done|exact (Hl _ He)].
Qed.
Lemma answer_alone y z k e time time' l : elsewhere y z → e_ip e = y_ip y → e_rcpts e = tolist (y_rs y) → alone y k e l →
  alone y k e (answer cf time time' (request_of z) l).2.
Proof.
  intros Hz Hip Hrc [Hk Hl]. unfold answer. destruct (whitelisted _ _); [done|].
  destruct (if forallb _ _ then _ else _) as [[i e0]|] eqn:Ef.
  - destruct (forallb _ _); [done|]. apply list_find_Some in Ef as (Hi & Hm%bool_decide_eq_true & _). simpl in Hm.
    assert (Hik : i ≠ k). { intros ->. rewrite Hk in Hi. injection Hi as <-. apply Hz. destruct Hm as (? & _ & ?). split; congruence. }
    destruct (verdict cf _ _ _ _) as [st t]. split; simpl; [by rewrite list_lookup_insert_ne|].
    intros j e' [(<- & <- & _)|[Hij Hj]]%list_lookup_insert_Some Hjk; [exact (Hl _ _ Hi Hik)|by eapply Hl].
  - split; simpl; [by apply lookup_app_l_Some|]. intros j e' [Hj|[_ Hj]]%lookup_app_Some Hjk; [by eapply Hl|].
    apply list_lookup_singleton_Some in Hj as [_ <-]. done.
Qed.

Lemma play_app a b l : play (a ++ b) l = ((play a l).1 ++ (play b (play a l).2).1, (play b (play a l).2).2).
Proof.
  revert l. induction a as [|y a IH]; intros l; [simpl; by destruct (play b l)|]. cbn [play app].
  destruct (answer cf _ _ _ l) as [st l1]. rewrite IH. by destruct (play a l1).
Qed.
Lemma play_length ys l : length (play ys l).1 = length ys.
Proof.
  revert l. induction ys as [|y ys IH]; intros l; [done|]. cbn [play]. destruct (answer cf _ _ _ l) as [st l1].
  specialize (IH l1). destruct (play ys l1). simpl in *. lia.
Qed.
Lemma play_keeps (P : list entry → Prop) zs l : (∀ z l, z ∈ zs → P l → P (answer cf (y_now z) (y_then z) (request_of z) l).2) →
  P l → P (play zs l).2.
Proof.
  revert l. induction zs as [|z zs IH]; intros l H Hl; [done|]. cbn [play].
  pose proof (H z l (list_elem_of_here _ _) Hl) as H1. destruct (answer cf _ _ _ l) as [st l1]. simpl in H1.
  specialize (IH l1 (λ z' l' Hz, H z' l' (list_elem_of_further _ _ _ Hz)) H1). by destruct (play zs l1).
Qed.

Lemma answer_first y l : whitelisted cf (y_ip y) = false → Forall (foreign y) l →
  answer cf (y_now y) (y_then y) (request_of y) l = (RECORD_NEW, l ++ [new_entry (y_then y) (request_of y)]).
Proof.
  intros Hw Hl. unfold answer. simpl. rewrite Hw. destruct (forallb _ _); [done|]. unfold find.
  destruct (list_find _ l) as [[i e]|] eqn:E; [|done]. apply list_find_Some in E as (Hi & Hm & _).
  rewrite Forall_lookup in Hl. by rewrite (foreign_no_match y e) in Hm by (by eapply Hl).
Qed.
Lemma answer_retry y y' k l : whitelisted cf (y_ip y) = false → request_of y' = request_of y →
  alone y k (new_entry (y_then y) (request_of y)) l → (y_now y' - timeout cf ≤ y_then y)%Z →
  (y_then y + min_resend cf ≤ y_now y' ≤ y_then y + resend_window cf)%Z →
  (answer cf (y_now y') (y_then y') (request_of y') l).1 = if bool_decide (y_from y = []) then RECORD_BOUNCE else RECORD_GREY.
Proof.
  intros Hw -> [Hk Hl] Ht Hwin. unfold answer. simpl. rewrite Hw.
  assert (Hx : forallb (expired cf (y_now y')) l = false).
  { apply not_true_is_false. rewrite forallb_forall. intros H.
    specialize (H _ (proj1 (list_elem_of_In _ _) (list_elem_of_lookup_2 _ _ _ Hk))). apply bool_decide_eq_true in H. simpl in H. lia. }
  rewrite Hx. assert (find (request_of y) l = Some (k, new_entry (y_then y) (request_of y))) as ->.
  { apply list_find_Some. split; [done|]. split; [apply bool_decide_eq_true; simpl; by rewrite firstn_all|].
    intros j e' Hj Hjk. rewrite foreign_no_match; [done|]. eapply Hl; [done|lia]. }
  unfold verdict. simpl. rewrite !decide_False by lia. done.
Qed.
End contract.

(** ** The daemon from its start

    The requests [ys] come one after the other, each when the one before is done with
    and the clock does not go back, none when an entry is about to be removed
    ([GreydRun.expiry_crashes]).  Each has an address that can be read and is shorter
    than the field for it, one recipient at least, and no zero bytes.  New memory is
    zero ([None]); [GreydRun.stale_next_followed] is what may come else.

    The program asks for more than its manual page says: [GreydRun.success_forgotten],
    [GreydRun.one_triplet_deferred] and [GreydRun.null_sender_kept]. *)

Section clients.
Context {L : LibQmail} (scan_xlong : bytes → nat * Z) (hcreate : Z → option nat) (beyond : bytes) (cf : grey_conf).
Context (Hcreate : ∀ n, (0 < n < 2 ^ 31)%Z → ∃ room, hcreate n = Some room ∧ (n ≤ Z.of_nat room)%Z) (Hsane : sane cf).
Context (time : Z) (ys : list query) (Htime : (timeout cf ≤ time)%Z) (Hordered : ordered time ys).
Context (Hvalid : Forall (valid scan_xlong) ys) (Hdue : never_due cf ys []) (Hroomy : roomy cf (length ys)).
#[local] Abbreviation run := (serve_all scan_xlong hcreate None beyond cf (map datagram_of ys) greyd0).

Lemma served : run.1 = inr tt ∧ sent run.2 = map reply (play cf ys []).1 ∧
  ∃ pes, holds scan_xlong cf run.2 pes ∧ pes.*2 = (play cf ys []).2.
Proof.
  apply (wp_serve_all scan_xlong hcreate beyond cf Hcreate Hsane ys time [] greyd0); [apply holds_start|by constructor|done..].
Qed.
Lemma start_time : (0 ≤ time)%Z.
Proof. destruct Hsane. lia. Qed.


(** C4. Nobody is let through at once: for such requests, a client whose answer starts
    with 1 has an address of the whitelist, or asked before from the same address for
    the same recipients, with a sender that starts with this one, and the delay has
    passed since then.  This is more than the manual page asks for, which lets an
    address through that succeeded before with whatever mail, and a request of which
    one recipient was seen. *)
Theorem accepted_after_delay i y rest : ys !! i = Some y → sent run.2 !! i = Some (1%Z :: rest) →
  whitelisted cf (y_ip y) = true ∨
  ∃ y0, y0 ∈ take i ys ∧ same_mail y0 y ∧ take (length (y_from y)) (y_from y0) = y_from y ∧
    (y_then y0 + min_resend cf ≤ y_now y)%Z.
Proof.
  intros Hi Hr. destruct served as (_ & Hs & _). rewrite Hs, list_lookup_fmap in Hr.
  apply fmap_Some in Hr as (st & Hst & Hr). destruct (reply_one _ _ (eq_sym Hr)) as [-> | Ha].
  { left. by eapply play_white. }
  right. destruct (play_accepted cf ys [] time [] i y st) as (y0 & Hy & E1 & E2 & E3 & Hd);
    [done|exact start_time|by constructor|by constructor|done..|]. simpl in Hy.
  exists y0. split; [done|]. split; [|done]. split; [done|]. rewrite Forall_forall in Hvalid.
  destruct (Hvalid y) as (_ & _ & _ & _ & H1 & _); [by eapply list_elem_of_lookup_2|].
  destruct (Hvalid y0) as (_ & _ & _ & _ & H2 & _); [by eapply subseteq_take|]. by apply tolist_inj.
Qed.

End clients.

(** ** At work *)

Module GreydRun.
#[local] Existing Instance reference_libqmail.

Definition hex (c : Z) : option Z :=
  if decide (48 ≤ c ≤ 57)%Z then Some (c - 48)%Z
  else if decide (97 ≤ c ≤ 102)%Z then Some (c - 87)%Z else if decide (65 ≤ c ≤ 70)%Z then Some (c - 55)%Z else None.
Fixpoint xlong (s : bytes) (n : nat) (u : Z) : nat * Z :=
  match s with
  | [] => (n, u)
  | c :: s => match hex c with Some d => xlong s (S n) (16 * u + d) | None => (n, u) end
  end.
Definition scan_xlong (s : bytes) : nat * Z := xlong s 0 0.
Definition hcreate (n : Z) : option nat := Some (Z.to_nat n).
Lemma hcreate_room n : (0 < n < 2 ^ 31)%Z → ∃ room, hcreate n = Some room ∧ (n ≤ Z.of_nat room)%Z.
Proof. intros. exists (Z.to_nat n). split; [done|lia]. Qed.

(** A timeout of 30 days, a window of a day and a delay of two minutes, with a hash
    table that has to grow, and one address that is trusted. *)
Definition cf (size : Z) : grey_conf := {|
  timeout := 2592000; min_resend := 120; resend_window := 86400; free_interval := 300; hash_size := size;
  white := Some (λ a, if decide (a = lit "192.0.2.9") then 1 else 0)%Z |}.
Lemma cf_sane size : (0 < size)%Z → sane (cf size).
Proof. split; simpl; try lia. intros f a [= <-]. case_decide; auto. Qed.

Definition ask (ip from : string) (rs : list string) (t : Z) : query :=
  Query (lit ip) (lit from) (map lit rs) (3000000 + t) (3000001 + t).
Definition joe (t : Z) : query := ask "192.0.2.1" "joe@example.org" ["bob@example.com"; "eve@example.com"] t.
Definition other (t : Z) : query := ask "2001:db8::1" "ann@example.net" ["bob@example.com"] t.
Definition bounce (t : Z) : query := ask "192.0.2.1" "" ["bob@example.com"] t.
Definition trusted (t : Z) : query := ask "192.0.2.9" "joe@example.org" ["bob@example.com"] t.
Definition ys : list query :=
  [other 0; joe 10; joe 20; trusted 30; bounce 40; other 50; joe 200; joe 210; bounce 250; joe 90000].

Lemma ys_ordered : ordered 3000000 ys.
Proof. simpl. lia. Qed.
Lemma ys_valid : Forall (valid scan_xlong) ys.
Proof.
  repeat (apply Forall_cons; split; [unfold valid, nonzero; split_and!; apply (bool_decide_eq_true_1 _); by vm_compute|]).
  by apply Forall_nil.
Qed.
Lemma ys_not_due : never_due (cf 1) ys [].
Proof. cbn [never_due ys]. split_and!; by vm_compute. Qed.


Lemma accepted_after_delay_witness : ∃ y0, y0 ∈ take 6 ys ∧ same_mail y0 (joe 200) ∧ (y_then y0 + 120 ≤ 3000200)%Z.
Proof.
  destruct (accepted_after_delay scan_xlong hcreate [] (cf 1) hcreate_room (cf_sane 1 ltac:(lia)) 3000000 ys ltac:(simpl; lia)
    ys_ordered ys_valid ys_not_due ltac:(by vm_compute) 6 (joe 200) [3%Z]) as [H|(y0 & H1 & H2 & _ & H3)]; [done|by vm_compute|done|].
  exists y0. split; [exact H1|]. split; [exact H2|exact H3].
Defined.

Definition zs : list query := [other 0; joe 10; bounce 40; other 50; trusted 60; joe 200].
Lemma zs_valid : Forall (valid scan_xlong) zs.
Proof.
  repeat (apply Forall_cons; split; [unfold valid, nonzero; split_and!; apply (bool_decide_eq_true_1 _); by vm_compute|]).
  by apply Forall_nil.
Qed.

(** When the first record has expired and the time has come, the daemon crashes. *)
Lemma expiry_crashes :
  (serve_all scan_xlong hcreate None [] (cf 2) (map datagram_of [joe 0; other (2592000 + 300)]) greyd0).1 = inl (-1)%Z.
Proof. by vm_compute. Qed.
(** So it does for an empty datagram. *)
Lemma empty_datagram_crashes t t' : (serve scan_xlong hcreate None [] (cf 2) (Datagram [] t t') greyd0).1 = inl (-1)%Z.
Proof. done. Qed.
(** What [malloc] leaves in a record is followed when the table is made again. *)
Lemma stale_next_followed :
  (serve_all scan_xlong hcreate (Some 99) [] (cf 1) (map datagram_of [joe 0; other 10]) greyd0).1 = inl (-1)%Z.
Proof. by vm_compute. Qed.
(** An address that succeeded is asked to wait again for other mail. *)
Lemma success_forgotten :
  sent (serve_all scan_xlong hcreate None [] (cf 2) (map datagram_of
    [joe 0; joe 200; ask "192.0.2.1" "ann@example.org" ["bob@example.com"] 300]) greyd0).2 = [[0; 1]; [1; 3]; [0; 1]]%Z.
Proof. by vm_compute. Qed.
(** One recipient that was seen is not enough. *)
Lemma one_triplet_deferred :
  sent (serve_all scan_xlong hcreate None [] (cf 2) (map datagram_of
    [joe 0; ask "192.0.2.1" "joe@example.org" ["bob@example.com"] 200]) greyd0).2 = [[0; 1]; [0; 1]]%Z.
Proof. by vm_compute. Qed.
(** The entry of an empty sender is not removed when the mail goes through, and lets
    the next one through after the delay. *)
Lemma null_sender_kept :
  sent (serve_all scan_xlong hcreate None [] (cf 2) (map datagram_of
    [bounce 0; bounce 200; bounce 400]) greyd0).2 = [[0; 1]; [1; 4]; [1; 4]]%Z.
Proof. by vm_compute. Qed.
(** The sender is compared up to the length of the one that asks: an empty one is the
    retry of any other. *)
Lemma start_of_sender :
  sent (serve_all scan_xlong hcreate None [] (cf 2)
    (map datagram_of [ask "192.0.2.1" "joe@example.org" ["bob@example.com"] 0; bounce 200]) greyd0).2 = [[0; 1]; [1; 4]]%Z.
Proof. by vm_compute. Qed.
End GreydRun.
