(* ===== verification/Local.v ===== *)
(** * Local delivery: [qmail-local.c] and [maildir_deliver.c]

    qmail-local delivers a message to one recipient: it looks for the .qmail file of
    the address, follows its lines, and forwards the message at the end.

    The message is a file of which each delivery reads all; a read may fail.  A
    maildir delivery is made by a child, and so is a program run.  What the .qmail
    files are, how programs end and what qmail-queue makes of a message are inputs,
    and so are the texts for the terminal; the environment of programs and messages
    on errors are not kept, and memory allocation succeeds. *)

From S2P Require Import Prelude LibQmail Filesys Quote Control QmailQueue Qmail.

(** What the next try to lock a mailbox comes to: the lock, none, or the alarm. *)
Inductive locking := Locked | NotLocked | SlowLock.

(** What may come to the child of a maildir delivery before a call. *)
Inductive kill := Alarm | Crash.

Record qlocal := QLocal {
  lw : world  (* names are relative to the home directory *);
  kills : list (option kill);
  errnos : list bool  (* whether the next errors are [error_dquot] or temporary *);
  locks : list locking;
  times : list (Z * Z)  (* what [gettimeofday] yields next *);
  ends : list wstat  (* how the next programs end *);
  filters : list (Z * option bytes)  (* what [filterit_sub2] does next to QQEH *);
  disk : gmap nat bytes  (* what [fsync] has put on the disk *);
  qqeh : bytes;
  flag99 : bool;
  programs : list bytes  (* that were run *);
  forwarded : option qmail  (* the message that was forwarded *);
  said : bytes;
  count_file : Z; count_forward : Z; count_program : Z
}.

Definition set_lw v s := QLocal v (kills s) (errnos s) (locks s) (times s) (ends s) (filters s)
  (disk s) (qqeh s) (flag99 s) (programs s) (forwarded s) (said s) (count_file s) (count_forward s) (count_program s).
Definition set_kills v s := QLocal (lw s) v (errnos s) (locks s) (times s) (ends s) (filters s)
  (disk s) (qqeh s) (flag99 s) (programs s) (forwarded s) (said s) (count_file s) (count_forward s) (count_program s).
Definition set_errnos v s := QLocal (lw s) (kills s) v (locks s) (times s) (ends s) (filters s)
  (disk s) (qqeh s) (flag99 s) (programs s) (forwarded s) (said s) (count_file s) (count_forward s) (count_program s).
Definition set_locks v s := QLocal (lw s) (kills s) (errnos s) v (times s) (ends s) (filters s)
  (disk s) (qqeh s) (flag99 s) (programs s) (forwarded s) (said s) (count_file s) (count_forward s) (count_program s).
Definition set_times v s := QLocal (lw s) (kills s) (errnos s) (locks s) v (ends s) (filters s)
  (disk s) (qqeh s) (flag99 s) (programs s) (forwarded s) (said s) (count_file s) (count_forward s) (count_program s).
Definition set_ends v s := QLocal (lw s) (kills s) (errnos s) (locks s) (times s) v (filters s)
  (disk s) (qqeh s) (flag99 s) (programs s) (forwarded s) (said s) (count_file s) (count_forward s) (count_program s).
Definition set_filters v s := QLocal (lw s) (kills s) (errnos s) (locks s) (times s) (ends s) v
  (disk s) (qqeh s) (flag99 s) (programs s) (forwarded s) (said s) (count_file s) (count_forward s) (count_program s).
Definition set_disk v s := QLocal (lw s) (kills s) (errnos s) (locks s) (times s) (ends s) (filters s)
  v (qqeh s) (flag99 s) (programs s) (forwarded s) (said s) (count_file s) (count_forward s) (count_program s).
Definition set_qqeh v s := QLocal (lw s) (kills s) (errnos s) (locks s) (times s) (ends s) (filters s)
  (disk s) v (flag99 s) (programs s) (forwarded s) (said s) (count_file s) (count_forward s) (count_program s).
Definition set_flag99 v s := QLocal (lw s) (kills s) (errnos s) (locks s) (times s) (ends s) (filters s)
  (disk s) (qqeh s) v (programs s) (forwarded s) (said s) (count_file s) (count_forward s) (count_program s).
Definition set_programs v s := QLocal (lw s) (kills s) (errnos s) (locks s) (times s) (ends s) (filters s)
  (disk s) (qqeh s) (flag99 s) v (forwarded s) (said s) (count_file s) (count_forward s) (count_program s).
Definition set_forwarded v s := QLocal (lw s) (kills s) (errnos s) (locks s) (times s) (ends s) (filters s)
  (disk s) (qqeh s) (flag99 s) (programs s) v (said s) (count_file s) (count_forward s) (count_program s).
Definition set_said v s := QLocal (lw s) (kills s) (errnos s) (locks s) (times s) (ends s) (filters s)
  (disk s) (qqeh s) (flag99 s) (programs s) (forwarded s) v (count_file s) (count_forward s) (count_program s).
Definition set_counts f w p s := QLocal (lw s) (kills s) (errnos s) (locks s) (times s) (ends s) (filters s)
  (disk s) (qqeh s) (flag99 s) (programs s) (forwarded s) (said s) f w p.

Notation "'LM' A" := (ST qlocal (Z + A)) (at level 10, A at next level, only parsing) : mta_scope.
Definition alter_l (f : qlocal → qlocal) : LM unit := modify f;; ok tt.
Definition exit {A} (e : Z) : LM A := mret (inl e).

(** A call on the file system, and one that ends the process when it fails. *)
Definition lsys {A} (m : ST world A) : LM A :=
  λ s, let '(a, w) := m (lw s) in (inr a, set_lw w s).
Definition lcall {A} (m : ST world (errno + A)) (e : Z) : LM A :=
  r ←? lsys m; match r with inl _ => exit e | inr a => ok a end.

(** Whether the error is of the kind asked for. *)
Definition pop_errno : LM bool :=
  s ← getS; alter_l (set_errnos (tail (errnos s)));;? ok (default false (head (errnos s))).

(** [fsync] or [fdatasync]. *)
Definition lsync (i : nat) : ST qlocal (Z + (errno + unit)) :=
  r ←? lsys (syscall (mret (inr tt)));
  (match r with
   | inr _ => alter_l (λ s, set_disk (<[i := file_data (lw s) i]> (disk s)) s)
   | inl _ => ok tt
   end);;?
  ok r.

(** [ftruncate] to a length. *)
Definition seek_trunc_to (i pos : nat) : ST world (errno + unit) :=
  syscall (n ← read_inode i;
           _ ← modify (λ w, set_inodes (<[i := Inode (take pos (i_data n)) (clock w) (i_atime n)]> (inodes w)) w);
           mret (inr tt)).

(** [gfrom]. *)
Fixpoint gfrom (s : bytes) : bool :=
  match s with
  | c :: r => if decide (c = c_gt) then gfrom r else bool_decide (take 5 s = lit "From ")
  | [] => false
  end.

(** The arguments, the rest of the environment, and the outside. *)
Inductive dotfile := NoFile | Unreadable | Other | Regular (mode : Z) (contents : option bytes).

Record local_conf := LocalConf {
  flagdoit : bool;
  local : bytes; dash : bytes; ext : bytes; host : bytes; sender : bytes; aliasempty : bytes;
  use_fsync : bool; use_fdatasync : bool;
  lpid : Z; host_a : bytes;         (* [gethostname] *)
  device : Z; inode_no : nat → Z;   (* [st_dev], [st_ino] *)
  qtime : bytes;                    (* of the start time *)
  home_mode : option Z;             (* [stat] of the home directory *)
  accepted_domains : option (list bytes);  (* localdomains, when it is in use *)
  maxdeliveredto : option Z;        (* [control_readint]; [None] when it fails *)
  dotqmail : bytes → dotfile;
  stat_qmail : bytes → option bool; (* whether it is there; [None] on a temporary error *)
  srsforward : bytes → Z * bytes;
  queue_open : option (list bool);  (* [qmail_open] *)
  queue_end : bytes → bytes → child;
  forward_qp : Z                    (* [qmail_qp] *)
}.

Section Local.
Context {L : LibQmail} (cf : local_conf) (message : list bytes).  (* what reads return *)
Context (fmt_xlong : Z → bytes) (case_lower : bytes → bytes).

Definition text : bytes := mjoin message.

(** ** The fields in front *)

Definition no_lf (s : bytes) : bytes := map (λ c, if decide (c = c_lf) then 95%Z else c) s.
Definition envrecip : bytes := local cf ++ lit "@" ++ host cf.
Definition dtline : bytes := no_lf (lit "Delivered-To: " ++ envrecip) ++ [c_lf].
Definition rpline_of (quoted : bytes) : bytes := no_lf (lit "Return-Path: <" ++ quoted) ++ lit ">" ++ [c_lf].
Definition ufline : bytes :=
  lit "From " ++
  (if decide (sender cf = []) then lit "MAILER-DAEMON "
   else map (λ c, if decide (c = c_space ∨ c = 9%Z ∨ c = c_lf) then c_minus else c) (sender cf)) ++
  qtime cf.

(** ** A maildir *)

(** A call of the child, at which it may be killed.  [tmp] is the file it is to
    remove then, once the alarm is set. *)
Definition mcall {A} (tmp : option bytes) (m : ST world A) : LM A :=
  s ← getS;
  alter_l (set_kills (tail (kills s)));;?
  match head (kills s), tmp with
  | Some (Some Crash), _ => exit 256   (* no exit code *)
  | Some (Some Alarm), Some p => lsys (unlink p);;? exit 3
  | _, _ => lsys m
  end.

Definition gettimeofday : LM (Z * Z) :=
  s ← getS; alter_l (set_times (tail (times s)));;? ok (default (0, 0)%Z (head (times s))).

Definition hostname : bytes :=
  mjoin (map (λ c, if decide (c = c_slash) then lit "057" else if decide (c = c_colon) then lit "072" else [c])
    (host_a cf)).
Definition fntmptph (t : Z * Z) : bytes :=
  lit "tmp/" ++ fmt_ulong (fst t) ++ lit ".M" ++ fmt_ulong (snd t) ++ lit "P" ++ fmt_ulong (lpid cf) ++
  lit "." ++ hostname.
Definition fnnewtph (t : Z * Z) (fd size : nat) : bytes :=
  lit "new/" ++ fmt_ulong (fst t) ++ lit ".I" ++ fmt_xlong (inode_no cf fd) ++ lit "V" ++ fmt_xlong (device cf) ++
  lit "M" ++ fmt_ulong (snd t) ++ lit "P" ++ fmt_ulong (lpid cf) ++ lit "." ++ hostname ++
  lit ",S=" ++ fmt_ulong (Z.of_nat size).

(** The loop over names in tmp, of which there are [n] more to try. *)
Fixpoint tmp_loop (dir : bytes) (n : nat) : LM (nat * (Z * Z)) :=
  t ←? gettimeofday;
  r ←? mcall None (open_excl (dir ++ fntmptph t));
  match r with
  | inr fd => ok (fd, t)
  | inl EEXIST => match n with 0 => exit 1 | S n => tmp_loop dir n end
  | inl _ => q ←? pop_errno; if q : bool then exit 5 else exit 1
  end.

(** [goto fail]. *)
Definition mfail {A} (tmp : bytes) : LM A :=
  q ←? pop_errno; mcall (Some tmp) (unlink tmp);;? if q : bool then exit 5 else exit 1.
Definition mtry {A} (tmp : bytes) (m : ST world (errno + A)) : LM A :=
  r ←? mcall (Some tmp) m; match r with inl _ => mfail tmp | inr a => ok a end.

(** [substdio_copy]. *)
Fixpoint mcopy (tmp : bytes) (fd : nat) (l : list bytes) : LM unit :=
  bad ←? mcall (Some tmp) fault;
  if bad : bool then mcall (Some tmp) (unlink tmp);;? exit 4
  else match l with
       | [] => ok tt
       | c :: l => mtry tmp (append fd c);;? mcopy tmp fd l
       end.

(** The result is the exit code of the child. *)
Definition maildir_deliver (dir rpline : bytes) : LM unit :=
  r ←? mcall None (syscall (mret (inr tt)));   (* chdir *)
  match r with
  | inl _ => t ←? pop_errno; if t : bool then exit 1 else exit 2
  | inr _ =>
    o ←? tmp_loop dir 2;
    let '(fd, t) := o in
    let tmp := dir ++ fntmptph t in
    s ← getS;
    mtry tmp (append fd rpline);;? mtry tmp (append fd dtline);;? mtry tmp (append fd (qqeh s));;?
    mcopy tmp fd message;;?
    (if use_fsync cf || use_fdatasync cf then
       mcall (Some tmp) (mret tt);;? r ←? lsync fd; match r with inl _ => mfail tmp | inr _ => ok tt end
     else ok tt);;?
    st ←? mtry tmp (fstat fd);
    mtry tmp (syscall (mret (inr tt)));;?   (* close *)
    mtry tmp (link tmp (dir ++ fnnewtph t fd (length (i_data st))));;?
    mcall (Some tmp) (unlink tmp);;? exit 0
  end.

Definition rewind : LM unit := lcall seek 111.

Definition maildir (dir rpline : bytes) : LM unit :=
  rewind;;?
  bad ←? lsys fault;   (* fork *)
  if bad : bool then exit 111
  else
    r ← maildir_deliver dir rpline;
    match r with
    | inl 0%Z => ok tt
    | inl 5%Z => exit 100
    | _ => exit 111
    end.

(** ** A mailbox *)

(** [writeerrs] and the error of [getln]: the file is cut when it is locked. *)
Definition cut (fd pos : nat) (flaglocked : bool) : LM unit :=
  if flaglocked then lsys (seek_trunc_to fd pos);;? ok tt else ok tt.
Definition writeerrs {A} (fd pos : nat) (flaglocked : bool) : LM A :=
  q ←? pop_errno; cut fd pos flaglocked;;? if q : bool then exit 100 else exit 111.
Definition bput (fd pos : nat) (flaglocked : bool) (d : bytes) : LM unit :=
  r ←? lsys (append fd d); match r with inl _ => writeerrs fd pos flaglocked | inr _ => ok tt end.

(** The loop over the lines of the message. *)
Fixpoint mbox_lines (fuel : nat) (fd pos : nat) (flaglocked : bool) (rest : bytes) : LM unit :=
  match fuel with
  | 0 => ok tt
  | S fuel =>
    bad ←? lsys fault;
    if bad : bool then cut fd pos flaglocked;;? exit 111
    else
      let '(line, found) := line_by c_lf rest in
      if negb found && bool_decide (line = []) then ok tt
      else
        (if gfrom line then bput fd pos flaglocked [c_gt] else ok tt);;?
        bput fd pos flaglocked line;;?
        if found : bool then mbox_lines fuel fd pos flaglocked (drop (length line) rest)
        else bput fd pos flaglocked [c_lf]
  end.

Definition mailfile (fn rpline : bytes) : LM unit :=
  rewind;;?
  fd ←? lcall (open_append fn) 111;
  s ← getS;
  alter_l (set_locks (tail (locks s)));;?
  flaglocked ←? (match default Locked (head (locks s)) with
                 | Locked => ok true | NotLocked => ok false | SlowLock => exit 111 end);
  s ← getS;
  let pos := length (file_data (lw s) fd) in
  bput fd pos flaglocked ufline;;? bput fd pos flaglocked rpline;;?
  bput fd pos flaglocked dtline;;? bput fd pos flaglocked (qqeh s);;?
  mbox_lines (S (length text)) fd pos flaglocked text;;?
  bput fd pos flaglocked [c_lf];;?
  (if use_fsync cf || use_fdatasync cf then
     r ←? lsync fd; match r with inl _ => writeerrs fd pos flaglocked | inr _ => ok tt end
   else ok tt).

(** ** Programs *)

Definition permanent_exit (e : Z) : bool := bool_decide (e ∈ [100; 64; 65; 70; 76; 77; 78; 112]%Z).

Definition mailprogram (prog : bytes) : LM unit :=
  rewind;;?
  bad ←? lsys fault;   (* fork *)
  if bad : bool then exit 111
  else
    s ← getS;
    alter_l (set_ends (tail (ends s)));;?
    alter_l (λ s, set_programs (programs s ++ [prog]) s);;?
    match default (Exited 0) (head (ends s)) with
    | Crashed => exit 111
    | Exited e =>
      if permanent_exit e then exit 100
      else if decide (e = 0%Z) then ok tt
      else if decide (e = 99%Z) then alter_l (set_flag99 true)
      else exit 111
    end.

Definition filterit (cmd : bytes) : LM unit :=
  s ← getS;
  alter_l (set_filters (tail (filters s)));;?
  alter_l (λ s, set_programs (programs s ++ [cmd]) s);;?
  let '(r, x) := default (0%Z, None) (head (filters s)) in
  if decide (r = 0%Z) then match x with Some x => alter_l (set_qqeh x) | None => ok tt end
  else if decide (r = 100%Z) then exit 100
  else if decide (r = 99%Z) then alter_l (set_flag99 true)
  else exit 111.
End Local.
