(* ===== verification/LocalMain.v ===== *)
(** * Following a .qmail file: [main] of [qmail-local.c]

    The .qmail file is found, its contents are an array of bytes in which line ends
    become zero bytes as the loop goes along, and each line is acted on.  Forwarding
    comes last. *)

From S2P Require Import Prelude LibQmail Filesys Quote Control QmailQueue Qmail Local.

Section LocalMain.
Context {L : LibQmail} (cf : local_conf) (message : list bytes).
Context (fmt_xlong : Z → bytes) (case_lower : bytes → bytes).

(** ** Forwarding *)

(** The fields in front, in the order in which they are written. *)
Definition forward_fields (recips : list bytes) (ueo qqeh : bytes) : list bytes :=
  dtline cf :: map (λ a, lit "X-Forwarded-To: " ++ a ++ [c_lf]) recips ++
  [lit "X-Forwarded-For: " ++ ueo ++ [c_lf]; qqeh].

(** The loop over the lines of the message. *)
Fixpoint forward_lines (fuel : nat) (q : qmail) (rest : bytes) : LM qmail :=
  match fuel with
  | 0 => ok q
  | S fuel =>
    bad ←? lsys fault;
    if bad : bool then ok (qmail_fail q)
    else
      let '(line, found) := line_by c_lf rest in
      let q := qmail_put line q in
      if found : bool then forward_lines fuel q (drop (length line) rest) else ok q
  end.

Definition mailforward (recips : list bytes) (ueo : bytes) : LM unit :=
  rewind;;?
  match queue_open cf with
  | None => exit 111
  | Some pipes =>
    s ← getS;
    q ←? forward_lines (S (length (text message)))
           (foldl (λ q t, qmail_put t q) (qmail_start pipes) (forward_fields recips ueo (qqeh s))) (text message);
    ueo ←? (let '(r, a) := srsforward cf ueo in
            if decide (r < 0)%Z then exit 111 else ok (if decide (r = 1)%Z then a else ueo));
    let q := foldl (λ q a, qmail_to a q) (qmail_from ueo q) recips in
    alter_l (set_forwarded (Some (qmail_put [0%Z] q)));;?
    let done := qmail_put [0%Z] q in
    let qqx := qmail_close (queue_end cf (to_mess done) (to_env done)) q in
    if decide (qqx = []) then ok tt
    else if decide (head qqx = Some 68%Z) then exit 100 else exit 111
  end.

(** ** Before the deliveries *)

(** The loop of [bouncexf] over the header. *)
Fixpoint bouncexf_lines (fuel : nat) (limit found : Z) (rest : bytes) : LM unit :=
  match fuel with
  | 0 => ok tt
  | S fuel =>
    bad ←? lsys fault;
    if bad : bool then exit 111
    else
      let '(line, match_) := line_by c_lf rest in
      if negb match_ || bool_decide (length line ≤ 1) then ok tt
      else
        let found := if decide (line = dtline cf) then (found + 1)%Z else found in
        if decide (-1 < limit ∧ limit < found)%Z then exit 100
        else bouncexf_lines fuel limit found (drop (length line) rest)
  end.
Definition bouncexf : LM unit :=
  rewind;;?
  match maxdeliveredto cf with
  | None => exit 111
  | Some limit => bouncexf_lines (S (length (text message))) limit 0 (text message)
  end.

Definition auto_patrn : Z := 2.

Definition checkhome : LM unit :=
  lcall (syscall (mret (inr tt))) 111;;?   (* chdir *)
  match home_mode cf with
  | None => exit 111
  | Some mode =>
    if decide (Z.land mode auto_patrn ≠ 0)%Z then exit 111
    else if bool_decide (Z.land mode 512 ≠ 0)%Z && flagdoit cf then exit 111
    else
      match accepted_domains cf with
      | Some ds =>
        let j := byte_rchr (sender cf) c_at in
        if decide (j + 1 < length (sender cf)) then
          if decide (case_lower (drop (j + 1) (sender cf)) ∈ map case_lower ds) then ok tt else exit 100
        else ok tt
      | None => ok tt
      end
  end.

(** ** Finding the .qmail file *)

Definition safeext : bytes := map (λ c, if decide (c = c_dot) then c_colon else c) (case_lower (ext cf)).
Definition qme (middle : bytes) (suffix : string) : bytes :=
  lit ".qmail" ++ dash cf ++ middle ++ lit suffix.

Definition qmeox (dashowner : string) : LM bool :=
  match stat_qmail cf (qme safeext dashowner) with None => exit 111 | Some b => ok b end.

(** The contents, and whether the file is executable. *)
Definition qmeexists (name : bytes) : LM (option (option bytes * bool)) :=
  match dotqmail cf name with
  | NoFile | Other => ok None
  | Unreadable => exit 111
  | Regular mode contents =>
    if decide (Z.land mode auto_patrn ≠ 0)%Z then exit 111
    else ok (Some (contents, bool_decide (Z.land mode 64 ≠ 0)%Z))
  end.

(** The loop over the places [i] where a default may start; the result has the value
    of DEFAULT. *)
Fixpoint default_loop (i : nat) : LM (option (option bytes * bool * option bytes)) :=
  let try_next := match i with 0 => ok None | S i => default_loop i end in
  if bool_decide (i = 0) || bool_decide (safeext !! (i - 1) = Some c_minus) then
    r ←? qmeexists (qme (take i safeext) "default");
    match r with
    | Some (contents, x) =>
      ok (Some (contents, x, if decide (i ≤ length (ext cf)) then Some (drop i (ext cf)) else None))
    | None => try_next
    end
  else try_next.

Definition qmesearch : LM (option (option bytes * bool * option bytes)) :=
  r ←? qmeexists (qme safeext "");
  match r with
  | Some (contents, x) =>
    let i := length safeext - 7 in
    ok (Some (contents, x,
      if bool_decide (7 ≤ length safeext) && bool_decide (drop i safeext = lit "default") &&
         bool_decide (i ≤ length (ext cf))
      then Some (drop i (ext cf)) else None))
  | None => default_loop (length safeext)
  end.

(** The envelope sender of what is forwarded. *)
Definition new_sender : LM bytes :=
  if decide (sender cf = [] ∨ sender cf = lit "#@[]") then ok (sender cf)
  else
    owner ←? qmeox "-owner";
    if owner : bool then
      verp ←? qmeox "-owner-default";
      ok (if verp : bool then local cf ++ lit "-owner-@" ++ host cf ++ lit "-@[]"
          else local cf ++ lit "-owner@" ++ host cf)
    else ok (sender cf).

(** ** The lines *)

Definition blank (c : Z) : bool := bool_decide (c = c_space ∨ c = 9%Z).

(** The loop that counts forwards, with [i] the start of a line and [j] the place
    reached. *)
Fixpoint count_loop (fuel : nat) (cmds : bytes) (i j n : nat) : nat :=
  match fuel with
  | 0 => n
  | S fuel =>
    if decide (length cmds ≤ j) then n
    else if decide (cmds !!! j = c_lf) then
      count_loop fuel cmds (j + 1) (j + 1)
        (if bool_decide (cmds !!! i ∈ [37; 35; 46; 47; 124]%Z) then n else S n)
    else count_loop fuel cmds i (j + 1) n
  end.

(** White space at the end of a line becomes zero bytes. *)
Fixpoint trim (fuel i k : nat) (cmds : bytes) : nat * bytes :=
  match fuel with
  | 0 => (k, cmds)
  | S fuel =>
    if bool_decide (i < k) && blank (cmds !!! (k - 1)) then trim fuel i (k - 1) (<[k - 1 := 0%Z]> cmds)
    else (k, cmds)
  end.

(** The first place from [j] on, short of [n], with a byte that [p] accepts. *)
Fixpoint seek_from (p : Z → bool) (fuel : nat) (n : nat) (cmds : bytes) (j : nat) : nat :=
  match fuel with
  | 0 => j
  | S fuel => if bool_decide (j < n) && negb (p (cmds !!! j)) then seek_from p fuel n cmds (j + 1) else j
  end.

(** The loop that looks for the line with the label at [i]. *)
Fixpoint goto_label (fuel : nat) (cmds : bytes) (i j : nat) : nat :=
  match fuel with
  | 0 => j
  | S fuel =>
    let len := length cmds in
    if decide (j + 1 < len) then
      if bool_decide (cmds !!! j = c_lf) && bool_decide (cmds !!! (j + 1) = c_colon) then
        let l := j + 2 in
        let e := seek_from (λ c, bool_decide (c = 0 ∨ c = c_lf)%Z || blank c) len len cmds l in
        if decide (take (e - l) (drop i cmds) = take (e - l) (drop l cmds))
        then seek_from (λ c, bool_decide (c = c_lf)) len len cmds e
        else goto_label fuel cmds i e
      else goto_label fuel cmds i (j + 1)
    else j
  end.

(** [skip] blanks. *)
Fixpoint skip_blanks (s : bytes) : bytes :=
  match s with c :: r => if blank c then skip_blanks r else s | [] => [] end.

Definition sayit (type : string) (cmd : bytes) : LM unit :=
  alter_l (λ s, set_said (said s ++ lit type ++ cmd ++ [c_lf]) s).
Definition run_program (flagforwardonly : bool) (cmd : bytes) (run : LM unit) : LM unit :=
  alter_l (λ s, set_counts (count_file s) (count_forward s) (count_program s + 1) s);;?
  if flagforwardonly then exit 111
  else if flagdoit cf then run else sayit "program " cmd.

(** The place, the array, [flagforwardonly] and the forwards after a line from [i] to
    [j], of which [k] is the end without white space. *)
Record place := Place { pl_j : nat; pl_cmds : bytes; pl_only : bool; pl_recips : list nat }.

Definition do_branch (i j k : nat) (cmds : bytes) (only : bool) (recips : list nat) : LM place :=
  let l := seek_from blank (length cmds) k cmds i in
  t ←? (if decide (l < k) then
          let cmds := <[l := 0%Z]> cmds in
          let l := seek_from (λ c, negb (blank c)) (length cmds) k cmds (l + 1) in
          (if decide (l < k) then
             run_program only (take (k - l) (drop l cmds)) (mailprogram (cstr (drop l cmds)))
           else ok tt);;?
          ok (l, cmds)
        else ok (l, cmds));
  let '(l, cmds) := t in
  s ← getS;
  if bool_decide (l = k) || flag99 s then
    alter_l (set_flag99 false);;?
    let cmds := <[j := c_lf]> cmds in
    ok (Place (goto_label (length cmds) cmds i j) cmds only recips)
  else ok (Place j cmds only recips).

Definition do_line (rpline : bytes) (i j k : nat) (cmds : bytes) (only : bool) (recips : list nat) : LM place :=
  let stay := Place j cmds only recips in
  let word := take (k - i) (drop i cmds) in
  match cmds !!! i with
  | 0%Z => if decide (i = 0) then exit 111 else ok stay
  | 37%Z (* % *) =>
    bad ←? lsys fault;   (* [envdir] *)
    if bad : bool then exit 111 else ok stay
  | 35%Z (* # *) | 58%Z (* : *) => ok stay
  | 46%Z (* . *) | 47%Z (* / *) =>
    alter_l (λ s, set_counts (count_file s + 1) (count_forward s) (count_program s) s);;?
    (if only then exit 111
     else if decide (cmds !!! (k - 1) = c_slash) then
       if flagdoit cf then maildir cf message fmt_xlong (cstr (drop i cmds)) rpline else sayit "maildir " word
     else
       if flagdoit cf then mailfile cf message (cstr (drop i cmds)) rpline else sayit "mbox " word);;?
    ok stay
  | 124%Z (* | *) =>
    let prog := cstr (drop (i + 1) cmds) in
    let x := skip_blanks prog in
    run_program only (tail word)
      (if decide (take 9 x = lit "filterit ") then filterit x else mailprogram prog);;?
    ok stay
  | 63%Z (* ? *) => do_branch (i + 1) j k cmds only recips
  | 43%Z (* + *) => ok (Place j cmds (only || bool_decide (cstr (drop (i + 1) cmds) = lit "list")) recips)
  | c =>
    let i := if decide (c = 38%Z (* & *)) then i + 1 else i in
    alter_l (λ s, set_counts (count_file s) (count_forward s + 1) (count_program s) s);;?
    if flagdoit cf then ok (Place j cmds only (recips ++ [i]))
    else sayit "forward " (take (k - i) (drop i cmds));;? ok stay
  end.

(** The loop over the lines. *)
Fixpoint line_loop (fuel : nat) (rpline : bytes) (i j : nat) (cmds : bytes) (only : bool) (recips : list nat)
    : LM (bytes * list nat) :=
  match fuel with
  | 0 => ok (cmds, recips)
  | S fuel =>
    if decide (length cmds ≤ j) then ok (cmds, recips)
    else if decide (cmds !!! j = c_lf) then
      let '(k, cmds) := trim (length cmds) i j (<[j := 0%Z]> cmds) in
      p ←? do_line rpline i j k cmds only recips;
      s ← getS;
      if flag99 s then ok (pl_cmds p, pl_recips p)
      else line_loop fuel rpline (pl_j p + 1) (pl_j p + 1) (pl_cmds p) (pl_only p) (pl_recips p)
    else line_loop fuel rpline i (j + 1) cmds only recips
  end.

Definition count_print : LM unit :=
  alter_l (λ s, set_said (said s ++ lit "did " ++ fmt_ulong (count_file s) ++ lit "+" ++
    fmt_ulong (count_forward s) ++ lit "+" ++ fmt_ulong (count_program s) ++ [c_lf] ++
    match forwarded s with
    | Some _ => if decide (forward_qp cf = 0%Z) then [] else lit "qp " ++ fmt_ulong (forward_qp cf) ++ [c_lf]
    | None => []
    end) s).

(** From the arguments on.  [numforward] is the size of the array of forwards. *)
Definition local_main : LM unit :=
  checkhome;;?
  (if flagdoit cf then bouncexf else ok tt);;?
  match quote2 (sender cf) with
  | None => exit 111
  | Some quoted =>
    let rpline := rpline_of quoted in
    f ←? qmesearch;
    match f with
    | None => if decide (dash cf = []) then ok tt else exit 100
    | Some _ => ok tt
    end;;?
    ueo ←? new_sender;
    c ←? (match f with
          | None => ok ([], false)
          | Some (None, _, _) => exit 111   (* [slurpclose] *)
          | Some (Some contents, x, _) => ok (contents, x)
          end);
    let '(contents, x) := c in
    let '(cmds, only) := if decide (contents = []) then (aliasempty cf, false) else (contents, x) in
    let cmds := if decide (last cmds = Some c_lf) then cmds else cmds ++ [c_lf] in
    alter_l (set_flag99 false);;?
    r ←? line_loop (S (length cmds)) rpline 0 0 cmds only [];
    let '(cmds, recips) := r in
    (if decide (recips = []) then ok tt
     else if flagdoit cf then mailforward (map (λ p, cstr (drop p cmds)) recips) ueo else ok tt);;?
    count_print;;? exit 0
  end.
End LocalMain.
