(* ===== verification/LocalMailbox.v ===== *)
(** * Deliveries to a mailbox

    What [mailfile] appends is an entry of the mailbox, all of it or, when the file
    is locked, nothing; and the entries of a mailbox are read back as the messages
    they were made of. *)

From S2P Require Import Prelude LibQmail Filesys Control QmailQueue Qmail SmtpdTheorems Local.

(** ** Lines *)

(** The lines of a text; the last one need not be ended. *)
Fixpoint lines_of (s : bytes) : list bytes :=
  match s with
  | [] => []
  | c :: s =>
    if decide (c = c_lf) then [] :: lines_of s
    else match lines_of s with [] => [[c]] | l :: ls => (c :: l) :: ls end
  end.

Lemma lines_of_line l s : c_lf ∉ l → lines_of (l ++ c_lf :: s) = l :: lines_of s.
Proof.
  induction l as [|c l IH]; intros Hl; [done|]; simpl.
  apply not_elem_of_cons in Hl as [? Hl]. by rewrite decide_False, IH.
Qed.
Lemma lines_of_last l : c_lf ∉ l → l ≠ [] → lines_of l = [l].
Proof.
  induction l as [|c l IH]; intros Hl Hn; [done|]. apply not_elem_of_cons in Hl as [? Hl].
  simpl. rewrite decide_False by done. destruct l; [done|]. by rewrite IH.
Qed.
Lemma lines_no_lf s : Forall (λ l, c_lf ∉ l) (lines_of s).
Proof.
  induction s as [|c s IH]; simpl; [done|]. case_decide; [constructor; [set_solver|done]|].
  destruct (lines_of s); inversion IH; subst; repeat constructor; set_solver.
Qed.
Lemma lines_of_unlines ls r : Forall (λ l, c_lf ∉ l) ls → lines_of (unlines ls ++ r) = ls ++ lines_of r.
Proof.
  induction 1 as [|l ls Hl _ IH]; [done|]. unfold unlines in *. simpl.
  rewrite <- !(assoc_L app). simpl. by rewrite lines_of_line, IH.
Qed.

(** What [getln] yields: a line and its end, what is left without one, or nothing. *)
Lemma line_cases s :
  (∃ l r, (c_lf ∉ l) ∧ s = l ++ c_lf :: r ∧ line_by c_lf s = (l ++ [c_lf], true) ∧ lines_of s = l :: lines_of r) ∨
  ((c_lf ∉ s) ∧ line_by c_lf s = (s, false) ∧ lines_of s = if decide (s = []) then [] else [s]).
Proof.
  destruct (decide (c_lf ∈ s)) as [(l & r & -> & Hl)%list_elem_of_split_l|Hs].
  - left. exists l, r. by rewrite line_by_app, lines_of_line.
  - right. rewrite line_by_none by done. case_decide; [by subst|]. by rewrite lines_of_last.
Qed.

Lemma unlines_app a b : unlines (a ++ b) = unlines a ++ unlines b.
Proof. unfold unlines. by rewrite map_app, join_app. Qed.

(** ** Entries *)

(** A line in a mailbox, and back. *)
Definition quote_from (l : bytes) : bytes := if gfrom l then c_gt :: l else l.
Definition unquote_from (l : bytes) : bytes :=
  match l with c :: r => if bool_decide (c = c_gt) && gfrom l then r else l | [] => [] end.
Definition is_from (l : bytes) : bool := bool_decide (take 5 l = lit "From ").

Lemma is_from_gfrom l : is_from l = true → gfrom l = true.
Proof.
  destruct l as [|c l]; [done|]. unfold is_from. intros Hf. cbn [gfrom].
  destruct (decide (c = c_gt)) as [->|]; [|done]. apply bool_decide_eq_true in Hf. discriminate Hf.
Qed.
Lemma quote_not_from l : is_from (quote_from l) = false.
Proof.
  unfold quote_from. destruct (gfrom l) eqn:E; [done|].
  destruct (is_from l) eqn:F; [|done]. apply is_from_gfrom in F. congruence.
Qed.
Lemma unquote_quote_from l : unquote_from (quote_from l) = l.
Proof.
  unfold quote_from. destruct (gfrom l) eqn:E; simpl; [by rewrite E|].
  destruct l as [|c l]; [done|]. simpl in *. by destruct (decide (c = c_gt)) as [->|];
    [rewrite bool_decide_true, E by done|rewrite bool_decide_false by done].
Qed.

Lemma take_line (t a : bytes) : c_lf ∉ t → take (length t) (a ++ [c_lf]) = t ↔ take (length t) a = t.
Proof.
  revert a. induction t as [|c t IH]; intros [|x a] Ht; simpl; [done..| |].
  - split; intros [= <-]. set_solver.
  - specialize (IH a ltac:(set_solver)). split; intros [= -> H]; f_equal; by apply IH.
Qed.
Lemma gfrom_line l : c_lf ∉ l → gfrom (l ++ [c_lf]) = gfrom l.
Proof.
  induction l as [|c l IH]; intros Hl; [done|]. cbn [app gfrom].
  destruct (decide (c = c_gt)); [apply IH; set_solver|].
  apply bool_decide_ext, (take_line (lit "From ") (c :: l)). by apply (bool_decide_unpack _).
Qed.

Definition mailbox_entry (cf : local_conf) (rpline qqeh text : bytes) : bytes :=
  ufline cf ++ rpline ++ dtline cf ++ qqeh ++ unlines (map quote_from (lines_of text)) ++ [c_lf].

(** ** Writing *)

(** The calls that are to fail. *)
Definition errors (w : world) : nat := length (filter (λ b, b = true) (faults w)).

Lemma wp_fault_errors (Q : bool → world → Prop) w :
  (∀ f, errors (set_faults f w) < errors w → Q true (set_faults f w)) →
  (∀ f, errors (set_faults f w) ≤ errors w → Q false (set_faults f w)) → wp fault Q w.
Proof.
  unfold wp, fault, errors. intros H1 H2. destruct (faults w) as [|[] f] eqn:E; simpl.
  - specialize (H2 [] ltac:(simpl; lia)). destruct w; simpl in *. by subst.
  - apply H1. rewrite filter_cons_True by done. simpl. lia.
  - apply H2. rewrite filter_cons_False by done. simpl. lia.
Qed.
Lemma wp_syscall_errors {A} (m : ST world (errno + A)) (Q : errno + A → world → Prop) w :
  (∀ f, errors (set_faults f w) < errors w → Q (inl EOTHER) (set_faults f w)) →
  (∀ f, errors (set_faults f w) ≤ errors w → wp m Q (set_faults f w)) →
  wp (syscall m) Q w.
Proof. intros H1 H2. apply wp_bind, wp_fault_errors; intros f Hf; [by apply wp_ret, H1|by apply H2]. Qed.

Lemma wp_lsys {A} (m : ST world A) (Q : Z + A → qlocal → Prop) s :
  wp m (λ a w, Q (inr a) (set_lw w s)) (lw s) → wp (lsys m) Q s.
Proof. unfold wp, lsys. by destruct (m (lw s)). Qed.
Lemma wp_alter (f : qlocal → qlocal) (Q : Z + unit → qlocal → Prop) s : Q (inr tt) (f s) → wp (alter_l f) Q s.
Proof. done. Qed.
Lemma wp_get {S A} (k : S → ST S A) (Q : A → S → Prop) s : wp (k s) Q s → wp (s ← getS; k s) Q s.
Proof. done. Qed.
Lemma wp_exit {A} e (Q : Z + A → qlocal → Prop) s : Q (inl e) s → wp (exit e) Q s.
Proof. done. Qed.
Lemma wp_pop_errno (Q : Z + bool → qlocal → Prop) s :
  (∀ b, Q (inr b) (set_errnos (tail (errnos s)) s)) → wp pop_errno Q s.
Proof. intros H. apply H. Qed.

Section writing.
Context {L : LibQmail} (cf : local_conf) (message : list bytes).
Context (locked : bool) (fd : nat) (N : gmap bytes nat) (I : gmap nat inode) (old entry q : bytes) (n : nat).

#[local] Abbreviation pos := (length old).

(** [d] was appended so far; and how a failure leaves the file. *)
Definition untouched (s : qlocal) : Prop :=
  names (lw s) = N ∧ ∀ i, i ≠ fd → inodes (lw s) !! i = I !! i.
Definition wrote (d : bytes) (s : qlocal) : Prop :=
  untouched s ∧ file_data (lw s) fd = old ++ d ∧ qqeh s = q ∧ errors (lw s) ≤ n.
Definition gave_up (s : qlocal) : Prop :=
  untouched s ∧ ∃ k, file_data (lw s) fd = old ++ take k entry ∧ (locked = true → n ≤ 1 → k = 0).
Definition failure_code (e : Z) : Prop := e = 100%Z ∨ e = 111%Z.

Lemma untouched_insert d w s :
  untouched s → inodes w = inodes (lw s) → names w = names (lw s) →
  untouched (set_lw (set_inodes (<[fd := d]> (inodes w)) w) s).
Proof. intros [H1 H2] E1 E2. split; simpl; [congruence|]. intros i Hi. rewrite lookup_insert_ne, E1 by done. auto. Qed.

Lemma wp_cut d s (Q : Z + unit → qlocal → Prop) :
  untouched s → file_data (lw s) fd = old ++ d → errors (lw s) < n → d `prefix_of` entry →
  (∀ s', gave_up s' → Q (inr tt) s') → wp (cut fd pos locked) Q s.
Proof.
  intros Hu Hd He [z Hz] HQ.
  assert (∀ s', untouched s' → file_data (lw s') fd = old ++ d → (locked = true → n ≤ 1 → False) → gave_up s')
    as Hleft.
  { intros s' Hu' Hd' Hn. split; [done|]. exists (length d). split; [|intros; exfalso; auto].
    by rewrite Hd', Hz, take_app_length. }
  unfold cut. destruct locked eqn:El; [|apply wp_ok, HQ, Hleft; done].
  apply wp_qbind, wp_lsys, wp_syscall_errors; intros f Hf.
  - apply wp_ok, HQ, Hleft; [done..|]. lia.
  - apply wp_ok, HQ. split; [by apply untouched_insert|]. exists 0. split; [|done].
    simpl. rewrite file_data_insert, decide_True by done. simpl.
    change (take pos (file_data (lw s) fd) = old ++ take 0 entry).
    by rewrite Hd, take_app_length, take_0, app_nil_r.
Qed.

Lemma wp_writeerrs {A} d s (Q : Z + A → qlocal → Prop) :
  untouched s → file_data (lw s) fd = old ++ d → errors (lw s) < n → d `prefix_of` entry →
  (∀ e s', failure_code e → gave_up s' → Q (inl e) s') → wp (writeerrs fd pos locked) Q s.
Proof.
  intros Hu Hd He Hp HQ. apply wp_qbind, wp_pop_errno. intros b.
  apply wp_qbind. eapply wp_cut; [done..|]. intros s' Hs. destruct b; apply wp_exit, HQ; unfold failure_code; auto.
Qed.

Lemma wp_bput d t s (Q : Z + unit → qlocal → Prop) :
  wrote d s → (d ++ t) `prefix_of` entry → (∀ e s', failure_code e → gave_up s' → Q (inl e) s') →
  (∀ s', wrote (d ++ t) s' → Q (inr tt) s') → wp (bput fd pos locked t) Q s.
Proof.
  intros (Hu & Hd & Hq & He) Hp H1 H2. apply wp_qbind, wp_lsys, wp_syscall_errors; intros f Hf.
  - eapply (wp_writeerrs d); [done..| | |exact H1]; [simpl in *; lia|].
    etrans; [|exact Hp]. by apply prefix_app_r.
  - apply wp_ok, H2. split; [by apply untouched_insert|]. simpl. split; [|split; [done|]].
    + rewrite file_data_insert, decide_True by done. simpl. change (file_data (lw s) fd ++ t = old ++ d ++ t).
      by rewrite Hd, (assoc_L app).
    + unfold errors in *. simpl in *. lia.
Qed.

(** The line as it is written, in one or two pieces. *)
Lemma wp_quoted {A} d l x y (k : LM A) s (Q : Z + A → qlocal → Prop) : y = l ++ x → c_lf ∉ l →
  wrote d s → (d ++ quote_from l ++ x) `prefix_of` entry → x = [] ∨ x = [c_lf] →
  (∀ e s', failure_code e → gave_up s' → Q (inl e) s') →
  (∀ s', wrote (d ++ quote_from l ++ x) s' → wp k Q s') →
  wp ((if gfrom y then bput fd pos locked [c_gt] else ok tt);;? bput fd pos locked y;;? k) Q s.
Proof.
  intros -> Hl Hs Hp Hx H1 H2.
  assert (gfrom (l ++ x) = gfrom l) as E.
  { destruct Hx as [-> | ->]; [by rewrite app_nil_r|by apply gfrom_line]. }
  rewrite E. unfold quote_from in *. destruct (gfrom l).
  - apply wp_qbind. eapply wp_bput; [done| |done|].
    { etrans; [|exact Hp]. apply prefix_app. by exists (l ++ x). }
    intros s1 Hs1. apply wp_qbind. eapply wp_bput; [done| |done|].
    { by rewrite <- (assoc_L app). }
    intros s2 Hs2. apply H2. by rewrite <- (assoc_L app) in Hs2.
  - apply wp_qbind, wp_ok, wp_qbind. eapply wp_bput; [done..|]. auto.
Qed.

Lemma wp_mbox_lines fuel d rest s (Q : Z + unit → qlocal → Prop) :
  length rest < fuel → wrote d s →
  (d ++ unlines (map quote_from (lines_of rest))) `prefix_of` entry →
  (∀ e s', failure_code e → gave_up s' → Q (inl e) s') →
  (∀ s', wrote (d ++ unlines (map quote_from (lines_of rest))) s' → Q (inr tt) s') →
  wp (mbox_lines fuel fd pos locked rest) Q s.
Proof.
  revert d rest s. induction fuel as [|fuel IH]; intros d rest s Hf Hs Hp H1 H2; [lia|].
  cbn [mbox_lines]. destruct Hs as (Hu & Hd & Hq & He).
  apply wp_qbind, wp_lsys, wp_fault_errors; intros f Hf'.
  { apply wp_qbind. eapply (wp_cut d); [done..| | |].
    - simpl in *. lia.
    - etrans; [|exact Hp]. by apply prefix_app_r.
    - intros s' Hs'. apply wp_exit, H1; [by right|done]. }
  assert (wrote d (set_lw (set_faults f (lw s)) s)) as Hs by (split_and!; try done; simpl in *; lia).
  destruct (line_cases rest) as [(l & r & Hl & -> & Hb & Hls)|(Hl & Hb & Hls)]; rewrite Hb.
  - rewrite Hls in *. cbn [negb andb]. rewrite drop_line.
    unfold unlines in *. cbn [map mjoin list_join] in *.
    eapply wp_quoted; [reflexivity|done..| |by right|done|].
    { etrans; [|exact Hp]. apply prefix_app, prefix_app_r. done. }
    intros s1 Hs1. rewrite (assoc_L app) in Hp, H2. eapply IH; [|done..].
    rewrite length_app in Hf. simpl in Hf. lia.
  - cbn [negb]. destruct (decide (rest = [])) as [->|Hn]; rewrite Hls in *.
    { rewrite bool_decide_true by done. apply wp_ok, H2. unfold unlines. simpl. by rewrite app_nil_r. }
    rewrite bool_decide_false by done. cbn [andb].
    unfold unlines in *. cbn [map mjoin list_join] in *. rewrite app_nil_r in Hp, H2.
    eapply (wp_quoted d rest []); [by rewrite app_nil_r|done..| |by left|done|].
    { etrans; [|exact Hp]. rewrite app_nil_r. apply prefix_app. by apply prefix_app_r. }
    intros s1 Hs1. rewrite app_nil_r in Hs1. eapply wp_bput; [done| |done|]; by rewrite <- (assoc_L app).
Qed.
End writing.

(** ** A delivery *)

Section delivery.
Context {L : LibQmail} (cf : local_conf) (message : list bytes).

(** What a mailbox of that name holds. *)
Definition contents (w : world) (fn : bytes) : bytes :=
  match names w !! fn with Some i => file_data w i | None => [] end.
Definition file_of (w : world) (fn : bytes) : nat := default (next_ino w) (names w !! fn).

Lemma wp_open_mailbox fn w (Q : errno + nat → world → Prop) :
  (∀ f, errors (set_faults f w) < errors w → Q (inl EOTHER) (set_faults f w)) →
  (∀ w', names w' !! fn = Some (file_of w fn) → (∀ p, p ≠ fn → names w' !! p = names w !! p) →
     (∀ i, i ≠ file_of w fn → inodes w' !! i = inodes w !! i) →
     file_data w' (file_of w fn) = contents w fn → errors w' ≤ errors w → Q (inr (file_of w fn)) w') →
  wp (open_append fn) Q w.
Proof.
  intros H1 H2. apply wp_syscall_errors; [exact H1|]. intros f Hf.
  unfold lookup_name, create. apply wp_bind, wp_bind, wp_getS, wp_ret. simpl.
  unfold file_of, contents in H2. destruct (names w !! fn) as [i|] eqn:E; simpl in *.
  - apply wp_ret, H2; simpl; done || lia.
  - apply wp_bind, wp_getS, wp_bind, wp_modify, wp_ret. simpl. apply H2; simpl.
    + by rewrite lookup_insert_eq.
    + intros p Hp. by rewrite lookup_insert_ne.
    + intros i Hi. by rewrite lookup_insert_ne.
    + unfold file_data. simpl. by rewrite lookup_insert_eq.
    + unfold errors in *. simpl in *. lia.
Qed.

(** How [mailfile] may leave the files, for each result. *)
Definition appended (fn entry : bytes) (s : qlocal) (r : Z + unit) (s' : qlocal) : Prop :=
  let w := lw s in
  let old := contents w fn in
  (∀ p, p ≠ fn → names (lw s') !! p = names w !! p) ∧
  (∀ i, i ≠ file_of w fn → inodes (lw s') !! i = inodes w !! i) ∧
  match r with
  | inr _ =>
    names (lw s') !! fn = Some (file_of w fn) ∧ contents (lw s') fn = old ++ entry ∧
    (use_fsync cf || use_fdatasync cf = true → disk s' !! file_of w fn = Some (old ++ entry))
  | inl e =>
    (e = 100 ∨ e = 111)%Z ∧
    ∃ k, contents (lw s') fn = old ++ take k entry ∧
         (default Locked (head (locks s)) = Locked → errors w ≤ 1 → k = 0)
  end.

Lemma appended_nothing fn entry s s' f :
  lw s' = set_faults f (lw s) → appended fn entry s (inl 111%Z) s'.
Proof.
  intros E. split_and!; [by rewrite E..|by right|]. exists 0. split; [|done].
  rewrite take_0, app_nil_r. unfold contents. by rewrite E.
Qed.

#[local] Ltac prefix_of_entry e :=
  eexists; unfold e, mailbox_entry; rewrite ?app_nil_l, <- ?(assoc_L app); reflexivity.

(** From the lock on. *)
Lemma wp_entry b fd N I old rpline s (Q : Z + unit → qlocal → Prop) :
  let entry := mailbox_entry cf rpline (qqeh s) (text message) in
  wrote fd N I old (qqeh s) (errors (lw s)) [] s →
  (∀ e s', failure_code e → gave_up b fd N I old entry (errors (lw s)) s' → Q (inl e) s') →
  (∀ s', untouched fd N I s' → file_data (lw s') fd = old ++ entry →
     (use_fsync cf || use_fdatasync cf = true → disk s' !! fd = Some (old ++ entry)) → Q (inr tt) s') →
  wp (s ← getS;
      let pos := length (file_data (lw s) fd) in
      bput fd pos b (ufline cf);;? bput fd pos b rpline;;? bput fd pos b (dtline cf);;?
      bput fd pos b (qqeh s);;?
      mbox_lines (S (length (text message))) fd pos b (text message);;? bput fd pos b [c_lf];;?
      (if use_fsync cf || use_fdatasync cf then
         r ←? lsync fd; match r with inl _ => writeerrs fd pos b | inr _ => ok tt end
       else ok tt)) Q s.
Proof.
  intros entry Hs Hfail Hdone. apply wp_get. cbv zeta.
  replace (file_data (lw s) fd) with old by (destruct Hs as (_ & -> & _); by rewrite app_nil_r).
  set (q := qqeh s) in *. set (n := errors (lw s)) in *. clearbody q n.
  do 4 (apply wp_qbind; eapply (wp_bput b fd _ _ _ entry); [eassumption|prefix_of_entry entry|exact Hfail|];
        clear dependent s; intros s Hs).
  apply wp_qbind. eapply (wp_mbox_lines b fd _ _ _ entry); [lia|eassumption|prefix_of_entry entry|exact Hfail|].
  clear dependent s. intros s Hs.
  apply wp_qbind. eapply (wp_bput b fd _ _ _ entry); [eassumption|prefix_of_entry entry|exact Hfail|].
  rewrite app_nil_l, <- !(assoc_L app). fold (mailbox_entry cf rpline q (text message)). fold entry.
  clear dependent s. intros s (Hu & Hd & _ & He).
  destruct (use_fsync cf || use_fdatasync cf); [|apply wp_ok, Hdone; done].
  apply wp_qbind, wp_qbind, wp_lsys, wp_syscall_errors; intros f Hf.
  - apply wp_qbind, wp_ok, wp_ok. eapply (wp_writeerrs b fd _ _ _ entry); [exact Hu|exact Hd| |done|exact Hfail].
    simpl in *. lia.
  - apply wp_qbind, wp_alter, wp_ok, wp_ok, Hdone; [done..|]. intros _. simpl.
    rewrite lookup_insert_eq. by rewrite <- Hd.
Qed.

(** C33. A delivery to a mailbox that succeeds appends one whole entry to the file, on
    the disk when that is asked for; one that fails leaves a part of the entry at
    most, and nothing of it when the file is locked and no second call fails.  No
    other file is touched. *)
Theorem mailfile_appends fn rpline s :
  wp (mailfile cf message fn rpline)
     (appended fn (mailbox_entry cf rpline (qqeh s) (text message)) s) s.
Proof.
  apply wp_qbind, wp_qbind, wp_lsys, wp_syscall_errors; intros f Hf.
  { by apply wp_exit, (appended_nothing _ _ _ _ f). }
  apply wp_ok, wp_qbind, wp_qbind, wp_lsys, wp_open_mailbox.
  { intros f' Hf'. by apply wp_exit, (appended_nothing _ _ _ _ f'). }
  intros w Hfn Hother Hino Hdata He. apply wp_ok, wp_get, wp_qbind, wp_alter, wp_qbind.
  set (s1 := set_locks _ _). set (fd := file_of _ _) in *. set (old := contents _ _) in *.
  assert (wrote fd (names w) (inodes w) old (qqeh s1) (errors (lw s1)) [] s1) as Hs1.
  { split_and!; try done. by rewrite app_nil_r. }
  assert (∀ s', untouched fd (names w) (inodes w) s' →
    (∀ p, p ≠ fn → names (lw s') !! p = names (lw s) !! p) ∧
    (∀ i, i ≠ fd → inodes (lw s') !! i = inodes (lw s) !! i) ∧ names (lw s') !! fn = Some fd) as Hrest.
  { intros s' [H1 H2]. split_and!; [| |by rewrite H1].
    - intros p Hp. rewrite H1. by apply Hother.
    - intros i Hi. rewrite H2 by done. by apply Hino. }
  assert (∀ b, (b = false → default Locked (head (locks s)) ≠ Locked) → ∀ e s', failure_code e →
    gave_up b fd (names w) (inodes w) old (mailbox_entry cf rpline (qqeh s) (text message)) (errors (lw s1)) s' →
    appended fn (mailbox_entry cf rpline (qqeh s) (text message)) s (inl e) s') as Hfail.
  { intros b Hb e s' Hr [(H1 & H2 & H3)%Hrest (k & H4 & H5)]. split_and!; [done..|]. exists k.
    unfold contents at 1. rewrite H3. split; [done|]. intros Hl Hn.
    destruct b; [|by destruct Hb]. apply H5; [done|]. unfold errors in *. simpl in *. lia. }
  assert (∀ s', untouched fd (names w) (inodes w) s' →
    file_data (lw s') fd = old ++ mailbox_entry cf rpline (qqeh s) (text message) →
    (use_fsync cf || use_fdatasync cf = true →
     disk s' !! fd = Some (old ++ mailbox_entry cf rpline (qqeh s) (text message))) →
    appended fn (mailbox_entry cf rpline (qqeh s) (text message)) s (inr tt) s') as Hdone.
  { intros s' (H1 & H2 & H3)%Hrest H4 H5. split_and!; [done..| |done]. unfold contents at 1. by rewrite H3. }
  destruct (default Locked _) eqn:El;
    [apply wp_ok, (wp_entry true fd (names w) (inodes w) old); [done|by apply (Hfail true)|done]
    |apply wp_ok, (wp_entry false fd (names w) (inodes w) old); [done|by apply (Hfail false)|done]|].
  apply wp_exit. split_and!; [done|done|by right|]. exists 0. split; [|done].
  unfold contents at 1. simpl. by rewrite Hfn, app_nil_r.
Qed.
End delivery.

(** ** Reading a mailbox *)

(** The lines in front of the first entry, and for each entry its first line and the
    others. *)
Fixpoint split_entries (ls : list bytes) : list bytes * list (bytes * list bytes) :=
  match ls with
  | [] => ([], [])
  | l :: ls =>
    let '(front, es) := split_entries ls in
    if is_from l then ([], (l, front) :: es) else (l :: front, es)
  end.

(** The entries of a mailbox; an entry ends with an empty line. *)
Definition read_mailbox (s : bytes) : list (bytes * list bytes) :=
  map (λ e, (e.1, map unquote_from (removelast e.2))) (split_entries (lines_of s)).2.

Lemma split_entries_body ls r : Forall (λ l, is_from l = false) ls →
  split_entries (ls ++ r) = (ls ++ (split_entries r).1, (split_entries r).2).
Proof.
  induction 1 as [|l ls Hl _ IH]; simpl; [by destruct (split_entries r)|].
  by rewrite IH, Hl.
Qed.

(** What one delivery puts into a mailbox. *)
Record delivery := Delivery {
  d_conf : local_conf; d_date : bytes; d_return : bytes; d_fields : list bytes; d_text : bytes
}.
Definition d_from (d : delivery) : bytes := removelast (ufline (d_conf d)).
Definition d_lines (d : delivery) : list bytes :=
  d_return d :: removelast (dtline (d_conf d)) :: d_fields d ++ lines_of (d_text d).
Definition d_entry (d : delivery) : bytes :=
  mailbox_entry (d_conf d) (d_return d ++ [c_lf]) (unlines (d_fields d)) (d_text d).

(** The date is one line, and so is each field; none of them looks like the start of
    an entry. *)
Definition proper (d : delivery) : Prop :=
  qtime (d_conf d) = d_date d ++ [c_lf] ∧ (c_lf ∉ d_date d) ∧
  Forall (λ l, (c_lf ∉ l) ∧ gfrom l = false) (d_return d :: d_fields d).

Lemma no_lf_ok s : c_lf ∉ no_lf s.
Proof. intros (c & Hc & _)%list_elem_of_fmap. by case_decide. Qed.

Lemma ufline_line d : proper d → ∃ u,
  ufline (d_conf d) = (lit "From " ++ u) ++ [c_lf] ∧ (c_lf ∉ lit "From " ++ u) ∧ d_from d = lit "From " ++ u.
Proof.
  intros (Hq & Hd & _). unfold d_from, ufline. rewrite Hq.
  match goal with |- context [lit "From " ++ ?x ++ d_date d ++ _] => set (sent := x) end.
  exists (sent ++ d_date d). rewrite !(assoc_L app). split; [done|]. split; [|apply removelast_last].
  rewrite !not_elem_of_app. split_and!; [by apply (bool_decide_unpack _)| |done].
  unfold sent. case_decide; [by apply (bool_decide_unpack _)|]. intros (c & Hc & _)%list_elem_of_fmap.
  case_decide; [done|]. naive_solver.
Qed.
Lemma dtline_line cf : ∃ l, dtline cf = l ++ [c_lf] ∧ (c_lf ∉ l) ∧ gfrom l = false.
Proof. eexists. split; [reflexivity|]. split; [apply no_lf_ok|done]. Qed.

Lemma quote_no_lf ls : Forall (λ l, c_lf ∉ l) ls → Forall (λ l, c_lf ∉ l) (map quote_from ls).
Proof.
  intros H. apply Forall_fmap. eapply Forall_impl; [exact H|]. intros l Hl. simpl. unfold quote_from.
  destruct (gfrom l); [|done]. by apply not_elem_of_cons.
Qed.
Lemma quote_same ls : Forall (λ l, gfrom l = false) ls → map quote_from ls = ls.
Proof. induction 1 as [|l ls Hl _ IH]; simpl; [done|]. unfold quote_from at 1. by rewrite Hl, IH. Qed.

Lemma d_lines_no_lf d : proper d → Forall (λ l, c_lf ∉ l) (d_lines d).
Proof.
  intros (_ & _ & [[Hr _] Hfs]%Forall_cons). destruct (dtline_line (d_conf d)) as (dt & Hdt & Hdl & _).
  unfold d_lines. rewrite Hdt, removelast_last. repeat constructor; [done..|].
  apply Forall_app. split; [|apply lines_no_lf]. eapply Forall_impl; [exact Hfs|]. by intros ? [].
Qed.

(** An entry is a sequence of lines. *)
Lemma d_entry_lines d : proper d → d_entry d = unlines (d_from d :: map quote_from (d_lines d) ++ [[]]).
Proof.
  intros Hd. destruct (ufline_line d Hd) as (u & Hu & _ & Hf).
  destruct (dtline_line (d_conf d)) as (dt & Hdt & _ & Hdg).
  destruct Hd as (_ & _ & [[_ Hrg] Hfs]%Forall_cons).
  unfold d_entry, mailbox_entry, d_lines. rewrite Hu, Hf, Hdt, removelast_last.
  change (d_return d :: dt :: ?l) with ([d_return d; dt] ++ l).
  rewrite !map_app, (quote_same [_; _]), (quote_same (d_fields d)) by
    first [by repeat constructor|eapply Forall_impl; [exact Hfs|]; by intros ? []].
  change (?u :: ?l) with ([u] ++ l). rewrite !unlines_app. unfold unlines at 4 5 7. simpl.
  by rewrite <- !(assoc_L app).
Qed.

(** C35. The entries of a mailbox are read back: a program that starts an entry at
    each line that starts with "From " and takes one > off the others finds, for each
    delivery, the line of its sender and date, the fields in front and the lines of
    the message. *)
Theorem mailbox_read_back ds : Forall proper ds →
  read_mailbox (mjoin (map d_entry ds)) = map (λ d, (d_from d, d_lines d)) ds.
Proof.
  intros Hds.
  enough (split_entries (lines_of (mjoin (map d_entry ds))) =
          ([], map (λ d, (d_from d, map quote_from (d_lines d) ++ [[]])) ds)) as E.
  { unfold read_mailbox. rewrite E. cbn [snd]. rewrite map_map. apply map_ext. intros d. cbn [fst snd].
    rewrite removelast_last, map_map. f_equal. rewrite <- (map_id (d_lines d)) at 2.
    apply map_ext. intros l. apply unquote_quote_from. }
  induction Hds as [|d ds Hd _ IH]; [done|].
  change (mjoin (map d_entry (d :: ds))) with (d_entry d ++ mjoin (map d_entry ds)).
  destruct (ufline_line d Hd) as (u & Hu & Hl & Hf).
  rewrite d_entry_lines, lines_of_unlines by
    first [done|constructor; [by rewrite Hf|]; apply Forall_app; split;
           [by apply quote_no_lf, d_lines_no_lf|by repeat constructor; set_solver]].
  cbn [split_entries app]. rewrite split_entries_body, IH, app_nil_r.
  - cbn [fst snd]. by rewrite Hf at 1.
  - apply Forall_app. split; [|by repeat constructor]. apply Forall_fmap, Forall_forall. intros l _.
    apply quote_not_from.
Qed.
