(* ===== verification/LocalMaildir.v ===== *)
(** * Deliveries to a maildir

    Whatever calls fail and whenever the child is killed, a name that appears in
    new is that of the whole message. *)

From S2P Require Import Prelude LibQmail Filesys Control QmailQueue Qmail Local LocalMailbox.

Section maildir.
Context {L : LibQmail} (cf : local_conf) (message : list bytes) (fmt_xlong : Z → bytes).
Context (dir rpline : bytes) (s0 : qlocal).

#[local] Abbreviation N0 := (names (lw s0)).
#[local] Abbreviation fd := (next_ino (lw s0)).

Definition whole : bytes := rpline ++ dtline cf ++ qqeh s0 ++ text message.

(** A name that was not there: one in tmp, or one in new of the whole message. *)
Definition new_name (p : bytes) (w : world) : Prop :=
  N0 !! p = None ∧ names w !! p = Some fd ∧
  ((∃ x, p = dir ++ lit "tmp/" ++ x) ∨ (∃ x, p = dir ++ lit "new/" ++ x) ∧ file_data w fd = whole).

(** How the delivery may leave the files, and what it is to achieve. *)
Definition settled (w : world) : Prop :=
  (∀ i, i ≠ fd → inodes w !! i = inodes (lw s0) !! i) ∧
  ∀ p, names w !! p = N0 !! p ∨ new_name p w.
Definition delivered (s : qlocal) : Prop :=
  ∃ x, new_name (dir ++ lit "new/" ++ x) (lw s) ∧
       (use_fsync cf || use_fdatasync cf = true → disk s !! fd = Some whole).

(** The file is open with [d] in it, and its names are [T]. *)
Definition holds (T : gmap bytes nat) (d : bytes) (w : world) : Prop :=
  names w = T ∧ (∀ i, i ≠ fd → inodes w !! i = inodes (lw s0) !! i) ∧ file_data w fd = d.

Lemma settled_eq w w' : names w' = names w → inodes w' = inodes w → settled w → settled w'.
Proof. intros En Ei [H1 H2]. unfold settled, new_name, file_data in *. by rewrite En, Ei. Qed.
Lemma settled_faults f w : settled w → settled (set_faults f w).
Proof. by apply settled_eq. Qed.

Section child.
Context (tmp : bytes).
Hypothesis Htmp : N0 !! tmp = None.

Lemma settled_unlink w : settled w → wp (unlink tmp) (λ _, settled) w.
Proof.
  intros Hs. apply wp_unlink; [intros; by apply settled_faults|]. intros i f _.
  destruct Hs as [H1 H2]. split; [done|]. intros p. unfold new_name. simpl.
  destruct (decide (p = tmp)) as [->|]; [left; by rewrite lookup_delete_eq|].
  rewrite lookup_delete_ne by done. apply H2.
Qed.

(** [Q] holds of every way to leave the files that is settled. *)
Definition excuses {A} (Q : Z + A → qlocal → Prop) : Prop := ∀ e s', e ≠ 0%Z → settled (lw s') → Q (inl e) s'.

Lemma wp_mcall {A} (m : ST world A) (Q : Z + A → qlocal → Prop) s :
  settled (lw s) → excuses Q →
  (∀ k, wp m (λ a w, Q (inr a) (set_lw w (set_kills k s))) (lw s)) → wp (mcall (Some tmp) m) Q s.
Proof.
  intros Hs HQ Hm. apply wp_get, wp_qbind, wp_alter.
  destruct (head (kills s)) as [[[]|]|]; try by apply wp_lsys.
  - apply wp_qbind, wp_lsys. eapply wp_mono; [by apply settled_unlink|]. intros r w Hw.
    by apply wp_exit, HQ.
  - by apply wp_exit, HQ.
Qed.
Lemma wp_mfail {A} (Q : Z + A → qlocal → Prop) s : settled (lw s) → excuses Q → wp (mfail tmp) Q s.
Proof.
  intros Hs HQ. apply wp_qbind, wp_pop_errno. intros b. apply wp_qbind, wp_mcall; [done| |].
  - intros e s' He. by apply HQ.
  - intros k. eapply wp_mono; [by apply settled_unlink|]. intros r w Hw. destruct b; by apply wp_exit, HQ.
Qed.
Lemma wp_mtry {A} (m : ST world (errno + A)) (Q : Z + A → qlocal → Prop) s :
  settled (lw s) → excuses Q →
  (∀ k, wp m (λ r w, match r with inl _ => settled w | inr a => Q (inr a) (set_lw w (set_kills k s)) end) (lw s)) →
  wp (mtry tmp m) Q s.
Proof.
  intros Hs HQ Hm. apply wp_qbind, wp_mcall; [done| |].
  - intros e s' He. by apply HQ.
  - intros k. eapply wp_mono; [apply Hm|]. intros [e|a] w Hw; [by apply wp_mfail|by apply wp_ok].
Qed.

(** Writing. *)
#[local] Abbreviation T1 := (<[tmp := fd]> N0).
Hypothesis Hdir : ∃ x, tmp = dir ++ lit "tmp/" ++ x.

Lemma holds_settled d w : holds T1 d w → settled w.
Proof.
  intros (Hn & Hi & _). split; [done|]. intros p. unfold new_name. rewrite Hn.
  destruct (decide (p = tmp)) as [->|].
  - right. rewrite lookup_insert_eq. auto.
  - left. by rewrite lookup_insert_ne.
Qed.
Lemma holds_faults T d f w : holds T d w → holds T d (set_faults f w).
Proof. done. Qed.

Lemma wp_put_tmp d t (Q : Z + unit → qlocal → Prop) s :
  holds T1 d (lw s) → excuses Q →
  (∀ s', holds T1 (d ++ t) (lw s') → qqeh s' = qqeh s → Q (inr tt) s') → wp (mtry tmp (append fd t)) Q s.
Proof.
  intros Hs HQ Hput. apply wp_mtry; [by eapply holds_settled|done|]. intros k.
  apply wp_syscall; intros f; [by eapply (holds_settled d)|]. apply Hput; [|done].
  destruct Hs as (Hn & Hi & Hd). split_and!; [done| |].
  - intros i Hne. simpl. rewrite lookup_insert_ne by done. by apply Hi.
  - simpl. rewrite file_data_insert, decide_True by done. simpl. by rewrite <- Hd.
Qed.

Lemma wp_mcopy d l (Q : Z + unit → qlocal → Prop) s :
  holds T1 d (lw s) → excuses Q →
  (∀ s', holds T1 (d ++ mjoin l) (lw s') → Q (inr tt) s') → wp (mcopy tmp fd l) Q s.
Proof.
  revert d s. induction l as [|c l IH]; intros d s Hs HQ Hl; cbn [mcopy].
  all: apply wp_qbind, wp_mcall; [by eapply holds_settled|intros e s' He; by apply HQ|intros k].
  all: apply wp_fault; intros [] f; cbn iota.
  1, 3: apply wp_qbind, wp_mcall; [by eapply (holds_settled d)|intros e s' He; by apply HQ|intros k'].
  1, 2: eapply wp_mono; [by eapply settled_unlink, (holds_settled d)|]; intros r w Hw; by apply wp_exit, HQ.
  - apply wp_ok, Hl. by rewrite app_nil_r.
  - apply wp_qbind, (wp_put_tmp d); [done|intros e s' He; by apply HQ|]. intros s' Hs' _.
    apply (IH (d ++ c)); [done..|]. intros s'' Hs''. apply Hl. by rewrite <- (assoc_L app) in Hs''.
Qed.

(** Moving to new. *)

Definition outcome (r : Z + unit) (s : qlocal) : Prop :=
  settled (lw s) ∧ ∃ e, r = inl e ∧ (e = 0%Z → delivered s).

Lemma wp_linked new s :
  (∃ x, new = dir ++ lit "new/" ++ x) → holds (<[new := fd]> T1) whole (lw s) → T1 !! new = None →
  (use_fsync cf || use_fdatasync cf = true → disk s !! fd = Some whole) →
  wp (mcall (Some tmp) (unlink tmp);;? exit 0) outcome s.
Proof.
  intros [x Hx] (Hn & Hi & Hd) Hnew Hsync.
  assert (N0 !! new = None ∧ new ≠ tmp) as [Hnew0 Hne].
  { destruct (decide (new = tmp)) as [E|E]; [by rewrite E, lookup_insert_eq in Hnew|].
    by rewrite lookup_insert_ne in Hnew. }
  assert (settled (lw s)) as Hs.
  { split; [done|]. intros p. unfold new_name. rewrite Hn.
    destruct (decide (p = new)) as [->|].
    - right. rewrite lookup_insert_eq. eauto 10.
    - rewrite lookup_insert_ne by done. destruct (decide (p = tmp)) as [->|].
      + right. rewrite lookup_insert_eq. auto.
      + left. by rewrite lookup_insert_ne. }
  apply wp_qbind, wp_mcall; [done|intros e s' He Hs'; by split; eauto; exists e|]. intros k.
  assert (∀ w, names w !! new = names (lw s) !! new →
    inodes w = inodes (lw s) → settled w → outcome (inl 0%Z) (set_lw w (set_kills k s))) as Hout.
  { intros w Hw Hw' Hsw. split; [done|]. exists 0%Z. split; [done|]. intros _. exists x. rewrite <- Hx. split; [|done].
    split_and!; [done| |right; split; [by exists x|]].
    - simpl. by rewrite Hw, Hn, lookup_insert_eq.
    - unfold file_data. simpl. rewrite Hw'. exact Hd. }
  pose proof (settled_unlink (lw s) Hs) as Hu. revert Hu. unfold wp.
  generalize (wp_unlink tmp (λ _ w, names w !! new = names (lw s) !! new ∧
    inodes w = inodes (lw s)) (lw s)). unfold wp. intros H1 H2. apply Hout; [apply H1..|done]; simpl; try done.
  all: intros; split; [|done]; by rewrite lookup_delete_ne.
Qed.

Lemma wp_deliver_name t s :
  tmp = dir ++ fntmptph cf t →
  holds T1 whole (lw s) → (use_fsync cf || use_fdatasync cf = true → disk s !! fd = Some whole) →
  wp (st ←? mtry tmp (fstat fd);
      mtry tmp (syscall (mret (inr tt)));;?
      mtry tmp (link tmp (dir ++ fnnewtph cf fmt_xlong t fd (length (i_data st))));;?
      mcall (Some tmp) (unlink tmp);;? exit 0) outcome s.
Proof.
  intros Ht Hs Hsync.
  assert (∀ e s', e ≠ 0%Z → settled (lw s') → outcome (inl e) s') as Hex.
  { intros e s' He Hs'. split; [done|]. by exists e. }
  apply wp_qbind, wp_mtry; [by eapply holds_settled|exact Hex|intros k].
  apply wp_syscall; intros f; [by eapply (holds_settled whole)|].
  apply wp_bind. unfold read_inode. apply wp_bind, wp_getS, wp_ret, wp_ret. cbn iota.
  apply wp_qbind, wp_mtry; [by eapply (holds_settled whole)|exact Hex|intros k'].
  apply wp_syscall; intros f'; [by eapply (holds_settled whole)|]. apply wp_ret. cbn iota.
  apply wp_qbind, wp_mtry; [by eapply (holds_settled whole)|exact Hex|intros k''].
  apply wp_syscall; intros f''; [by eapply (holds_settled whole)|].
  set (new := dir ++ fnnewtph _ _ _ _ _).
  destruct Hs as (Hn & Hi & Hd).
  unfold lookup_name. apply wp_bind, wp_bind, wp_getS, wp_ret. simpl. rewrite Hn, lookup_insert_eq.
  apply wp_bind, wp_bind, wp_getS, wp_ret. simpl. rewrite Hn. destruct (T1 !! new) eqn:E; apply wp_ret.
  - by eapply (holds_settled whole).
  - apply wp_linked with new; [by eexists|..|done|done]. by split_and!; [simpl; rewrite Hn|..].
Qed.
End child.

(** ** The child *)

Definition pristine (s : qlocal) : Prop :=
  names (lw s) = N0 ∧ inodes (lw s) = inodes (lw s0) ∧ next_ino (lw s) = fd ∧ qqeh s = qqeh s0.

Lemma pristine_settled w : names w = N0 → inodes w = inodes (lw s0) → settled w.
Proof. intros Hn Hi. split; [by rewrite Hi|]. intros p. left. by rewrite Hn. Qed.

(** Before there is a file. *)
Lemma wp_mcall_first {A} (m : ST world A) (Q : Z + A → qlocal → Prop) s :
  settled (lw s) → excuses Q →
  (∀ k, wp m (λ a w, Q (inr a) (set_lw w (set_kills k s))) (lw s)) → wp (mcall None m) Q s.
Proof.
  intros Hs HQ Hm. apply wp_get, wp_qbind, wp_alter.
  destruct (head (kills s)) as [[[]|]|]; try by apply wp_lsys. by apply wp_exit, HQ.
Qed.

Lemma wp_tmp_loop n s (Q : Z + (nat * (Z * Z)) → qlocal → Prop) :
  pristine s → excuses Q →
  (∀ t s', N0 !! (dir ++ fntmptph cf t) = None →
     holds (<[dir ++ fntmptph cf t := fd]> N0) [] (lw s') → qqeh s' = qqeh s0 → Q (inr (fd, t)) s') →
  wp (tmp_loop cf dir n) Q s.
Proof.
  intros Hs HQ Hopen. revert s Hs. induction n as [|n IH]; intros s (Hn & Hi & Hx & Hq); cbn [tmp_loop].
  all: apply wp_qbind, wp_get, wp_qbind, wp_alter, wp_ok; set (t := default _ _).
  all: apply wp_qbind, wp_mcall_first; [by apply pristine_settled|intros e s' He; by apply HQ|intros k].
  all: apply wp_syscall; intros f; cbn iota.
  1, 3: apply wp_qbind, wp_pop_errno; intros b; destruct b; apply wp_exit, HQ; [done|by apply pristine_settled|
    done|by apply pristine_settled].
  all: unfold lookup_name, create; apply wp_bind, wp_bind, wp_getS, wp_ret; simpl.
  all: rewrite Hn; destruct (N0 !! (dir ++ fntmptph cf t)) eqn:E.
  1: by apply wp_ret, wp_exit, HQ; [|apply pristine_settled].
  2: by apply wp_ret, IH.
  all: apply wp_bind, wp_getS, wp_bind, wp_modify, wp_ret, wp_ok; cbn [next_ino set_faults]; rewrite Hx.
  all: apply Hopen; [done| |done]; split_and!; simpl; [by rewrite Hn| |].
  1, 3: intros i Hne; by rewrite lookup_insert_ne, Hi.
  all: unfold file_data; simpl; by rewrite lookup_insert_eq.
Qed.

Lemma wp_lsync i (Q : Z + (errno + unit) → qlocal → Prop) s :
  (∀ f, Q (inr (inl EOTHER)) (set_lw (set_faults f (lw s)) s)) →
  (∀ f, Q (inr (inr tt)) (set_disk (<[i := file_data (lw s) i]> (disk s)) (set_lw (set_faults f (lw s)) s))) →
  wp (lsync i) Q s.
Proof. intros H1 H2. by apply wp_qbind, wp_lsys, wp_syscall. Qed.

Lemma wp_maildir_deliver s : pristine s → wp (maildir_deliver cf message fmt_xlong dir rpline) outcome s.
Proof.
  intros Hp. assert (excuses outcome) as Hex by (intros e s' He Hs; split; [done|]; by exists e).
  destruct Hp as (Hn & Hi & Hx & Hq).
  apply wp_qbind, wp_mcall_first; [by apply pristine_settled|exact Hex|intros k].
  apply wp_syscall; intros f; cbn iota.
  { apply wp_qbind, wp_pop_errno. intros b. destruct b; apply wp_exit, Hex; done || by apply pristine_settled. }
  apply wp_ret. cbn iota. apply wp_qbind, wp_tmp_loop; [done|exact Hex|].
  intros t s1 Ht Hs1 Hq1. cbv beta iota zeta. set (tmp := dir ++ fntmptph cf t) in *.
  assert (∃ x, tmp = dir ++ lit "tmp/" ++ x) as Hdir by by eexists.
  apply wp_get. rewrite Hq1.
  apply wp_qbind, (wp_put_tmp tmp Ht Hdir []); [done|exact Hex|]. intros s2 Hs2 _.
  apply wp_qbind, (wp_put_tmp tmp Ht Hdir ([] ++ rpline)); [done|exact Hex|]. intros s3 Hs3 _.
  apply wp_qbind, (wp_put_tmp tmp Ht Hdir (([] ++ rpline) ++ dtline cf)); [done|exact Hex|]. intros s4 Hs4 _.
  apply wp_qbind, (wp_mcopy tmp Ht Hdir ((([] ++ rpline) ++ dtline cf) ++ qqeh s0)); [done|exact Hex|].
  intros s5 Hs5. rewrite app_nil_l, <- !(assoc_L app) in Hs5. fold (text message) in Hs5. fold whole in Hs5.
  assert (∀ s, holds (<[tmp := fd]> N0) whole (lw s) → settled (lw s)) as Hset.
  { intros s' Hs'. by eapply (holds_settled tmp). }
  apply wp_qbind. destruct (use_fsync cf || use_fdatasync cf) eqn:Ef.
  - apply wp_qbind, wp_mcall; [done|by apply Hset|exact Hex|]. intros k'. apply wp_ret.
    apply wp_qbind, wp_lsync; intros f'; cbn iota; [apply wp_mfail; [done|by apply (Hset s5)|exact Hex]|].
    apply wp_ok, (wp_deliver_name tmp Ht Hdir t); [done..|]. intros _. simpl.
    rewrite lookup_insert_eq. f_equal. apply Hs5.
  - apply wp_ok, (wp_deliver_name tmp Ht Hdir t); [done..|]. by rewrite Ef.
Qed.

(** C34. Whatever calls fail and whenever the child is killed, a delivery to a maildir
    adds at most one file; a name in new is given to it only when it has the whole
    message, every other name and file is as before, and the delivery counts as done
    only when the message is there, on the disk when that is asked for. *)
Theorem maildir_whole :
  wp (maildir cf message fmt_xlong dir rpline) (λ r s',
    settled (lw s') ∧
    match r with inr _ => delivered s' | inl e => (e = 100 ∨ e = 111)%Z end) s0.
Proof.
  assert (∀ f, settled (set_faults f (lw s0))) as H0 by (intros f; by apply pristine_settled).
  apply wp_qbind, wp_qbind, wp_lsys, wp_syscall; intros f; [apply wp_exit; split; [apply H0|auto]|].
  apply wp_ok, wp_qbind, wp_lsys, wp_fault. intros [] f'; [apply wp_exit; split; [apply H0|auto]|].
  apply wp_bind. eapply wp_mono; [by apply wp_maildir_deliver|].
  intros r s' (Hs & e & -> & He). destruct (decide (e = 0%Z)) as [->|]; [apply wp_ok; auto|].
  assert (∀ e', (e' = 100 ∨ e' = 111)%Z → wp (A := Z + unit) (exit e') (λ r s', settled (lw s') ∧
    match r with inr _ => delivered s' | inl e => (e = 100 ∨ e = 111)%Z end) s') as Hex.
  { intros e' He'. by apply wp_exit. }
  destruct e as [|p|]; [done| |by apply Hex; auto].
  destruct p as [[[]|[]|]|[]|]; apply Hex; auto.
Qed.
End maildir.
