(* ===== verification/LocalLines.v ===== *)
(** * The lines of a .qmail file

    [main] of qmail-local works on an array of bytes in which it writes; what that
    comes to is a function of the lines of the file, and the array of forwards is
    large enough. *)

From S2P Require Import Prelude LibQmail Filesys Control QmailQueue Qmail SmtpdTheorems Local LocalMain LocalMailbox.

(** ** Computations that do the same *)

Definition sim {A B} (R : A → B → Prop) (m1 : LM A) (m2 : LM B) : Prop :=
  ∀ s, (m1 s).2 = (m2 s).2 ∧
       match (m1 s).1, (m2 s).1 with
       | inl e, inl e' => e = e'
       | inr a, inr b => R a b
       | _, _ => False
       end.

Lemma sim_ok {A B} (R : A → B → Prop) a b : R a b → sim R (ok a) (ok b).
Proof. by intros H s. Qed.
Lemma sim_exit {A B} (R : A → B → Prop) e : sim R (exit e) (exit e).
Proof. by intros s. Qed.
Lemma sim_refl {A} (m : LM A) : sim eq m m.
Proof. intros s. by destruct (m s) as [[]]. Qed.
Lemma sim_bind {A B A' B'} (R : A → B → Prop) (R' : A' → B' → Prop) m1 m2 k1 k2 :
  sim R m1 m2 → (∀ a b, R a b → sim R' (k1 a) (k2 b)) → sim R' (qbind m1 k1) (qbind m2 k2).
Proof.
  intros Hm Hk s. specialize (Hm s). unfold qbind, mbind, ST_bind.
  destruct (m1 s) as [[e|a] s1], (m2 s) as [[e'|b] s2]; simpl in *; destruct Hm as [-> Hm]; try done.
  by apply Hk.
Qed.
(** The same first step. *)
Lemma sim_same {A A' B'} (R' : A' → B' → Prop) (m : LM A) k1 k2 :
  (∀ a, sim R' (k1 a) (k2 a)) → sim R' (qbind m k1) (qbind m k2).
Proof. intros Hk. apply (sim_bind eq); [apply sim_refl|]. intros a ? <-. apply Hk. Qed.
Lemma sim_then {A B} (m : LM A) (x : B) : sim (λ t _, t = x) (m;;? ok x) m.
Proof. intros s. unfold qbind, mbind, ST_bind. by destruct (m s) as [[e|a] s']. Qed.
Lemma sim_get {A B} (R : A → B → Prop) (k1 : qlocal → LM A) (k2 : qlocal → LM B) :
  (∀ s, sim R (k1 s) (k2 s)) → sim R (s ← getS; k1 s) (s ← getS; k2 s).
Proof. intros H s. apply H. Qed.
Lemma sim_mono {A B} (R R' : A → B → Prop) m1 m2 : sim R m1 m2 → (∀ a b, R a b → R' a b) → sim R' m1 m2.
Proof. intros Hm HR s. specialize (Hm s). destruct (m1 s) as [[]], (m2 s) as [[]]; naive_solver. Qed.

(** ** What the lines mean *)

(** What comes before the first byte that [p] accepts, and the rest. *)
Fixpoint upto (p : Z → bool) (s : bytes) : bytes :=
  match s with c :: r => if p c then [] else c :: upto p r | [] => [] end.
Definition strip (s : bytes) : bytes := reverse (skip_blanks (reverse s)).

Definition label_end (c : Z) : bool := bool_decide (c = 0 ∨ c = c_lf)%Z || blank c.
(** The label of a label line, and that of a branch. *)
Definition label_of (l : bytes) : option bytes :=
  match l with c :: x => if decide (c = c_colon) then Some (upto label_end x) else None | [] => None end.
Definition branch_label (l : bytes) : option bytes :=
  match strip l with c :: x => if decide (c = 63%Z) then Some (upto blank x) else None | [] => None end.
Definition has_label (w l : bytes) : bool := bool_decide (label_of l = Some w).

(** What the program looks for: a label that is a part of the one of the branch, from
    its start on, will do. *)
Definition labels (w l : bytes) : bool :=
  match l with
  | c :: x => bool_decide (c = c_colon) && bool_decide (take (length (upto label_end x)) w = upto label_end x)
  | [] => false
  end.
Fixpoint after_label (w : bytes) (ls : list bytes) : list bytes :=
  match ls with l :: ls => if labels w l then ls else after_label w ls | [] => [] end.

(** No label of a label line is a proper start of the label of a branch. *)
Definition clear_for (ls : list bytes) (w : bytes) : Prop :=
  Forall (λ u, u `prefix_of` w → u = w) (omap label_of ls).
Definition clear_labels (ls : list bytes) : Prop := Forall (clear_for ls) (omap branch_label ls).

Lemma labels_ok w l : labels w l = true ↔ ∃ u, label_of l = Some u ∧ u `prefix_of` w.
Proof.
  unfold labels, label_of. destruct l as [|c x]; [by split; [|intros (? & ? & _)]|].
  rewrite andb_true_iff, !bool_decide_eq_true. case_decide; [|naive_solver]. split.
  - intros [_ <-]. eexists. split; [done|]. apply prefix_take.
  - intros (u & [= <-] & k & ->). split; [done|]. apply take_app_length.
Qed.
Lemma labels_clear w l ls : clear_for (l :: ls) w → labels w l = has_label w l.
Proof.
  unfold clear_for. cbn. intros Hc. apply eq_bool_prop_intro. rewrite !Is_true_true, labels_ok.
  unfold has_label. rewrite bool_decide_eq_true. destruct (label_of l) as [u|]; [|naive_solver].
  apply Forall_cons in Hc as [Hu _]. split; [|by intros [= ->]; exists w].
  intros (? & [= <-] & Hp). by rewrite Hu.
Qed.
Lemma clear_for_tail w l ls : clear_for (l :: ls) w → clear_for ls w.
Proof. unfold clear_for. cbn. destruct (label_of l); [by intros [_ ?]%Forall_cons|done]. Qed.
Lemma clear_tail l ls : clear_labels (l :: ls) → clear_labels ls.
Proof.
  unfold clear_labels. cbn. intros H. apply (Forall_impl _ (clear_for ls)) in H; [|intros w; apply clear_for_tail].
  destruct (branch_label l); [by apply Forall_cons in H as [_ ?]|done].
Qed.

(** ** The array *)

Lemma insert_middle (a b : bytes) x y n : n = length a → <[n := y]> (a ++ x :: b) = a ++ y :: b.
Proof. intros ->. induction a as [|c a IH]; simpl; [done|]. by rewrite IH. Qed.
Lemma nth_middle (a b : bytes) x n : n = length a → (a ++ x :: b) !!! n = x.
Proof. intros ->. by apply list_lookup_total_middle. Qed.
Lemma drop_middle (a b : bytes) n : n = length a → drop n (a ++ b) = b.
Proof. intros ->. apply drop_app_length. Qed.

Lemma upto_split p s : ∃ r, s = upto p s ++ r ∧ match r with c :: _ => p c = true | [] => True end.
Proof.
  induction s as [|c s (r & Hs & Hr)]; simpl; [by exists []|]. destruct (p c) eqn:E.
  - by exists (c :: s).
  - exists r. split; [|done]. simpl. by rewrite <- Hs.
Qed.
Lemma upto_none p s : Forall (λ c, p c = false) (upto p s).
Proof. induction s as [|c s IH]; simpl; [done|]. destruct (p c) eqn:E; [done|]. by constructor. Qed.
Lemma upto_app p a r : Forall (λ c, p c = false) a → match r with c :: _ => p c = true | [] => True end →
  upto p (a ++ r) = a.
Proof.
  intros Ha Hr. induction Ha as [|c a Hc _ IH]; simpl; [|by rewrite Hc, IH].
  destruct r as [|c r]; [done|]. simpl. by rewrite Hr.
Qed.

Lemma seek_from_spec p fuel n pre w z :
  length w ≤ fuel → n = length pre + length w →
  seek_from p fuel n (pre ++ w ++ z) (length pre) = length pre + length (upto p w).
Proof.
  revert fuel n pre. induction w as [|c w IH]; intros fuel n pre Hf Hn; simpl in *.
  { destruct fuel; simpl; [lia|]. rewrite bool_decide_false by lia. simpl. lia. }
  destruct fuel as [|fuel]; [lia|]. cbn [seek_from]. rewrite bool_decide_true, nth_middle by (done || lia).
  destruct (p c) eqn:E; simpl; [lia|].
  specialize (IH fuel n (pre ++ [c])). rewrite <- (assoc_L app), length_app in IH. simpl in IH.
  rewrite IH by lia. lia.
Qed.

(** The end of the line. *)
Lemma strip_blank l c : blank c = true → strip (l ++ [c]) = strip l.
Proof. intros Hc. unfold strip. rewrite reverse_snoc. simpl. by rewrite Hc. Qed.
Lemma strip_other l c : blank c = false → strip (l ++ [c]) = l ++ [c].
Proof. intros Hc. unfold strip. rewrite reverse_snoc. simpl. rewrite Hc. by rewrite <- reverse_snoc, reverse_involutive. Qed.
Lemma strip_length l : length (strip l) ≤ length l.
Proof.
  induction l as [|c l IH] using rev_ind; [done|]. destruct (blank c) eqn:E.
  - rewrite strip_blank, length_app by done. simpl. lia.
  - by rewrite strip_other.
Qed.

Lemma trim_spec fuel pre l z : length l ≤ fuel →
  trim fuel (length pre) (length pre + length l) (pre ++ l ++ z) =
  (length pre + length (strip l), pre ++ strip l ++ replicate (length l - length (strip l)) 0%Z ++ z).
Proof.
  revert fuel z. induction l as [|c l IH] using rev_ind; intros fuel z Hf.
  { destruct fuel; simpl; [done|]. by rewrite Nat.add_0_r, bool_decide_false by lia. }
  rewrite length_app in *. simpl in Hf. destruct fuel as [|fuel]; [lia|]. cbn [trim].
  rewrite bool_decide_true by (simpl; lia). cbn [andb].
  replace (length pre + (length l + length [c]) - 1) with (length pre + length l) by (simpl; lia).
  rewrite <- (assoc_L app l), (assoc_L app pre). simpl app at 1. rewrite nth_middle by (rewrite length_app; lia).
  destruct (blank c) eqn:E.
  - change ([c] ++ z) with (c :: z). rewrite insert_middle by (rewrite length_app; lia).
    rewrite <- (assoc_L app), IH by lia. rewrite strip_blank by done.
    pose proof (strip_length l). do 3 f_equal.
    change (0%Z :: z) with (replicate 1 0%Z ++ z). rewrite (assoc_L app), <- replicate_add.
    do 2 f_equal. simpl. lia.
  - rewrite strip_other, length_app, Nat.sub_diag by done. simpl. by rewrite <- !(assoc_L app).
Qed.

(** ** Going to a label *)

(** Within a line. *)
Lemma goto_within fuel pre a z cmds i :
  cmds = pre ++ a ++ c_lf :: z → c_lf ∉ a → length a ≤ fuel →
  goto_label fuel cmds i (length pre) = goto_label (fuel - length a) cmds i (length (pre ++ a)).
Proof.
  intros ->. revert fuel pre. induction a as [|c a IH]; intros fuel pre Ha Hf.
  { simpl. by rewrite app_nil_r, Nat.sub_0_r. }
  apply not_elem_of_cons in Ha as [Hc Ha]. simpl in Hf. destruct fuel as [|fuel]; [lia|].
  cbn [goto_label]. rewrite decide_True by (rewrite !length_app; simpl; lia).
  cbn [app]. rewrite (nth_middle pre), (bool_decide_false (c = c_lf)) by done. cbn [andb].
  specialize (IH fuel (pre ++ [c]) Ha ltac:(lia)). rewrite <- !(assoc_L app) in IH. simpl in IH.
  rewrite length_app in IH. simpl in IH. by rewrite IH.
Qed.

Section goto.
Context (w : bytes) (i : nat).

(** What is compared with a label. *)
Definition compared (cmds : bytes) : Prop :=
  ∀ x, Forall (λ c, label_end c = false) x → take (length x) (drop i cmds) = x ↔ take (length x) w = x.

Lemma compared_label cmds t z : drop i cmds = w ++ t :: z → label_end t = true → compared cmds.
Proof.
  intros Hd Ht x Hx. rewrite Hd. clear Hd cmds. revert x Hx.
  induction w as [|c v IH]; intros [|y x] Hx; try done; simpl.
  - split; [|done]. intros [= -> _]. apply Forall_cons in Hx as [Hx _]. congruence.
  - apply Forall_cons in Hx as [_ Hx]. specialize (IH x Hx). split; intros [= -> H]; f_equal; by apply IH.
Qed.

Lemma unlines_cons l ls : unlines (l :: ls) = l ++ c_lf :: unlines ls.
Proof. unfold unlines. simpl. by rewrite <- (assoc_L app). Qed.

(** What a line with a label comes to. *)
Lemma goto_at_label fuel pre x ls cmds :
  cmds = pre ++ c_lf :: (c_colon :: x) ++ c_lf :: unlines ls → c_lf ∉ x → compared cmds →
  S (length x) ≤ fuel →
  goto_label fuel cmds i (length pre) =
  (if labels w (c_colon :: x) then length (pre ++ c_lf :: c_colon :: x)
   else goto_label (fuel - S (length (drop (length (upto label_end x)) x))) cmds i (length (pre ++ c_lf :: c_colon :: x))).
Proof.
  intros Hcmds Hx Hc Hf. destruct fuel as [|fuel]; [lia|]. cbn [goto_label]. set (p := length pre).
  assert (length cmds = p + 3 + length x + length (unlines ls)) as Hlen.
  { rewrite Hcmds, !length_app. simpl. rewrite length_app. simpl. lia. }
  rewrite decide_True by lia.
  assert (cmds !!! p = c_lf ∧ cmds !!! (p + 1) = c_colon) as [-> ->].
  { rewrite Hcmds. split; [by apply nth_middle|]. change (pre ++ c_lf :: ?r) with (pre ++ [c_lf] ++ r).
    rewrite (assoc_L app). apply nth_middle. rewrite length_app. done. }
  rewrite !(bool_decide_true (_ = _ :> Z)) by done. cbn [andb].
  destruct (upto_split label_end x) as (r & Hr & Hstop). set (u := upto label_end x) in *.
  assert (cmds = (pre ++ [c_lf; c_colon]) ++ (x ++ c_lf :: unlines ls) ++ []) as Hcmds2.
  { by rewrite Hcmds, app_nil_r, <- (assoc_L app). }
  assert (seek_from label_end (length cmds) (length cmds) cmds (p + 2) = p + 2 + length u) as Hseek.
  { rewrite Hcmds2 at 3. replace (p + 2) with (length (pre ++ [c_lf; c_colon])) by (rewrite length_app; done).
    rewrite seek_from_spec by (rewrite Hlen, !length_app; simpl; lia). f_equal.
    rewrite Hr, <- (assoc_L app), upto_app; [done|apply upto_none|]. by destruct r. }
  change (λ c, bool_decide (c = 0 ∨ c = c_lf)%Z || blank c) with label_end. rewrite Hseek.
  replace (p + 2 + length u - (p + 2)) with (length u) by lia.
  assert (drop (p + 2) cmds = x ++ c_lf :: unlines ls) as ->.
  { rewrite Hcmds2, app_nil_r. apply drop_middle. rewrite length_app. done. }
  assert (take (length u) (x ++ c_lf :: unlines ls) = u) as ->.
  { rewrite Hr, <- (assoc_L app). apply take_app_length. }
  assert (c_lf ∉ r) as Hlr by (rewrite Hr in Hx; set_solver).
  assert (length x = length u + length r) as Hxl by (rewrite Hr at 1; apply length_app).
  unfold labels. fold u. rewrite bool_decide_true by done. cbn [andb].
  specialize (Hc u (upto_none _ _)). destruct (decide (take (length u) (drop i cmds) = u)) as [E|E].
  - rewrite bool_decide_true by (by apply Hc).
    assert (cmds = (pre ++ c_lf :: c_colon :: u) ++ (r ++ c_lf :: unlines ls) ++ []) as Hcmds3.
    { rewrite Hcmds, Hr, app_nil_r. simpl. by rewrite <- !(assoc_L app). }
    rewrite Hcmds3 at 3. replace (p + 2 + length u) with (length (pre ++ c_lf :: c_colon :: u))
      by (rewrite length_app; simpl; lia).
    rewrite seek_from_spec by (rewrite Hlen, !length_app; simpl; lia).
    rewrite upto_app; [rewrite !length_app; simpl; lia| |by apply bool_decide_true].
    apply Forall_forall. intros c Hcr. apply bool_decide_false. by intros ->.
  - rewrite bool_decide_false by (by rewrite <- Hc).
    replace (p + 2 + length u) with (length (pre ++ c_lf :: c_colon :: u)) by (rewrite length_app; simpl; lia).
    rewrite (goto_within _ _ r (unlines ls)); [|by rewrite Hcmds, Hr; simpl; rewrite <- !(assoc_L app)|done|lia].
    assert (drop (length u) x = r) as -> by (rewrite Hr at 1; apply drop_app_length).
    replace (length (pre ++ c_lf :: c_colon :: x)) with (length ((pre ++ c_lf :: c_colon :: u) ++ r)); [done|].
    rewrite !length_app. simpl. lia.
Qed.

Lemma goto_label_spec fuel pre ls cmds :
  cmds = pre ++ c_lf :: unlines ls → Forall (λ l, c_lf ∉ l) ls → compared cmds →
  S (length (unlines ls)) ≤ fuel →
  ∃ y, cmds = (pre ++ y) ++ unlines (after_label w ls) ∧
       goto_label fuel cmds i (length pre) + 1 = length (pre ++ y).
Proof.
  intros Hcmds Hls Hc. revert fuel pre Hcmds. induction Hls as [|l ls Hl Hls IH]; intros fuel pre Hcmds Hf.
  { exists [c_lf]. split; [by rewrite Hcmds, app_nil_r|]. destruct fuel as [|fuel]; cbn [goto_label].
    - rewrite length_app. done.
    - rewrite decide_False by (rewrite Hcmds, length_app; simpl; lia). by rewrite length_app. }
  rewrite unlines_cons, length_app in *. simpl length in Hf.
  assert (∀ fuel', S (length (unlines ls)) ≤ fuel' → ∃ y, cmds = (pre ++ y) ++ unlines (after_label w ls) ∧
    goto_label fuel' cmds i (length (pre ++ c_lf :: l)) + 1 = length (pre ++ y)) as Hnext.
  { intros fuel' Hf'. destruct (IH fuel' (pre ++ c_lf :: l)) as (y & Hy & Hg); [|done|].
    - rewrite Hcmds, <- (assoc_L app). done.
    - exists (c_lf :: l ++ y). change (c_lf :: l ++ y) with ((c_lf :: l) ++ y).
      by rewrite (assoc_L app) in *. }
  destruct (decide (head l = Some c_colon)) as [Hh|Hh].
  - destruct l as [|c x]; [done|]. injection Hh as ->. apply not_elem_of_cons in Hl as [_ Hx]. simpl in Hf.
    rewrite (goto_at_label _ _ x ls) by (done || lia). cbn [after_label]. destruct (labels w _) eqn:E.
    + exists (c_lf :: c_colon :: x ++ [c_lf]). split; [rewrite Hcmds, <- (assoc_L app pre); simpl; by rewrite <- (assoc_L app)|].
      rewrite !length_app. simpl. rewrite length_app. simpl. lia.
    + apply Hnext. rewrite length_drop. lia.
  - assert (labels w l = false) as E.
    { destruct l as [|c x]; [done|]. simpl in *. rewrite bool_decide_false by congruence. done. }
    cbn [after_label]. rewrite E. destruct fuel as [|fuel]; [lia|]. cbn [goto_label].
    rewrite decide_True by (rewrite Hcmds, length_app; simpl; rewrite length_app; simpl; lia).
    assert (cmds !!! length pre = c_lf ∧ cmds !!! (length pre + 1) ≠ c_colon) as [-> Hcol].
    { rewrite Hcmds. split; [by apply nth_middle|]. change (pre ++ c_lf :: ?r) with (pre ++ [c_lf] ++ r).
      rewrite (assoc_L app pre). destruct l as [|c x]; simpl app; rewrite nth_middle by (rewrite length_app; done); [done|].
      by intros ->; apply Hh. }
    rewrite bool_decide_true, bool_decide_false by done. cbn [andb].
    replace (length pre + 1) with (length (pre ++ [c_lf])) by (by rewrite length_app).
    rewrite (goto_within _ _ l (unlines ls)) by (rewrite ?Hcmds, <- ?(assoc_L app); done || lia).
    rewrite <- (assoc_L app). apply Hnext. lia.
Qed.
End goto.

Section lines.
Context {L : LibQmail} (cf : local_conf) (message : list bytes) (fmt_xlong : Z → bytes).

(** What a line without its trailing white space does: the label to go on from, if
    any, whether programs and files are forbidden from now on, and the forwards. *)
Definition act_branch (w : bytes) (only : bool) : LM (option bytes * bool * list bytes) :=
  let prog := skip_blanks (drop (length (upto blank w)) w) in
  (if decide (prog = []) then ok tt else run_program cf only prog (mailprogram (cstr prog)));;?
  s ← getS;
  if bool_decide (prog = []) || flag99 s
  then alter_l (set_flag99 false);;? ok (Some (upto blank w), only, [])
  else ok (None, only, []).

Definition act (rpline : bytes) (first : bool) (w : bytes) (only : bool) : LM (option bytes * bool * list bytes) :=
  let stay := (None, only, []) in
  match default 0%Z (head w) with
  | 0%Z => if first then exit 111 else ok stay
  | 37%Z (* % *) => bad ←? lsys fault; if bad : bool then exit 111 else ok stay
  | 35%Z (* # *) | 58%Z (* : *) => ok stay
  | 46%Z (* . *) | 47%Z (* / *) =>
    alter_l (λ s, set_counts (count_file s + 1) (count_forward s) (count_program s) s);;?
    (if only then exit 111
     else if decide (last w = Some c_slash) then
       if flagdoit cf then maildir cf message fmt_xlong (cstr w) rpline else sayit "maildir " w
     else if flagdoit cf then mailfile cf message (cstr w) rpline else sayit "mbox " w);;?
    ok stay
  | 124%Z (* | *) =>
    let prog := cstr (tail w) in
    let x := skip_blanks prog in
    run_program cf only (tail w) (if decide (take 9 x = lit "filterit ") then filterit x else mailprogram prog);;?
    ok stay
  | 63%Z (* ? *) => act_branch (tail w) only
  | 43%Z (* + *) => ok (None, only || bool_decide (cstr (tail w) = lit "list"), [])
  | c =>
    let a := if decide (c = 38%Z (* & *)) then tail w else w in
    alter_l (λ s, set_counts (count_file s) (count_forward s + 1) (count_program s) s);;?
    if flagdoit cf then ok (None, only, [cstr a]) else sayit "forward " a;;? ok stay
  end.

(** The lines one after the other.  The rest after a branch is that after the line
    for which [has] holds of the label. *)
Fixpoint follow_by (has : bytes → bytes → bool) (rpline : bytes) (first : bool) (goto : option bytes) (ls : list bytes) (only : bool)
    (fwd : list bytes) : LM (list bytes) :=
  match ls, goto with
  | [], _ => ok fwd
  | l :: ls, Some w => follow_by has rpline false (if has w l then None else goto) ls only fwd
  | l :: ls, None =>
    a ←? act rpline first (strip l) only;
    let '(goto, only, f) := a in
    s ← getS;
    if flag99 s then ok (fwd ++ f) else follow_by has rpline false goto ls only (fwd ++ f)
  end.

(** As the program goes on, and as the manual says: behind the line with just that label. *)
#[local] Abbreviation follow := (follow_by labels).
Definition followed := follow_by has_label.

Definition goto_lines (goto : option bytes) (ls : list bytes) : list bytes :=
  match goto with Some w => after_label w ls | None => ls end.

Lemma follow_goto rpline goto ls only fwd :
  follow rpline false goto ls only fwd = follow rpline false None (goto_lines goto ls) only fwd.
Proof.
  destruct goto as [w|]; [|done]. induction ls as [|l ls IH]; [done|]. simpl. by destruct (labels w l).
Qed.

(** ** One line *)

Lemma cstr_zero a b : cstr (a ++ 0%Z :: b) = cstr a.
Proof. induction a as [|c a IH]; simpl; [done|]. case_decide; [done|]. by rewrite IH. Qed.
Lemma cstr_within a b : 0%Z ∈ a → cstr (a ++ b) = cstr a.
Proof. intros (c & d & ->)%list_elem_of_split. rewrite <- (assoc_L app). simpl. by rewrite !cstr_zero. Qed.
Lemma skip_blanks_split w : ∃ b, w = b ++ skip_blanks w ∧ upto (λ c, negb (blank c)) w = b.
Proof.
  induction w as [|c w (b & Hw & Hb)]; simpl; [by exists []|]. destruct (blank c); simpl; [|by exists []].
  exists (c :: b). simpl. by rewrite <- Hw, Hb.
Qed.

(** Where the loop is after a line, for the place in the array and for the lines. *)
Definition placed (pre : bytes) (ls : list bytes) (recips : list nat) (p : place)
    (a : option bytes * bool * list bytes) : Prop :=
  let '(goto, only, f) := a in
  pl_only p = only ∧ ∃ y ps,
    pl_cmds p = (pre ++ y) ++ unlines (goto_lines goto ls) ∧ pl_j p + 1 = length (pre ++ y) ∧
    pl_recips p = recips ++ ps ∧ map (λ q, cstr (drop q (pre ++ y))) ps = f ∧
    Forall (λ q, 0%Z ∈ drop q (pre ++ y)) ps.

Section line.
Context (rpline pre w : bytes) (m : nat) (ls : list bytes) (recips : list nat).
Hypothesis Hls : Forall (λ l, c_lf ∉ l) ls.

#[local] Abbreviation cmds := (pre ++ w ++ replicate m 0%Z ++ 0%Z :: unlines ls).
#[local] Abbreviation i := (length pre).
#[local] Abbreviation k := (length pre + length w).
#[local] Abbreviation j := (length pre + length w + m).

Lemma line_split : cmds = (pre ++ w ++ replicate m 0%Z ++ [0%Z]) ++ unlines ls.
Proof. rewrite <- !(assoc_L app). done. Qed.
Lemma zeros_split : ∃ z, replicate m 0%Z ++ 0%Z :: unlines ls = 0%Z :: z.
Proof. destruct m; by eexists. Qed.
Lemma drop_line_start : drop i cmds = w ++ replicate m 0%Z ++ 0%Z :: unlines ls.
Proof. by apply drop_middle. Qed.
Lemma take_line_word : take (k - i) (drop i cmds) = w.
Proof. rewrite drop_line_start. replace (k - i) with (length w) by lia. apply take_app_length. Qed.
Lemma cstr_line : cstr (drop i cmds) = cstr w.
Proof. rewrite drop_line_start. destruct zeros_split as [z ->]. apply cstr_zero. Qed.
Lemma cstr_tail c v : w = c :: v → cstr (drop (i + 1) cmds) = cstr v.
Proof.
  intros Hw. rewrite <- drop_drop, drop_line_start, Hw. destruct zeros_split as [z ->]. simpl.
  rewrite drop_0. apply cstr_zero.
Qed.

Lemma placed_stay only : placed pre ls recips (Place j cmds only recips) (None, only, []).
Proof.
  split; [done|]. exists (w ++ replicate m 0%Z ++ [0%Z]), []. split_and!; [by rewrite line_split| |by rewrite app_nil_r|done..].
  simpl. rewrite !length_app, length_replicate. simpl. lia.
Qed.
Lemma placed_forward only (a : bool) : w ≠ [] →
  placed pre ls recips (Place j cmds only (recips ++ [if a then i + 1 else i]))
    (None, only, [cstr (if a then tail w else w)]).
Proof.
  intros Hw. split; [done|]. exists (w ++ replicate m 0%Z ++ [0%Z]), [if a then i + 1 else i].
  assert (drop (if a then i + 1 else i) (pre ++ w ++ replicate m 0%Z ++ [0%Z]) =
          (if a then tail w else w) ++ replicate m 0%Z ++ [0%Z]) as E.
  { destruct a; [|by apply drop_middle]. rewrite <- drop_drop, drop_middle by done. by destruct w. }
  split_and!; [by rewrite line_split| |done| |].
  - simpl. rewrite !length_app, length_replicate. simpl. lia.
  - cbn [map]. rewrite E. f_equal. assert (∃ z, replicate m 0%Z ++ [0%Z] = 0%Z :: z) as [z ->] by (destruct m; by eexists).
    apply cstr_zero.
  - repeat constructor. rewrite E. set_solver.
Qed.

(** After the program of a branch: [q] are the bytes behind the label [u]. *)
Lemma sim_jump jj arr only u q (b : bool) :
  i + 1 + length u + length q = jj → arr = pre ++ (63%Z :: u) ++ q ++ 0%Z :: unlines ls → match q with c :: _ => c = 0%Z | [] => True end →
  Forall (λ c, blank c = false) u →
  sim (placed pre ls recips)
    (s ← getS;
     if b || flag99 s then
       alter_l (set_flag99 false);;?
       let cmds := <[jj := c_lf]> arr in
       ok (Place (goto_label (length cmds) cmds (i + 1) jj) cmds only recips)
     else ok (Place jj arr only recips))
    (s ← getS;
     if b || flag99 s then alter_l (set_flag99 false);;? ok (Some u, only, []) else ok (None, only, [])).
Proof.
  intros Hj -> Hq Hu. apply sim_get. intros s. destruct (b || flag99 s).
  - apply sim_same. intros _. apply sim_ok. cbv zeta.
    assert (<[jj := c_lf]> (pre ++ (63%Z :: u) ++ q ++ 0%Z :: unlines ls) =
            (pre ++ (63%Z :: u) ++ q) ++ c_lf :: unlines ls) as ->.
    { rewrite !(assoc_L app). apply insert_middle. rewrite !length_app. simpl. lia. }
    set (cmds2 := (pre ++ (63%Z :: u) ++ q) ++ c_lf :: unlines ls).
    replace jj with (length (pre ++ (63%Z :: u) ++ q)) by (rewrite !length_app; simpl; lia).
    destruct (goto_label_spec u (i + 1) (length cmds2) (pre ++ (63%Z :: u) ++ q) ls cmds2) as (y & Hy & Hg).
    + done.
    + done.
    + assert (drop (i + 1) cmds2 = u ++ q ++ c_lf :: unlines ls) as Hd.
      { unfold cmds2. rewrite <- drop_drop, <- !(assoc_L app), drop_middle by done. simpl. by rewrite drop_0. }
      destruct q as [|c q]; simpl in Hd, Hq.
      * by eapply compared_label; [exact Hd|].
      * subst c. by eapply compared_label; [exact Hd|].
    + unfold cmds2. rewrite length_app. simpl. lia.
    + split; [done|]. exists (((63%Z :: u) ++ q) ++ y), [].
      rewrite <- (assoc_L app pre) in Hy, Hg. split_and!; [exact Hy|exact Hg|by rewrite app_nil_r|done..].
  - apply sim_ok. split; [done|]. exists ((63%Z :: u) ++ q ++ [0%Z]), [].
    split_and!; [by rewrite <- !(assoc_L app)| |by rewrite app_nil_r|done..].
    cbn [pl_j]. rewrite !length_app. simpl. lia.
Qed.

(** The array of a branch with a program behind the label [u] and a blank. *)
Definition branch_array (u r : bytes) : bytes :=
  pre ++ (63%Z :: u) ++ (0%Z :: r ++ replicate m 0%Z) ++ 0%Z :: unlines ls.

Lemma branch_array_insert u b r : w = 63%Z :: u ++ b :: r →
  <[i + 1 + length u := 0%Z]> cmds = branch_array u r.
Proof.
  intros Hw. unfold branch_array. replace cmds with ((pre ++ 63%Z :: u) ++ b :: r ++ replicate m 0%Z ++ 0%Z :: unlines ls).
  - rewrite insert_middle by (rewrite length_app; simpl; lia).
    rewrite <- !(assoc_L app). cbn [app]. by rewrite <- !(assoc_L app).
  - rewrite Hw, <- (assoc_L app pre). cbn [app]. by rewrite <- (assoc_L app u).
Qed.

(** Where the program is found. *)
Lemma branch_array_program u r : length w = 2 + length u + length r → ∃ p,
  let arr := branch_array u r in
  seek_from (λ c, negb (blank c)) (length arr) k arr (i + 1 + length u + 1) = p ∧
  p + length (skip_blanks r) = k ∧
  take (k - p) (drop p arr) = skip_blanks r ∧ cstr (drop p arr) = cstr (skip_blanks r).
Proof.
  intros Hw. cbv zeta. set (arr := branch_array u r). destruct (skip_blanks_split r) as (b & Hb & Hu).
  assert (length r = length b + length (skip_blanks r)) as Hrl by (rewrite Hb at 1; apply length_app).
  assert (arr = (pre ++ (63%Z :: u) ++ [0%Z]) ++ r ++ replicate m 0%Z ++ 0%Z :: unlines ls) as Harr.
  { unfold arr, branch_array. rewrite <- !(assoc_L app). cbn [app]. by rewrite <- (assoc_L app). }
  assert (drop (i + 1 + length u + 1 + length b) arr = skip_blanks r ++ replicate m 0%Z ++ 0%Z :: unlines ls) as Hd.
  { rewrite Harr, <- drop_drop, drop_middle by (rewrite !length_app; simpl; lia).
    rewrite Hb at 1. rewrite <- (assoc_L app). by apply drop_middle. }
  exists (i + 1 + length u + 1 + length b). split; [|split; [lia|]].
  - rewrite Harr at 2. replace (i + 1 + length u + 1) with (length (pre ++ (63%Z :: u) ++ [0%Z]))
      by (rewrite !length_app; simpl; lia).
    rewrite seek_from_spec, Hu; [done|rewrite Harr, !length_app; lia|rewrite !length_app; simpl; lia].
  - rewrite Hd. destruct zeros_split as [z ->]. split; [|apply cstr_zero].
    replace (k - _) with (length (skip_blanks r)) by lia. by rewrite take_app_length.
Qed.

Lemma sim_branch only v : w = 63%Z :: v →
  sim (placed pre ls recips) (do_branch cf (i + 1) j k cmds only recips) (act_branch v only).
Proof.
  intros Hw. destruct (upto_split blank v) as (r & Hv & Hr). set (u := upto blank v) in *.
  assert (length v = length u + length r) as Hvl by (rewrite Hv at 1; apply length_app).
  assert (cmds = (pre ++ [63%Z]) ++ v ++ replicate m 0%Z ++ 0%Z :: unlines ls) as Hcmds
    by by rewrite Hw, <- (assoc_L app).
  assert (length w = 1 + length v) as Hwl by by rewrite Hw.
  unfold do_branch, act_branch. fold u.
  assert (seek_from blank (length cmds) k cmds (i + 1) = i + 1 + length u) as ->.
  { rewrite Hcmds at 2. replace (i + 1) with (length (pre ++ [63%Z])) by (by rewrite length_app).
    apply seek_from_spec; rewrite ?Hcmds, !length_app; simpl; lia. }
  assert (drop (length u) v = r) as -> by (rewrite Hv at 1; apply drop_app_length).
  destruct r as [|b r]; simpl in Hvl.
  - rewrite decide_False by lia. cbn [skip_blanks]. rewrite decide_True by done.
    apply (sim_bind (λ t _, t = (k, cmds))); [apply sim_ok; f_equal; lia|].
    intros t _ ->. cbv beta iota zeta. rewrite bool_decide_true, (bool_decide_true ([] = [])) by done.
    apply (sim_jump _ _ only u (replicate m 0%Z)); [rewrite length_replicate; lia| |by destruct m|apply upto_none].
    by rewrite Hw, Hv, app_nil_r.
  - rewrite decide_True by lia. cbn [skip_blanks]. rewrite Hr, (branch_array_insert u b r) by by rewrite Hw, Hv.
    destruct (branch_array_program u r ltac:(lia)) as (p & Hp & Hk & Ht & Hc). rewrite Hp, Ht, Hc.
    set (prog := skip_blanks r) in *.
    apply (sim_bind (λ t _, t = (p, branch_array u r))).
    + destruct (decide (prog = [])) as [E|E].
      * rewrite decide_False by (rewrite E in *; simpl in *; lia). by apply sim_ok.
      * rewrite decide_True by (destruct prog; [done|simpl in *; lia]). apply sim_then.
    + intros t _ ->. cbv beta iota zeta. replace (bool_decide (p = k)) with (bool_decide (prog = [])).
      * apply sim_jump with (0%Z :: r ++ replicate m 0%Z); [|done|done|apply upto_none].
        simpl. rewrite length_app, length_replicate. lia.
      * apply bool_decide_ext. destruct prog; simpl in Hk; [split; [lia|done]|split; [done|lia]].
Qed.

Lemma sim_stay {A} only (m1 m2 : LM A) : sim eq m1 m2 →
  sim (placed pre ls recips) (m1;;? ok (Place j cmds only recips)) (m2;;? ok (None, only, [])).
Proof. intros Hm. apply (sim_bind eq); [done|]. intros _ _ _. apply sim_ok, placed_stay. Qed.

Lemma sim_forward only (a : bool) : w ≠ [] →
  sim (placed pre ls recips)
    (let i := if a then i + 1 else i in
     alter_l (λ s, set_counts (count_file s) (count_forward s + 1) (count_program s) s);;?
     if flagdoit cf then ok (Place j cmds only (recips ++ [i]))
     else sayit "forward " (take (k - i) (drop i cmds));;? ok (Place j cmds only recips))
    (let a := if a then tail w else w in
     alter_l (λ s, set_counts (count_file s) (count_forward s + 1) (count_program s) s);;?
     if flagdoit cf then ok (None, only, [cstr a]) else sayit "forward " a;;? ok (None, only, [])).
Proof.
  intros Hw. cbv zeta. apply sim_same. intros _. destruct (flagdoit cf).
  - by apply sim_ok, placed_forward.
  - apply sim_stay.
    assert (take (k - (if a then i + 1 else i)) (drop (if a then i + 1 else i) cmds) = if a then tail w else w) as ->.
    { destruct a; [|apply take_line_word]. rewrite <- drop_drop, drop_line_start. destruct w as [|c v]; [done|].
      simpl. rewrite drop_0. replace (i + S (length v) - (i + 1)) with (length v) by lia. apply take_app_length. }
    apply sim_refl.
Qed.

Lemma sim_line only first : (first = true ↔ pre = []) →
  sim (placed pre ls recips) (do_line cf message fmt_xlong rpline i j k cmds only recips) (act rpline first w only).
Proof.
  intros Hfirst. destruct zeros_split as [z Hz].
  assert (cmds !!! i = default 0%Z (head w)) as Hhead.
  { rewrite Hz. destruct w as [|c v]; simpl; by apply nth_middle. }
  unfold do_line, act. rewrite take_line_word, cstr_line, Hhead.
  assert (sim (placed pre ls recips) (if decide (i = 0) then exit 111 else ok (Place j cmds only recips))
    (if first then exit 111 else ok (None, only, []))) as Hblank.
  { destruct first; [rewrite decide_True by (by rewrite (proj1 Hfirst))|rewrite decide_False]; [apply sim_exit| |].
    - apply sim_ok, placed_stay.
    - intros H. apply nil_length_inv in H. by apply Hfirst in H. }
  destruct (decide (w = [])) as [Ew|Hw].
  { replace (default 0%Z (head w)) with 0%Z by by rewrite Ew. exact Hblank. }
  set (c := default 0%Z (head w)).
  assert (w = c :: tail w) as Hwc by (unfold c; by destruct w).
  rewrite (cstr_tail c (tail w)) by done.
  assert (∀ A (x y : A), (if decide (cmds !!! (k - 1) = c_slash) then x else y) =
                         (if decide (last w = Some c_slash) then x else y)) as Hlast.
  { destruct (exists_last Hw) as (v & e & Hv). intros A x y. apply decide_ext.
    rewrite Hv, last_snoc, !length_app, <- (assoc_L app v), (assoc_L app pre).
    cbn [app]. rewrite nth_middle by (rewrite length_app; simpl; lia). naive_solver. }
  rewrite Hlast.
  assert (∀ P (d : Decision P), sim (placed pre ls recips)
    (let i := if decide P then i + 1 else i in
     alter_l (λ s, set_counts (count_file s) (count_forward s + 1) (count_program s) s);;?
     if flagdoit cf then ok (Place j cmds only (recips ++ [i]))
     else sayit "forward " (take (k - i) (drop i cmds));;? ok (Place j cmds only recips))
    (let a := if decide P then tail w else w in
     alter_l (λ s, set_counts (count_file s) (count_forward s + 1) (count_program s) s);;?
     if flagdoit cf then ok (None, only, [cstr a]) else sayit "forward " a;;? ok (None, only, []))) as Hforward.
  { intros P d. destruct (decide P); [by apply (sim_forward only true)|by apply (sim_forward only false)]. }
  assert (c = 63%Z → sim (placed pre ls recips) (do_branch cf (i + 1) j k cmds only recips) (act_branch (tail w) only))
    as Hbranch by (intros E; apply sim_branch; by rewrite <- E).
  clearbody c. clear Hhead Hwc Hlast.
  assert (∀ o, sim (placed pre ls recips) (ok (Place j cmds o recips)) (ok (None, o, []))) as Hstay
    by (intros o; apply sim_ok, placed_stay).
  cbv zeta in Hforward.
  destruct c as [|p|p]; [done| |by apply (Hforward (_ = _))].
  do 7 (try destruct p as [p|p|]).
  all: lazymatch goal with
       | |- sim _ (ok _) _ => apply Hstay
       | |- sim _ (do_branch _ _ _ _ _ _ _) _ => by apply Hbranch
       | |- context [decide (?c = 38%Z)] => apply (Hforward (c = 38%Z))
       | |- sim _ (_ ;;? ok _) (_ ;;? ok _) => apply sim_stay, sim_refl
       | |- sim _ (qbind _ _) _ => apply sim_same; intros t
       end.
  all: lazymatch type of t with
       | bool => destruct t; [apply sim_exit|apply Hstay]
       | unit => apply sim_stay, sim_refl
       end.
Qed.
End line.

(** ** The loop *)

(** The forwards: the texts in the array that the places are the starts of. *)
Definition forwards_of (r : bytes * list nat) : list bytes := map (λ q, cstr (drop q r.1)) r.2.

Lemma drop_within q (a b : bytes) : 0%Z ∈ drop q a →
  0%Z ∈ drop q (a ++ b) ∧ cstr (drop q (a ++ b)) = cstr (drop q a).
Proof.
  intros Hq. assert (q ≤ length a) as Hle.
  { destruct (decide (q ≤ length a)); [done|]. rewrite drop_ge in Hq by lia. set_solver. }
  rewrite drop_app_le by done. split; [set_solver|by apply cstr_within].
Qed.
Lemma forwards_within a b qs : Forall (λ q, 0%Z ∈ drop q a) qs →
  Forall (λ q, 0%Z ∈ drop q (a ++ b)) qs ∧ forwards_of (a ++ b, qs) = forwards_of (a, qs).
Proof.
  induction 1 as [|q qs Hq _ [IH1 IH2]]; [done|]. destruct (drop_within q a b Hq) as [H1 H2].
  split; [by constructor|]. unfold forwards_of in *. simpl in *. by rewrite H2, IH2.
Qed.

Lemma goto_lines_suffix g ls : ∃ p, ls = p ++ goto_lines g ls.
Proof.
  destruct g as [w|]; [|by exists []]. simpl. induction ls as [|l ls (p & IH)]; [by exists []|]. simpl.
  destruct (labels w l); [by exists [l]|]. exists (l :: p). simpl. by rewrite <- IH.
Qed.

Lemma line_loop_scan rpline fuel i pre l z only recips : c_lf ∉ l →
  line_loop cf message fmt_xlong (length l + fuel) rpline i (length pre) (pre ++ l ++ z) only recips =
  line_loop cf message fmt_xlong fuel rpline i (length pre + length l) (pre ++ l ++ z) only recips.
Proof.
  revert pre. induction l as [|c l IH]; intros pre Hl; [by rewrite Nat.add_0_r|].
  apply not_elem_of_cons in Hl as [Hc Hl]. cbn [length Nat.add line_loop].
  rewrite decide_False by (rewrite length_app; simpl; lia).
  cbn [app]. rewrite nth_middle, decide_False by done.
  specialize (IH (pre ++ [c]) Hl). rewrite length_app, <- (assoc_L app) in IH. simpl in IH.
  rewrite IH. f_equal. lia.
Qed.

(** A line is found and its end removed. *)
Lemma line_loop_line rpline fuel pre l ls only recips : c_lf ∉ l →
  ∃ m, m = length l - length (strip l) ∧
  let k := length pre + length (strip l) in
  line_loop cf message fmt_xlong (length l + S fuel) rpline (length pre) (length pre) (pre ++ unlines (l :: ls)) only recips =
  (p ←? do_line cf message fmt_xlong rpline (length pre) (k + m) k
          (pre ++ strip l ++ replicate m 0%Z ++ 0%Z :: unlines ls) only recips;
   s ← getS;
   if flag99 s then ok (pl_cmds p, pl_recips p)
   else line_loop cf message fmt_xlong fuel rpline (pl_j p + 1) (pl_j p + 1) (pl_cmds p) (pl_only p) (pl_recips p)).
Proof.
  intros Hl. eexists. split; [done|]. cbv zeta. rewrite unlines_cons, line_loop_scan by done. cbn [line_loop].
  rewrite decide_False by (rewrite !length_app; simpl; lia).
  rewrite (assoc_L app), nth_middle, decide_True by (done || by rewrite length_app).
  rewrite insert_middle by by rewrite length_app.
  rewrite <- !(assoc_L app pre), trim_spec by (rewrite !length_app; lia).
  pose proof (strip_length l). replace (length pre + length (strip l) + (length l - length (strip l)))
    with (length pre + length l) by lia. done.
Qed.

Lemma sim_loop rpline n ls fuel pre first only recips :
  length ls ≤ n → Forall (λ l, c_lf ∉ l) ls → length (unlines ls) < fuel → (first = true ↔ pre = []) →
  Forall (λ q, 0%Z ∈ drop q pre) recips →
  sim (λ r fwd, forwards_of r = fwd ∧ Forall (λ q, 0%Z ∈ drop q r.1) r.2)
    (line_loop cf message fmt_xlong fuel rpline (length pre) (length pre) (pre ++ unlines ls) only recips)
    (follow rpline first None ls only (forwards_of (pre, recips))).
Proof.
  revert ls fuel pre first only recips. induction n as [|n IH]; intros ls fuel pre first only recips Hn Hls Hf Hfirst Hr.
  all: destruct ls as [|l ls]; [destruct fuel as [|fuel]; [lia|]; cbn [line_loop follow_by]|simpl in Hn].
  1, 3: rewrite app_nil_r, decide_True by done; by apply sim_ok.
  { lia. }
  apply Forall_cons in Hls as [Hl Hls]. rewrite unlines_cons, length_app in Hf. simpl in Hf.
  replace fuel with (length l + S (fuel - S (length l))) by lia.
  destruct (line_loop_line rpline (fuel - S (length l)) pre l ls only recips Hl) as (m & _ & ->).
  cbn [follow_by]. eapply sim_bind; [by apply sim_line|].
  intros p [[g o] f] (Ho & y & ps & Hc & Hj & Hps & Hfw & Hz).
  destruct (forwards_within pre y recips Hr) as [Hr' Efw].
  assert (Forall (λ q, 0%Z ∈ drop q (pre ++ y)) (recips ++ ps)) as Hall by by apply Forall_app.
  assert (forwards_of (pre ++ y, recips ++ ps) = forwards_of (pre, recips) ++ f) as Eall.
  { rewrite <- Efw. unfold forwards_of in *. simpl. by rewrite map_app, Hfw. }
  apply sim_get. intros s. rewrite Hc, Hj, Hps, Ho. destruct (flag99 s).
  - apply sim_ok. rewrite <- Eall. split; by apply forwards_within.
  - rewrite follow_goto, <- Eall. destruct (goto_lines_suffix g ls) as (q & Hq).
    apply IH; [| | |split; [done|]|done].
    + apply (f_equal length) in Hq. rewrite length_app in Hq. lia.
    + rewrite Hq in Hls. by apply Forall_app in Hls as [_ ?].
    + assert (length (unlines (goto_lines g ls)) ≤ length (unlines ls)); [|lia].
      rewrite Hq at 2. rewrite unlines_app, length_app. lia.
    + intros E. rewrite E in Hj. simpl in Hj. lia.
Qed.

Lemma unlines_lines s : last s = Some c_lf → unlines (lines_of s) = s.
Proof.
  induction s as [|c s IH]; [done|]. intros Hs. simpl.
  destruct (decide (c = c_lf)) as [->|Hc].
  - unfold unlines in *. simpl. destruct s; [done|]. f_equal. by apply IH.
  - destruct s as [|c' s]; [by injection Hs as ->|]. specialize (IH Hs).
    destruct (lines_of (c' :: s)) as [|l ls] eqn:E; [done|].
    rewrite unlines_cons in *. simpl. by rewrite IH.
Qed.

Lemma sim_lines rpline cmds only : last cmds = Some c_lf →
  sim (λ r fwd, forwards_of r = fwd ∧ Forall (λ q, 0%Z ∈ drop q r.1) r.2)
    (line_loop cf message fmt_xlong (S (length cmds)) rpline 0 0 cmds only [])
    (follow rpline true None (lines_of cmds) only []).
Proof.
  intros Hl. rewrite <- (unlines_lines cmds Hl) at 1 2.
  apply (sim_loop rpline (length (lines_of cmds)) (lines_of cmds) _ [] true only []);
    [done|apply lines_no_lf|lia|done|done].
Qed.

(** ** What a line gives *)

(** Every result of the computation has the property. *)
Definition gives {A} (P : A → Prop) (m : LM A) : Prop := ∀ s a, (m s).1 = inr a → P a.

Lemma gives_ok {A} (P : A → Prop) a : P a → gives P (ok a).
Proof. by intros H s ? [= <-]. Qed.
Lemma gives_exit {A} (P : A → Prop) e : gives P (exit e : LM A).
Proof. by intros s a. Qed.
Lemma gives_bind {A C} (P : A → Prop) (m : LM C) (k : C → LM A) :
  (∀ c, gives P (k c)) → gives P (qbind m k).
Proof.
  intros Hk s a. unfold qbind, mbind, ST_bind. destruct (m s) as [[e|c] s']; [done|]. apply Hk.
Qed.
Lemma gives_get {A} (P : A → Prop) (k : qlocal → LM A) :
  (∀ s, gives P (k s)) → gives P (s ← getS; k s).
Proof. intros Hk s. apply Hk. Qed.
Lemma gives_mono {A} (P Q : A → Prop) (m : LM A) : gives P m → (∀ a, P a → Q a) → gives Q m.
Proof. intros H HQ s a Ha. by eapply HQ, H. Qed.

(** The label to go on from, if there is one, is the one of the branch, which has no
    forwards; other lines have one forward at most, those [main] does not count none. *)
Definition line_gives (v : bytes) (a : option bytes * bool * list bytes) : Prop :=
  (∀ w, a.1.1 = Some w → ∃ t, v = 63%Z :: t ∧ w = upto blank t) ∧
  length a.2 ≤ if bool_decide (default 0%Z (head v) ∈ [37; 35; 46; 47; 124]%Z) then 0 else 1.

Lemma act_gives rpline first v only : gives (line_gives v) (act rpline first v only).
Proof.
  unfold act, line_gives. destruct (decide (head v = Some 63%Z)) as [Hh|Hh].
  { destruct v as [|c t]; [done|]. injection Hh as ->. simpl. unfold act_branch.
    apply gives_bind. intros _. apply gives_get. intros s.
    destruct (_ || _); [apply gives_bind; intros _|]; apply gives_ok; simpl; (split; [|lia]); [|done].
    intros w [= <-]. eauto. }
  assert (default 0%Z (head v) ≠ 63%Z) as Hc by (destruct v; simpl in *; congruence).
  set (c := default 0%Z (head v)) in *. clearbody c.
  apply (gives_mono (λ a, a.1.1 = None ∧
    length a.2 ≤ if bool_decide (c ∈ [37; 35; 46; 47; 124]%Z) then 0 else 1)).
  2:{ intros [[g o] f] [Hg Hf]. simpl in *. split; [by rewrite Hg|done]. }
  assert (∀ P (d : Decision P) n, 1 ≤ n →
    gives (λ a : option bytes * bool * list bytes, a.1.1 = None ∧ length a.2 ≤ n)
    (let a := if decide P then tail v else v in
     alter_l (λ s, set_counts (count_file s) (count_forward s + 1) (count_program s) s);;?
     if flagdoit cf then ok (None, only, [cstr a]) else sayit "forward " a;;? ok (None, only, [])))
    as Hforward.
  { intros P d n Hn. apply gives_bind. intros _. destruct (flagdoit cf); [by apply gives_ok|].
    apply gives_bind. intros _. apply gives_ok. simpl. split; [done|lia]. }
  assert (∀ n o, gives (λ a : option bytes * bool * list bytes, a.1.1 = None ∧ length a.2 ≤ n)
    (ok (None, o : bool, []))) as Hstay by (intros; apply gives_ok; simpl; split; [done|lia]).
  cbv zeta in Hforward.
  destruct c as [|p|p]; [by destruct first; [apply gives_exit|apply Hstay]| |by apply (Hforward (_ = _))].
  do 7 (try destruct p as [p|p|]).
  all: lazymatch goal with
       | |- gives _ (ok _) => apply Hstay
       | |- gives _ (act_branch _ _) => by destruct Hc
       | |- context [decide (?c = 38%Z)] => by apply (Hforward (c = 38%Z))
       | |- gives _ (qbind _ _) => apply gives_bind; intros t
       end.
  all: first [apply Hstay|destruct t; [apply gives_exit|apply Hstay]|apply gives_bind; intros; apply Hstay].
Qed.

(** Labels that are clear are found where the manual says. *)
Lemma followed_clear rpline ls : ∀ first goto only fwd s,
  clear_labels ls → (∀ w, goto = Some w → clear_for ls w) →
  follow rpline first goto ls only fwd s = followed rpline first goto ls only fwd s.
Proof.
  unfold followed. induction ls as [|l ls IH]; intros first goto only fwd s Hc Hg; [by destruct goto|].
  apply clear_tail in Hc as Hc'. destruct goto as [w|]; cbn [follow_by].
  - specialize (Hg w eq_refl). rewrite (labels_clear w l ls) by done.
    apply IH; [done|]. intros v. destruct (has_label w l); [done|]. intros [= <-]. by eapply clear_for_tail.
  - unfold qbind, mbind, ST_bind. pose proof (act_gives rpline first (strip l) only s) as Ha.
    destruct (act _ _ _ _ s) as [[e|[[g o] f]] s']; [done|]. specialize (Ha _ eq_refl) as [Ha _].
    unfold getS. destruct (flag99 s'); [done|]. apply IH; [done|]. intros w ->.
    destruct (Ha w eq_refl) as (x & Hx & ->).
    unfold clear_labels in Hc. cbn in Hc. unfold branch_label in Hc at 1. rewrite Hx in Hc.
    rewrite decide_True in Hc by done. apply Forall_cons in Hc as [Hw _]. by eapply clear_for_tail.
Qed.

(** C36. The loop over the bytes of a .qmail file does what the lines say one after the
    other: each line without its trailing white space is acted on with the whole text
    it has, a branch that is taken goes on behind the next line with its label, exit
    code 99 ends the list, and the places that are kept are the starts of exactly the
    addresses to forward to, in their order.  No label in the file may be a proper
    start of the label of a branch: the program would stop there
    ([LocalRun.start_of_label]). *)
Theorem lines_followed rpline cmds only : last cmds = Some c_lf → clear_labels (lines_of cmds) →
  sim (λ r fwd, forwards_of r = fwd)
    (line_loop cf message fmt_xlong (S (length cmds)) rpline 0 0 cmds only [])
    (followed rpline true None (lines_of cmds) only []).
Proof.
  intros Hl Hc s. rewrite <- followed_clear by done.
  apply (sim_mono _ (λ r fwd, forwards_of r = fwd) _ _ (sim_lines rpline cmds only Hl)).
  by intros r fwd [].
Qed.

(** ** The array of forwards *)

(** The lines that [main] counts. *)
Definition counted (l : bytes) : bool := negb (bool_decide (default c_lf (head l) ∈ [37; 35; 46; 47; 124]%Z)).

Lemma head_strip c l : blank c = false → head (strip (c :: l)) = Some c.
Proof.
  intros Hc. induction l as [|x l IH] using rev_ind.
  - change [c] with ([] ++ [c]). by rewrite strip_other.
  - rewrite app_comm_cons. destruct (blank x) eqn:E; [by rewrite strip_blank|by rewrite strip_other].
Qed.
Lemma counted_strip l : counted l = false → default 0%Z (head (strip l)) ∈ [37; 35; 46; 47; 124]%Z.
Proof.
  unfold counted. intros H. apply negb_false_iff, bool_decide_eq_true in H.
  destruct l as [|c l]; [set_solver|]. simpl in H. rewrite head_strip; [done|].
  apply bool_decide_false. set_solver.
Qed.

Lemma follow_few rpline ls : ∀ first goto only fwd s r,
  (follow rpline first goto ls only fwd s).1 = inr r →
  length r ≤ length fwd + length (filter counted ls).
Proof.
  induction ls as [|l ls IH]; intros first goto only fwd s r; [by destruct goto; intros [= <-]; simpl; lia|].
  assert (length (filter counted ls) ≤ length (filter counted (l :: ls))) as Hle.
  { rewrite filter_cons. case_decide; simpl; lia. }
  destruct goto as [w|]; cbn [follow_by]; [intros H%IH; lia|].
  unfold qbind, mbind, ST_bind. destruct (act _ _ _ _ s) as [[e|[[g o] f]] s1] eqn:Ea; [done|].
  pose proof (act_gives rpline first (strip l) only s (g, o, f)) as Hf. rewrite Ea in Hf.
  specialize (Hf eq_refl) as [_ Hf]. simpl in Hf.
  assert (length f + length (filter counted ls) ≤ length (filter counted (l :: ls))) as Hfl.
  { rewrite filter_cons. destruct (decide (counted l)) as [Hc|Hc]; [revert Hf; destruct (bool_decide _); simpl; lia|].
    rewrite bool_decide_true in Hf; [lia|]. apply counted_strip. by destruct (counted l). }
  unfold getS. simpl. destruct (flag99 s1).
  - intros [= <-]. rewrite length_app. lia.
  - intros H%IH. rewrite length_app in H. lia.
Qed.

Lemma count_scan fuel pre l z i n : c_lf ∉ l →
  count_loop (length l + fuel) (pre ++ l ++ z) i (length pre) n =
  count_loop fuel (pre ++ l ++ z) i (length pre + length l) n.
Proof.
  revert pre. induction l as [|c l IH]; intros pre Hl; [by rewrite Nat.add_0_r|].
  apply not_elem_of_cons in Hl as [Hc Hl]. cbn [length Nat.add count_loop].
  rewrite decide_False by (rewrite length_app; simpl; lia).
  cbn [app]. rewrite nth_middle, decide_False by done.
  specialize (IH (pre ++ [c]) Hl). rewrite length_app, <- (assoc_L app) in IH. simpl in IH.
  rewrite IH. f_equal. lia.
Qed.
Lemma count_spec ls : Forall (λ l, c_lf ∉ l) ls → ∀ fuel pre n, length (unlines ls) ≤ fuel →
  count_loop fuel (pre ++ unlines ls) (length pre) (length pre) n = n + length (filter counted ls).
Proof.
  induction 1 as [|l ls Hl _ IH]; intros fuel pre n Hf.
  { rewrite Nat.add_0_r. destruct fuel; cbn [count_loop]; [done|]. by rewrite app_nil_r, decide_True. }
  rewrite unlines_cons, length_app in *. simpl in Hf.
  replace fuel with (length l + S (fuel - S (length l))) by lia. rewrite count_scan by done. cbn [count_loop].
  rewrite decide_False by (rewrite !length_app; simpl; lia).
  assert (∀ m, count_loop (fuel - S (length l)) (pre ++ l ++ c_lf :: unlines ls) (length pre + length l + 1)
      (length pre + length l + 1) m = m + length (filter counted ls)) as Hrest.
  { intros m. specialize (IH (fuel - S (length l)) (pre ++ l ++ [c_lf]) m ltac:(lia)).
    rewrite !length_app, <- !(assoc_L app) in IH. simpl in IH. rewrite Nat.add_assoc in IH. exact IH. }
  assert ((pre ++ l ++ c_lf :: unlines ls) !!! length pre = default c_lf (head l)) as ->.
  { destruct l; by apply nth_middle. }
  rewrite (assoc_L app), nth_middle, decide_True by (done || by rewrite length_app).
  rewrite <- (assoc_L app), Hrest, filter_cons. unfold counted.
  destruct (bool_decide _); [rewrite decide_False by (by intros [])|rewrite decide_True by done]; simpl; lia.
Qed.

(** The array for the forwards is large enough: however deliveries end, the loop
    keeps at most as many places as the first loop over the file has counted, and
    each is the start of a string that ends within the file. *)
Lemma forwards_fit rpline cmds only s r : last cmds = Some c_lf →
  (line_loop cf message fmt_xlong (S (length cmds)) rpline 0 0 cmds only [] s).1 = inr r →
  length r.2 ≤ count_loop (length cmds) cmds 0 0 0 ∧ Forall (λ q, 0%Z ∈ drop q r.1) r.2.
Proof.
  intros Hl Hr. pose proof (sim_lines rpline cmds only Hl s) as [_ Hs]. rewrite Hr in Hs.
  destruct (follow _ _ _ _ _ _ s).1 as [|fwd] eqn:Ef; [done|]. destruct Hs as [<- Hz]. split; [|done].
  apply follow_few in Ef. unfold forwards_of in Ef. rewrite length_map in Ef.
  pose proof (count_spec (lines_of cmds) (lines_no_lf cmds) (length cmds) [] 0) as Hc.
  rewrite unlines_lines in Hc by done. simpl in *. rewrite Hc by done. lia.
Qed.
End lines.
