(* ===== verification/LocalRun.v ===== *)
(** * Local deliveries, run

    The theorems at concrete inputs. *)

From S2P Require Import Prelude LibQmail Filesys Quote Control QmailQueue Qmail SmtpdTheorems Local LocalMain LocalMailbox LocalMaildir LocalLines.

Module LocalRun.

Definition conf (contents : bytes) : local_conf :=
  LocalConf true (lit "joe") (lit "-") (lit "list") (lit "example.org") (lit "bob@example.net") (lit "./Maildir/")
    true false 77 (lit "mx:1") 5 (λ i, Z.of_nat i) (lit "Mon Jan  1 00:00:00 2024" ++ [c_lf]) (Some 448%Z)
    None (Some (-1)%Z) (λ n, if decide (n = lit ".qmail-default") then Regular 384 (Some contents) else NoFile)
    (λ _, Some false) (λ a, (0%Z, a)) (Some []) (λ _ _, Child true (Exited 0) None) 78.
#[local] Existing Instance reference_libqmail.
Definition fmt_xlong (z : Z) : bytes := decimal z.

Definition message : list bytes := [lit "Subject: x" ++ [c_lf; c_lf] ++ lit "Fr"; lit "om here" ++ [c_lf] ++ lit ">>From"; lit " there"].
Definition s0 (faults : list bool) (kills : list (option kill)) : qlocal :=
  QLocal (World {[lit "./Mailbox" := 1]} {[1 := Inode (lit "old") 0 0]} 2 faults 0 []) kills [] [] [(1, 2)%Z] [Exited 99] []
    ∅ [] false [] None [] 0 0 0.

(** A mailbox: the whole entry; with a failing write and the lock, nothing; without
    the lock, a part. *)
Example mailbox_done :
  let '(r, s) := mailfile (conf []) message (lit "./Mailbox") (lit "Return-Path: <>" ++ [c_lf]) (s0 [] []) in
  r = inr tt ∧ contents (lw s) (lit "./Mailbox") =
    lit "oldFrom bob@example.netMon Jan  1 00:00:00 2024" ++ [c_lf] ++ lit "Return-Path: <>" ++ [c_lf] ++
    lit "Delivered-To: joe@example.org" ++ [c_lf] ++ lit "Subject: x" ++ [c_lf; c_lf] ++
    lit ">From here" ++ [c_lf] ++ lit ">>>From there" ++ [c_lf; c_lf] ∧
  disk s !! 1 = Some (contents (lw s) (lit "./Mailbox")).
Proof. by vm_compute. Qed.

(** The eighth call is the write of the second line. *)
Definition bad_write : list bool := replicate 8 false ++ [true].
Example mailbox_cut :
  let '(r, s) := mailfile (conf []) message (lit "./Mailbox") [] (s0 bad_write []) in
  r = inl 111%Z ∧ contents (lw s) (lit "./Mailbox") = lit "old".
Proof. by vm_compute. Qed.
Example mailbox_part :
  let '(r, s) := mailfile (conf []) message (lit "./Mailbox") [] (set_locks [NotLocked] (s0 bad_write [])) in
  r = inl 111%Z ∧ 60 < length (contents (lw s) (lit "./Mailbox")) < 110.
Proof. vm_compute. split; [done|]. lia. Qed.

Definition one (text : bytes) : delivery :=
  Delivery (conf []) (lit "Mon Jan  1 00:00:00 2024") (lit "Return-Path: <>") [lit "X-Note: y"] text.
Lemma mailbox_read_back_witness :
  read_mailbox (mjoin (map d_entry [one (mjoin message); one []])) =
  [(lit "From bob@example.netMon Jan  1 00:00:00 2024",
    [lit "Return-Path: <>"; lit "Delivered-To: joe@example.org"; lit "X-Note: y"; lit "Subject: x"; [];
     lit "From here"; lit ">>From there"]);
   (lit "From bob@example.netMon Jan  1 00:00:00 2024",
    [lit "Return-Path: <>"; lit "Delivered-To: joe@example.org"; lit "X-Note: y"])].
Proof.
  rewrite (mailbox_read_back [one (mjoin message); one []]).
  - by vm_compute.
  - repeat constructor; by apply (bool_decide_eq_true _).
Defined.

(** A maildir: the message is there; a crash before the link leaves the file in tmp
    only, one after it leaves both names and the delivery is tried again. *)
Definition deliver (kills : list (option kill)) : (Z + unit) * list (bytes * nat) :=
  let '(r, s) := maildir (conf []) message fmt_xlong (lit "./Maildir/") [] (s0 [] kills) in
  (r, map_to_list (delete (lit "./Mailbox") (names (lw s)))).
Definition tmp_name : bytes := lit "./Maildir/tmp/1.M2P77.mx0721".
Definition new_name_ : bytes := lit "./Maildir/new/1.I2V5M2P77.mx0721,S=64".
Example maildir_done : deliver [] = (inr tt, [(new_name_, 2)]).
Proof. by vm_compute. Qed.
Example maildir_crash : deliver (replicate 10 None ++ [Some Crash]) = (inl 111%Z, [(tmp_name, 2)]).
Proof. by vm_compute. Qed.

Example maildir_twice : deliver (replicate 16 None ++ [Some Crash]) = (inl 111%Z, [(new_name_, 2); (tmp_name, 2)]).
Proof. by vm_compute. Qed.

(** A branch whose program exits with 99 goes on behind the line with its label. *)
Definition dotqmail_lines (label : string) : bytes :=
  mjoin (map (λ l, lit l ++ [c_lf])
    ["# list"; "?office test -f away"; "not@example.org"; label; "&a@example.org  "; "b@example.org";
     ":office"; "c@example.org"]%string).
Definition dotqmail_text : bytes := dotqmail_lines ":home".
Lemma lines_followed_witness :
  match (line_loop (conf []) message fmt_xlong (S (length dotqmail_text)) [] 0 0 dotqmail_text false [] (s0 [] [])).1 with
  | inr r => forwards_of r = [lit "c@example.org"]
  | inl _ => False
  end.
Proof.
  assert (clear_labels (lines_of dotqmail_text)) as Hc
    by (apply (bool_decide_eq_true _); vm_compute; reflexivity).
  destruct (lines_followed (conf []) message fmt_xlong [] dotqmail_text false eq_refl Hc (s0 [] [])) as [_ H].
  assert ((followed (conf []) message fmt_xlong [] true None (lines_of dotqmail_text) false [] (s0 [] [])).1 =
          inr [lit "c@example.org"]) as E by (vm_compute; reflexivity).
  rewrite E in H. destruct (line_loop _ _ _ _ _ _ _ _ _ _ _).1; exact H.
Defined.

(** The program stops at a label that is a start of the one of the branch, where the
    manual says that it goes on behind the corresponding one. *)
Example start_of_label :
  let text := dotqmail_lines ":off" in
  match (line_loop (conf []) message fmt_xlong (S (length text)) [] 0 0 text false [] (s0 [] [])).1 with
  | inr r => forwards_of r = [lit "a@example.org"; lit "b@example.org"; lit "c@example.org"]
  | inl _ => False
  end ∧
  (followed (conf []) message fmt_xlong [] true None (lines_of text) false [] (s0 [] [])).1 = inr [lit "c@example.org"].
Proof. by vm_compute. Qed.

Lemma forwards_fit_witness : ∃ r,
  (line_loop (conf []) message fmt_xlong (S (length dotqmail_text)) [] 0 0 dotqmail_text false [] (s0 [] [])).1 = inr r ∧
  length r.2 ≤ 7.
Proof.
  destruct (line_loop (conf []) message fmt_xlong (S (length dotqmail_text)) [] 0 0 dotqmail_text false [] (s0 [] [])).1
    as [e|r] eqn:E; [exfalso; vm_compute in E; discriminate E|].
  exists r. split; [reflexivity|].
  apply (forwards_fit (conf []) message fmt_xlong [] dotqmail_text false (s0 [] []) r eq_refl E).
Defined.

(** The whole program: the file of the default, and the forward. *)
Example forwarded_to :
  let '(r, s) := local_main (conf dotqmail_text) message fmt_xlong id (s0 [] []) in
  r = inl 0%Z ∧ said s = lit "did 0+1+1" ++ [c_lf] ++ lit "qp 78" ++ [c_lf] ∧
  option_map to_env (forwarded s) =
    Some (lit "Fbob@example.net" ++ [0%Z] ++ lit "Tc@example.org" ++ [0%Z; 0%Z]).
Proof. by vm_compute. Qed.
End LocalRun.
