(* ===== verification/Users.v ===== *)
(** * Users: [qmail-pw2u.c], [qmail-newu.c], [qmail-lspawn.c] and [qmail-getpw.c]

    Which user a local address belongs to.  qmail-pw2u makes lines of users/assign
    from the accounts of the system, qmail-newu makes users/cdb of them, and
    qmail-lspawn looks an address up in it before it runs qmail-local; for an address
    that is not there, it asks qmail-getpw.

    cdb is part of libqmail: a file is what was added to it, and the interface [Cdb]
    states that a search finds the first record of a key.  [case_lowerb],
    [getpwnam], constmaps and [stat] are inputs.  Memory allocation succeeds; output through
    substdio is written.  qmail-lspawn is modelled where AUTHSELF is not set, so that
    no library for virtual domains is loaded. *)

From S2P Require Import Prelude LibQmail Control Spawn QmailQueue.

(** ** Constant databases *)

(** [cdb_seek] with [cdb_bread]: an error, nothing, or what is found. *)
Inductive cdb_answer := Broken | Missing | Entry (d : bytes).

Class Cdb := {
  cdb : Type;
  cdb_make : list (bytes * bytes) → cdb;
  cdb_seek : cdb → bytes → cdb_answer
}.

Fixpoint first_record (k : bytes) (rs : list (bytes * bytes)) : option bytes :=
  match rs with
  | [] => None
  | (k', d) :: rs => if decide (k' = k) then Some d else first_record k rs
  end.

Class CdbLaws (C : Cdb) : Prop :=
  cdb_seek_ok rs k : cdb_seek (cdb_make rs) k = match first_record k rs with Some d => Entry d | None => Missing end.

#[export] Instance reference_cdb : Cdb := {|
  cdb := list (bytes * bytes); cdb_make := id;
  cdb_seek rs k := match first_record k rs with Some d => Entry d | None => Missing end |}.
#[export] Instance reference_cdb_laws : CdbLaws reference_cdb.
Proof. done. Qed.

(** ** qmail-newu *)

(** Up to the [n]th colon, with zero bytes for the colons before. *)
Fixpoint cut_colons (n : nat) (data : bytes) : option bytes :=
  match data with
  | [] => None
  | c :: r =>
    if decide (c = c_colon) then
      match n with
      | 0 | 1 => Some []
      | S n => cons 0%Z <$> cut_colons n r
      end
    else cons c <$> cut_colons n r
  end.

Section Newu.
Context {L : LibQmail} {C : Cdb} (case_lower : bytes → bytes).

(** The next calls that fail, what was added to cdb.tmp, and users/cdb. *)
Record newu := Newu { fails : list bool; tmp : list (bytes * bytes); cdb_file : option cdb }.

Definition ncall : ST newu (Z + unit) := λ s,
  match fails s with
  | true :: l => (inl 111%Z, Newu l (tmp s) (cdb_file s))
  | l => (inr tt, Newu (tail l) (tmp s) (cdb_file s))
  end.
Definition cdbmss_add (k d : bytes) : ST newu (Z + unit) :=
  ncall;;? modify (λ s, Newu (fails s) (tmp s ++ [(k, d)]) (cdb_file s));; ok tt.

(** A line: its key and data, and the wildcards with it; [None] is [die_format]. *)
Definition newu_line (wildchars line : bytes) : option (bytes * bytes * bytes) :=
  let i := byte_chr line c_colon in
  if decide (byte_chr line 0 < length line ∨ i = length line ∨ i = 0) then None
  else
    let key := case_lower (lit "!" ++ take (i - 1) (drop 1 line)) in
    let c := line !!! (i - 1) in
    let '(key, wildchars) :=
      if decide (line !! 0 = Some c_plus) then
        (key, if decide (2 ≤ i ∧ byte_chr wildchars c = length wildchars) then wildchars ++ [c] else wildchars)
      else (key ++ [0%Z], wildchars) in
    match cut_colons 6 (drop (i + 1) line) with
    | Some data => Some (key, data, wildchars)
    | None => None
    end.

Fixpoint newu_loop (fuel : nat) (rest wildchars : bytes) : ST newu (Z + bytes) :=
  match fuel with
  | 0 => ok wildchars
  | S fuel =>
    ncall;;?
    let '(line, found) := line_by c_lf rest in
    if decide (line !! 0 = Some c_dot) then ok wildchars
    else if negb found then mret (inl 111%Z)
    else
      match newu_line wildchars line with
      | None => mret (inl 111%Z)
      | Some (key, data, wildchars) =>
        cdbmss_add key data;;? newu_loop fuel (drop (length line) rest) wildchars
      end
  end.

(** [main] on users/assign; the calls are chdir, the two opens and [cdbmss_start],
    then those at the end. *)
Definition newu_main (assign : bytes) : ST newu (Z + unit) :=
  ncall;;? ncall;;? ncall;;? ncall;;?
  modify (λ s, Newu (fails s) [] (cdb_file s));;
  wildchars ←? newu_loop (S (length assign)) assign [];
  cdbmss_add [] wildchars;;?
  ncall;;? ncall;;? ncall;;? ncall;;?
  modify (λ s, Newu (fails s) (tmp s) (Some (cdb_make (tmp s))));; ok tt.
End Newu.
Arguments newu {_}.

(** ** qmail-getpw *)

Record passwd := Passwd { pw_name : bytes; pw_uid : Z; pw_gid : Z; pw_dir : bytes }.

(** [getpwnam]: [Busy] is the error ETXTBSY. *)
Inductive pwresult := NoUser | Busy | User (pw : passwd).
Inductive home := OwnedBy (uid : Z) | Unreachable | NoHome.

Definition GETPW_USERLEN : nat := 32.

Section Getpw.
Context {L : LibQmail} (case_lower : bytes → bytes) (getpwnam : bytes → pwresult) (stat_home : bytes → home).
Context (auto_break : option Z) (auto_usera : bytes).

(** The loop of [userext] from [extension = local + i] on. *)
Fixpoint userext (i : nat) (local : bytes) : Z + option (passwd * bytes * bytes) :=
  let next := match i with 0 => inr None | S i => userext i local end in
  if decide (i < GETPW_USERLEN ∧ (local !! i = None ∨ local !! i = auto_break)) then
    match getpwnam (case_lower (take i local)) with
    | Busy => inl QLX_SYS
    | NoUser => next
    | User pw =>
      if decide (pw_uid pw = 0%Z) then next
      else
        match stat_home (pw_dir pw) with
        | OwnedBy u =>
          if decide (u = pw_uid pw) then
            inr (Some (pw, if decide (i < length local) then lit "-" else [], drop (i + 1) local))
          else next
        | Unreachable => inl QLX_NFS
        | NoHome => next
        end
    end
  else next.

Definition zstring (s : bytes) : bytes := s ++ [0%Z].
Definition put_passwd (pw : passwd) (dash extension : bytes) : bytes :=
  zstring (pw_name pw) ++ zstring (fmt_ulong (pw_uid pw)) ++ zstring (fmt_ulong (pw_gid pw)) ++
  zstring (pw_dir pw) ++ zstring dash ++ zstring extension.

(** The exit code, or what is written with exit code 0. *)
Definition getpw_main (local : bytes) : Z + bytes :=
  match userext (length local) local with
  | inl e => inl e
  | inr (Some (pw, dash, extension)) => inr (put_passwd pw dash extension)
  | inr None =>
    match getpwnam auto_usera with
    | User pw => inr (put_passwd pw (lit "-") local)
    | _ => inl QLX_NOALIAS
    end
  end.
End Getpw.

(** ** qmail-lspawn *)

(** How qmail-getpw ended, if [wait_pid] tells: [Unstarted] when no pipe or process
    was to be had or its output could not be read. *)
Inductive getpw_child := Unstarted | Ran (out : bytes) (stat : option wstat).
Inductive cdb_open (F : Type) := Opened (f : F) | NoFile | OpenError.
Arguments Opened {F}. Arguments NoFile {F}. Arguments OpenError {F}.

(** What qmail-local is run with. *)
Record local_call := LocalCall {
  lc_user : bytes; lc_homedir : bytes; lc_local : bytes; lc_dash : bytes; lc_ext : bytes; lc_domain : bytes;
  lc_sender : bytes; lc_aliasempty : bytes; lc_qqeh : bytes; lc_uid : Z; lc_gid : Z
}.

Section Lspawn.
Context {L : LibQmail} {C : Cdb} (case_lower : bytes → bytes).

(** The file users/cdb, qmail-getpw, and which of the other calls fail; in
    [setuser_privileges], whether it fails, when SETUSER_PRIVILEGES is set. *)
Record lspawn_conf := LspawnConf {
  users_cdb : cdb_open cdb;
  getpw : bytes → getpw_child;
  chdir_fails : bool; fds_fail : bool; prot_fails : bool;
  setuser_privileges : option bool;
  exec_error : option bool;      (* whether the error of [execv] is temporary *)
  default_delivery : bytes
}.
Context (cf : lspawn_conf).

(** The search: with [i] bytes of [lower], down to one. *)
Fixpoint wild_search (f : cdb) (wildchars lower local : bytes) (i : nat) (flagwild : bool) : Z + option bytes :=
  match i with
  | 0 => inr None
  | S j =>
    let try := negb flagwild || bool_decide (i = 1) || bool_decide (byte_chr wildchars (lower !!! j) < length wildchars) in
    match (if try then cdb_seek f (take i lower) else Missing) with
    | Broken => inl QLX_CDB
    | Entry d => inr (Some (d ++ (if flagwild then drop j local else []) ++ [0%Z]))
    | Missing => wild_search f wildchars lower local j true
    end
  end.

(** What is run when users/cdb does not have the address. *)
Definition ask_getpw (local : bytes) : Z + bytes :=
  match getpw cf local with
  | Unstarted | Ran _ (Some Crashed) => inl QLX_SYS
  | Ran out None => inr out
  | Ran out (Some (Exited e)) => if decide (e = 0%Z) then inr out else inl e
  end.

(** The record of the address, and [local_user]. *)
Definition nughde_get (local : bytes) : Z + bytes * bool :=
  let lower := case_lower (lit "!" ++ local ++ [0%Z]) in
  let asked := match ask_getpw local with inl e => inl e | inr x => inr (x, true) end in
  match users_cdb cf with
  | OpenError => inl QLX_CDB
  | NoFile => asked
  | Opened f =>
    match cdb_seek f [] with
    | Broken | Missing => inl QLX_CDB
    | Entry wildchars =>
      match wild_search f wildchars lower local (length lower) false with
      | inl e => inl e
      | inr (Some nughde) => inr (nughde, false)
      | inr None => asked
      end
    end
  end.

(** A string of [nughde], and what follows it. *)
Definition next_string (x : bytes) : Z + bytes * bytes :=
  let n := byte_chr x 0 in
  if decide (n = length x) then inl QLX_USAGE else inr (take n x, drop (n + 1) x).
Notation "x ↤ m ; k" := (match m with inl e => inl e | inr x => k end) (at level 20, m at level 100, k at level 200).

(** [SPAWN] in the child: an exit code, or [execv]. *)
Definition spawn_child (recip : bytes) (at_ : nat) (sender qqeh : bytes) : Z + local_call :=
  let local := take at_ recip in
  if decide (local = []) then inl 0%Z
  else if chdir_fails cf then inl QLX_DIR
  else
    r ↤ nughde_get local;
    let '(x, local_user) := r in
    u ↤ next_string x; n ↤ next_string u.2; g ↤ next_string n.2; h ↤ next_string g.2;
    d ↤ next_string h.2; e ↤ next_string d.2;
    let uid := wrap 32 (snd (scan_ulong n.1)) in
    let gid := wrap 32 (snd (scan_ulong g.1)) in
    if fds_fail cf then inl QLX_SYS
    else if match setuser_privileges cf with Some b => if local_user then b else prot_fails cf | None => prot_fails cf end
    then inl QLX_UIDGID
    else if decide (uid = 0%Z) then inl QLX_ROOT
    else
      match exec_error cf with
      | Some temporary => inl (if temporary then QLX_EXECSOFT else QLX_EXECHARD)
      | None => inr (LocalCall u.1 h.1 local d.1 e.1 (drop (at_ + 1) recip) sender (default_delivery cf) qqeh uid gid)
      end.
End Lspawn.

(** ** qmail-pw2u *)

Record pw2u := Pw2u { out_lines : bytes; flagalias : bool; allusers : bytes }.
Definition put_line (l : bytes) (s : pw2u) : pw2u := Pw2u (out_lines s ++ l) (flagalias s) (allusers s).

Section Pw2u.
Context {L : LibQmail} (stat_home : bytes → home) (constmap_of : bytes → bytes → option bytes).

(** The options, and the files include, exclude and mailnames. *)
Record pw2u_conf := Pw2uConf {
  dashcolon : bytes; homestrategy : Z; flagnoupper : bool; brk : option Z; usera : bytes;
  incl : option (bytes → bool); excl : option (bytes → bool); mana : option (bytes → option bytes)
}.
Context (cf : pw2u_conf).

(** Up to the next colon, and what follows it. *)
Definition colon_field (x : bytes) : option (bytes * bytes) :=
  let i := byte_chr x c_colon in
  if decide (i = length x) then None else Some (take i x, drop (i + 1) x).

Definition upper (c : Z) : bool := bool_decide (65 ≤ c ≤ 90)%Z.

(** The loop over the mail names of an account, each with a colon between. *)
Fixpoint mailnames_loop (fuel : nat) (names uugh : bytes) : bytes :=
  match fuel with
  | 0 => []
  | S fuel =>
    match names with
    | [] => []
    | c :: r =>
      if decide (c = c_colon) then mailnames_loop fuel r uugh
      else
        let i := str_chr names c_colon in
        let name := take i names in
        lit "=" ++ name ++ uugh ++ lit "::" ++ [c_lf] ++
        match brk cf with
        | Some b => lit "+" ++ name ++ [b] ++ uugh ++ dashcolon cf ++ lit ":" ++ [c_lf]
        | None => []
        end ++ mailnames_loop fuel (drop i names) uugh
    end
  end.

(** Whether the home directory will do; an exit code when it must exist. *)
Definition home_ok (dir : bytes) (uid : Z) : Z + bool :=
  if decide (homestrategy cf = 0%Z) then inr true
  else
    match stat_home dir with
    | Unreachable => inl 111%Z
    | NoHome => if decide (homestrategy cf = 1%Z) then inl 111%Z else inr false
    | OwnedBy u => inr (bool_decide (u = uid))
    end.

(** The fields of a line that are used. *)
Definition account_of (line : bytes) : option (bytes * bytes * bytes * bytes) :=
  if decide (byte_chr line 0 < length line) then None
  else
    '(user, x) ← colon_field line; '(_, x) ← colon_field x; '(uidstr, x) ← colon_field x;
    '(gidstr, x) ← colon_field x; '(_, x) ← colon_field x; '(home, x) ← colon_field x;
    Some (user, uidstr, gidstr, home).

Definition doaccount (line : bytes) : ST pw2u (Z + unit) :=
  match account_of line with
  | None => ok tt
  | Some (user, uidstr, gidstr, home) =>
    let uid := snd (scan_ulong uidstr) in
    if decide (uid = 0%Z) then ok tt
    else if flagnoupper cf && existsb upper user then ok tt
    else if match incl cf with Some f => negb (f user) | None => false end then ok tt
    else if match excl cf with Some f => f user | None => false end then ok tt
    else
      match home_ok home uid with
      | inl e => mret (inl e)
      | inr false => ok tt
      | inr true =>
        let uugh := lit ":" ++ user ++ lit ":" ++ uidstr ++ lit ":" ++ gidstr ++ lit ":" ++ home ++ lit ":" in
        modify (λ s, Pw2u (out_lines s) (flagalias s) (allusers s ++ user ++ lit ":" ++ uugh ++ [0%Z]));;
        when (str_equal user (usera cf))
          (modify (λ s, Pw2u (out_lines s ++ lit "+" ++ uugh ++ dashcolon cf ++ lit ":" ++ [c_lf]) true (allusers s)));;
        let names := match mana cf with Some f => default user (f user) | None => user end in
        modify (put_line (mailnames_loop (S (length names)) names uugh));;
        ok tt
      end
  end.

(** A line of subusers. *)
Definition dosubuser (line : bytes) : ST pw2u (Z + unit) :=
  s ← getS;
  match colon_field line with
  | None => ok tt
  | Some (sub, x) =>
    match colon_field x with
    | None => ok tt
    | Some (name, x) =>
      match constmap_of (allusers s) name with
      | None => mret (inl 111%Z)
      | Some u =>
        match colon_field x with
        | None => ok tt
        | Some (pre, _) =>
          modify (put_line (lit "=" ++ sub ++ u ++ dashcolon cf ++ pre ++ lit ":" ++ [c_lf]));;
          match brk cf with
          | Some b => modify (put_line (lit "+" ++ sub ++ [b] ++ u ++ dashcolon cf ++ pre ++ lit "-:" ++ [c_lf]))
          | None => skip
          end;;
          ok tt
        end
      end
    end
  end.

(** The loop over lines, the last of which need not be whole. *)
Fixpoint lines_loop (f : bytes → ST pw2u (Z + unit)) (fuel : nat) (rest : bytes) : ST pw2u (Z + unit) :=
  match fuel with
  | 0 => ok tt
  | S fuel =>
    let '(line, found) := line_by c_lf rest in
    f line;;? if found : bool then lines_loop f fuel (drop (length line) rest) else ok tt
  end.

(** [main]: the accounts, the file subusers and the file append. *)
Definition pw2u_main (accounts : bytes) (subusers append : option bytes) : ST pw2u (Z + unit) :=
  lines_loop doaccount (S (length accounts)) accounts;;?
  s ← getS;
  if negb (flagalias s) then mret (inl 111%Z)
  else
    match subusers with
    | Some t => lines_loop dosubuser (S (length t)) t
    | None => ok tt
    end;;?
    modify (put_line (default [] append));;
    modify (put_line (lit "." ++ [c_lf]));; ok tt.
End Pw2u.
