(* ===== verification/UsersTheorems.v ===== *)
(** * What users/assign means

    A file of assignments, compiled by qmail-newu, and qmail-lspawn's search in it,
    against the meaning of the assignments: an address is that of the first line with
    its name, else of the line with the longest part of it, without regard to case. *)

From S2P Require Import Prelude LibQmail Control Spawn QmailQueue Users.

(** ** The specification *)

Record fields := Fields { f_user : bytes; f_uid : bytes; f_gid : bytes; f_home : bytes; f_dash : bytes; f_ext : bytes }.

(** A line of users/assign: a name, or what a name starts with. *)
Record entry := Line { wild : bool; name : bytes; who : fields }.

Definition colons (f : fields) : bytes :=
  f_user f ++ [c_colon] ++ f_uid f ++ [c_colon] ++ f_gid f ++ [c_colon] ++ f_home f ++ [c_colon] ++
  f_dash f ++ [c_colon] ++ f_ext f ++ [c_colon].
Definition assign_line (e : entry) : bytes :=
  [if wild e then c_plus else 61%Z] ++ name e ++ [c_colon] ++ colons (who e) ++ [c_lf].
Definition assign_file (es : list entry) : bytes := mjoin (map assign_line es) ++ [c_dot; c_lf].

(** A text that can be a field. *)
Definition plain (s : bytes) : Prop := (c_colon ∉ s) ∧ (c_lf ∉ s) ∧ (0%Z ∉ s).
Record sound (e : entry) : Prop := {
  so_name : plain (name e);
  so_user : plain (f_user (who e)); so_uid : plain (f_uid (who e)); so_gid : plain (f_gid (who e));
  so_home : plain (f_home (who e)); so_dash : plain (f_dash (who e)); so_ext : plain (f_ext (who e));
  so_wild c : wild e = true → last (name e) = Some c → upper c = false
}.

Definition to_lower (c : Z) : Z := if upper c then (c + 32)%Z else c.
Definition lowered (s : bytes) : bytes := map to_lower s.

(** The first line of the kind [w] with the name [s]. *)
Fixpoint first_entry (w : bool) (s : bytes) (es : list entry) : option fields :=
  match es with
  | [] => None
  | e :: es => if decide (wild e = w ∧ lowered (name e) = lowered s) then Some (who e) else first_entry w s es
  end.
Definition extended (f : fields) (rest : bytes) : fields :=
  Fields (f_user f) (f_uid f) (f_gid f) (f_home f) (f_dash f) (f_ext f ++ rest).

(** The longest start of [local] that has a line, among those of at most [k] bytes. *)
Fixpoint longest (es : list entry) (local : bytes) (k : nat) : option fields :=
  match first_entry true (take k local) es with
  | Some f => Some (extended f (drop k local))
  | None => match k with 0 => None | S k => longest es local k end
  end.
Definition assigned (es : list entry) (local : bytes) : option fields :=
  match first_entry false local es with
  | Some f => Some f
  | None => longest es local (length local)
  end.

(** The fields as qmail-lspawn takes them apart. *)
Definition record_of (f : fields) : bytes :=
  zstring (f_user f) ++ zstring (f_uid f) ++ zstring (f_gid f) ++ zstring (f_home f) ++ zstring (f_dash f) ++
  zstring (f_ext f).

(** ** Bytes *)

Lemma to_lower_zero c : to_lower c = 0%Z ↔ c = 0%Z.
Proof. unfold to_lower, upper. case_bool_decide; lia. Qed.
Lemma lowered_no_zero s : 0%Z ∉ s → 0%Z ∉ lowered s.
Proof. intros Hs (c & Hc & Hin)%list_elem_of_fmap. symmetry in Hc. apply to_lower_zero in Hc as ->. done. Qed.
Lemma lowered_app a b : lowered (a ++ b) = lowered a ++ lowered b.
Proof. apply map_app. Qed.
Lemma lowered_take n s : lowered (take n s) = take n (lowered s).
Proof. symmetry. apply firstn_map. Qed.
Lemma lowered_length s : length (lowered s) = length s.
Proof. apply length_map. Qed.

Lemma line_by_line l r : c_lf ∉ l → line_by c_lf (l ++ c_lf :: r) = (l ++ [c_lf], true).
Proof.
  induction l as [|c l IH]; intros Hl; simpl; [done|]. apply not_elem_of_cons in Hl as [Hc Hl].
  rewrite decide_False by congruence. by rewrite IH.
Qed.

Lemma cut_colons_field n s r : c_colon ∉ s →
  cut_colons (S (S n)) (s ++ c_colon :: r) = (λ t, s ++ 0%Z :: t) <$> cut_colons (S n) r.
Proof.
  induction s as [|c s IH]; intros Hs; cbn [app cut_colons].
  - rewrite decide_True by done. by destruct (cut_colons (S n) r).
  - apply not_elem_of_cons in Hs as [Hc Hs]. rewrite decide_False by congruence. rewrite IH by done.
    by destruct (cut_colons (S n) r).
Qed.
Lemma cut_colons_last s r : c_colon ∉ s → cut_colons 1 (s ++ c_colon :: r) = Some s.
Proof.
  induction s as [|c s IH]; intros Hs; cbn [app cut_colons]; [done|].
  apply not_elem_of_cons in Hs as [Hc Hs]. rewrite decide_False by congruence. by rewrite IH.
Qed.

(** The data of an entry. *)
Definition data_of (f : fields) : bytes :=
  f_user f ++ 0%Z :: f_uid f ++ 0%Z :: f_gid f ++ 0%Z :: f_home f ++ 0%Z :: f_dash f ++ 0%Z :: f_ext f.
Lemma data_record f rest : data_of f ++ rest ++ [0%Z] = record_of (extended f rest).
Proof. unfold data_of, record_of, zstring. simpl. by repeat (rewrite <- !(assoc_L app); simpl). Qed.

Lemma cut_colons_data e r : sound e → cut_colons 6 (colons (who e) ++ r) = Some (data_of (who e)).
Proof.
  intros []. unfold plain, colons, data_of in *. destruct_and_all. repeat (rewrite <- !(assoc_L app); cbn [app]).
  rewrite !cut_colons_field, cut_colons_last by done. done.
Qed.

(** ** qmail-newu *)

Section newu.
Context {L : LibQmail} {LL : LibQmailLaws L} {C : Cdb} {CL : CdbLaws C}.
Context (case_lower : bytes → bytes) (Hlower : ∀ s, case_lower s = lowered s).

Definition key_of (e : entry) : bytes := 33%Z :: lowered (name e) ++ (if wild e then [] else [0%Z]).
Definition add_wild (w : bytes) (e : entry) : bytes :=
  match last (name e) with
  | Some c => if decide (wild e = true ∧ (c ∉ w)) then w ++ [c] else w
  | None => w
  end.

Lemma index_of_in c s : index_of c s = length s ↔ c ∉ s.
Proof.
  split; [|apply index_of_none]. intros H Hin. apply list_elem_of_split_l in Hin as (a & b & -> & Ha).
  rewrite index_of_app, length_app in H by done. simpl in H. lia.
Qed.

Lemma index_le c s : index_of c s ≤ length s.
Proof. induction s as [|x s IH]; simpl; [lia|]. case_decide; lia. Qed.

Lemma newu_line_entry w e : sound e →
  newu_line case_lower w (assign_line e) = Some (key_of e, data_of (who e), add_wild w e).
Proof.
  intros He. pose proof He as [(Hn1 & _ & Hn3) (_ & _ & Hu) (_ & _ & Hi) (_ & _ & Hg) (_ & _ & Hh) (_ & _ & Hd) (_ & _ & Hx) _].
  set (c0 := if wild e then c_plus else 61%Z). assert (Hc0 : c0 ≠ c_colon ∧ c0 ≠ 0%Z) by (unfold c0; by destruct (wild e)).
  assert (Hline : assign_line e = (c0 :: name e) ++ c_colon :: colons (who e) ++ [c_lf]) by done.
  assert (Hidx : byte_chr (assign_line e) c_colon = S (length (name e))).
  { rewrite byte_chr_ok, Hline, index_of_app; [done|]. set_solver. }
  assert (Hzero : byte_chr (assign_line e) 0 = length (assign_line e)).
  { rewrite byte_chr_ok. apply index_of_in. rewrite Hline. unfold colons. set_solver. }
  unfold newu_line. rewrite Hidx, Hzero, decide_False.
  2: { rewrite Hline, length_app. simpl. lia. }
  assert (Hname : take (S (length (name e)) - 1) (drop 1 (assign_line e)) = name e).
  { rewrite Hline. cbn [app drop]. rewrite drop_0. replace (S _ - 1) with (length (name e)) by lia. apply take_app_length. }
  rewrite Hname, Hlower, lowered_app.
  assert (Hdata : drop (S (length (name e)) + 1) (assign_line e) = colons (who e) ++ [c_lf]).
  { rewrite Hline. simpl. rewrite drop_app_ge by lia. by replace (_ + 1 - _) with 1 by lia. }
  rewrite Hdata. change (assign_line e !! 0) with (Some c0).
  assert (Hlast : assign_line e !!! (S (length (name e)) - 1) = default c0 (last (name e))).
  { rewrite Hline. replace (S _ - 1) with (length (name e)) by lia.
    destruct (name e) as [|c n] using rev_ind; [done|]. rewrite last_snoc, length_app. simpl.
    replace (length n + 1) with (S (length n)) by lia. simpl. rewrite <- (assoc_L app).
    by rewrite lookup_total_app_r, Nat.sub_diag by lia. }
  rewrite Hlast. rewrite cut_colons_data by done.
  unfold key_of, add_wild. subst c0. destruct (wild e).
  - rewrite (decide_True (P := Some c_plus = Some c_plus)), app_nil_r by done. destruct (last (name e)) as [c|] eqn:E; simpl.
    + assert (2 ≤ S (length (name e))) by (destruct (name e); [done|simpl; lia]).
      rewrite byte_chr_ok. pose proof (index_of_in c w) as Hin. destruct (decide (c ∈ w)).
      * by rewrite !decide_False by naive_solver.
      * by rewrite !decide_True by naive_solver.
    + apply last_None in E. rewrite E, decide_False by (simpl; lia). done.
  - rewrite (decide_False (P := Some 61%Z = Some c_plus)) by congruence. destruct (last (name e)); [|done].
    by rewrite decide_False by naive_solver.
Qed.

(** Whatever fails, users/cdb is as it was. *)
Definition untouched (s s' : newu) : Prop := (true ∈ fails s' → true ∈ fails s) ∧ cdb_file s' = cdb_file s.
Lemma cdb_untouched_refl s : untouched s s.
Proof. done. Qed.
Lemma untouched_trans s1 s2 s3 : untouched s1 s2 → untouched s2 s3 → untouched s1 s3.
Proof. intros [] []. split; [tauto|congruence]. Qed.
Definition gave_up {A} (s : newu) (r : Z + A) (s' : newu) : Prop := r = inl 111%Z ∧ untouched s s' ∧ true ∈ fails s.

Lemma wp_ncall (Q : Z + unit → newu → Prop) s :
  (∀ s', untouched s s' → tmp s' = tmp s → Q (inr tt) s') → (∀ r s', gave_up s r s' → Q r s') → wp ncall Q s.
Proof.
  intros H1 H2. unfold wp, ncall. destruct (fails s) as [|[] l] eqn:E; simpl.
  - apply H1; [|done]. split; [intros H; simpl in H; set_solver|done].
  - apply H2. split; [done|]. unfold untouched. rewrite E. repeat split; simpl; set_solver.
  - apply H1; [|done]. split; [|done]. rewrite E. simpl. set_solver.
Qed.
Lemma gave_up_after {A B} s1 s2 (r : Z + A) s3 : untouched s1 s2 → gave_up s2 r s3 → gave_up (A := B) s1 (inl 111%Z) s3.
Proof. intros H (_ & H2 & H3). split; [done|]. split; [by eapply untouched_trans|]. by apply H. Qed.

Lemma wp_ncall_then {A} (k : ST newu (Z + A)) (Q : Z + A → newu → Prop) s :
  (∀ s', untouched s s' → tmp s' = tmp s → wp k Q s') → (∀ r s', gave_up s r s' → Q r s') → wp (ncall;;? k) Q s.
Proof.
  intros H1 H2. apply wp_qbind, wp_ncall; [by apply H1|]. intros r s' H. destruct H as [-> H]. apply H2. by split.
Qed.
Lemma wp_add {A} k d (m : ST newu (Z + A)) (Q : Z + A → newu → Prop) s :
  (∀ s', untouched s s' → tmp s' = tmp s ++ [(k, d)] → wp m Q s') → (∀ r s', gave_up s r s' → Q r s') →
  wp (cdbmss_add k d;;? m) Q s.
Proof.
  intros H1 H2. unfold cdbmss_add. apply wp_qbind_assoc, wp_ncall_then; [|done]. intros s' H Ht.
  apply wp_qbind, wp_bind, wp_modify, wp_ok. apply H1; [done|]. simpl. by rewrite Ht.
Qed.

Definition record (e : entry) : bytes * bytes := (key_of e, data_of (who e)).

Lemma assign_line_by e r : sound e →
  line_by c_lf (assign_line e ++ r) = (assign_line e, true) ∧ drop (length (assign_line e)) (assign_line e ++ r) = r ∧
  assign_line e !! 0 ≠ Some c_dot.
Proof.
  intros [(_ & ? & _) (_ & ? & _) (_ & ? & _) (_ & ? & _) (_ & ? & _) (_ & ? & _) (_ & ? & _) _]. split_and!.
  - assert (assign_line e = ([if wild e then c_plus else 61%Z] ++ name e ++ [c_colon] ++ colons (who e)) ++ [c_lf]) as ->.
    { unfold assign_line. by rewrite <- !(assoc_L app). }
    rewrite <- (assoc_L app). apply line_by_line. unfold colons. destruct (wild e); set_solver.
  - apply drop_app_length.
  - simpl. by destruct (wild e).
Qed.

Lemma wp_newu_loop es w s fuel (Q : Z + bytes → newu → Prop) : Forall sound es → length es < fuel →
  (∀ s', untouched s s' → tmp s' = tmp s ++ map record es → Q (inr (foldl add_wild w es)) s') →
  (∀ r s', gave_up s r s' → Q r s') →
  wp (newu_loop case_lower fuel (assign_file es) w) Q s.
Proof.
  intros Hes. revert w s fuel. induction Hes as [|e es He _ IH]; intros w s fuel Hf H1 H2;
    (destruct fuel as [|fuel]; [simpl in Hf; lia|]); cbn [newu_loop]; apply wp_ncall_then; try done; intros s1 Hs1 Ht1.
  - apply wp_ok, H1; [done|by rewrite app_nil_r].
  - change (assign_file (e :: es)) with ((assign_line e ++ mjoin (map assign_line es)) ++ [c_dot; c_lf]).
    rewrite <- (assoc_L app). change (mjoin (map assign_line es) ++ _) with (assign_file es).
    destruct (assign_line_by e (assign_file es) He) as (-> & -> & Hdot). rewrite decide_False by done.
    cbn [negb]. rewrite newu_line_entry by done. apply wp_add.
    + intros s2 Hs2 Ht2. apply IH; [simpl in Hf; lia| |].
      * intros s3 Hs3 Ht3. apply H1; [apply (untouched_trans _ s1), (untouched_trans _ s2); done|].
        rewrite Ht3, Ht2, Ht1, <- (assoc_L app). done.
      * intros r s3 H. destruct H as [-> H]. apply H2. apply (gave_up_after _ s2 (inl 111%Z : Z + bytes)); [|by split].
        by apply (untouched_trans _ s1).
    + intros r s2 H. destruct H as [-> H]. apply H2. by apply (gave_up_after _ s1 (inl 111%Z : Z + bytes)).
Qed.

(** What is in users/cdb. *)
Definition records (es : list entry) : list (bytes * bytes) := map record es ++ [([], foldl add_wild [] es)].

Lemma assign_length es : length es ≤ length (assign_file es).
Proof.
  unfold assign_file. rewrite length_app. induction es as [|e es IH]; [simpl; lia|].
  change (mjoin (map assign_line (e :: es))) with (assign_line e ++ mjoin (map assign_line es)).
  rewrite length_app. assert (0 < length (assign_line e)) by (simpl; lia).
  change (length (e :: es)) with (S (length es)). lia.
Qed.

Lemma wp_newu es s : Forall sound es →
  wp (newu_main case_lower (assign_file es)) (λ r s',
    gave_up s r s' ∨ (r = inr tt ∧ cdb_file s' = Some (cdb_make (records es)))) s.
Proof.
  intros Hes. unfold newu_main.
  assert (Hno : ∀ A s1 (r : Z + A) s2, untouched s s1 → gave_up s1 r s2 → gave_up s (inl 111%Z : Z + unit) s2).
  { intros A s1 r s2 H1 H2. by eapply gave_up_after. }
  assert (Hcall : ∀ s1 k (Q : Z + unit → newu → Prop), untouched s s1 → (∀ r s2, gave_up s r s2 → Q r s2) →
    (∀ s2, untouched s s2 → tmp s2 = tmp s1 → wp k Q s2) → wp (ncall;;? k) Q s1).
  { intros s1 k Q H1 Hgone H2. apply wp_ncall_then; [intros s2 H3 H4; apply H2; [by eapply untouched_trans|done]|].
    intros r s2 H3. pose proof (Hno _ _ _ _ H1 H3) as H4. destruct H3 as [-> _]. by apply Hgone. }
  apply Hcall; [done|by left|]; intros s1 H1 _. apply Hcall; [done|by left|]; intros s2 H2 _.
  apply Hcall; [done|by left|]; intros s3 H3 _. apply Hcall; [done|by left|]; intros s4 H4 _.
  apply wp_bind, wp_modify, wp_qbind. eapply wp_newu_loop; [done|pose proof (assign_length es); lia| |].
  2: { intros r x Hx. pose proof (Hno _ _ _ _ H4 Hx) as Hgone. destruct Hx as [-> _]. by left. }
  intros s5 H5 Ht5. pose proof (untouched_trans _ _ _ H4 H5) as H05. apply wp_add.
  2: { intros r x Hx. pose proof (Hno _ _ _ _ H05 Hx) as Hgone. destruct Hx as [-> _]. by left. }
  intros s6 H6 Ht6. pose proof (untouched_trans _ _ _ H05 H6) as H06.
  apply Hcall; [done|by left|]; intros s7 H7 Ht7. apply Hcall; [done|by left|]; intros s8 H8 Ht8.
  apply Hcall; [done|by left|]; intros s9 H9 Ht9. apply Hcall; [done|by left|]; intros s10 H10 Ht10.
  apply wp_bind, wp_modify, wp_ok. right. split; [done|]. simpl. rewrite Ht10, Ht9, Ht8, Ht7, Ht6, Ht5. done.
Qed.
End newu.

(** ** qmail-lspawn *)

Section lspawn.
Context {L : LibQmail} {LL : LibQmailLaws L} {C : Cdb} {CL : CdbLaws C}.
Context (case_lower : bytes → bytes) (Hlower : ∀ s, case_lower s = lowered s).

Lemma last_zero (a b : bytes) : a ++ [0%Z] = b → 0%Z ∈ b.
Proof. intros <-. set_solver. Qed.

Lemma find_exact es local : Forall sound es → 0%Z ∉ local →
  first_record (33%Z :: lowered local ++ [0%Z]) (records es) = data_of <$> first_entry false local es.
Proof.
  intros H Hl. unfold records. generalize (foldl add_wild [] es). intros w.
  induction H as [|e l He _ IH]; [done|]. cbn [map app first_record first_entry record fst]. unfold record, key_of. cbn [fst].
  destruct (wild e); cbv beta iota; rewrite ?app_nil_r.
  - rewrite decide_False; [rewrite (decide_False (P := true = false ∧ _)) by naive_solver; exact IH|].
    intros [= H]. symmetry in H. apply last_zero in H. by apply lowered_no_zero in H; [|apply He].
  - destruct (decide (lowered (name e) = lowered local)) as [E|E].
    + rewrite !decide_True; [done|done|by rewrite E].
    + rewrite !decide_False; [exact IH|naive_solver|]. intros [= H]. by apply app_inj_2 in H as [H _].
Qed.
Lemma find_start es p : Forall sound es → 0%Z ∉ p →
  first_record (33%Z :: lowered p) (records es) = data_of <$> first_entry true p es.
Proof.
  intros H Hl. unfold records. generalize (foldl add_wild [] es). intros w.
  induction H as [|e l He _ IH]; [done|]. cbn [map app first_record first_entry record fst]. unfold record, key_of. cbn [fst].
  destruct (wild e); cbv beta iota; rewrite ?app_nil_r.
  - destruct (decide (lowered (name e) = lowered p)) as [E|E].
    + rewrite !decide_True; [done|done|by rewrite E].
    + rewrite !decide_False; [exact IH|naive_solver|congruence].
  - rewrite decide_False; [rewrite (decide_False (P := false = true ∧ _)) by naive_solver; exact IH|].
    intros [= H]. apply last_zero in H. by apply lowered_no_zero in H.
Qed.
Lemma find_wildcards es : first_record [] (records es) = Some (foldl add_wild [] es).
Proof.
  unfold records. generalize (foldl add_wild [] es). intros w.
  induction es as [|e l IH]; [done|]. cbn [map app first_record record]. rewrite decide_False by done. exact IH.
Qed.

(** The last byte of every start that has a line is among the wildcards. *)
Lemma wildcards_grow l w c : c ∈ w → c ∈ foldl add_wild w l.
Proof.
  revert w. induction l as [|e l IH]; intros w Hc; [done|]. apply IH. unfold add_wild.
  destruct (last (name e)); [|done]. case_decide; set_solver.
Qed.
Lemma start_listed p f w l : Forall sound l → first_entry true p l = Some f → ∀ c, last (lowered p) = Some c →
  c ∈ foldl add_wild w l.
Proof.
  intros Hl. revert w. induction Hl as [|e l He _ IH]; intros w; [done|]. cbn [first_entry foldl]. case_decide as E; [|by apply IH].
  intros _ c Hc. destruct E as [Ew En]. apply wildcards_grow. rewrite <- En in Hc. unfold lowered in Hc.
  change (map to_lower (name e)) with (to_lower <$> name e) in Hc. rewrite fmap_last in Hc.
  destruct (last (name e)) as [x|] eqn:Ex; [|done]. injection Hc as <-.
  assert (to_lower x = x) as -> by (unfold to_lower; by rewrite (so_wild e He x)).
  unfold add_wild. rewrite Ex. case_decide; set_solver.
Qed.

(** ** The search *)

Section search.
Context (es : list entry) (Hes : Forall sound es).

Lemma wild_longest local k : 0%Z ∉ local → k ≤ length local →
  wild_search (cdb_make (records es)) (foldl add_wild [] es) (33%Z :: lowered local ++ [0%Z]) local (S k) true =
  inr (record_of <$> longest es local k).
Proof.
  intros Hl. induction k as [|k IH]; intros Hk.
  - cbn [wild_search longest]. rewrite bool_decide_true by done. cbn [negb orb take]. rewrite cdb_seek_ok.
    pose proof (find_start es [] Hes ltac:(apply not_elem_of_nil)) as Hf. change (lowered []) with (@nil Z) in Hf.
    rewrite !take_0, Hf. destruct (first_entry true [] es) as [f|]; [|done]. simpl.
    by rewrite data_record.
  - cbn [wild_search]. set (lower := 33%Z :: _) in *. set (w := foldl add_wild [] es) in *.
    assert (Htake : take (S (S k)) lower = 33%Z :: lowered (take (S k) local)).
    { unfold lower. cbn [take]. rewrite lowered_take, take_app_le; [done|by rewrite lowered_length]. }
    cbn [longest]. pose proof (find_start es (take (S k) local) Hes) as Hfind.
    specialize (Hfind ltac:(intros H; apply elem_of_take in H as (? & H & _); by apply list_elem_of_lookup_2 in H)).
    set (try := negb true || _ || _).
    assert (try = false → first_entry true (take (S k) local) es = None) as Hnone.
    { intros Htry. destruct (first_entry true (take (S k) local) es) as [f|] eqn:E; [|done]. exfalso.
      destruct (lookup_lt_is_Some_2 (lowered local) k) as [c Hc]; [rewrite lowered_length; lia|].
      pose proof (start_listed _ _ [] es Hes E c) as Hin. rewrite lowered_take, (take_S_r _ _ c), last_snoc in Hin by done.
      apply orb_false_iff in Htry as [_ Htry]. apply bool_decide_eq_false in Htry. apply Htry.
      rewrite byte_chr_ok. assert (lower !!! S k = c) as ->.
      { unfold lower. simpl. apply list_lookup_total_correct. rewrite lookup_app_l; [done|]. by eapply lookup_lt_Some. }
      specialize (Hin eq_refl). destruct (decide (index_of c w = length w)) as [Hno%index_of_in|]; [done|].
      pose proof (index_le c w). lia. }
    assert ((if try then cdb_seek (cdb_make (records es)) (take (S (S k)) lower) else Missing) =
      match first_entry true (take (S k) local) es with Some f => Entry (data_of f) | None => Missing end) as ->.
    { destruct try; [|by rewrite Hnone]. rewrite Htake, cdb_seek_ok, Hfind. by destruct (first_entry _ _ _). }
    destruct (first_entry true (take (S k) local) es) as [f|]; [by rewrite data_record|].
    apply IH. lia.
Qed.

(** What is found for an address. *)
Lemma search_assigned local : 0%Z ∉ local →
  let lower := case_lower (lit "!" ++ local ++ [0%Z]) in
  wild_search (cdb_make (records es)) (foldl add_wild [] es) lower local (length lower) false =
  inr (record_of <$> assigned es local).
Proof.
  intros Hl. rewrite Hlower, !lowered_app. change (lowered (lit "!")) with [33%Z]. change (lowered [0%Z]) with [0%Z].
  cbv zeta. cbn [app]. replace (length _) with (S (S (length local))) by (simpl; rewrite length_app, lowered_length; simpl; lia).
  remember (S (length local)) as k eqn:Ek. cbn [wild_search negb orb].
  rewrite firstn_all2 by (simpl; rewrite length_app, lowered_length; simpl; lia).
  rewrite cdb_seek_ok, find_exact by done. unfold assigned.
  destruct (first_entry false local es) as [f|].
  - simpl. pose proof (data_record f []) as H. simpl in H. rewrite H.
    unfold extended. rewrite app_nil_r. by destruct f.
  - subst k. by apply wild_longest.
Qed.
End search.

(** ** What is run *)

Lemma next_string_field s r : 0%Z ∉ s → next_string (zstring s ++ r) = inr (s, r).
Proof.
  intros Hs. unfold next_string, zstring. rewrite <- (assoc_L app), byte_chr_ok. cbn [app].
  rewrite index_of_app by done. rewrite decide_False by (rewrite length_app; simpl; lia).
  rewrite take_app_length. do 2 f_equal. rewrite drop_app_ge by lia. by replace (_ + 1 - _) with 1 by lia.
Qed.

Definition no_zeros (f : fields) : Prop :=
  (0%Z ∉ f_user f) ∧ (0%Z ∉ f_uid f) ∧ (0%Z ∉ f_gid f) ∧ (0%Z ∉ f_home f) ∧ (0%Z ∉ f_dash f) ∧ (0%Z ∉ f_ext f).

Lemma first_entry_zeros w s es f : Forall sound es → first_entry w s es = Some f → no_zeros f.
Proof.
  induction 1 as [|e es He _ IH]; [done|]. cbn [first_entry]. case_decide; [|done]. intros [= <-].
  destruct He. unfold plain, no_zeros in *. tauto.
Qed.
Lemma assigned_zeros es local f : Forall sound es → 0%Z ∉ local → assigned es local = Some f → no_zeros f.
Proof.
  intros Hes Hl. unfold assigned. destruct (first_entry false local es) as [g|] eqn:E.
  { intros [= <-]. by eapply first_entry_zeros. }
  generalize (length local). intros k. induction k as [|k IH]; cbn [longest];
    destruct (first_entry true _ es) as [g|] eqn:Eg; try done; intros [= <-]; apply first_entry_zeros in Eg; try done;
    unfold no_zeros, extended in *; simpl; rewrite not_elem_of_app; repeat split; try tauto;
    intros (i & Hi)%list_elem_of_lookup; apply Hl; rewrite lookup_drop in Hi; by eapply list_elem_of_lookup_2.
Qed.

(** qmail-local for the user of [f], with the rights of that user. *)
Definition start_local (cf : lspawn_conf) (recip : bytes) (at_ : nat) (sender qqeh : bytes) (f : fields) : Z + local_call :=
  let uid := wrap 32 (snd (scan_ulong (f_uid f))) in
  if fds_fail cf then inl QLX_SYS
  else if prot_fails cf then inl QLX_UIDGID
  else if decide (uid = 0%Z) then inl QLX_ROOT
  else
    match exec_error cf with
    | Some temporary => inl (if temporary then QLX_EXECSOFT else QLX_EXECHARD)
    | None => inr (LocalCall (f_user f) (f_home f) (take at_ recip) (f_dash f) (f_ext f) (drop (at_ + 1) recip) sender
                (default_delivery cf) qqeh uid (wrap 32 (snd (scan_ulong (f_gid f)))))
    end.

Definition without_cdb (cf : lspawn_conf) : lspawn_conf :=
  LspawnConf NoFile (getpw cf) (chdir_fails cf) (fds_fail cf) (prot_fails cf) (setuser_privileges cf) (exec_error cf)
    (default_delivery cf).

Lemma spawn_found cf recip at_ sender qqeh f b : take at_ recip ≠ [] → chdir_fails cf = false → no_zeros f →
  nughde_get case_lower cf (take at_ recip) = inr (record_of f, b) → b = false ∨ setuser_privileges cf = None →
  spawn_child case_lower cf recip at_ sender qqeh = start_local cf recip at_ sender qqeh f.
Proof.
  intros Hl Hc (H1 & H2 & H3 & H4 & H5 & H6) Hn Hb. unfold spawn_child, start_local. rewrite decide_False, Hc, Hn by done.
  unfold record_of. repeat (rewrite next_string_field by done; cbn [snd]).
  pose proof (next_string_field (f_ext f) [] H6) as He. rewrite app_nil_r in He. rewrite He. cbn [fst snd].
  replace (match setuser_privileges cf with Some b0 => _ | None => prot_fails cf end) with (prot_fails cf); [done|].
  destruct (setuser_privileges cf); [|done]. by destruct Hb as [->|].
Qed.

(** The outcome of [SPAWN] for an address, by the lines of users/assign. *)
Definition as_assigned (es : list entry) (cf : lspawn_conf) (recip : bytes) (at_ : nat) (sender qqeh : bytes) : Z + local_call :=
  let local := take at_ recip in
  if decide (local = []) then inl 0%Z
  else if chdir_fails cf then inl QLX_DIR
  else
    match assigned es local with
    | Some f => start_local cf recip at_ sender qqeh f
    | None => spawn_child case_lower (without_cdb cf) recip at_ sender qqeh
    end.

Lemma spawn_assigned es cf recip at_ sender qqeh : Forall sound es → 0%Z ∉ recip →
  users_cdb cf = Opened (cdb_make (records es)) →
  spawn_child case_lower cf recip at_ sender qqeh = as_assigned es cf recip at_ sender qqeh.
Proof.
  intros Hes Hz Hcdb. assert (Hl : 0%Z ∉ take at_ recip).
  { intros (i & H & _)%elem_of_take. by apply list_elem_of_lookup_2 in H. }
  unfold as_assigned. destruct (decide (take at_ recip = [])) as [E|E]; [unfold spawn_child; by rewrite decide_True|].
  destruct (chdir_fails cf) eqn:Hc; [unfold spawn_child; by rewrite decide_False, Hc|].
  assert (Hn : nughde_get case_lower cf (take at_ recip) =
    match assigned es (take at_ recip) with
    | Some f => inr (record_of f, false)
    | None => match ask_getpw cf (take at_ recip) with inl e => inl e | inr x => inr (x, true) end
    end).
  { unfold nughde_get. rewrite Hcdb, cdb_seek_ok, find_wildcards. rewrite (search_assigned es Hes) by done.
    by destruct (assigned es _). }
  destruct (assigned es (take at_ recip)) as [f|] eqn:Ef.
  - eapply spawn_found; [done|done|by eapply assigned_zeros|exact Hn|by left].
  - unfold spawn_child. rewrite !(decide_False (P := take at_ recip = [])), Hn by done. done.
Qed.

(** C39: what users/assign means.  qmail-newu on a sound file either fails, and leaves
    users/cdb as it is, or replaces it; it fails only if a call does.  With the new
    one, qmail-lspawn runs qmail-local for the user of the first line with the name of
    the address, else of the line with the longest start of it, the rest being added
    to the extension, whatever the case of letters; when there is no such line, for
    the user that qmail-getpw tells. *)
Theorem users_assigned es s : Forall sound es →
  let '(r, s') := newu_main case_lower (assign_file es) s in
  (r = inl 111%Z ∧ cdb_file s' = cdb_file s ∧ true ∈ fails s) ∨
  (r = inr tt ∧ ∃ f, cdb_file s' = Some f ∧
     ∀ cf recip at_ sender qqeh, 0%Z ∉ recip → users_cdb cf = Opened f →
     spawn_child case_lower cf recip at_ sender qqeh = as_assigned es cf recip at_ sender qqeh).
Proof.
  intros Hes. pose proof (wp_newu case_lower Hlower es s Hes) as H. unfold wp in H.
  destruct (newu_main case_lower (assign_file es) s) as [r s']. cbn [fst snd] in H. destruct H as [(-> & H & Hf)|[-> Hf]].
  - left. split; [done|]. split; [apply H|done].
  - right. split; [done|]. exists (cdb_make (records es)). split; [done|]. intros. by apply spawn_assigned.
Qed.
End lspawn.
