(* ===== verification/UsersPasswd.v ===== *)
(** * From the accounts of the system to deliveries

    The file that qmail-pw2u makes of the accounts, compiled by qmail-newu, leads
    qmail-lspawn to the same calls of qmail-local as asking qmail-getpw does. *)

From S2P Require Import Prelude LibQmail Control Spawn QmailQueue Users UsersTheorems.

(** ** Accounts *)

(** A line of the password file. *)
Record account := Account { pw : passwd; secret : bytes; gecos : bytes; shell : bytes }.

Section accounts.
Context {L : LibQmail} {LL : LibQmailLaws L} {C : Cdb} {CL : CdbLaws C}.
Context (case_lower : bytes → bytes) (Hlower : ∀ s, case_lower s = lowered s).
Context (stat_home : bytes → home) (constmap_of : bytes → bytes → option bytes) (usera : bytes) (b : Z).

Definition passwd_line (a : account) : bytes :=
  pw_name (pw a) ++ c_colon :: secret a ++ c_colon :: fmt_ulong (pw_uid (pw a)) ++ c_colon :: fmt_ulong (pw_gid (pw a)) ++
  c_colon :: gecos a ++ c_colon :: pw_dir (pw a) ++ c_colon :: shell a ++ [c_lf].
Definition passwd_file (as_ : list account) : bytes := mjoin (map passwd_line as_).

Record sound_account (a : account) : Prop := {
  sa_name : plain (pw_name (pw a)); sa_some : pw_name (pw a) ≠ []; sa_short : length (pw_name (pw a)) < GETPW_USERLEN;
  sa_secret : plain (secret a); sa_gecos : plain (gecos a); sa_dir : plain (pw_dir (pw a));
  sa_shell : (c_lf ∉ shell a) ∧ (0%Z ∉ shell a);
  sa_uid : ulong (pw_uid (pw a)); sa_gid : ulong (pw_gid (pw a))
}.

(** [getpwnam] finds the first account of the name. *)
Fixpoint find_account (n : bytes) (as_ : list account) : option passwd :=
  match as_ with
  | [] => None
  | a :: l => if decide (pw_name (pw a) = n) then Some (pw a) else find_account n l
  end.

(** An account that mail is delivered to. *)
Definition eligible (p : passwd) : bool := bool_decide (pw_uid p ≠ 0%Z) && negb (existsb upper (pw_name p)).
Definition good (p : passwd) : bool :=
  eligible p && match stat_home (pw_dir p) with OwnedBy u => bool_decide (u = pw_uid p) | _ => false end.

Definition of_passwd (p : passwd) (dash ext : bytes) : fields :=
  Fields (pw_name p) (fmt_ulong (pw_uid p)) (fmt_ulong (pw_gid p)) (pw_dir p) dash ext.
Lemma record_passwd p dash ext : record_of (of_passwd p dash ext) = put_passwd p dash ext.
Proof. done. Qed.

(** The lines for an account. *)
Definition entries_of (p : passwd) : list entry :=
  (if decide (pw_name p = usera) then [Line true [] (of_passwd p (lit "-") [])] else []) ++
  [Line false (pw_name p) (of_passwd p [] []); Line true (pw_name p ++ [b]) (of_passwd p (lit "-") [])].
Definition goods (as_ : list account) : list passwd := filter (λ p, good p = true) (map pw as_).
Definition entries (as_ : list account) : list entry := mjoin (map entries_of (goods as_)).

(** ** qmail-pw2u *)

#[local] Abbreviation cf := (Pw2uConf (lit "-:") 2 true (Some b) usera None None None).

Lemma plain_number n : ulong n → plain (fmt_ulong n).
Proof.
  intros Hn. rewrite fmt_ulong_ok by done. pose proof (decimal_digits n Hn) as Hd. rewrite Forall_forall in Hd.
  split_and!; intros H; apply Hd in H; done.
Qed.

Lemma colon_field_at s r : c_colon ∉ s → colon_field (s ++ c_colon :: r) = Some (s, r).
Proof.
  intros Hs. unfold colon_field. rewrite byte_chr_ok, index_of_app by done.
  rewrite decide_False by (rewrite length_app; simpl; lia). rewrite take_app_length. do 2 f_equal.
  rewrite drop_app_ge by lia. by replace (_ + 1 - _) with 1 by lia.
Qed.

Lemma account_line a : sound_account a → account_of (passwd_line a) =
  Some (pw_name (pw a), fmt_ulong (pw_uid (pw a)), fmt_ulong (pw_gid (pw a)), pw_dir (pw a)).
Proof.
  intros [Hn _ _ Hs Hg Hd Hsh Hu%plain_number Hgid%plain_number]. unfold plain in *. destruct_and_all.
  unfold account_of. rewrite decide_False.
  2: { rewrite byte_chr_ok. assert (index_of 0 (passwd_line a) = length (passwd_line a)) as ->; [|lia].
       apply index_of_in. unfold passwd_line. set_solver. }
  unfold passwd_line. repeat (rewrite colon_field_at by done; cbn [mbind option_bind]). done.
Qed.

Lemma str_chr_none s : c_colon ∉ s → str_chr s c_colon = length s.
Proof. intros Hs. rewrite str_chr_ok. by apply index_of_none. Qed.

Lemma lines_for_name n uugh : n ≠ [] → c_colon ∉ n → mailnames_loop cf (S (length n)) n uugh =
  lit "=" ++ n ++ uugh ++ lit "::" ++ [c_lf] ++ lit "+" ++ n ++ [b] ++ uugh ++ lit "-:" ++ lit ":" ++ [c_lf].
Proof.
  intros Hn Hc. cbn [mailnames_loop]. destruct n as [|x n]; [done|].
  rewrite decide_False by set_solver. rewrite str_chr_none, take_ge, drop_ge by done.
  cbn [brk dashcolon]. rewrite <- !(assoc_L app). do 9 f_equal.
Qed.

(** What is written for an account, and whether it is the one of [usera]. *)
Definition written (p : passwd) : bytes := mjoin (map assign_line (entries_of p)).

Definition uugh_of (p : passwd) : bytes :=
  lit ":" ++ pw_name p ++ lit ":" ++ fmt_ulong (pw_uid p) ++ lit ":" ++ fmt_ulong (pw_gid p) ++ lit ":" ++ pw_dir p ++ lit ":".
Lemma written_text p : written p =
  (if decide (pw_name p = usera) then lit "+" ++ uugh_of p ++ lit "-:" ++ lit ":" ++ [c_lf] else []) ++
  lit "=" ++ pw_name p ++ uugh_of p ++ lit "::" ++ [c_lf] ++
  lit "+" ++ pw_name p ++ [b] ++ uugh_of p ++ lit "-:" ++ lit ":" ++ [c_lf].
Proof.
  unfold written, entries_of, uugh_of. case_decide; cbn [app map mjoin list_join]; unfold assign_line, colons, of_passwd;
    cbn [wild name who f_user f_uid f_gid f_home f_dash f_ext]; by repeat (rewrite <- !(assoc_L app); simpl).
Qed.

Lemma wp_doaccount a (Q : Z + unit → pw2u → Prop) s : sound_account a →
  (eligible (pw a) = true → stat_home (pw_dir (pw a)) = Unreachable → Q (inl 111%Z) s) →
  (∀ s', (eligible (pw a) = true → stat_home (pw_dir (pw a)) ≠ Unreachable) →
     out_lines s' = out_lines s ++ (if good (pw a) then written (pw a) else []) →
     flagalias s' = flagalias s || (good (pw a) && bool_decide (pw_name (pw a) = usera)) → Q (inr tt) s') →
  wp (doaccount stat_home cf (passwd_line a)) Q s.
Proof.
  intros Ha H1 H2. unfold doaccount. rewrite account_line by done. set (p := pw a) in *.
  pose proof Ha as [Hn Hsome _ _ _ _ _ Hu _]. fold p in Hn, Hsome, Hu.
  assert (Hscan : snd (scan_ulong (fmt_ulong (pw_uid p))) = pw_uid p).
  { pose proof (scan_fmt_ulong (pw_uid p) []) as Hs. rewrite app_nil_r in Hs. rewrite Hs; done. }
  rewrite Hscan. clear Hscan. assert (Hno : good p = false → (eligible p = true → stat_home (pw_dir p) ≠ Unreachable) → wp (ok tt) Q s).
  { intros Hg Hs. apply wp_ok, H2; [done|..]; rewrite Hg; [by rewrite app_nil_r|by rewrite orb_false_r]. }
  unfold good, eligible in *. destruct (decide (pw_uid p = 0%Z)) as [E|E].
  { rewrite (bool_decide_false (pw_uid p ≠ 0%Z)) in Hno by (intros H; by apply H). by apply Hno. }
  rewrite (bool_decide_true (pw_uid p ≠ 0%Z)) in * by done. cbn [flagnoupper incl excl mana andb negb].
  destruct (existsb upper (pw_name p)); [by apply Hno|]. cbn [andb negb] in *.
  unfold home_ok. cbn [homestrategy]. rewrite !decide_False by done.
  destruct (stat_home (pw_dir p)) as [u| |]; [|by apply H1|by apply Hno].
  destruct (bool_decide (u = pw_uid p)); [|by apply Hno]. cbn [andb] in *.
  apply wp_bind, wp_modify, wp_bind. fold (uugh_of p). pose proof (written_text p) as Hw.
  change (Users.usera cf) with usera. rewrite lines_for_name by (done || apply Hn).
  apply wp_when; intros Heq.
  - apply str_equal_ok in Heq. rewrite decide_True in Hw by done. rewrite bool_decide_true in H2 by done.
    apply wp_modify, wp_bind, wp_modify, wp_ok, H2; cbn [out_lines flagalias put_line dashcolon]; [done| |by rewrite orb_true_r].
    rewrite Hw. repeat (rewrite <- !(assoc_L app); cbn [app]). done.
  - assert (pw_name p ≠ usera) as Hne.
    { intros H. apply str_equal_ok in H. congruence. }
    rewrite decide_False in Hw by done. rewrite bool_decide_false in H2 by done.
    apply wp_bind, wp_modify, wp_ok, H2; cbn [out_lines flagalias put_line]; [done|by rewrite Hw|by rewrite orb_false_r].
Qed.

(** The whole file of accounts. *)
Lemma entries_cons a l : entries (a :: l) = (if good (pw a) then entries_of (pw a) else []) ++ entries l.
Proof.
  unfold entries, goods. cbn [map]. rewrite filter_cons. destruct (good (pw a)).
  - by rewrite decide_True.
  - by rewrite decide_False.
Qed.
Lemma passwd_line_by a r : sound_account a →
  line_by c_lf (passwd_line a ++ r) = (passwd_line a, true) ∧ drop (length (passwd_line a)) (passwd_line a ++ r) = r.
Proof.
  intros [Hn _ _ Hs Hg Hd Hsh Hu%plain_number Hgid%plain_number]. split; [|apply drop_app_length].
  set (t := pw_name (pw a) ++ c_colon :: secret a ++ c_colon :: fmt_ulong (pw_uid (pw a)) ++ c_colon ::
    fmt_ulong (pw_gid (pw a)) ++ c_colon :: gecos a ++ c_colon :: pw_dir (pw a) ++ c_colon :: shell a).
  assert (passwd_line a = t ++ [c_lf]) as ->.
  { unfold passwd_line, t. by repeat (rewrite <- !(assoc_L app); cbn [app]). }
  rewrite <- (assoc_L app). apply line_by_line. unfold t, plain in *. set_solver.
Qed.

(** What is known when qmail-pw2u has read the accounts without an error. *)
Definition fit (as_ : list account) : Prop :=
  ∀ a, a ∈ as_ → eligible (pw a) = true → stat_home (pw_dir (pw a)) ≠ Unreachable.

Lemma wp_accounts as_ fuel (Q : Z + unit → pw2u → Prop) s : Forall sound_account as_ → length as_ < fuel →
  (∀ s', Q (inl 111%Z) s') →
  (∀ s', fit as_ → out_lines s' = out_lines s ++ mjoin (map assign_line (entries as_)) →
     flagalias s' = flagalias s || existsb (λ p, bool_decide (pw_name p = usera)) (goods as_) → Q (inr tt) s') →
  wp (lines_loop (doaccount stat_home cf) fuel (passwd_file as_)) Q s.
Proof.
  intros Has. revert fuel s. induction Has as [|a l Ha _ IH]; intros fuel s Hf H1 H2;
    (destruct fuel as [|fuel]; [simpl in Hf; lia|]); cbn [lines_loop].
  - change (line_by c_lf (passwd_file [])) with (@nil Z, false). apply wp_qbind.
    assert (account_of [] = None) as Hnone.
    { unfold account_of, colon_field. rewrite !byte_chr_ok. done. }
    unfold doaccount. rewrite Hnone. apply wp_ok, wp_ok. apply H2; [intros ? ?%elem_of_nil; done|by rewrite app_nil_r|by rewrite orb_false_r].
  - change (passwd_file (a :: l)) with (passwd_line a ++ passwd_file l).
    destruct (passwd_line_by a (passwd_file l) Ha) as [-> ->]. apply wp_qbind.
    apply wp_doaccount; [done|intros _ _; apply H1|]. intros s1 Hfit1 Ho1 Hf1.
    apply IH; [simpl in Hf; lia|done|]. intros s2 Hfit Ho2 Hf2. apply H2.
    + intros x [->|Hx]%elem_of_cons; [done|by apply Hfit].
    + rewrite Ho2, Ho1, entries_cons, map_app, <- (assoc_L app). f_equal.
      rewrite join_app. unfold written. by destruct (good (pw a)).
    + rewrite Hf2, Hf1, <- orb_assoc. f_equal. unfold goods. cbn [map]. rewrite filter_cons.
      destruct (good (pw a)); [by rewrite decide_True|by rewrite decide_False].
Qed.

Lemma wp_pw2u as_ : Forall sound_account as_ →
  wp (pw2u_main stat_home constmap_of cf (passwd_file as_) None None) (λ r s', r = inr tt →
    fit as_ ∧ out_lines s' = assign_file (entries as_) ∧ existsb (λ p, bool_decide (pw_name p = usera)) (goods as_) = true)
    (Pw2u [] false []).
Proof.
  intros Has. unfold pw2u_main. apply wp_qbind, wp_accounts; [done| |done|].
  { clear. induction as_ as [|a l IH]; [simpl; lia|]. change (passwd_file (a :: l)) with (passwd_line a ++ passwd_file l).
    rewrite length_app. unfold passwd_line at 1. rewrite length_app. simpl. lia. }
  intros s1 Hfit Ho Hf. apply wp_bind. unfold wp at 1, getS. cbn [fst snd]. rewrite Hf. cbn [flagalias orb].
  destruct (existsb _ (goods as_)); [|by intros ?]. cbn [negb].
  apply wp_qbind, wp_ok, wp_bind, wp_modify, wp_bind, wp_modify, wp_ok. intros _.
  split; [done|]. split; [|done]. simpl. rewrite Ho. by rewrite app_nil_r.
Qed.

(** ** What the file says *)

Fixpoint find_good (n : bytes) (ps : list passwd) : option passwd :=
  match ps with
  | [] => None
  | p :: l => if decide (pw_name p = n) then Some p else find_good n l
  end.

Lemma good_lowered p : good p = true → lowered (pw_name p) = pw_name p.
Proof.
  intros [[_ Hu]%andb_true_iff _]%andb_true_iff. apply negb_true_iff in Hu.
  induction (pw_name p) as [|c n IH]; [done|]. cbn [existsb] in Hu. apply orb_false_iff in Hu as [Hc Hu]. simpl.
  unfold to_lower at 1. by rewrite Hc, IH.
Qed.
Lemma goods_good as_ : Forall (λ p, good p = true) (goods as_).
Proof. apply Forall_forall. intros p [? _]%list_elem_of_filter. done. Qed.

Section lookups.
Context (Hb : upper b = false) (Hb' : ∀ c, to_lower c = b → c = b).
#[local] Abbreviation lines ps := (mjoin (map entries_of ps)).

Lemma find_name ps s : Forall (λ p, good p = true) ps → first_entry false s (lines ps) = (λ p, of_passwd p [] []) <$> find_good (lowered s) ps.
Proof.
  induction 1 as [|p l Hp _ IH]; [done|].
  change (mjoin (map entries_of (p :: l))) with (entries_of p ++ mjoin (map entries_of l)). unfold entries_of at 1.
  cbn [find_good]. assert (Hskip : ∀ t r, first_entry false s ((if decide (pw_name p = usera) then [Line true [] t] else []) ++ r) =
    first_entry false s r).
  { intros t r. destruct (decide (pw_name p = usera)); [|done]. cbn [app first_entry]. by rewrite decide_False by naive_solver. }
  rewrite <- (assoc_L app), Hskip. cbn [app first_entry wild name who]. rewrite good_lowered by done.
  destruct (decide (pw_name p = lowered s)); [by rewrite decide_True|]. rewrite !decide_False by naive_solver. exact IH.
Qed.
Lemma find_alias ps : Forall (λ p, pw_name p ≠ []) ps → first_entry true [] (lines ps) = (λ p, of_passwd p (lit "-") []) <$> find_good usera ps.
Proof.
  induction 1 as [|p l Hn _ IH]; [done|].
  change (mjoin (map entries_of (p :: l))) with (entries_of p ++ mjoin (map entries_of l)). unfold entries_of at 1.
  cbn [find_good]. destruct (decide (pw_name p = usera)); [done|]. cbn [app first_entry wild name who].
  rewrite !decide_False; [exact IH| |naive_solver].
  intros [_ H]. apply (f_equal length) in H. rewrite !lowered_length, length_app in H. simpl in H. lia.
Qed.
Lemma find_break ps s c : Forall (λ p, good p = true) ps → first_entry true (s ++ [c]) (lines ps) =
  if decide (c = b) then (λ p, of_passwd p (lit "-") []) <$> find_good (lowered s) ps else None.
Proof.
  assert (Hlb : to_lower b = b) by (unfold to_lower; by rewrite Hb).
  induction 1 as [|p l Hp _ IH]; [by case_decide|].
  change (mjoin (map entries_of (p :: l))) with (entries_of p ++ mjoin (map entries_of l)). unfold entries_of at 1.
  cbn [find_good]. assert (Hskip : ∀ t r, first_entry true (s ++ [c]) ((if decide (pw_name p = usera) then [Line true [] t] else []) ++ r) =
    first_entry true (s ++ [c]) r).
  { intros t r. destruct (decide (pw_name p = usera)); [|done]. cbn [app first_entry name].
    rewrite decide_False; [done|]. intros [_ H]. apply (f_equal length) in H.
    rewrite !lowered_length, length_app in H. simpl in H. lia. }
  rewrite <- (assoc_L app), Hskip. cbn [app first_entry wild name who].
  rewrite (decide_False (P := false = true ∧ _)) by naive_solver. rewrite !lowered_app, good_lowered by done.
  change (lowered [b]) with [to_lower b]. change (lowered [c]) with [to_lower c]. rewrite Hlb.
  destruct (decide (c = b)) as [->|Hc].
  - rewrite Hlb. destruct (decide (pw_name p = lowered s)) as [->|Hn]; [by rewrite decide_True|].
    rewrite decide_False; [exact IH|]. intros [_ [H _]%app_inj_2]; done.
  - rewrite decide_False; [exact IH|]. intros [_ [_ [= H]]%app_inj_2]; [|done]. by apply Hc, Hb'.
Qed.
End lookups.

(** ** What qmail-getpw answers *)

Section getpw.
Context (as_ : list account) (Has : Forall sound_account as_) (Hnames : NoDup (map (λ a, pw_name (pw a)) as_)).
Context (getpwnam : bytes → pwresult).
Context (Hpw : ∀ n, getpwnam n = match find_account n as_ with Some p => User p | None => NoUser end).
Context (Hb : upper b = false) (Hb' : ∀ c, to_lower c = b → c = b) (Hfit : fit as_).

Lemma find_good_account n : find_good n (goods as_) =
  match find_account n as_ with Some p => if good p then Some p else None | None => None end.
Proof.
  clear Hpw Hfit Has. induction as_ as [|a l IH]; [done|]. apply NoDup_cons in Hnames as [Hn Hl].
  unfold goods. cbn [map]. rewrite filter_cons. cbn [find_account].
  destruct (decide (pw_name (pw a) = n)) as [<-|Hne].
  - destruct (good (pw a)) eqn:Hg.
    + rewrite decide_True by done. cbn [find_good]. by rewrite decide_True.
    + rewrite decide_False by done. specialize (IH Hl). unfold goods in IH. rewrite IH.
      assert (find_account (pw_name (pw a)) l = None) as ->; [|done].
      clear - Hn. induction l as [|x l IH]; [done|]. simpl in *. apply not_elem_of_cons in Hn as [Hx Hn].
      rewrite decide_False by congruence. by apply IH.
  - destruct (good (pw a)).
    + rewrite decide_True by done. cbn [find_good]. rewrite decide_False by done. by apply IH.
    + rewrite decide_False by done. by apply IH.
Qed.
Lemma found_account n p : find_account n as_ = Some p → ∃ a, a ∈ as_ ∧ pw a = p ∧ pw_name p = n.
Proof.
  clear Hfit Hpw Has Hnames. induction as_ as [|a l IH]; [done|]. cbn [find_account]. case_decide.
  - intros [= <-]. exists a. split; [by left|done].
  - intros (x & ? & ?)%IH. exists x. split; [by right|done].
Qed.

Lemma lowered_no_upper s : existsb upper (lowered s) = false.
Proof.
  induction s as [|c s IH]; [done|]. cbn [lowered map existsb]. fold (lowered s). rewrite IH, orb_false_r.
  unfold to_lower. destruct (upper c) eqn:E; [|done]. unfold upper in *. apply bool_decide_eq_true in E.
  apply bool_decide_eq_false. lia.
Qed.
Lemma userext_eq local i : userext case_lower getpwnam stat_home (Some b) i local =
  let next := match i with 0 => inr None | S j => userext case_lower getpwnam stat_home (Some b) j local end in
  if decide (i < GETPW_USERLEN ∧ (local !! i = None ∨ local !! i = Some b)) then
    match getpwnam (case_lower (take i local)) with
    | Busy => inl QLX_SYS
    | NoUser => next
    | User pw =>
      if decide (pw_uid pw = 0%Z) then next
      else
        match stat_home (pw_dir pw) with
        | OwnedBy u =>
          if decide (u = pw_uid pw) then
            inr (Some (pw, if decide (i < length local) then lit "-" else [], drop (i + 1) local))
          else next
        | Unreachable => inl QLX_NFS
        | NoHome => next
        end
    end
  else next.
Proof. by destruct i. Qed.

(** One turn of the loop of [userext]. *)
Definition at_break (local : bytes) (i : nat) : Prop := local !! i = None ∨ local !! i = Some b.
Lemma userext_turn local i : i ≤ length local →
  userext case_lower getpwnam stat_home (Some b) i local =
  match (if decide (at_break local i) then find_good (lowered (take i local)) (goods as_) else None) with
  | Some p => inr (Some (p, if decide (i < length local) then lit "-" else [], drop (i + 1) local))
  | None => match i with 0 => inr None | S j => userext case_lower getpwnam stat_home (Some b) j local end
  end.
Proof.
  intros Hi. rewrite userext_eq. unfold at_break. set (next := match i with 0 => inr None | S _ => _ end).
  set (n := lowered (take i local)). rewrite Hlower, Hpw, find_good_account. fold n.
  assert (Hlen : length n = i) by (unfold n; rewrite lowered_length, length_take; lia).
  destruct (decide (local !! i = None ∨ local !! i = Some b)) as [Hbr|Hbr].
  2: { by rewrite decide_False by tauto. }
  destruct (find_account n as_) as [p|] eqn:Ep.
  2: { by destruct (decide (i < GETPW_USERLEN ∧ _)). }
  apply found_account in Ep as (a & Ha & Hpa & Hn). rewrite decide_True.
  2: { rewrite Forall_forall in Has. pose proof (sa_short a (Has a Ha)) as Hs. rewrite Hpa, Hn, Hlen in Hs. done. }
  assert (He : eligible p = bool_decide (pw_uid p ≠ 0%Z)).
  { unfold eligible. rewrite Hn. unfold n. by rewrite lowered_no_upper, andb_true_r. }
  destruct (decide (pw_uid p = 0%Z)) as [E|E].
  { unfold good. rewrite He, bool_decide_false; [done|]. intros H. by apply H. }
  rewrite bool_decide_true in He by done. pose proof (Hfit a Ha) as Hf. rewrite Hpa in Hf. specialize (Hf He).
  unfold good. rewrite He. cbn [andb]. destruct (stat_home (pw_dir p)) as [u| |]; [|done|done].
  destruct (decide (u = pw_uid p)); [by rewrite bool_decide_true|by rewrite bool_decide_false].
Qed.

(** The answer is what the file says. *)
Lemma entries_lines : entries as_ = mjoin (map entries_of (goods as_)).
Proof. done. Qed.
Lemma goods_some : Forall (λ p, pw_name p ≠ []) (goods as_).
Proof.
  apply Forall_forall. intros p [_ (a & -> & Ha)%list_elem_of_fmap]%list_elem_of_filter.
  rewrite Forall_forall in Has. apply Has, Ha.
Qed.

Definition answer (alias : passwd) (local : bytes) (r : option (passwd * bytes * bytes)) : fields :=
  match r with Some (p, dash, ext) => of_passwd p dash ext | None => of_passwd alias (lit "-") local end.

Lemma longest_userext alias local i : find_good usera (goods as_) = Some alias → i < length local → ∃ r,
  userext case_lower getpwnam stat_home (Some b) i local = inr r ∧
  longest (entries as_) local (S i) = Some (answer alias local r).
Proof.
  intros Hal. assert (H0 : longest (entries as_) local 0 = Some (answer alias local None)).
  { cbn [longest]. rewrite take_0, drop_0, entries_lines, find_alias by apply goods_some. by rewrite Hal. }
  induction i as [|i IH]; intros Hi; rewrite userext_turn by lia; cbn [longest];
    (destruct (lookup_lt_is_Some_2 local _ Hi) as [c Hc]; rewrite (take_S_r _ _ _ Hc);
     rewrite entries_lines, find_break by (done || apply goods_good); unfold at_break; rewrite Hc).
  - destruct (decide (c = b)) as [->|Hcb];
      [rewrite decide_True by (by right)|rewrite decide_False by naive_solver; by exists None].
    destruct (find_good (lowered (take 0 local)) (goods as_)) as [p|]; [|by exists None].
    exists (Some (p, lit "-", drop 1 local)). rewrite decide_True by lia. done.
  - destruct (decide (c = b)) as [->|Hcb];
      [rewrite decide_True by (by right)|rewrite decide_False by naive_solver; apply IH; lia].
    destruct (find_good (lowered (take (S i) local)) (goods as_)) as [p|]; [|apply IH; lia].
    exists (Some (p, lit "-", drop (S i + 1) local)). rewrite decide_True by lia. split; [done|].
    by replace (S (S i)) with (S i + 1) by lia.
Qed.

Lemma getpw_assigned alias local : find_good usera (goods as_) = Some alias → local ≠ [] →
  ∃ f, assigned (entries as_) local = Some f ∧
  getpw_main case_lower getpwnam stat_home (Some b) usera local = inr (record_of f).
Proof.
  intros Hal Hl. unfold getpw_main. rewrite userext_turn by lia. unfold assigned.
  rewrite entries_lines, find_name by apply goods_good. unfold at_break.
  rewrite lookup_ge_None_2, decide_True, take_ge by (by left || lia).
  destruct (find_good (lowered local) (goods as_)) as [p|].
  { exists (of_passwd p [] []). split; [done|]. rewrite decide_False by lia. by rewrite drop_ge by lia. }
  destruct (length local) as [|i] eqn:Ei; [by destruct local|].
  destruct (longest_userext alias local i Hal ltac:(lia)) as (r & -> & Hlong).
  exists (answer alias local r). split; [exact Hlong|]. destruct r as [[[p dash] ext]|]; [done|].
  rewrite Hpw. rewrite find_good_account in Hal. destruct (find_account usera as_) as [q|]; [|done].
  destruct (good q); [|done]. by injection Hal as ->.
Qed.
End getpw.

(** ** The accounts sound as lines *)

Lemma entries_sound as_ : Forall sound_account as_ → plain [b] → upper b = false → Forall sound (entries as_).
Proof.
  intros Has Hpb Hb. unfold entries. apply Forall_forall. intros e He.
  apply list_elem_of_join in He as (l & Hel & (p & -> & Hp)%list_elem_of_fmap).
  apply list_elem_of_filter in Hp as (_ & (a & -> & Ha)%list_elem_of_fmap).
  rewrite Forall_forall in Has. destruct (Has a Ha) as [Hn _ _ _ _ Hd _ Hu%plain_number Hg%plain_number].
  assert (plain [] ∧ plain (lit "-")) as [Hnil Hdash].
  { unfold plain. split; split_and!; apply (bool_decide_eq_true _); reflexivity. }
  assert (Hnb : plain (pw_name (pw a) ++ [b])) by (unfold plain in *; rewrite !not_elem_of_app; tauto).
  unfold entries_of in Hel. apply elem_of_app in Hel as [Hel|Hel].
  - case_decide; [|by apply elem_of_nil in Hel]. apply list_elem_of_singleton in Hel as ->. by split.
  - apply elem_of_cons in Hel as [->|Hel]; [by split|]. apply list_elem_of_singleton in Hel as ->. split; try done.
    intros c _. cbn [name]. rewrite last_snoc. by intros [= <-].
Qed.

(** qmail-getpw as a child of qmail-lspawn. *)
Definition run_getpw (getpwnam : bytes → pwresult) (local : bytes) : getpw_child :=
  match getpw_main case_lower getpwnam stat_home (Some b) usera local with
  | inl e => Ran [] (Some (Exited e))
  | inr out => Ran out (Some (Exited 0))
  end.

Lemma alias_found ps : existsb (λ p, bool_decide (pw_name p = usera)) ps = true → ∃ p, find_good usera ps = Some p.
Proof.
  induction ps as [|p l IH]; [done|]. cbn [existsb find_good]. case_decide as E; [by exists p|].
  rewrite bool_decide_false by done. exact IH.
Qed.

(** C40: users/assign made of the accounts.  Take the password file of the system, in
    which no name occurs twice.  When qmail-pw2u writes lines for it and qmail-newu
    compiles them, both without an error, then qmail-lspawn does for every address
    just what it does without users/cdb, when it asks qmail-getpw: it runs qmail-local
    for the same user, with the same rights, home directory and extension, or ends
    with the same code. *)
Theorem accounts_agree as_ getpwnam s :
  Forall sound_account as_ → NoDup (map (λ a, pw_name (pw a)) as_) →
  (∀ n, getpwnam n = match find_account n as_ with Some p => User p | None => NoUser end) →
  plain [b] → upper b = false → (∀ c, to_lower c = b → c = b) →
  let '(r, o) := pw2u_main stat_home constmap_of cf (passwd_file as_) None None (Pw2u [] false []) in
  let '(r', n) := newu_main case_lower (out_lines o) s in
  r = inr tt → r' = inr tt → ∃ f, cdb_file n = Some f ∧
  ∀ lc recip at_ sender qqeh, 0%Z ∉ recip → users_cdb lc = Opened f → setuser_privileges lc = None →
  getpw lc = run_getpw getpwnam →
  spawn_child case_lower lc recip at_ sender qqeh = spawn_child case_lower (without_cdb lc) recip at_ sender qqeh.
Proof.
  intros Has Hnames Hpw Hpb Hb Hb'. pose proof (wp_pw2u as_ Has) as Hpw2u. unfold wp in Hpw2u.
  destruct (pw2u_main _ _ _ _ _ _ _) as [r o]. cbn [fst snd] in Hpw2u.
  destruct (newu_main case_lower (out_lines o) s) as [r' n] eqn:En. intros -> ->.
  destruct (Hpw2u eq_refl) as (Hfit & Ho & (alias & Hal)%alias_found). clear Hpw2u.
  pose proof (entries_sound as_ Has Hpb Hb) as Hes. pose proof (wp_newu case_lower Hlower _ s Hes) as Hnewu.
  unfold wp in Hnewu. rewrite <- Ho, En in Hnewu. destruct Hnewu as [[Hno _]|[_ Hf]]; [done|].
  exists (cdb_make (records (entries as_))). split; [exact Hf|].
  intros lc recip at_ sender qqeh Hz Hcdb Hset Hget. rewrite (spawn_assigned case_lower Hlower (entries as_)) by done.
  unfold as_assigned. destruct (decide (take at_ recip = [])) as [E|E]; [unfold spawn_child; by rewrite decide_True|].
  destruct (chdir_fails lc) eqn:Hc; [unfold spawn_child; cbn [chdir_fails without_cdb]; by rewrite decide_False, Hc|].
  destruct (getpw_assigned as_ Has Hnames getpwnam Hpw Hb Hb' Hfit alias (take at_ recip) Hal E) as (f & Hf' & Hg).
  rewrite Hf'. symmetry. change (start_local lc) with (start_local (without_cdb lc)).
  apply (spawn_found _ _ _ _ _ _ _ true); [done|done| | |by right].
  - eapply assigned_zeros; [exact Hes| |exact Hf']. intros (i & H & _)%elem_of_take. by apply list_elem_of_lookup_2 in H.
  - unfold nughde_get, ask_getpw. cbn [users_cdb without_cdb getpw]. rewrite Hget. unfold run_getpw. by rewrite Hg.
Qed.
End accounts.

(** ** At work

    A file of assignments, and a password file, at which the theorems on users are
    applied. *)

Module UsersRun.
#[local] Existing Instance reference_libqmail.
#[local] Existing Instance reference_laws.

Definition joe (dash ext : bytes) : fields := Fields (lit "joe") (lit "501") (lit "20") (lit "/home/joe") dash ext.
Definition lists (dash ext : bytes) : fields := Fields (lit "list") (lit "502") (lit "20") (lit "/home/list") dash ext.
Definition es : list entry := [
  Line false (lit "Joe") (joe [] []); Line true (lit "joe-") (joe (lit "-") []);
  Line true (lit "joe-list-") (lists (lit "-") (lit "l-")); Line true [] (lists (lit "-") (lit "other-"))].

Lemma es_sound : Forall sound es.
Proof.
  repeat (apply Forall_cons; split; [split; try (split_and!; by apply (bool_decide_eq_true _)); intros c _ [= <-] || intros c _; try done|]);
    by apply Forall_nil.
Qed.

Definition conf (c : cdb_open cdb) : lspawn_conf :=
  LspawnConf c (λ _, Ran [] (Some (Exited 1))) false false false None None (lit "./Mailbox").

Example joe_list : assigned es (lit "JOE-List-Subscribe") = Some (lists (lit "-") (lit "l-Subscribe")).
Proof. by vm_compute. Qed.

Lemma users_assigned_witness :
  let '(r, s') := newu_main lowered (assign_file es) (Newu [] [] None) in
  ∃ f, cdb_file s' = Some f ∧
  spawn_child lowered (conf (Opened f)) (lit "JOE-List-Subscribe@example.org") 18 (lit "a@b") [] =
    inr (LocalCall (lit "list") (lit "/home/list") (lit "JOE-List-Subscribe") (lit "-") (lit "l-Subscribe")
           (lit "example.org") (lit "a@b") (lit "./Mailbox") [] 502 20).
Proof.
  pose proof (users_assigned lowered (λ s, eq_refl) es (Newu [] [] None) es_sound) as H.
  destruct (newu_main _ _ _) as [r s']. destruct H as [(_ & _ & H)|(_ & f & Hf & H)].
  - exfalso. inversion H.
  - exists f. split; [exact Hf|]. rewrite H; [by vm_compute|by apply (bool_decide_eq_true _)|reflexivity].
Defined.

(** A start that ends in a capital letter is never found: the letter is listed as it
    is, but looked for in lower case. *)
Definition capital : list entry := [Line true (lit "JoE") (joe (lit "-") [])].
Example capital_start_lost :
  spawn_child lowered (conf (match cdb_file (run (newu_main lowered (assign_file capital)) (Newu [] [] None)) with
                             | Some f => Opened f | None => NoFile end))
    (lit "joe-x@example.org") 5 [] [] = inl 1%Z ∧
  assigned capital (lit "joe-x") = Some (joe (lit "-") (lit "-x")).
Proof. split; by vm_compute. Qed.

(** ** Accounts *)

Definition accounts : list account := [
  Account (Passwd (lit "root") 0 0 (lit "/root")) (lit "*") (lit "Root") (lit "/bin/sh");
  Account (Passwd (lit "alias") 7790 2108 (lit "/var/alias")) (lit "*") [] [];
  Account (Passwd (lit "joe") 501 20 (lit "/home/joe")) (lit "*") (lit "Joe") (lit "/bin/sh");
  Account (Passwd (lit "joe-list") 502 20 (lit "/home/list")) (lit "*") [] [];
  Account (Passwd (lit "gone") 503 20 (lit "/home/gone")) (lit "*") [] []].
Definition stat_home (d : bytes) : home :=
  if decide (d = lit "/var/alias") then OwnedBy 7790 else if decide (d = lit "/home/joe") then OwnedBy 501
  else if decide (d = lit "/home/list") then OwnedBy 502 else NoHome.
Definition getpwnam (n : bytes) : pwresult := match find_account n accounts with Some p => User p | None => NoUser end.

Lemma accounts_sound : Forall sound_account accounts.
Proof.
  repeat (apply Forall_cons; split; [split; try (split_and!; by apply (bool_decide_eq_true _));
    (by apply (bool_decide_eq_true _)) || discriminate || (split; reflexivity || discriminate)|]); by apply Forall_nil.
Qed.

Lemma accounts_agree_witness :
  let '(_, o) := pw2u_main stat_home (λ _ _, None) (Pw2uConf (lit "-:") 2 true (Some 45%Z) (lit "alias") None None None)
    (passwd_file accounts) None None (Pw2u [] false []) in
  ∃ f, cdb_file (run (newu_main lowered (out_lines o)) (Newu [] [] None)) = Some f ∧
  spawn_child lowered
    (LspawnConf (Opened f) (run_getpw lowered stat_home (lit "alias") 45 getpwnam) false false false None None [])
    (lit "joe-list-x@example.org") 10 [] [] =
  inr (LocalCall (lit "joe-list") (lit "/home/list") (lit "joe-list-x") (lit "-") (lit "x") (lit "example.org") [] [] [] 502 20).
Proof.
  pose proof (accounts_agree lowered (λ s, eq_refl) stat_home (λ _ _, None) (lit "alias") 45 accounts getpwnam (Newu [] [] None)
    accounts_sound) as H.
  assert (Hb : ∀ c, to_lower c = 45%Z → c = 45%Z).
  { intros c. unfold to_lower, upper. case_bool_decide; lia. }
  specialize (H ltac:(by apply (bool_decide_eq_true _)) (λ n, eq_refl) ltac:(split_and!; by apply (bool_decide_eq_true _)) eq_refl Hb).
  destruct (pw2u_main _ _ _ _ _ _ _) as [r o] eqn:Eo.
  unfold run. destruct (newu_main lowered (out_lines o) _) as [r' n] eqn:En.
  assert (r = inr tt ∧ r' = inr tt) as [-> ->].
  { vm_compute in Eo. injection Eo as <- <-. vm_compute in En. injection En as <- <-. done. }
  destruct (H eq_refl eq_refl) as (f & Hf & Hrun). exists f. split; [exact Hf|].
  rewrite Hrun; [by vm_compute|by apply (bool_decide_eq_true _)|reflexivity..].
Defined.
End UsersRun.
